(* ===== verification/_CoqProject ===== *)
-Q . S2P
Prelude.v
CString.v
JobType.v
StrUtil.v
Paths.v
UnitName.v
TimeSpan.v
Text.v
RateLimit.v
OrderedMap.v
Strv.v
IntrusiveList.v
Hashmap.v
HashmapRep.v
HashmapSpec.v
HashmapOps.v
HashmapIter.v
Engine.v
Transaction.v
TransactionAdd.v
Order.v
Links.v
Wf.v
WfCheck.v
Passes.v
Installed.v
Matter.v
OrderSpec.v
Merge.v
Asked.v
Rollback.v
Delete.v
AddSpec.v
Activate.v
ApplySpec.v
ActivateSpec.v
Gc.v
UnitGraph.v
UnitGraphSpec.v
UnitMergeSpec.v
World.v
Service.v
ServiceLogic.v
ServiceSpec.v
ServiceEvents.v
Serialize.v
SerializeSpec.v
Reexec.v
Frame.v
Target.v
System.v
