(* ===== verification/Prelude.v ===== *)
(** * A verification development for systemd (version 37)

    systemd's manager keeps a graph of units, turns a request ("start this
    unit") into a transaction of jobs, checks and reduces the transaction,
    installs its jobs and runs them as the ordering of the units allows.  This
    library models the manager's engine, the data structures it is built
    on, and the functions on text that unit names, settings and paths go
    through; every definition follows the C code under src/ function by
    function.

    ** How the code is modelled

    Code that changes shared state is a function in the monad [M] of this
    file: it returns ([Ret]), runs into a failed [assert()] or a dangling pointer
    ([Fault]), or out of fuel ([NoFuel]).  Objects live in finite maps from
    pointers; intrusive lists are lists of pointers; allocations that the code checks
    draw on an oracle ([oom]).  [wp c s Q] is total correctness, so a theorem stated
    with it says that the code returns, that no assertion fails, and that no
    dangling pointer is read; [wlp] is the partial version, which says what holds if the code
    returns, and [wx T c s Q] lies between: no assertion fails, and where [T] holds the code returns.  Pure C
    functions are Rocq functions; one that writes outside its buffer, or asserts
    what does not hold, yields [None].  Errors are negative errno numbers.

    ** The files

    Foundations: Prelude (this file: the monad, its two program logics, record
    updates, lists), OrderedMap (association lists with distinct keys, what
    src/hashmap.c promises).

    Text: CString (C strings, number parsing and string tables of src/util.c),
    StrUtil (escapes), Paths (words and paths), Text (trimming, ellipsizing, host names), TimeSpan
    (time spans and sizes), UnitName (src/unit-name.c), Strv (src/strv.c and environments),
    RateLimit (src/ratelimit.c).

    Data structures: IntrusiveList (src/list.h, with its pointers), Hashmap (all of
    src/hashmap.c but its memory pools), HashmapRep, HashmapSpec, HashmapOps and
    HashmapIter (the hash maps refine ordered maps, for any client program and
    iteration).

    The engine: JobType (the enumerations and the merging of job types, src/job.h,
    src/unit.h), Engine (the state: [Manager], [Unit], [Job], [JobDependency], and the
    queues), Transaction (deletion and the passes of src/manager.c), TransactionAdd
    ([transaction_add_job_and_dependencies]), Order (ordering cycles), Activate (applying
    a transaction; running and finishing jobs, src/job.c; [unit_notify], src/unit.c), Gc
    (the garbage collector), UnitGraph (names, dependencies, merging, loading and freeing
    of units, src/unit.c and src/manager.c).  What is specific to a type of unit is a type parameter and
    the class [UnitVTable], the struct of function pointers of src/unit.h; the laws that
    the engine needs of it are classes too ([UnitVTableLaws], [GcLaws]), and [Demo] in
    WfCheck is an instance.

    Unit types: World (what is asked of the system, as questions with any answers, and
    the watching of processes), Service (the state machine of src/service.c; a service is the private part of
    its unit by the class [PrivateOf], and talks to the engine through [ServiceEngine]),
    Serialize (what a unit and its service write before the manager executes itself anew, and how it is
    read: src/unit.c, src/service.c, src/fdset.c), Target (src/target.c), System (services and targets under
    one engine: [vtable] is the table of src/unit.c, and what services call of the manager is the
    manager's own code).

    The engine's theorems: Links and Wf (the invariant [wf] of the engine), WfCheck (it can be
    decided), Delete, Passes, Matter, Merge, OrderSpec (what each pass does), Asked
    (what was asked for survives the passes), Rollback, Installed, AddSpec, ApplySpec and
    ActivateSpec (a request is carried out as a whole or refused as a whole), Gc (only units
    that nothing needs are collected, and all of them), UnitGraphSpec and UnitMergeSpec
    (the graph of units stays consistent; merging contracts it).

    The theorems on services: ServiceLogic (triples on a service, with the rest of the manager
    out of sight), ServiceSpec (the invariant, and what each step of the state machine does to
    it), ServiceEvents (every run of events is safe but for one event, stopping ends, and what goes
    wrong), SerializeSpec (lines that are written are read back) and Reexec (re-execution is a round trip).

    The theorem on the whole: Frame (the engine does not touch what is private to a type) and System
    (in every run of requests, jobs, events, timeouts and collections of garbage each
    service keeps its invariant, and its assertions hold).

    ** Conditions that recur

    [wf] is the engine's invariant, kept by every pass.  [oom m = []] says that no allocation
    fails; the theorems with failing allocations do not assume it.  Jobs keep the generation of the last search
    for ordering cycles that visited them: [settled] and [clean_from] (OrderSpec) say that no
    earlier search broke off at a job, which the program does not ensure
    ([refused_request_poisons_the_next] in ActivateSpec).  [allowed] (ServiceEvents) is what the manager checks before it
    hands an event to a service, and [aborts] the one event that a service does not survive.
    [graph_ok] (UnitGraphSpec) is the invariant of the graph of units; [no_loops], that no unit depends on itself,
    is kept by [unit_add_dependency], but not by [unit_merge] ([merged_unit_free_faults]).

    ** Fuel

    Recursion that follows pointers takes a fuel argument, and a wrapper
    computes it from the state: the number of links plus two for a
    deletion, seven per unit for adding jobs, the number of units for a chain of
    merges, for the garbage collector's search and for its queue, the number of jobs for
    the loops over the transaction, the number of entries for walks over a hash map.  The
    [wp] theorems show that it is enough.  Where the depth is not bounded by the state
    (the cycle of job_finish_and_invalidate, OnFailure and manager_add_job) the fuel
    is an argument.

    ** What is not modelled

    Everything that consists of system calls or of messages: D-Bus, fork and exec, control groups,
    the set-up at boot, logging, and the command line clients.  Of services and targets, loading is left out, and of services SysV init
    scripts and sockets; the other unit types are behind [UnitVTable].  Of re-execution, what the manager writes of itself and
    the handing over of D-Bus connections are left out.  Unit files are not parsed. *)

From stdpp Require Import base gmap strings list fin_maps.
From Stdlib Require Import ZArith Lia.

(** ** Errors

    The functions of the program return a negative errno on failure and
    zero or a positive number on success; the numbers are those of Linux. *)
Declare Scope systemd_scope.
Delimit Scope systemd_scope with systemd.

Definition EBADR : Z := 53.
Definition EAGAIN : Z := 11.
Definition ENOMEM : Z := 12.
Definition EEXIST : Z := 17.
Definition EINVAL : Z := 22.
Definition ENOENT : Z := 2.
Definition ENOEXEC : Z := 8.
Definition EPERM : Z := 1.
Definition E2BIG : Z := 7.
Definition ERANGE : Z := 34.
Definition EALREADY : Z := 114.
Definition ECANCELED : Z := 125.
Definition EBUSY : Z := 16.
Definition ESRCH : Z := 3.

(** [uint32_t]/[unsigned] arithmetic wraps. *)
Definition u32 (z : Z) : Z := z `mod` 2 ^ 32.
Definition u64 (z : Z) : Z := z `mod` 2 ^ 64.

(** ** Record update

    [r <| f := v |>] is [r] with field [f] set to [v], [r <| f ::= g |>] is
    [r] with [g] applied to field [f].  A record type opts in with an
    instance of [Rebuild], its eta expansion. *)
Class Rebuild (R : Type) := rebuild : R → R.
Class Setter {R T : Type} (proj : R → T) := upd : (T → T) → R → R.
Arguments upd {R T} proj {_} _ _ : simpl nomatch.

Ltac solve_setter :=
  match goal with
  | |- @Setter ?R ?T ?proj =>
      let i := constr:(_ : Rebuild R) in
      let e := eval cbv beta delta [rebuild] in (@rebuild R i) in
      let e := eval hnf in e in
      let p := eval pattern proj in e in
      match p with
      | ?g _ =>
          let t := eval cbv beta in
            (fun (f : T → T) (r : R) => g (fun r0 : R => f (proj r0)) r) in
          exact t
      end
  end.
#[export] Hint Extern 1 (Setter _) => solve_setter : typeclass_instances.

Notation "r <| f := v |>" := (upd f (λ _, v) r)
  (at level 1, left associativity, format "r  <| f  :=  v |>") : systemd_scope.
Notation "r <| f ::= g |>" := (upd f g r)
  (at level 1, left associativity, format "r  <| f  ::=  g |>") : systemd_scope.
#[global] Open Scope systemd_scope.

(** ** Stateful code

    A C function that works on the shared state [S] is a function from the
    state to an outcome: [Ret a s] is a return with result [a] in state [s],
    [Fault] is a failed [assert()] or an access through a dangling pointer,
    [NoFuel] marks that the bound on recursion depth and loop iterations ran
    out.  No theorem of the development takes [NoFuel] for a result. *)
Inductive outcome (S A : Type) : Type :=
  | Ret (a : A) (s : S)
  | Fault
  | NoFuel.
Arguments Ret {S A} _ _.
Arguments Fault {S A}.
Arguments NoFuel {S A}.

Definition M (S A : Type) : Type := S → outcome S A.

Section monad.
Context {S : Type}.

#[global] Instance M_ret : MRet (M S) := λ A a s, Ret a s.
#[global] Instance M_bind : MBind (M S) := λ A B f c s,
  match c s with
  | Ret a s' => f a s'
  | Fault => Fault
  | NoFuel => NoFuel
  end.

#[global] Instance M_fmap : FMap (M S) := λ A B f c, c ≫= λ a, mret (f a).

Definition get : M S S := λ s, Ret s s.
Definition put (s' : S) : M S unit := λ _, Ret tt s'.
Definition gets {A} (f : S → A) : M S A := λ s, Ret (f s) s.
Definition modify (f : S → S) : M S unit := λ s, Ret tt (f s).
Definition fault {A} : M S A := λ _, Fault.
Definition nofuel {A} : M S A := λ _, NoFuel.
(** [assert()] *)
Definition assert_ (b : bool) : M S unit := if b then mret tt else fault.
(** Reading through a pointer that is expected to be live. *)
Definition deref {A} (o : option A) : M S A :=
  match o with Some a => mret a | None => fault end.
Definition when (b : bool) (c : M S unit) : M S unit := if b then c else mret tt.

(** [do { again = body } while (again)] *)
Fixpoint repeat_while (fuel : nat) (body : M S bool) : M S unit :=
  match fuel with
  | O => nofuel
  | Datatypes.S n => again ← body; if again : bool then repeat_while n body else mret tt
  end.

(** [while ((x = next)) body] *)
Fixpoint while_some {A} (fuel : nat) (next : M S (option A)) (body : A → M S unit)
    : M S unit :=
  match fuel with
  | O => nofuel
  | Datatypes.S n =>
      x ← next;
      match x with
      | None => mret tt
      | Some a => _ ← body a; while_some n next body
      end
  end.

(** Iteration over a list fixed before the loop starts. *)
Fixpoint for_each {A} (l : list A) (body : A → M S unit) : M S unit :=
  match l with
  | [] => mret tt
  | x :: l' => _ ← body x; for_each l' body
  end.

(** A loop that is left with the first negative result. *)
Fixpoint for_each_r {A} (l : list A) (body : A → M S Z) : M S Z :=
    match l with
    | [] => mret 0%Z
    | x :: l' => r ← body x; if bool_decide (r < 0)%Z then mret r else for_each_r l' body
    end.

(** Total correctness: the computation returns, and the result satisfies
    the postcondition. *)
Definition wp {A} (c : M S A) (s : S) (Q : A → S → Prop) : Prop :=
  match c s with Ret a s' => Q a s' | _ => False end.
(** Partial correctness: whatever it returns satisfies the postcondition. *)
Definition wlp {A} (c : M S A) (s : S) (Q : A → S → Prop) : Prop :=
  match c s with Ret a s' => Q a s' | _ => True end.
(** In between: the computation does not fault, and if the parts that [T]
    speaks for return, so does it. *)
Definition wx (T : Prop) {A} (c : M S A) (s : S) (Q : A → S → Prop) : Prop :=
  match c s with Ret a s' => Q a s' | Fault => False | NoFuel => ¬ T end.
End monad.

(** ** The rules of the two program logics *)
Section rules.
Context {S : Type}.
Implicit Types s : S.

Lemma wp_bind {A B} (c : M S A) (f : A → M S B) s Q :
  wp (c ≫= f) s Q ↔ wp c s (λ a s', wp (f a) s' Q).
Proof. unfold wp, mbind, M_bind. by destruct (c s). Qed.
Lemma wlp_bind {A B} (c : M S A) (f : A → M S B) s Q :
  wlp (c ≫= f) s Q ↔ wlp c s (λ a s', wlp (f a) s' Q).
Proof. unfold wlp, mbind, M_bind. by destruct (c s). Qed.
Lemma wp_mono {A} (c : M S A) s (Q Q' : A → S → Prop) :
  wp c s Q → (∀ a s', Q a s' → Q' a s') → wp c s Q'.
Proof. unfold wp. destruct (c s); naive_solver. Qed.
Lemma wlp_mono {A} (c : M S A) s (Q Q' : A → S → Prop) :
  wlp c s Q → (∀ a s', Q a s' → Q' a s') → wlp c s Q'.
Proof. unfold wlp. destruct (c s); naive_solver. Qed.
Lemma wp_wlp {A} (c : M S A) s (Q : A → S → Prop) : wp c s Q → wlp c s Q.
Proof. unfold wp, wlp. by destruct (c s). Qed.
Lemma wx_bind T {A B} (c : M S A) (f : A → M S B) s Q :
  wx T (c ≫= f) s Q ↔ wx T c s (λ a s', wx T (f a) s' Q).
Proof. unfold wx, mbind, M_bind. by destruct (c s). Qed.
Lemma wx_mono (T : Prop) {A} (c : M S A) s (Q Q' : A → S → Prop) :
  wx T c s Q → (∀ a s', Q a s' → Q' a s') → wx T c s Q'.
Proof. unfold wx. destruct (c s); auto. Qed.
Lemma wp_wx T {A} (c : M S A) s (Q : A → S → Prop) : wp c s Q → wx T c s Q.
Proof. unfold wp, wx. by destruct (c s). Qed.
Lemma wx_no_fault T {A} (c : M S A) s (Q : A → S → Prop) : wx T c s Q → c s ≠ Fault.
Proof. unfold wx. by destruct (c s). Qed.
Lemma wx_elim T {A} (c : M S A) s (Q : A → S → Prop) : wx T c s Q → T → ∃ a s', c s = Ret a s' ∧ Q a s'.
Proof. unfold wx. destruct (c s); [by eauto|done|done]. Qed.
Lemma wx_ret_elim T {A} (c : M S A) s (Q : A → S → Prop) a s' : wx T c s Q → c s = Ret a s' → Q a s'.
Proof. unfold wx. by intros Hc E; rewrite E in Hc. Qed.
Lemma wp_ret {A} (a : A) s Q : wp (mret a) s Q ↔ Q a s.
Proof. done. Qed.
Lemma wp_wlp_and {A} (c : M S A) s (Q R : A → S → Prop) :
  wp c s Q → wlp c s R → wp c s (λ a s', Q a s' ∧ R a s').
Proof. unfold wp, wlp. destruct (c s); [by split|done..]. Qed.
Lemma wlp_ret {A} (a : A) s Q : wlp (mret a) s Q ↔ Q a s.
Proof. done. Qed.
Lemma wp_gets {A} (f : S → A) s Q : wp (gets f) s Q ↔ Q (f s) s.
Proof. done. Qed.
Lemma wlp_gets {A} (f : S → A) s Q : wlp (gets f) s Q ↔ Q (f s) s.
Proof. done. Qed.
Lemma wp_modify (f : S → S) s Q : wp (modify f) s Q ↔ Q tt (f s).
Proof. done. Qed.
Lemma wlp_modify (f : S → S) s Q : wlp (modify f) s Q ↔ Q tt (f s).
Proof. done. Qed.
Lemma wp_elim {A} (c : M S A) s Q : wp c s Q → ∃ a s', c s = Ret a s' ∧ Q a s'.
Proof. unfold wp. destruct (c s); naive_solver. Qed.
Lemma wp_intro {A} (c : M S A) s a s' (Q : A → S → Prop) :
  c s = Ret a s' → Q a s' → wp c s Q.
Proof. unfold wp. by intros ->. Qed.
Lemma wlp_elim {A} (c : M S A) s Q a s' : wlp c s Q → c s = Ret a s' → Q a s'.
Proof. unfold wlp. by intros ? E; rewrite E in *. Qed.
Lemma wlp_deref {A} (o : option A) s Q :
  (∀ a, o = Some a → Q a s) → wlp (deref o) s Q.
Proof. destruct o; unfold wlp; simpl; auto. Qed.
Lemma bind_ret {A B} (c : M S A) (f : A → M S B) s a s' :
  c s = Ret a s' → (c ≫= f) s = f a s'.
Proof. unfold mbind, M_bind. by intros ->. Qed.
Lemma wp_deref {A} (o : option A) s a (Q : A → S → Prop) :
  o = Some a → Q a s → wp (deref o) s Q.
Proof. by intros ->. Qed.

(** A loop whose body preserves [I] and, when it asks to go on, decreases
    the measure, returns; what the last round established holds. *)
Lemma wp_repeat_while (body : M S bool) (I : S → Prop) (mu : S → nat) (Q : S → Prop) :
  (∀ s, I s → wp body s (λ again s',
      if again then I s' ∧ mu s' < mu s else Q s')) →
  ∀ fuel s, I s → mu s < fuel → wp (repeat_while fuel body) s (λ _ s', Q s').
Proof.
  intros Hbody fuel. induction fuel as [|n IH]; intros s HI Hf; [lia|].
  simpl. apply wp_bind. eapply wp_mono; [by apply Hbody|].
  intros [] s' H; simpl in H; [|by apply wp_ret].
  destruct H. apply IH; [done|lia].
Qed.
Lemma wp_while_some {A} (next : M S (option A)) (body : A → M S unit)
    (I : S → Prop) (mu : S → nat) (Q : S → Prop) :
  (∀ s, I s → wp next s (λ o s1, match o with
      | None => Q s1
      | Some a => wp (body a) s1 (λ _ s2, I s2 ∧ mu s2 < mu s)
      end)) →
  ∀ fuel s, I s → mu s < fuel → wp (while_some fuel next body) s (λ _ s', Q s').
Proof.
  intros Hbody fuel. induction fuel as [|n IH]; intros s HI Hf; [lia|].
  simpl. apply wp_bind. eapply wp_mono; [by apply Hbody|].
  intros [a|] s1 H; [|by apply wp_ret].
  apply wp_bind. eapply wp_mono; [exact H|]. intros [] s2 [??]. apply IH; [done|lia].
Qed.
Lemma wp_for_each {A} (l : list A) (body : A → M S unit) (I : list A → S → Prop) :
  (∀ x l' s, I (x :: l') s → wp (body x) s (λ _ s', I l' s')) →
  ∀ s, I l s → wp (for_each l body) s (λ _ s', I [] s').
Proof.
  intros Hb. induction l as [|x l IH]; intros s HI; simpl; [by apply wp_ret|].
  apply wp_bind. eapply wp_mono; [by apply Hb|]. intros [] s' ?; by apply IH.
Qed.
Lemma wlp_for_each {A} (l : list A) (body : A → M S unit) (I : list A → S → Prop) :
  (∀ x l' s, I (x :: l') s → wlp (body x) s (λ _ s', I l' s')) →
  ∀ s, I l s → wlp (for_each l body) s (λ _ s', I [] s').
Proof.
  intros Hb. induction l as [|x l IH]; intros s HI; simpl; [by apply wlp_ret|].
  apply wlp_bind. eapply wlp_mono; [by apply Hb|]. intros [] s' ?; by apply IH.
Qed.
Lemma wlp_for_each_r {A} (l : list A) (body : A → M S Z) (I : S → Prop) (Q : Z → S → Prop) :
  (∀ x s, I s → wlp (body x) s (λ _ s', I s')) → (∀ r s, I s → Q r s) →
  ∀ s, I s → wlp (for_each_r l body) s Q.
Proof.
  intros Hb HQ. induction l as [|x l IH]; intros s HI; simpl; [by apply wlp_ret, HQ|].
  apply wlp_bind. eapply wlp_mono; [by apply Hb|]. intros r s' HI'.
  cbv beta. case_bool_decide; [by apply wlp_ret, HQ|by apply IH].
Qed.
Lemma wp_for_each_r {A} (l : list A) (body : A → M S Z) (I : list A → S → Prop)
      (Q : Z → S → Prop) :
    (∀ x l' s, I (x :: l') s → x ∈ l →
       wp (body x) s (λ r s', if bool_decide (r < 0)%Z then Q r s' else I l' s')) →
    (∀ s, I [] s → Q 0%Z s) → ∀ s, I l s → wp (for_each_r l body) s Q.
Proof.
    intros Hbody Hend.
    assert (∀ l', l' ⊆ l → ∀ s, I l' s → wp (for_each_r l' body) s Q) as Hw; [|by apply Hw].
    induction l' as [|x l' IH]; intros Hsub s HI; simpl; [by apply wp_ret, Hend|].
    apply wp_bind. eapply wp_mono; [apply Hbody; [done|apply Hsub; left]|].
    intros r s'. cbv beta. case_bool_decide; intros Hr; [by apply wp_ret|].
    apply IH; [|done]. intros y Hy. apply Hsub. by right.
Qed.
End rules.

Arguments wp : simpl never.
Arguments wlp : simpl never.
Arguments wx : simpl never.

(** Symbolic execution: [wp_step]/[wlp_step] take one step of the code in the
    goal, [wp_auto] runs to the next call that needs a specification. *)
Ltac wp_step :=
  match goal with
  | |- wp (mbind _ _) _ _ => apply wp_bind
  | |- wp (mret _) _ _ => apply wp_ret
  | |- wp (gets _) _ _ => apply wp_gets
  | |- wp (modify _) _ _ => apply wp_modify
  | |- wp (deref (Some _)) _ _ => unfold wp at 1; simpl
  | H : ?o = Some _ |- wp (deref ?o) _ _ => rewrite H; unfold wp at 1; simpl
  | |- wp (when true _) _ _ => unfold when
  | |- wp (when false _) _ _ => unfold when
  end.
Ltac wlp_step :=
  match goal with
  | |- wlp (mbind _ _) _ _ => apply wlp_bind
  | |- wlp (mret _) _ _ => apply wlp_ret
  | |- wlp (gets _) _ _ => apply wlp_gets
  | |- wlp (modify _) _ _ => apply wlp_modify
  | |- wlp (deref _) _ _ => apply wlp_deref; intros
  | |- wlp fault _ _ => exact I
  | |- wlp nofuel _ _ => exact I
  end.

(** ** Finite maps *)

Lemma lookup_alter_if {A} (f : A → A) (h : gmap nat A) i j :
  alter f i h !! j = (λ x, if decide (i = j) then f x else x) <$> h !! j.
Proof.
  rewrite lookup_alter. case_decide; subst; by destruct (h !! j).
Qed.

Lemma lookup_alter_is_Some {A} (f : A → A) (h : gmap nat A) i j :
  is_Some (alter f i h !! j) ↔ is_Some (h !! j).
Proof. rewrite lookup_alter_if. by rewrite fmap_is_Some. Qed.

(** ** Lists *)

Lemma filter_id {A} (Q : A → Prop) `{∀ x, Decision (Q x)} (l : list A) :
  (∀ x, x ∈ l → Q x) → filter Q l = l.
Proof.
  induction l as [|x l IH]; intros Hl; [done|].
  rewrite filter_cons_True by (apply Hl; left). f_equal. apply IH.
  intros y Hy. apply Hl. by right.
Qed.

Lemma sublist_length {A} (k l : list A) : sublist k l → length k ≤ length l.
Proof. induction 1; simpl; lia. Qed.

Lemma sublist_same_length {A} (k l : list A) : sublist k l → length l ≤ length k → k = l.
Proof.
  induction 1 as [|x k l Hs IH|x k l Hs IH]; simpl; intros Hl; [done|f_equal; apply IH; lia|].
  apply sublist_length in Hs. lia.
Qed.

(** A sublist that lost a member is shorter. *)
Lemma sublist_lost {A} (k l : list A) x : sublist k l → x ∈ l → x ∉ k → length k < length l.
Proof.
  intros Hs Hl Hk. pose proof (sublist_length _ _ Hs).
  destruct (decide (length k < length l)); [done|].
  rewrite (sublist_same_length k l) in Hk by (done || lia). done.
Qed.

Lemma sublist_elem {A} (k l : list A) x : sublist k l → x ∈ k → x ∈ l.
Proof.
  induction 1 as [|y k l _ IH|y k l _ IH]; [done| |]; rewrite ?elem_of_cons; naive_solver.
Qed.

Lemma filter_none {A} (P : A → Prop) `{∀ x, Decision (P x)} (l : list A) :
  (∀ x, x ∈ l → ¬ P x) → filter P l = [].
Proof.
  induction l as [|x l IH]; intros Hn; [done|]. rewrite filter_cons_False by (apply Hn; left).
  apply IH. intros y Hy. apply Hn. by right.
Qed.
Lemma elem_of_concat {A} (x : A) (ls : list (list A)) : x ∈ concat ls ↔ ∃ l, l ∈ ls ∧ x ∈ l.
Proof.
  induction ls as [|l ls IH]; simpl.
  - split; [by intros ?%elem_of_nil|by intros (? & ?%elem_of_nil & _)].
  - rewrite elem_of_app, IH. setoid_rewrite elem_of_cons. naive_solver.
Qed.

Lemma forallb_pointwise {A} (f g : A → bool) l : (∀ x, f x = g x) → forallb f l = forallb g l.
Proof. intros Hfg. induction l as [|x l IH]; simpl; [done|]. by rewrite Hfg, IH. Qed.
Lemma forallb_negb_existsb {A} (f : A → bool) l : negb (forallb f l) = existsb (λ x, negb (f x)) l.
Proof. induction l as [|x l IH]; simpl; [done|]. rewrite <- IH. by destruct (f x). Qed.

Lemma sublist_filter_mono {A} (Q : A → Prop) `{∀ x, Decision (Q x)} (k l : list A) :
  sublist k l → sublist (filter Q k) (filter Q l).
Proof.
  induction 1 as [|x k l Hs IH|x k l Hs IH]; [done| |].
  - rewrite !filter_cons. case_decide; [by constructor|done].
  - rewrite filter_cons. case_decide; [by constructor|done].
Qed.

Lemma omap_elem_ext {A B} (f g : A → option B) (l : list A) :
  (∀ x, x ∈ l → f x = g x) → omap f l = omap g l.
Proof.
  induction l as [|x l IH]; intros Hfg; [done|].
  change (match f x with Some y => y :: omap f l | None => omap f l end
    = match g x with Some y => y :: omap g l | None => omap g l end).
  rewrite (Hfg x) by left. rewrite IH; [done|]. intros y Hy. apply Hfg. by right.
Qed.
