(* ===== verification/CString.v ===== *)
(** * Strings and numbers (src/util.c, src/util.h)

    C strings are [string]s: the bytes before the terminating NUL.  The first
    part models what the code uses of the C library ([strchr], [strrchr],
    [strspn], [strcspn], [strtoul], [strtoll]); the second the helpers of
    src/util.c that the unit names, the string tables and the configuration
    parsers are built from.  Allocation is taken to succeed here. *)

From stdpp Require Import base gmap strings list fin_maps.
From Stdlib Require Import ZArith Ascii Lia.
From S2P Require Import Prelude.

Local Open Scope Z_scope.

(** ** The C library on strings *)

Definition code (c : ascii) : Z := Z.of_N (N_of_ascii c).
(** A plain [char] is signed on the platforms the program runs on. *)
Definition schar (c : ascii) : Z := if bool_decide (code c < 128) then code c else code c - 256.
(** The conversion [(char) x]. *)
Definition to_char (x : Z) : ascii := ascii_of_N (Z.to_N (x `mod` 256)).

Definition strlen (s : string) : nat := String.length s.

Fixpoint mem_char (c : ascii) (s : string) : bool :=
  match s with
  | EmptyString => false
  | String d s' => bool_decide (c = d) || mem_char c s'
  end.

(** [strchr s c]: the rest of [s] from the first [c] on. *)
Fixpoint strchr (s : string) (c : ascii) : option string :=
  match s with
  | EmptyString => None
  | String d s' => if bool_decide (d = c) then Some s else strchr s' c
  end.

(** The text before the first [c], and the text after it. *)
Fixpoint split_at (s : string) (c : ascii) : option (string * string) :=
  match s with
  | EmptyString => None
  | String d s' =>
      if bool_decide (d = c) then Some (EmptyString, s')
      else '(a, b) ← split_at s' c; Some (String d a, b)
  end.

(** [strrchr]: the text before the last [c], and the text after it. *)
Fixpoint rsplit_at (s : string) (c : ascii) : option (string * string) :=
  match s with
  | EmptyString => None
  | String d s' =>
      match rsplit_at s' c with
      | Some (a, b) => Some (String d a, b)
      | None => if bool_decide (d = c) then Some (EmptyString, s') else None
      end
  end.

Fixpoint str_drop (n : nat) (s : string) : string :=
  match n, s with
  | O, _ => s
  | _, EmptyString => EmptyString
  | S n', String _ s' => str_drop n' s'
  end.
Fixpoint str_take (n : nat) (s : string) : string :=
  match n, s with
  | O, _ => EmptyString
  | _, EmptyString => EmptyString
  | S n', String c s' => String c (str_take n' s')
  end.

Fixpoint strspn (s accept : string) : nat :=
  match s with
  | EmptyString => 0
  | String c s' => if mem_char c accept then S (strspn s' accept) else 0
  end%nat.
Fixpoint strcspn (s reject : string) : nat :=
  match s with
  | EmptyString => 0
  | String c s' => if mem_char c reject then 0 else S (strcspn s' reject)
  end%nat.

(** [tolower], [toupper] and [strcasecmp(a, b) == 0] of the C locale. *)
Definition tolower (c : ascii) : ascii :=
  if bool_decide (65 ≤ code c ≤ 90) then to_char (code c + 32) else c.
Fixpoint strcaseeq (a b : string) : bool :=
  match a, b with
  | EmptyString, EmptyString => true
  | String c a', String d b' => bool_decide (tolower c = tolower d) && strcaseeq a' b'
  | _, _ => false
  end.

(** [strtoul]/[strtoll]: white space, a sign, a prefix that picks the base,
    digits. *)
Definition isspace (c : ascii) : bool := bool_decide (code c = 32 ∨ 9 ≤ code c ≤ 13).
Fixpoint skip_space (s : string) : string :=
  match s with
  | String c s' => if isspace c then skip_space s' else s
  | EmptyString => s
  end.
Definition digit_value (c : ascii) : option Z :=
  let x := code c in
  if bool_decide (48 ≤ x ≤ 57) then Some (x - 48)
  else if bool_decide (97 ≤ x ≤ 122) then Some (x - 87)
  else if bool_decide (65 ≤ x ≤ 90) then Some (x - 55)
  else None.
Definition digit_in (base : Z) (c : ascii) : option Z :=
  v ← digit_value c; if bool_decide (v < base) then Some v else None.
(** The digits' value, how many there were, and the rest. *)
Fixpoint digits (base acc : Z) (n : nat) (s : string) : Z * nat * string :=
  match s with
  | String c s' =>
      match digit_in base c with
      | Some v => digits base (acc * base + v) (S n) s'
      | None => (acc, n, s)
      end
  | EmptyString => (acc, n, s)
  end.
Definition sign (s : string) : bool * string :=
  match s with
  | String c s' =>
      if bool_decide (c = "-"%char) then (true, s')
      else if bool_decide (c = "+"%char) then (false, s') else (false, s)
  | EmptyString => (false, s)
  end.
(** Base 0: "0x" announces base 16 where a hexadecimal digit follows, "0"
    base 8, everything else is decimal. *)
Definition base_prefix (s : string) : Z * string :=
  match s with
  | String a (String b s') =>
      if bool_decide (a = "0"%char) then
        if bool_decide (b = "x"%char ∨ b = "X"%char) then
          match s' with
          | String c _ => match digit_in 16 c with Some _ => (16, s') | None => (8, s) end
          | EmptyString => (8, s)
          end
        else (8, s)
      else (10, s)
  | _ => (10, s)
  end.

(** [Some] of the negation flag, the magnitude and the rest; [None] where
    there are no digits, in which case the end pointer is the start of the
    string and the result 0. *)
Definition strto (base0 : bool) (s : string) : option (bool * Z * string) :=
  let '(neg, s1) := sign (skip_space s) in
  let '(base, s2) := if base0 then base_prefix s1 else (10, s1) in
  let '(v, n, rest) := digits base 0 0 s2 in
  if bool_decide (n = 0%nat) then None else Some (neg, v, rest).

Definition ULONG_MAX : Z := 2 ^ 64 - 1.
Definition LLONG_MAX : Z := 2 ^ 63 - 1.
Definition LLONG_MIN : Z := - 2 ^ 63.

(** Value, rest of the string, errno. *)
Definition strtoul (s : string) : Z * string * Z :=
  match strto true s with
  | None => (0, s, 0)
  | Some (neg, v, rest) =>
      if bool_decide (v > ULONG_MAX) then (ULONG_MAX, rest, ERANGE)
      else (u64 (if neg then - v else v), rest, 0)
  end.
Definition strtoll (base0 : bool) (s : string) : Z * string * Z :=
  match strto base0 s with
  | None => (0, s, 0)
  | Some (neg, v, rest) =>
      let w := if neg then - v else v in
      if bool_decide (w > LLONG_MAX) then (LLONG_MAX, rest, ERANGE)
      else if bool_decide (w < LLONG_MIN) then (LLONG_MIN, rest, ERANGE)
      else (w, rest, 0)
  end.

(** ** Numbers (src/util.c) *)

(** [inl e] is the return of [-e], [inr v] a return of 0 with [v] stored. *)
Definition safe_atou (s : string) : Z + Z :=
  let '(l, x, errno) := strtoul s in
  if bool_decide (x ≠ "" ∨ errno ≠ 0) then inl (if bool_decide (errno ≠ 0) then errno else EINVAL)
  else if bool_decide (u32 l ≠ l) then inl ERANGE
  else inr l.

(** [int] of a [long]: the low 32 bits, as a signed number. *)
Definition s32 (z : Z) : Z := (z + 2 ^ 31) `mod` 2 ^ 32 - 2 ^ 31.

Definition safe_atoi (s : string) : Z + Z :=
  let '(l, x, errno) := strtoll true s in
  if bool_decide (x ≠ "" ∨ errno ≠ 0) then inl (if bool_decide (errno ≠ 0) then errno else EINVAL)
  else if bool_decide (s32 l ≠ l) then inl ERANGE
  else inr l.

Definition safe_atollu (s : string) : Z + Z :=
  let '(l, x, errno) := strtoul s in
  if bool_decide (x ≠ "" ∨ errno ≠ 0) then inl (if bool_decide (errno ≠ 0) then errno else EINVAL)
  else inr l.

Definition safe_atolli (s : string) : Z + Z :=
  let '(l, x, errno) := strtoll true s in
  if bool_decide (x ≠ "" ∨ errno ≠ 0) then inl (if bool_decide (errno ≠ 0) then errno else EINVAL)
  else inr l.

Definition first_is (v : string) (cs : string) : bool :=
  match v with String c _ => mem_char c cs | EmptyString => false end.

Definition parse_boolean (v : string) : Z :=
  if bool_decide (v = "1") || first_is v "yYtT" || strcaseeq v "on" then 1
  else if bool_decide (v = "0") || first_is v "nNfF" || strcaseeq v "off" then 0
  else - EINVAL.

Definition parse_pid (s : string) : Z + Z :=
  match safe_atollu s with
  | inl e => inl e
  | inr ul =>
      let pid := s32 ul in
      if bool_decide (u64 pid ≠ ul) then inl ERANGE
      else if bool_decide (pid ≤ 0) then inl ERANGE
      else inr pid
  end.

Definition parse_uid (s : string) : Z + Z :=
  match safe_atollu s with
  | inl e => inl e
  | inr ul => if bool_decide (u32 ul ≠ ul) then inl ERANGE else inr ul
  end.

(** ** String tables ([DEFINE_STRING_TABLE_LOOKUP] of src/util.h) *)
Section string_table.
Variable table : list (option string).

Definition to_string (i : Z) : option string :=
  if bool_decide (i < 0 ∨ Z.of_nat (length table) ≤ i) then None
  else mjoin (table !! Z.to_nat i).

(** The index of the first entry equal to [s]. *)
Fixpoint table_find (t : list (option string)) (i : Z) (s : string) : option Z :=
  match t with
  | [] => None
  | e :: t' => if bool_decide (e = Some s) then Some i else table_find t' (i + 1) s
  end.

Definition from_string (s : string) : Z :=
  match table_find table 0 s with
  | Some i => i
  | None =>
      match safe_atou s with
      | inr u => if bool_decide (u < Z.of_nat (length table)) then u else -1
      | inl _ => -1
      end
  end.
End string_table.

(** Looking a name up again finds the place it came from, when no name is
    listed twice; and what a lookup returns is a place of the table. *)
Section string_table_laws.
Variable table : list (option string).

Lemma table_find_lookup t i s k :
  table_find t i s = Some k → i ≤ k < i + Z.of_nat (length t) ∧ t !! Z.to_nat (k - i) = Some (Some s).
Proof.
  revert i. induction t as [|e t IH]; intros i; simpl; [done|].
  case_bool_decide as He.
  - intros [= <-]. split; [lia|]. replace (i - i) with 0 by lia. simpl. by rewrite He.
  - intros Hf. destruct (IH (i + 1) Hf) as [? Hl]. split; [lia|].
    replace (Z.to_nat (k - i)) with (S (Z.to_nat (k - (i + 1)))) by lia. done.
Qed.
Lemma table_find_first t i s (n : nat) :
  t !! n = Some (Some s) → (∀ n', (n' < n)%nat → t !! n' ≠ Some (Some s)) →
  table_find t i s = Some (i + Z.of_nat n).
Proof.
  revert i n. induction t as [|e t IH]; intros i n Hl Hn; [done|]. simpl.
  destruct n as [|n].
  - simpl in Hl. injection Hl as ->. rewrite bool_decide_true by done. f_equal. lia.
  - rewrite bool_decide_false; [|intros ->; by apply (Hn 0%nat); [lia|]].
    rewrite (IH (i + 1) n); [f_equal; lia|done|]. intros n' ?. apply (Hn (S n')). lia.
Qed.

(** C13. The string tables are round trips: the name of every value of the
    table leads back to the value, provided no name is listed twice; and
    [from_string] yields [-1] or an index of the table. *)
Theorem string_table_roundtrip :
  (∀ i j s, table !! i = Some (Some s) → table !! j = Some (Some s) → i = j) →
  (∀ i s, to_string table i = Some s → from_string table s = i) ∧
  (∀ s, from_string table s = -1 ∨ 0 ≤ from_string table s < Z.of_nat (length table)).
Proof.
  intros Hnd. split.
  - intros i s. unfold to_string. case_bool_decide as Hi; [done|].
    intros Hl. unfold from_string.
    assert (table !! Z.to_nat i = Some (Some s)) as Hl'.
    { unfold mjoin, option_join in Hl. by destruct (table !! Z.to_nat i) as [[]|]; simplify_eq. }
    rewrite (table_find_first table 0 s (Z.to_nat i)); [lia|done|].
    intros n' Hn' Hs. pose proof (Hnd _ _ _ Hl' Hs). lia.
  - intros s. unfold from_string. destruct (table_find table 0 s) as [k|] eqn:E.
    + apply table_find_lookup in E. lia.
    + destruct (safe_atou s) as [e|u] eqn:Eu; [by left|]. case_bool_decide; [|by left].
      right. split; [|done]. revert Eu. unfold safe_atou.
      destruct (strtoul s) as [[l x] er]. case_bool_decide; [done|].
      case_bool_decide as Hu; [done|]. intros [= <-].
      rewrite <- Hu. by apply Z.mod_pos_bound.
Qed.
End string_table_laws.
