(* ===== verification/JobType.v ===== *)
(** * Job types and unit states (src/job.h, src/unit.h, src/job.c)

    The enumerations the engine works on, and the algebra of job types:
    merging, conflicts, redundancy.  Merging is the join of a semilattice in
    which [JOB_STOP] is comparable to nothing else; the laws at the end of the
    file are what the transaction code relies on. *)

From stdpp Require Import base gmap strings list fin_maps.
From Stdlib Require Import ZArith Lia.
From S2P Require Import Prelude CString.

Inductive JobType :=
  | JOB_START | JOB_VERIFY_ACTIVE | JOB_STOP | JOB_RELOAD
  | JOB_RELOAD_OR_START | JOB_RESTART | JOB_TRY_RESTART.
Inductive JobState := JOB_WAITING | JOB_RUNNING.
Inductive JobMode :=
  | JOB_FAIL | JOB_REPLACE | JOB_ISOLATE | JOB_IGNORE_DEPENDENCIES
  | JOB_IGNORE_REQUIREMENTS.
Inductive JobResult :=
  | JOB_DONE | JOB_CANCELED | JOB_TIMEOUT | JOB_FAILED | JOB_DEPENDENCY | JOB_SKIPPED.

Inductive UnitType :=
  | UNIT_SERVICE | UNIT_SOCKET | UNIT_TARGET | UNIT_DEVICE | UNIT_MOUNT
  | UNIT_AUTOMOUNT | UNIT_SNAPSHOT | UNIT_TIMER | UNIT_SWAP | UNIT_PATH.
Inductive UnitLoadState :=
  | UNIT_STUB | UNIT_LOADED | UNIT_ERROR | UNIT_MERGED | UNIT_MASKED.
Inductive UnitActiveState :=
  | UNIT_ACTIVE | UNIT_RELOADING | UNIT_INACTIVE | UNIT_FAILED
  | UNIT_ACTIVATING | UNIT_DEACTIVATING.
Inductive UnitDependency :=
  | UNIT_REQUIRES | UNIT_REQUIRES_OVERRIDABLE | UNIT_REQUISITE
  | UNIT_REQUISITE_OVERRIDABLE | UNIT_WANTS | UNIT_BIND_TO
  | UNIT_REQUIRED_BY | UNIT_REQUIRED_BY_OVERRIDABLE | UNIT_WANTED_BY | UNIT_BOUND_BY
  | UNIT_CONFLICTS | UNIT_CONFLICTED_BY
  | UNIT_BEFORE | UNIT_AFTER
  | UNIT_ON_FAILURE
  | UNIT_REFERENCES | UNIT_REFERENCED_BY.

#[export] Instance JobType_eq_dec : EqDecision JobType.
Proof. solve_decision. Defined.
#[export] Instance JobState_eq_dec : EqDecision JobState.
Proof. solve_decision. Defined.
#[export] Instance JobMode_eq_dec : EqDecision JobMode.
Proof. solve_decision. Defined.
#[export] Instance JobResult_eq_dec : EqDecision JobResult.
Proof. solve_decision. Defined.
#[export] Instance UnitType_eq_dec : EqDecision UnitType.
Proof. solve_decision. Defined.
#[export] Instance UnitLoadState_eq_dec : EqDecision UnitLoadState.
Proof. solve_decision. Defined.
#[export] Instance UnitActiveState_eq_dec : EqDecision UnitActiveState.
Proof. solve_decision. Defined.
#[export] Instance UnitDependency_eq_dec : EqDecision UnitDependency.
Proof. solve_decision. Defined.

(** ** Predicates on active states (src/unit.h) *)

Definition UNIT_IS_ACTIVE_OR_RELOADING (t : UnitActiveState) : bool :=
  bool_decide (t = UNIT_ACTIVE) || bool_decide (t = UNIT_RELOADING).
Definition UNIT_IS_ACTIVE_OR_ACTIVATING (t : UnitActiveState) : bool :=
  bool_decide (t = UNIT_ACTIVE) || bool_decide (t = UNIT_ACTIVATING)
  || bool_decide (t = UNIT_RELOADING).
Definition UNIT_IS_INACTIVE_OR_DEACTIVATING (t : UnitActiveState) : bool :=
  bool_decide (t = UNIT_INACTIVE) || bool_decide (t = UNIT_FAILED)
  || bool_decide (t = UNIT_DEACTIVATING).
Definition UNIT_IS_INACTIVE_OR_FAILED (t : UnitActiveState) : bool :=
  bool_decide (t = UNIT_INACTIVE) || bool_decide (t = UNIT_FAILED).

(** ** The algebra of job types (src/job.c) *)

Definition types_match (a b c d : JobType) : bool :=
  (bool_decide (a = c) && bool_decide (b = d))
  || (bool_decide (a = d) && bool_decide (b = c)).

(** [inl e] is the return of [-e] with [*a] untouched, [inr t] a return of 0
    with [t] stored in [*a]. *)
Definition job_type_merge (a b : JobType) : Z + JobType :=
  if bool_decide (a = b) then inr a
  else if types_match a b JOB_START JOB_VERIFY_ACTIVE then inr JOB_START
  else if types_match a b JOB_START JOB_RELOAD
          || types_match a b JOB_START JOB_RELOAD_OR_START
          || types_match a b JOB_VERIFY_ACTIVE JOB_RELOAD_OR_START
          || types_match a b JOB_RELOAD JOB_RELOAD_OR_START
  then inr JOB_RELOAD_OR_START
  else if types_match a b JOB_START JOB_RESTART
          || types_match a b JOB_START JOB_TRY_RESTART
          || types_match a b JOB_VERIFY_ACTIVE JOB_RESTART
          || types_match a b JOB_RELOAD JOB_RESTART
          || types_match a b JOB_RELOAD_OR_START JOB_RESTART
          || types_match a b JOB_RELOAD_OR_START JOB_TRY_RESTART
          || types_match a b JOB_RESTART JOB_TRY_RESTART
  then inr JOB_RESTART
  else if types_match a b JOB_VERIFY_ACTIVE JOB_RELOAD then inr JOB_RELOAD
  else if types_match a b JOB_VERIFY_ACTIVE JOB_TRY_RESTART
          || types_match a b JOB_RELOAD JOB_TRY_RESTART
  then inr JOB_TRY_RESTART
  else inl EEXIST.

Definition job_type_is_mergeable (a b : JobType) : bool :=
  match job_type_merge a b with inr _ => true | inl _ => false end.

Definition job_type_is_superset (a b : JobType) : bool :=
  if bool_decide (a = b) then true else
  match a with
  | JOB_START => bool_decide (b = JOB_VERIFY_ACTIVE)
  | JOB_RELOAD => bool_decide (b = JOB_VERIFY_ACTIVE)
  | JOB_RELOAD_OR_START =>
      bool_decide (b = JOB_RELOAD) || bool_decide (b = JOB_START)
      || bool_decide (b = JOB_VERIFY_ACTIVE)
  | JOB_RESTART =>
      bool_decide (b = JOB_START) || bool_decide (b = JOB_VERIFY_ACTIVE)
      || bool_decide (b = JOB_RELOAD) || bool_decide (b = JOB_RELOAD_OR_START)
      || bool_decide (b = JOB_TRY_RESTART)
  | JOB_TRY_RESTART =>
      bool_decide (b = JOB_VERIFY_ACTIVE) || bool_decide (b = JOB_RELOAD)
  | _ => false
  end.

Definition job_type_is_conflicting (a b : JobType) : bool :=
  xorb (bool_decide (a = JOB_STOP)) (bool_decide (b = JOB_STOP)).

Definition job_type_is_redundant (a : JobType) (b : UnitActiveState) : bool :=
  match a with
  | JOB_START => bool_decide (b = UNIT_ACTIVE) || bool_decide (b = UNIT_RELOADING)
  | JOB_STOP => bool_decide (b = UNIT_INACTIVE) || bool_decide (b = UNIT_FAILED)
  | JOB_VERIFY_ACTIVE => bool_decide (b = UNIT_ACTIVE) || bool_decide (b = UNIT_RELOADING)
  | JOB_RELOAD => bool_decide (b = UNIT_RELOADING)
  | JOB_RELOAD_OR_START =>
      bool_decide (b = UNIT_ACTIVATING) || bool_decide (b = UNIT_RELOADING)
  | JOB_RESTART => bool_decide (b = UNIT_ACTIVATING)
  | JOB_TRY_RESTART => bool_decide (b = UNIT_ACTIVATING)
  end.

(** The loop of [transaction_merge_jobs] over the jobs of one unit:
    [job_type_merge] into an accumulator. *)
Fixpoint merge_types (t : JobType) (l : list JobType) : Z + JobType :=
  match l with
  | [] => inr t
  | k :: l' => match job_type_merge t k with inl e => inl e | inr t' => merge_types t' l' end
  end.

(** ** String tables (src/job.c, src/unit.c) *)

Definition job_state_table : list (option string) := [Some "waiting"; Some "running"].
Definition job_type_table : list (option string) :=
  [Some "start"; Some "verify-active"; Some "stop"; Some "reload";
   Some "reload-or-start"; Some "restart"; Some "try-restart"].
Definition job_mode_table : list (option string) :=
  [Some "fail"; Some "replace"; Some "isolate"; Some "ignore-dependencies";
   Some "ignore-requirements"].
Definition job_result_table : list (option string) :=
  [Some "done"; Some "canceled"; Some "timeout"; Some "failed"; Some "dependency";
   Some "skipped"].
Definition unit_load_state_table : list (option string) :=
  [Some "stub"; Some "loaded"; Some "error"; Some "merged"; Some "masked"].
Definition unit_active_state_table : list (option string) :=
  [Some "active"; Some "reloading"; Some "inactive"; Some "failed"; Some "activating";
   Some "deactivating"].
Definition unit_dependency_table : list (option string) :=
  [Some "Requires"; Some "RequiresOverridable"; Some "Requisite";
   Some "RequisiteOverridable"; Some "Wants"; Some "BindTo"; Some "RequiredBy";
   Some "RequiredByOverridable"; Some "WantedBy"; Some "BoundBy"; Some "Conflicts";
   Some "ConflictedBy"; Some "Before"; Some "After"; Some "OnFailure"; Some "References";
   Some "ReferencedBy"].

(** The numbers C gives to the enumerators. *)
Definition job_type_num (t : JobType) : Z :=
  match t with
  | JOB_START => 0 | JOB_VERIFY_ACTIVE => 1 | JOB_STOP => 2 | JOB_RELOAD => 3
  | JOB_RELOAD_OR_START => 4 | JOB_RESTART => 5 | JOB_TRY_RESTART => 6
  end%Z.
Definition job_type_of_num (z : Z) : option JobType :=
  [JOB_START; JOB_VERIFY_ACTIVE; JOB_STOP; JOB_RELOAD; JOB_RELOAD_OR_START; JOB_RESTART;
   JOB_TRY_RESTART] !! Z.to_nat z.
Definition job_type_to_string (t : JobType) : option string :=
  to_string job_type_table (job_type_num t).
Definition job_type_from_string (s : string) : option JobType :=
  let i := from_string job_type_table s in
  if bool_decide (i < 0)%Z then None else job_type_of_num i.

(** ** Laws *)

Ltac enum_cases :=
  repeat match goal with
  | t : JobType |- _ => destruct t
  | t : UnitActiveState |- _ => destruct t
  end.

Lemma job_type_merge_comm a b : job_type_merge a b = job_type_merge b a.
Proof. by destruct a, b. Qed.

Lemma job_type_merge_idemp a : job_type_merge a a = inr a.
Proof. by destruct a. Qed.

Lemma job_type_mergeable_iff a b :
  job_type_is_mergeable a b = negb (job_type_is_conflicting a b).
Proof. by destruct a, b. Qed.

Lemma job_type_merge_ok_iff a b :
  (∃ t, job_type_merge a b = inr t) ↔ job_type_is_conflicting a b = false.
Proof. destruct a, b; (split; [intros [? ?]; done || discriminate | intros; eauto]; discriminate). Qed.

Lemma merge_types_conflict t l :
  (∃ e, merge_types t l = inl e) ↔ Exists (λ k, job_type_is_conflicting t k = true) l.
Proof.
  revert t. induction l as [|k l IH]; intros t; simpl.
  { split; [by intros [? ?]|by intros ?%Exists_nil]. }
  rewrite Exists_cons. destruct (job_type_merge t k) as [e|t'] eqn:E.
  { split; [intros _; left|by eauto]. destruct t, k; done. }
  rewrite IH. assert (∀ x, job_type_is_conflicting t' x = job_type_is_conflicting t x) as Hx.
  { intros x. destruct t, k; try discriminate E; injection E as <-; done. }
  assert (job_type_is_conflicting t k = false) as Hk by (apply job_type_merge_ok_iff; eauto).
  split.
  - intros H. right. eapply Exists_impl; [exact H|]. intros x. cbv beta. by rewrite Hx.
  - intros [?|H]; [congruence|]. eapply Exists_impl; [exact H|]. intros x. cbv beta. by rewrite Hx.
Qed.

Lemma merge_types_permutation t l l' :
  l ≡ₚ l' → merge_types t l = merge_types t l'.
Proof.
  intros H. revert t. induction H as [|x l l' H IH|x y l|l l' l'' _ IH1 _ IH2]; intros t; simpl.
  - done.
  - destruct (job_type_merge t x); auto.
  - by destruct t, x, y.
  - by rewrite IH1.
Qed.

Lemma superset_refl a : job_type_is_superset a a = true.
Proof. by destruct a. Qed.
Lemma superset_trans a b c :
  job_type_is_superset a b = true → job_type_is_superset b c = true →
  job_type_is_superset a c = true.
Proof. by destruct a, b, c. Qed.
Lemma superset_antisym a b :
  job_type_is_superset a b = true → job_type_is_superset b a = true → a = b.
Proof. by destruct a, b. Qed.

Lemma job_type_merge_sup a b t c :
  job_type_merge a b = inr t →
  job_type_is_superset c t = job_type_is_superset c a && job_type_is_superset c b.
Proof. destruct a, b; try discriminate 1; injection 1 as <-; by destruct c. Qed.

Lemma merge_types_sup c l : ∀ t r, merge_types t l = inr r →
  job_type_is_superset c r = forallb (job_type_is_superset c) (t :: l).
Proof.
  induction l as [|k l IH]; intros t r; simpl.
  { intros [= <-]. by rewrite andb_true_r. }
  destruct (job_type_merge t k) as [|t'] eqn:Ek; [done|]. intros E.
  rewrite (IH t' r E). simpl. rewrite (job_type_merge_sup t k t' c Ek). by rewrite andb_assoc.
Qed.
Lemma merge_types_above t l r a :
  merge_types t l = inr r → a ∈ t :: l → job_type_is_superset r a = true.
Proof.
  intros E Ha. pose proof (merge_types_sup r l t r E) as Hs. rewrite superset_refl in Hs.
  symmetry in Hs. rewrite forallb_forall in Hs. apply Hs. by apply list_elem_of_In.
Qed.

(** C12. Merging the types of the jobs of one unit, in whatever order, fails
    exactly when a stop meets a job that is not a stop; otherwise it gives the
    smallest type that does what all of them do, the least upper bound in the
    order of [job_type_is_superset]. *)
Theorem merge_types_join t l :
  match merge_types t l with
  | inl e => e = EEXIST ∧ Exists (λ k, job_type_is_conflicting t k = true) l
  | inr r =>
      Forall (λ k, job_type_is_conflicting t k = false) l ∧
      ∀ c, job_type_is_superset c r = forallb (job_type_is_superset c) (t :: l)
  end ∧ ∀ l', l ≡ₚ l' → merge_types t l' = merge_types t l.
Proof.
  split; [|by intros l' ?; symmetry; apply merge_types_permutation].
  destruct (merge_types t l) as [e|r] eqn:E.
  - split; [|apply merge_types_conflict; eauto]. revert t E. induction l as [|k l IH]; intros t; simpl; [done|].
    destruct (job_type_merge t k) eqn:Ek; [|by apply IH].
    intros [= <-]. by destruct t, k; try discriminate Ek; injection Ek.
  - split.
    + apply Forall_forall. intros k Hk. apply not_true_iff_false. intros Hc.
      destruct (proj2 (merge_types_conflict t l)) as [e He]; [|congruence].
      apply Exists_exists. eauto.
    + intros c. by apply merge_types_sup.
Qed.

(** The names of the job types and the enumeration are in step. *)
Lemma job_type_table_total t :
  ∃ s, job_type_to_string t = Some s ∧ job_type_of_num (job_type_num t) = Some t.
Proof. destruct t; eexists; split; reflexivity. Qed.

Lemma string_table_roundtrip_witness :
  (∀ i j s, job_type_table !! i = Some (Some s) → job_type_table !! j = Some (Some s) → i = j) ∧
  (∀ i s, to_string job_type_table i = Some s → from_string job_type_table s = i).
Proof.
  assert (∀ i j s, job_type_table !! i = Some (Some s) → job_type_table !! j = Some (Some s) →
    i = j) as Hnd.
  { intros i j s. apply NoDup_lookup, (bool_decide_unpack _). vm_compute. exact I. }
  split; [exact Hnd|]. apply (string_table_roundtrip job_type_table Hnd).
Defined.
