(* ===== verification/StrUtil.v ===== *)
(** * Characters, escapes, words and paths (src/util.c)

    A C string is the list of its bytes before the NUL.  The scans over a
    string with two pointers are recursive functions on what is left; a result
    that may contain a NUL byte is cut there, as the caller will read it.
    The round trips of the escapes, and the paths as lists of
    their components, are at the end of their sections. *)

From stdpp Require Import base gmap strings list fin_maps.
From Stdlib Require Import ZArith Ascii Lia.
From S2P Require Import Prelude CString.

Local Open Scope Z_scope.

(** The bytes before the first NUL. *)
Fixpoint cut (s : string) : string :=
  match s with
  | EmptyString => EmptyString
  | String c s' => if bool_decide (code c = 0) then EmptyString else String c (cut s')
  end.
Definition nul_free (s : string) : bool := negb (mem_char "000"%char s).

(** ** Digits *)

Definition nth_char (s : string) (i : Z) : ascii := default "000"%char (String.get (Z.to_nat i) s).
Definition hexchar (x : Z) : ascii := nth_char "0123456789abcdef" (Z.land x 15).
Definition in_range (lo c hi : ascii) : bool := bool_decide (schar lo ≤ schar c ≤ schar hi).
Definition unhexchar (c : ascii) : Z :=
  if in_range "0" c "9" then schar c - schar "0"
  else if in_range "a" c "f" then schar c - schar "a" + 10
  else if in_range "A" c "F" then schar c - schar "A" + 10
  else -1.
Definition octchar (x : Z) : ascii := to_char (schar "0" + Z.land x 7).
Definition unoctchar (c : ascii) : Z := if in_range "0" c "7" then schar c - schar "0" else -1.
Definition decchar (x : Z) : ascii := to_char (schar "0" + Z.rem x 10).
Definition undecchar (c : ascii) : Z := if in_range "0" c "9" then schar c - schar "0" else -1.

(** ** Escapes *)

Definition str1 (c : ascii) : string := String c EmptyString.
Definition backslash : ascii := "\"%char.
Definition quote : ascii := "034"%char.
Definition apostrophe : ascii := "'"%char.

(** The characters with a letter of their own. *)
Definition letters : list (ascii * ascii) :=
  [("007", "a"); ("008", "b"); ("012", "f"); ("010", "n"); ("013", "r"); ("009", "t"); ("011", "v");
   (backslash, backslash); (quote, quote); (apostrophe, apostrophe)]%char.
Fixpoint assoc_letter (pick find : ascii * ascii → ascii) (l : list (ascii * ascii)) (c : ascii) : option ascii :=
  match l with
  | [] => None
  | p :: l' => if bool_decide (find p = c) then Some (pick p) else assoc_letter pick find l' c
  end.
Definition letter_of : ascii → option ascii := assoc_letter snd fst letters.
(** "\s" is an extension of the XDG syntax files. *)
Definition of_letter (d : ascii) : option ascii :=
  if bool_decide (d = "s"%char) then Some " "%char else assoc_letter fst snd letters d.

Definition cescape_char (c : ascii) : string :=
  match letter_of c with
  | Some d => String backslash (str1 d)
  | None =>
      if bool_decide (schar c < 32 ∨ 127 ≤ schar c)
      then String backslash (String (octchar (Z.shiftr (code c) 6))
             (String (octchar (Z.shiftr (code c) 3)) (str1 (octchar (code c)))))
      else str1 c
  end.
(** A string built from what its characters turn into. *)
Fixpoint map_chars (enc : ascii → string) (s : string) : string :=
  match s with EmptyString => EmptyString | String c s' => enc c +:+ map_chars enc s' end.
Definition cescape (s : string) : string := map_chars cescape_char s.

(** [length] bytes are read from [s], but an escape that starts there is read
    to its end. *)
Fixpoint cunescape_length (s : string) (length : nat) : string :=
  match length, s with
  | O, _ | _, EmptyString => EmptyString
  | S n, String c s1 =>
      if bool_decide (c ≠ backslash) then String c (cunescape_length s1 n) else
      match s1 with
      | EmptyString => str1 backslash
      | String d s2 =>
          match of_letter d with
          | Some b => String b (cunescape_length s2 (n - 1))
          | None =>
              let literal := String backslash (String d (cunescape_length s2 (n - 1))) in
              if bool_decide (d = "x"%char) then
                match s2 with
                | String e (String g s3) =>
                    let a := unhexchar e in let b := unhexchar g in
                    if bool_decide (a < 0 ∨ b < 0) then literal
                    else String (to_char (Z.lor (Z.shiftl a 4) b)) (cunescape_length s3 (n - 3))
                | _ => literal
                end
              else if bool_decide (0 ≤ unoctchar d) then
                match s2 with
                | String e (String g s3) =>
                    let a := unoctchar d in let b := unoctchar e in let c := unoctchar g in
                    if bool_decide (a < 0 ∨ b < 0 ∨ c < 0) then literal
                    else String (to_char (Z.lor (Z.lor (Z.shiftl a 6) (Z.shiftl b 3)) c)) (cunescape_length s3 (n - 3))
                | _ => literal
                end
              else literal
          end
      end
  end.
Definition cunescape (s : string) : string := cut (cunescape_length s (strlen s)).

Definition xescape_char (bad : string) (f : ascii) : string :=
  if bool_decide (schar f < 32 ∨ 127 ≤ schar f ∨ f = backslash) || mem_char f bad
  then String backslash (String "x" (String (hexchar (Z.shiftr (schar f) 4)) (str1 (hexchar (schar f)))))
  else str1 f.
Definition xescape (s bad : string) : string := map_chars (xescape_char bad) s.

Definition bus_path_escape_char (f : ascii) : string :=
  if negb (in_range "A" f "Z") && negb (in_range "a" f "z") && negb (in_range "0" f "9")
  then String "_" (String (hexchar (Z.shiftr (schar f) 4)) (str1 (hexchar (schar f))))
  else str1 f.
Definition bus_path_escape (s : string) : string := map_chars bus_path_escape_char s.
Fixpoint bus_path_unescape_rec (s : string) : string :=
  match s with
  | EmptyString => EmptyString
  | String c s1 =>
      if bool_decide (c = "_"%char) then
        match s1 with
        | String e (String g s2) =>
            let a := unhexchar e in let b := unhexchar g in
            if bool_decide (a < 0 ∨ b < 0) then String c (bus_path_unescape_rec s1)
            else String (to_char (Z.lor (Z.shiftl a 4) b)) (bus_path_unescape_rec s2)
        | _ => String c (bus_path_unescape_rec s1)
        end
      else String c (bus_path_unescape_rec s1)
  end.
Definition bus_path_unescape (s : string) : string := cut (bus_path_unescape_rec s).

(** *** The escapes are round trips *)

(** A decoder that reads back what the encoder makes of a character. *)
Lemma map_chars_roundtrip (enc : ascii → string) (dec : string → string) :
  dec EmptyString = EmptyString → (∀ c s, code c ≠ 0 → dec (enc c +:+ s) = String c (dec s)) →
  ∀ s, nul_free s = true → dec (map_chars enc s) = s.
Proof.
  intros H0 Hc s. induction s as [|c s IH]; intros Hs; [done|]. unfold nul_free in Hs. simpl in Hs.
  rewrite negb_orb in Hs. apply andb_true_iff in Hs as [Hn Hs]. simpl. rewrite Hc, IH; [done|exact Hs|].
  apply negb_true_iff, bool_decide_eq_false in Hn. intros E. apply Hn. rewrite <- (ascii_N_embedding c).
  unfold code in E. replace (N_of_ascii c) with 0%N by lia. done.
Qed.
Lemma map_chars_str1 s : map_chars str1 s = s.
Proof. induction s as [|c s IH]; [done|]. simpl. by rewrite IH. Qed.
Lemma cut_nul_free s : nul_free s = true → cut s = s.
Proof.
  intros Hs. rewrite <- (map_chars_str1 s) at 1. revert s Hs. apply map_chars_roundtrip; [done|].
  intros c s' Hc. simpl. by rewrite bool_decide_false.
Qed.

(** What holds for each of the 256 characters. *)
Definition all_chars : list ascii := ascii_of_nat <$> seq 0 256.
Lemma every_char (P : ascii → Prop) `{∀ c, Decision (P c)} :
  forallb (λ c, bool_decide (P c)) all_chars = true → ∀ c, P c.
Proof.
  rewrite List.forallb_forall. intros Hall c. apply (bool_decide_eq_true_1 (P c)), Hall.
  unfold all_chars. apply list_elem_of_In, list_elem_of_fmap. exists (nat_of_ascii c).
  split; [by rewrite ascii_nat_embedding|]. apply elem_of_seq. pose proof (nat_ascii_bounded c). lia.
Qed.
Lemma hex_roundtrip : ∀ f,
  to_char (Z.lor (Z.shiftl (unhexchar (hexchar (Z.shiftr (schar f) 4))) 4) (unhexchar (hexchar (schar f)))) = f ∧
  0 ≤ unhexchar (hexchar (Z.shiftr (schar f) 4)) ∧ 0 ≤ unhexchar (hexchar (schar f)).
Proof. apply (every_char _). vm_compute. reflexivity. Qed.
Lemma oct_roundtrip : ∀ f, to_char (Z.lor (Z.lor (Z.shiftl (unoctchar (octchar (Z.shiftr (code f) 6))) 6)
    (Z.shiftl (unoctchar (octchar (Z.shiftr (code f) 3))) 3)) (unoctchar (octchar (code f)))) = f ∧
  (0 ≤ unoctchar (octchar (Z.shiftr (code f) 6)) ∧ 0 ≤ unoctchar (octchar (Z.shiftr (code f) 3)) ∧
   0 ≤ unoctchar (octchar (code f))) ∧
  of_letter (octchar (Z.shiftr (code f) 6)) = None ∧ octchar (Z.shiftr (code f) 6) ≠ "x"%char.
Proof. apply (every_char _). vm_compute. reflexivity. Qed.
Lemma letter_roundtrip : ∀ c, match letter_of c with Some d => of_letter d = Some c | None => c ≠ backslash end.
Proof.
  apply (every_char (λ c, match letter_of c with Some d => of_letter d = Some c | None => c ≠ backslash end)
    (H := λ c, match letter_of c with Some d => _ | None => _ end)). vm_compute. reflexivity.
Qed.

#[local] Arguments String.append : simpl nomatch.
#[local] Arguments of_letter : simpl never.
#[local] Arguments unhexchar : simpl never.
#[local] Arguments unoctchar : simpl never.
#[local] Arguments hexchar : simpl never.
#[local] Arguments octchar : simpl never.
#[local] Arguments to_char : simpl never.
Lemma cunescape_cescape s : nul_free s = true → cunescape (cescape s) = s.
Proof.
  intros Hs. unfold cunescape. enough (cunescape_length (cescape s) (strlen (cescape s)) = s) as -> by (by apply cut_nul_free).
  revert s Hs. apply (map_chars_roundtrip cescape_char (λ s, cunescape_length s (strlen s))); [done|].
  intros c s _. unfold cescape_char. pose proof (letter_roundtrip c) as Hl. destruct (letter_of c) as [d|].
  - cbn. rewrite Hl, Nat.sub_0_r. done.
  - case_bool_decide as Hc.
    + destruct (oct_roundtrip c) as (E & (H1 & H2 & H3) & E4 & E5). cbn.
      rewrite (bool_decide_false (backslash ≠ backslash)) by naive_solver.
      rewrite E4, (bool_decide_false _ E5), bool_decide_true by done.
      rewrite bool_decide_false by lia. by rewrite E, Nat.sub_0_r.
    + cbn. by rewrite bool_decide_true.
Qed.

Lemma cunescape_xescape bad s : nul_free s = true → cunescape (xescape s bad) = s.
Proof.
  intros Hs. unfold cunescape. enough (cunescape_length (xescape s bad) (strlen (xescape s bad)) = s) as -> by (by apply cut_nul_free).
  revert s Hs. apply (map_chars_roundtrip (xescape_char bad) (λ s, cunescape_length s (strlen s))); [done|].
  intros c s _. unfold xescape_char. destruct (_ || _) eqn:Hc.
  - destruct (hex_roundtrip c) as (E & H1 & H2). cbn.
    rewrite (bool_decide_false (backslash ≠ backslash)) by naive_solver.
    replace (of_letter "x") with (@None ascii) by reflexivity. rewrite bool_decide_true by done.
    rewrite bool_decide_false by lia. by rewrite E, Nat.sub_0_r.
  - apply orb_false_iff in Hc as [Hc%bool_decide_eq_false _]. cbn. rewrite bool_decide_true by naive_solver. done.
Qed.

Lemma bus_path_roundtrip s : nul_free s = true → bus_path_unescape (bus_path_escape s) = s.
Proof.
  intros Hs. unfold bus_path_unescape. enough (bus_path_unescape_rec (bus_path_escape s) = s) as -> by (by apply cut_nul_free).
  revert s Hs. apply (map_chars_roundtrip bus_path_escape_char bus_path_unescape_rec); [done|].
  intros c s _. unfold bus_path_escape_char. destruct (_ && _) eqn:Hc.
  - destruct (hex_roundtrip c) as (E & H1 & H2). cbn. rewrite bool_decide_true by done.
    rewrite bool_decide_false by lia. by rewrite E.
  - cbn. rewrite bool_decide_false; [done|]. intros ->. by vm_compute in Hc.
Qed.

(** What an encoder may put out. *)
Fixpoint all_in (ok : ascii → bool) (s : string) : bool :=
  match s with EmptyString => true | String c s' => ok c && all_in ok s' end.
Definition in_charset (s charset : string) : bool := all_in (λ c, mem_char c charset) s.
Definition alnum : string := "0123456789abcdefghijklmnopqrstuvwxyzABCDEFGHIJKLMNOPQRSTUVWXYZ".
Definition printable (c : ascii) : bool := bool_decide (32 ≤ schar c < 127).
Lemma all_in_app ok s1 s2 : all_in ok (s1 +:+ s2) = all_in ok s1 && all_in ok s2.
Proof. induction s1 as [|c s1 IH]; [done|]. simpl. by rewrite IH, andb_assoc. Qed.
Lemma map_chars_all_in ok enc s : (∀ c, all_in ok (enc c) = true) → all_in ok (map_chars enc s) = true.
Proof. intros Hc. induction s as [|c s IH]; [done|]. simpl. by rewrite all_in_app, Hc, IH. Qed.

(** Outside of the escapes of [s], which are [k] characters long after their backslash, there is nothing that
    is [bad], and no escape is cut off. *)
Fixpoint bare_of (k : nat) (bad : ascii → bool) (skip : nat) (s : string) : bool :=
  match s, skip with
  | EmptyString, O => true
  | EmptyString, _ => false
  | String _ s', S n => bare_of k bad n s'
  | String c s', O => if bool_decide (c = backslash) then bare_of k bad k s' else negb (bad c) && bare_of k bad 0 s'
  end.
Lemma bare_of_app k bad x y : ∀ n, bare_of k bad n x = true → bare_of k bad n (x +:+ y) = bare_of k bad 0 y.
Proof.
  induction x as [|c x IH]; intros [|n] Hx; simpl in *; try done; [|by apply IH].
  destruct (bool_decide (c = backslash)); [by apply IH|].
  apply andb_true_iff in Hx as [-> Hx]. simpl. by apply IH.
Qed.
Lemma map_chars_bare k bad enc s :
  (∀ c, bare_of k bad 0 (enc c) = true) → bare_of k bad 0 (map_chars enc s) = true.
Proof. intros Hc. induction s as [|c s IH]; [done|]. simpl. by rewrite bare_of_app by apply Hc. Qed.

Definition is_quote (c : ascii) : bool := bool_decide (c = quote ∨ c = "'"%char).
Definition hex_escape (f : ascii) : string :=
  String backslash (String "x" (String (hexchar (Z.shiftr (schar f) 4)) (str1 (hexchar (schar f))))).
Lemma xescape_char_bare bad f : bare_of 3 (λ c, mem_char c bad) 0 (xescape_char bad f) = true.
Proof.
  unfold xescape_char. destruct (_ || mem_char f bad) eqn:E; [reflexivity|].
  apply orb_false_iff in E as [E Hb]. apply bool_decide_eq_false in E. simpl.
  rewrite bool_decide_false by tauto. by rewrite Hb.
Qed.
Lemma xescape_char_printable bad f : all_in printable (xescape_char bad f) = true.
Proof.
  unfold xescape_char. destruct (_ || mem_char f bad) eqn:E.
  - change (all_in printable (hex_escape f) = true).
    apply (every_char (λ c, all_in printable (hex_escape c) = true)). vm_compute. reflexivity.
  - apply orb_false_iff in E as [E _]. apply bool_decide_eq_false in E. simpl. rewrite andb_true_r.
    unfold printable. apply bool_decide_eq_true. lia.
Qed.

(** C25. The three escapes are reversible on every C string, and put out what they are for.  [cescape]
    puts out printable characters only, and no quote that is not escaped; [xescape] puts out
    printable characters only, and outside of its escapes, of the form [\xHH], no character it was told to
    escape; [bus_path_escape] puts out letters, digits and underscores only.  [cunescape]
    undoes [xescape] whatever further characters were escaped. *)
Theorem escapes_roundtrip s : nul_free s = true →
  (cunescape (cescape s) = s ∧ all_in printable (cescape s) = true ∧ bare_of 1 is_quote 0 (cescape s) = true) ∧
  (∀ bad, cunescape (xescape s bad) = s ∧ all_in printable (xescape s bad) = true ∧
     bare_of 3 (λ c, mem_char c bad) 0 (xescape s bad) = true) ∧
  (bus_path_unescape (bus_path_escape s) = s ∧ in_charset (bus_path_escape s) (String "_" alnum) = true).
Proof.
  intros Hs. split; [split_and!|split; [intros bad; split_and!|split]].
  - by apply cunescape_cescape.
  - apply map_chars_all_in. apply (every_char (λ c, all_in printable (cescape_char c) = true)). vm_compute. reflexivity.
  - apply map_chars_bare. apply (every_char (λ c, bare_of 1 is_quote 0 (cescape_char c) = true)). vm_compute. reflexivity.
  - by apply cunescape_xescape.
  - apply map_chars_all_in, xescape_char_printable.
  - apply map_chars_bare, xescape_char_bare.
  - by apply bus_path_roundtrip.
  - apply map_chars_all_in.
    apply (every_char (λ c, all_in (λ c, mem_char c (String "_" alnum)) (bus_path_escape_char c) = true)).
    vm_compute. reflexivity.
Qed.
Lemma escapes_roundtrip_witness :
  let s := "a/b\c d_" +:+ str1 quote +:+ str1 (ascii_of_nat 200) in
  nul_free s = true ∧ cunescape (cescape s) = s ∧ cunescape (xescape s "/ ") = s ∧
  bare_of 3 (λ c, mem_char c "/ ") 0 (xescape s "/ ") = true ∧ bus_path_escape s = "a_2fb_5cc_20d_5f_22_c8" ∧ bus_path_unescape (bus_path_escape s) = s.
Proof.
  destruct (escapes_roundtrip ("a/b\c d_" +:+ str1 quote +:+ str1 (ascii_of_nat 200)) ltac:(vm_compute; reflexivity))
    as ([H1 _] & H2 & H3 & _). split_and!; [reflexivity|exact H1|apply H2|apply H2|reflexivity|exact H3].
Defined.
