(* ===== verification/Paths.v ===== *)
(** * Words and paths (src/util.c)

    [words sep s]: the pieces of [s] between characters of [sep], the reference
    for [split] and, with a slash, for the functions on paths, that walk
    over the text in place. *)

From stdpp Require Import base gmap strings list fin_maps.
From Stdlib Require Import ZArith Ascii Lia.
From S2P Require Import Prelude CString StrUtil.

Definition newline : ascii := "010"%char.
Definition WHITESPACE : string := String " " (String "009" (String newline (str1 "013"))).
Definition NEWLINE : string := String newline (str1 "013").
Definition QUOTES : string := String quote (str1 apostrophe).

(** [memcmp(a, b, n) == 0] where both have [n] bytes *)
Definition same_start (n : nat) (a b : string) : bool := bool_decide (str_take n a = str_take n b).

Definition endswith (s postfix : string) : bool :=
  let sl := strlen s in let pl := strlen postfix in
  if bool_decide (pl = 0) then true else if bool_decide (sl < pl) then false
  else bool_decide (str_drop (sl - pl) s = postfix).
Definition startswith (s prefix : string) : bool :=
  let pl := strlen prefix in
  if bool_decide (pl = 0) then true else if bool_decide (strlen s < pl) then false else same_start pl s prefix.
Fixpoint startswith_no_case (s prefix : string) : bool :=
  match prefix, s with
  | EmptyString, _ => true
  | String _ _, EmptyString => false
  | String p prefix', String c s' => bool_decide (tolower c = tolower p) && startswith_no_case s' prefix'
  end.
Definition first_word (s word : string) : bool :=
  let wl := strlen word in
  if bool_decide (strlen s < wl) then false else if bool_decide (wl = 0) then true
  else if negb (same_start wl s word) then false
  else match str_drop wl s with EmptyString => true | String c _ => mem_char c WHITESPACE end.

(** ** Splitting *)

(** One call: the word, and what [*state] points to afterwards. *)
Definition split (current separator : string) : option (string * string) :=
  match current with
  | EmptyString => None
  | _ =>
      let current := str_drop (strspn current separator) current in
      let l := strcspn current separator in
      Some (str_take l current, str_drop l current)
  end.

(** Up to the end of a word: the raw text and what follows it.  A backslash
    keeps the next character from ending it. *)
Fixpoint word_end (stop : ascii → bool) (escaped : bool) (s : string) : string * string :=
  match s with
  | EmptyString => (EmptyString, EmptyString)
  | String c s' =>
      if escaped then let '(w, r) := word_end stop false s' in (String c w, r)
      else if bool_decide (c = backslash) then let '(w, r) := word_end stop true s' in (String c w, r)
      else if stop c then (EmptyString, s)
      else let '(w, r) := word_end stop false s' in (String c w, r)
  end.
Definition after_quote (wr : string * string) : string * string :=
  (wr.1, match wr.2 with EmptyString => EmptyString | String _ r => r end).
Definition split_quoted (current : string) : option (string * string) :=
  match current with
  | EmptyString => None
  | _ =>
      Some (match str_drop (strspn current WHITESPACE) current with
            | String c s =>
                if bool_decide (c = apostrophe) then after_quote (word_end (λ e, bool_decide (e = apostrophe)) false s)
                else if bool_decide (c = quote) then after_quote (word_end (λ e, bool_decide (e = quote)) false s)
                else word_end (λ e, mem_char e WHITESPACE) false (String c s)
            | EmptyString => (EmptyString, EmptyString)
            end)
  end.
(** [FOREACH_WORD], [FOREACH_WORD_SEPARATOR], [FOREACH_WORD_QUOTED] *)
Fixpoint foreach_word (next : string → option (string * string)) (n : nat) (state : string) : option (list string) :=
  match next state with
  | None => Some []
  | Some (w, state') =>
      match n with O => None | S n' => cons w <$> foreach_word next n' state' end
  end.
(** Every word takes a character of the string at least. *)
Definition strv_split (s separator : string) : option (list string) :=
  foreach_word (λ c, split c separator) (strlen s) s.
Definition strv_split_quoted (s : string) : option (list string) :=
  option_map (map (λ w, cut (cunescape_length w (strlen w)))) (foreach_word split_quoted (strlen s) s).

(** ** Paths *)

Definition slash : ascii := "/"%char.
Definition slashes : string := "/".
Definition path_is_absolute (p : string) : bool := match p with String c _ => bool_decide (c = slash) | EmptyString => false end.
Definition is_path (p : string) : bool := mem_char slash p.
Definition path_make_absolute (p : string) (prefix : option string) : string :=
  match prefix with
  | Some prefix => if path_is_absolute p then p else prefix +:+ "/" +:+ p
  | None => p
  end.
Definition file_name_from_path (p : string) : string := match rsplit_at p slash with Some (_, r) => r | None => p end.
Definition file_in_same_dir (path filename : string) : string :=
  if path_is_absolute filename then filename else
  match rsplit_at path slash with Some (dir, _) => dir +:+ "/" +:+ filename | None => filename end.

Fixpoint kill_slashes_rec (slash_seen : bool) (s : string) : string :=
  match s with
  | EmptyString => EmptyString
  | String c s' =>
      if bool_decide (c = slash) then kill_slashes_rec true s'
      else (if slash_seen then String slash else id) (String c (kill_slashes_rec false s'))
  end.
Definition path_kill_slashes (path : string) : string :=
  let r := kill_slashes_rec false path in
  if bool_decide (r = EmptyString ∧ path ≠ EmptyString) then slashes else r.

(** [None] where the loop ran out of fuel. *)
Fixpoint path_startswith_rec (n : nat) (path prefix : string) : option bool :=
  match n with
  | O => None
  | S n' =>
      let path := str_drop (strspn path slashes) path in
      let prefix := str_drop (strspn prefix slashes) prefix in
      if bool_decide (prefix = EmptyString) then Some true
      else if bool_decide (path = EmptyString) then Some false
      else
        let a := strcspn path slashes in let b := strcspn prefix slashes in
        if bool_decide (a ≠ b) then Some false
        else if negb (same_start a path prefix) then Some false
        else path_startswith_rec n' (str_drop a path) (str_drop b prefix)
  end.
Definition path_startswith (path prefix : string) : option bool :=
  if bool_decide (path_is_absolute path ≠ path_is_absolute prefix) then Some false
  else path_startswith_rec (S (strlen prefix)) path prefix.
Fixpoint path_equal_rec (n : nat) (a b : string) : option bool :=
  match n with
  | O => None
  | S n' =>
      let a := str_drop (strspn a slashes) a in
      let b := str_drop (strspn b slashes) b in
      if bool_decide (a = EmptyString ∧ b = EmptyString) then Some true
      else if bool_decide (a = EmptyString ∨ b = EmptyString) then Some false
      else
        let j := strcspn a slashes in let k := strcspn b slashes in
        if bool_decide (j ≠ k) then Some false
        else if negb (same_start j a b) then Some false
        else path_equal_rec n' (str_drop j a) (str_drop k b)
  end.
Definition path_equal (a b : string) : option bool :=
  if bool_decide (path_is_absolute a ≠ path_is_absolute b) then Some false
  else path_equal_rec (S (strlen a)) a b.
Definition is_device_path (path : string) : option bool :=
  d ← path_startswith path "/dev/"; s ← path_startswith path "/sys/"; Some (d || s).

(** The starts of the last two runs of slashes. *)
Fixpoint slash_runs (i : nat) (a b : option nat) (in_run : bool) (s : string) : option nat * option nat :=
  match s with
  | EmptyString => (a, b)
  | String c s' =>
      if bool_decide (c = slash) then
        if in_run then slash_runs (S i) a b true s' else slash_runs (S i) b (Some i) true s'
      else slash_runs (S i) a b false s'
  end.
Definition parent_of_path (path : string) : Z + string :=
  if bool_decide (path = EmptyString) then inl (- EINVAL)%Z else
  let '(a, b) := slash_runs 0 None None false path in
  match (if bool_decide (String.get (strlen path - 1) path = Some slash) then a else b) with
  | None => inl (- EINVAL)%Z
  | Some O => inr slashes
  | Some p => inr (str_take p path)
  end.
Fixpoint any_equal (parent : string) (search : list string) : option Z :=
  match search with
  | [] => Some 0%Z
  | i :: search' => e ← path_equal parent i; if e : bool then Some 1%Z else any_equal parent search'
  end.
Definition in_search_path (path : string) (search : list string) : option Z :=
  match parent_of_path path with inl r => Some r | inr parent => any_equal parent search end.

(** ** The reference: words, and paths as lists of names *)

Definition push (w : string) (l : list string) : list string := match w with EmptyString => l | _ => w :: l end.
(** The first piece, which may be empty, and the other words. *)
Fixpoint pieces (sep s : string) : string * list string :=
  match s with
  | EmptyString => (EmptyString, [])
  | String c s' =>
      let '(w, l) := pieces sep s' in
      if mem_char c sep then (EmptyString, push w l) else (String c w, l)
  end.
Definition words (sep s : string) : list string := let '(w, l) := pieces sep s in push w l.
Definition components (p : string) : list string := words slashes p.
Fixpoint join_with (sep : string) (l : list string) : string :=
  match l with
  | [] => EmptyString
  | [w] => w
  | w :: l' => w +:+ sep +:+ join_with sep l'
  end.
Definition path_of (absolute : bool) (l : list string) : string :=
  (if absolute then slashes else EmptyString) +:+ join_with slashes l.

(** ** Walking over the text *)

Lemma pieces_eq sep s :
  pieces sep s = (str_take (strcspn s sep) s, words sep (str_drop (strcspn s sep) s)).
Proof.
  induction s as [|c s IH]; [done|]. cbn [pieces strcspn]. destruct (mem_char c sep) eqn:Hc.
  - cbn [str_take str_drop]. unfold words at 1. cbn [pieces]. by rewrite Hc; destruct (pieces sep s).
  - rewrite IH. by cbn [str_take str_drop].
Qed.
Lemma words_cons_sep sep c s : mem_char c sep = true → words sep (String c s) = words sep s.
Proof. intros Hc. unfold words. cbn [pieces]. rewrite Hc. by destruct (pieces sep s). Qed.
Lemma words_skip sep s : words sep (str_drop (strspn s sep) s) = words sep s.
Proof.
  induction s as [|c s IH]; [done|]. cbn [strspn]. destruct (mem_char c sep) eqn:Hc; [|done].
  cbn [str_drop]. by rewrite IH, words_cons_sep.
Qed.
Lemma words_take sep c s : mem_char c sep = false →
  words sep (String c s) = str_take (strcspn (String c s) sep) (String c s) :: words sep (str_drop (strcspn (String c s) sep) (String c s)).
Proof. intros Hc. unfold words at 1. rewrite pieces_eq. cbn [strcspn]. rewrite Hc. by cbn [str_take str_drop push]. Qed.
Lemma words_nil sep : words sep EmptyString = [].
Proof. done. Qed.

(** After the separators there is a word or nothing. *)
Lemma skip_head sep s : match str_drop (strspn s sep) s with String c _ => mem_char c sep = false | EmptyString => True end.
Proof.
  induction s as [|c s IH]; [done|]. cbn [strspn]. destruct (mem_char c sep) eqn:Hc; [exact IH|exact Hc].
Qed.
Lemma str_drop_length n s : strlen (str_drop n s) = strlen s - n.
Proof. revert s. induction n as [|n IH]; intros [|c s]; simpl; auto. Qed.
Lemma str_drop_0 s : str_drop 0 s = s.
Proof. by destruct s. Qed.
Lemma strspn_le s sep : strspn s sep ≤ strlen s.
Proof. unfold strlen. induction s as [|c s IH]; simpl; [done|]. case_match; lia. Qed.
Lemma strcspn_le s sep : strcspn s sep ≤ strlen s.
Proof. unfold strlen. induction s as [|c s IH]; simpl; [done|]. case_match; lia. Qed.
Lemma str_take_drop n s : str_take n s +:+ str_drop n s = s.
Proof.
  revert s. induction n as [|n IH]; intros [|c s]; simpl; try done.
  change (String c (str_take n s +:+ str_drop n s) = String c s). by rewrite IH.
Qed.
Lemma str_take_length n s : strlen (str_take n s) = Nat.min n (strlen s).
Proof. revert s. induction n as [|n IH]; intros [|c s]; simpl; auto. Qed.

Lemma words_start sep s s' : str_drop (strspn s sep) s = s' →
  words sep s = match s' with EmptyString => [] | _ => str_take (strcspn s' sep) s' :: words sep (str_drop (strcspn s' sep) s') end.
Proof.
  intros <-. rewrite <- words_skip. pose proof (skip_head sep s) as Hh.
  destruct (str_drop (strspn s sep) s) as [|c s']; [done|]. by apply words_take.
Qed.
Lemma word_length sep s c s' : str_drop (strspn s sep) s = String c s' →
  strlen (str_take (strcspn (String c s') sep) (String c s')) = strcspn (String c s') sep ∧ 0 < strcspn (String c s') sep ∧
  strlen (str_drop (strcspn (String c s') sep) (String c s')) < strlen s.
Proof.
  intros E. pose proof (skip_head sep s) as Hh. rewrite E in Hh.
  assert (strlen (String c s') ≤ strlen s) as Hl by (rewrite <- E, str_drop_length; lia).
  assert (0 < strcspn (String c s') sep) as Hp by (cbn [strcspn]; rewrite Hh; lia).
  pose proof (strcspn_le (String c s') sep). rewrite str_take_length, str_drop_length. lia.
Qed.

Lemma append_length a b : strlen (a +:+ b) = strlen a + strlen b.
Proof. induction a as [|c a IH]; [done|]. change (S (strlen (a +:+ b)) = S (strlen a) + strlen b). lia. Qed.

Lemma mem_char_app c a b : mem_char c (a +:+ b) = mem_char c a || mem_char c b.
Proof. induction a as [|d a IH]; [done|]. simpl. by rewrite IH, orb_assoc. Qed.

Lemma str_take_self p : str_take (strlen p) p = p.
Proof. induction p as [|c p IH]; [done|]. cbn [strlen String.length str_take]. unfold strlen in IH. by rewrite IH. Qed.

(** The two loops over paths compare the lists of components. *)
Lemma path_equal_rec_spec n : ∀ a b, strlen a < n →
  path_equal_rec n a b = Some (bool_decide (components a = components b)).
Proof.
  induction n as [|n IH]; intros a b Hn; [lia|]. cbn [path_equal_rec]. unfold components.
  rewrite (words_start slashes a _ eq_refl), (words_start slashes b _ eq_refl).
  destruct (str_drop (strspn a slashes) a) as [|c a'] eqn:Ea, (str_drop (strspn b slashes) b) as [|d b'] eqn:Eb.
  - by rewrite !bool_decide_true by auto.
  - by rewrite bool_decide_false, bool_decide_true, bool_decide_false by naive_solver.
  - by rewrite bool_decide_false, bool_decide_true, bool_decide_false by naive_solver.
  - rewrite (bool_decide_false (_ ∧ _)), (bool_decide_false (_ ∨ _)) by naive_solver.
    destruct (word_length _ _ _ _ Ea) as (La & Pa & Da). destruct (word_length _ _ _ _ Eb) as (Lb & Pb & Db).
    case_bool_decide as Hjk; [rewrite bool_decide_false; [done|]|].
    { intros [E _]%(inj2 cons). apply (f_equal strlen) in E. rewrite La, Lb in E. done. }
    unfold same_start. case_bool_decide as Hsame; cbn [negb].
    + rewrite IH by lia. f_equal. apply bool_decide_ext. rewrite <- Hjk, Hsame. unfold components. rewrite Hjk.
      split; [by intros ->|by intros [_ ?]%(inj2 cons)].
    + rewrite bool_decide_false; [done|]. rewrite <- Hjk. by intros [? _]%(inj2 cons).
Qed.
Lemma path_startswith_rec_spec n : ∀ path prefix, strlen prefix < n →
  path_startswith_rec n path prefix = Some (bool_decide (components prefix `prefix_of` components path)).
Proof.
  induction n as [|n IH]; intros a b Hn; [lia|]. cbn [path_startswith_rec]. unfold components.
  rewrite (words_start slashes a _ eq_refl), (words_start slashes b _ eq_refl).
  destruct (str_drop (strspn b slashes) b) as [|d b'] eqn:Eb.
  { rewrite !bool_decide_true; [done|apply prefix_nil|done]. }
  destruct (str_drop (strspn a slashes) a) as [|c a'] eqn:Ea; rewrite (bool_decide_false (_ = "")) by done.
  { rewrite bool_decide_true, bool_decide_false; [done|apply prefix_nil_not|done]. }
  rewrite bool_decide_false by done.
  destruct (word_length _ _ _ _ Ea) as (La & Pa & Da). destruct (word_length _ _ _ _ Eb) as (Lb & Pb & Db).
  case_bool_decide as Hjk; [rewrite bool_decide_false; [done|]|].
  { intros E%prefix_cons_inv_1. apply (f_equal strlen) in E. rewrite La, Lb in E. done. }
  unfold same_start. case_bool_decide as Hsame; cbn [negb].
  - rewrite IH by lia. f_equal. apply bool_decide_ext. rewrite <- Hjk, Hsame. unfold components. rewrite Hjk.
    split; [apply prefix_cons|apply prefix_cons_inv_2].
  - rewrite bool_decide_false; [done|]. rewrite <- Hjk. intros E%prefix_cons_inv_1. done.
Qed.

(** [path_kill_slashes] writes the components down again. *)
Fixpoint with_slashes (l : list string) : string :=
  match l with [] => EmptyString | w :: l' => slashes +:+ w +:+ with_slashes l' end.
Lemma append_nil_r s : s +:+ "" = s.
Proof. induction s as [|c s IH]; [done|]. change (String c (s +:+ "") = String c s). by rewrite IH. Qed.
Lemma append_assoc (a b c : string) : (a +:+ b) +:+ c = a +:+ b +:+ c.
Proof. induction a as [|x a IH]; [done|]. change (String x ((a +:+ b) +:+ c) = String x (a +:+ b +:+ c)). by rewrite IH. Qed.
Lemma join_with_slashes w l : w +:+ with_slashes l = join_with slashes (w :: l).
Proof.
  revert w. induction l as [|x l IH]; intros w; simpl; [apply append_nil_r|]. by rewrite IH.
Qed.
Lemma kill_slashes_rec_spec s :
  kill_slashes_rec false s = (pieces slashes s).1 +:+ with_slashes (pieces slashes s).2 ∧
  kill_slashes_rec true s = with_slashes (words slashes s).
Proof.
  unfold words. induction s as [|c s [IH1 IH2]]; [done|]. cbn [pieces kill_slashes_rec].
  assert (mem_char c slashes = bool_decide (c = slash)) as -> by (simpl; by rewrite orb_false_r).
  destruct (pieces slashes s) as [w l]. simpl in IH1, IH2. case_bool_decide as Hc; simpl.
  - by rewrite IH2.
  - by rewrite IH1.
Qed.
Lemma is_absolute_pieces p : p ≠ EmptyString →
  path_is_absolute p = bool_decide ((pieces slashes p).1 = EmptyString).
Proof.
  destruct p as [|c p]; [done|]. intros _. cbn [path_is_absolute pieces].
  assert (mem_char c slashes = bool_decide (c = slash)) as -> by (simpl; by rewrite orb_false_r).
  destruct (pieces slashes p). by case_bool_decide.
Qed.
Lemma path_kill_slashes_spec p : path_kill_slashes p = path_of (path_is_absolute p) (components p).
Proof.
  destruct (decide (p = EmptyString)) as [->|Hp]; [done|]. unfold path_kill_slashes, path_of, components, words.
  destruct (kill_slashes_rec_spec p) as [-> _]. rewrite is_absolute_pieces by done.
  destruct (pieces slashes p) as [w l]. cbn [fst snd]. destruct w as [|c w]; cbn [push].
  - destruct l as [|x l]; [by rewrite !bool_decide_true|]. rewrite bool_decide_false by (by intros [? _]).
    rewrite bool_decide_true by done. simpl. by rewrite join_with_slashes.
  - rewrite (bool_decide_false (_ ∧ _)), (bool_decide_false (_ = "")) by (done || by intros [? _]). apply join_with_slashes.
Qed.

(** A word and a list of words, as they come out of [pieces]. *)
Definition clean (sep w : string) : Prop := all_in (λ c, negb (mem_char c sep)) w = true.
Definition clean_word (sep w : string) : Prop := clean sep w ∧ w ≠ EmptyString.
Lemma Forall_push sep w l : clean sep w → Forall (clean_word sep) l → Forall (clean_word sep) (push w l).
Proof. intros Hw Hl. destruct w; [done|]. constructor; [by split|done]. Qed.
Lemma pieces_clean sep s : clean sep (pieces sep s).1 ∧ Forall (clean_word sep) (pieces sep s).2.
Proof.
  induction s as [|c s IH]; [by split|]. cbn [pieces]. destruct (pieces sep s) as [w l]. destruct IH as [Hw Hl].
  destruct (mem_char c sep) eqn:Hc; split; cbn in *; [done|by apply Forall_push| |done].
  unfold clean. cbn. by rewrite Hc.
Qed.
Lemma words_clean sep s : Forall (clean_word sep) (words sep s).
Proof. unfold words. destruct (pieces sep s) as [w l] eqn:E. pose proof (pieces_clean sep s) as [??]. rewrite E in *. by apply Forall_push. Qed.
Lemma pieces_app sep w r : clean sep w → pieces sep (w +:+ r) = (w +:+ (pieces sep r).1, (pieces sep r).2).
Proof.
  unfold clean. induction w as [|c w IH]; intros Hw.
  { change ("" +:+ r) with r. destruct (pieces sep r) as [w l]. done. } cbn in Hw.
  apply andb_true_iff in Hw as [Hc Hw]. change (String c w +:+ r) with (String c (w +:+ r)). cbn [pieces].
  rewrite (IH Hw). by apply negb_true_iff in Hc as ->.
Qed.
Lemma pieces_with_slashes l : Forall (clean_word slashes) l → pieces slashes (with_slashes l) = (EmptyString, l).
Proof.
  induction 1 as [|w l [Hw Hne] Hl IH]; [done|]. cbn [with_slashes].
  change (slashes +:+ w +:+ with_slashes l) with (String slash (w +:+ with_slashes l)). cbn [pieces].
  rewrite pieces_app, IH by done. cbn. rewrite append_nil_r. by destruct w.
Qed.
Lemma path_of_roundtrip ab l : Forall (clean_word slashes) l →
  components (path_of ab l) = l ∧ (ab = true ∨ l ≠ [] → path_is_absolute (path_of ab l) = ab).
Proof.
  intros Hl. unfold components, words, path_of. destruct l as [|w l]; [destruct ab; by split; [|intros []]|].
  rewrite <- join_with_slashes. apply Forall_cons in Hl as [[Hw Hne] Hl].
  assert (pieces slashes (w +:+ with_slashes l) = (w, l)) as E.
  { rewrite pieces_app, pieces_with_slashes by done. simpl. by rewrite append_nil_r. }
  destruct ab.
  - change (slashes +:+ w +:+ with_slashes l) with (String slash (w +:+ with_slashes l)). cbn [pieces]. rewrite E.
    split; [by destruct w|done].
  - change (EmptyString +:+ w +:+ with_slashes l) with (w +:+ with_slashes l). rewrite E. split; [by destruct w|].
    intros _. rewrite is_absolute_pieces; [rewrite E; by destruct w|by destruct w].
Qed.

(** C26.  The functions on paths agree with paths as lists of names: two paths
    are equal when both or neither are absolute and their components are the
    same, one starts with another when its components do; [path_kill_slashes] writes the
    components down with single slashes, which is an equal path and does not
    change when it is done again; the loops come to their end on every text. *)
Theorem paths_are_components a b :
  path_equal a b = Some (bool_decide (path_is_absolute a = path_is_absolute b ∧ components a = components b)) ∧
  path_startswith a b =
    Some (bool_decide (path_is_absolute a = path_is_absolute b ∧ components b `prefix_of` components a)) ∧
  path_kill_slashes a = path_of (path_is_absolute a) (components a) ∧
  path_equal a (path_kill_slashes a) = Some true ∧ path_kill_slashes (path_kill_slashes a) = path_kill_slashes a.
Proof.
  assert (∀ a b, path_equal a b = Some (bool_decide (path_is_absolute a = path_is_absolute b ∧ components a = components b))) as Heq.
  { intros x y. unfold path_equal. case_bool_decide as Hab; [by rewrite bool_decide_false by naive_solver|].
    rewrite path_equal_rec_spec by lia. f_equal. apply bool_decide_ext. naive_solver. }
  assert (components (path_kill_slashes a) = components a ∧ path_is_absolute (path_kill_slashes a) = path_is_absolute a) as [Ec Ea].
  { rewrite path_kill_slashes_spec. destruct (path_of_roundtrip (path_is_absolute a) (components a) (words_clean _ _)) as [H1 H2].
    split; [done|]. destruct (components a); [|by apply H2; right]. by destruct (path_is_absolute a). }
  split_and!; [apply Heq| |apply path_kill_slashes_spec| |].
  - unfold path_startswith. case_bool_decide as Hab; [by rewrite bool_decide_false by naive_solver|].
    rewrite path_startswith_rec_spec by lia. f_equal. apply bool_decide_ext. naive_solver.
  - rewrite Heq, Ec, Ea. by rewrite bool_decide_true.
  - by rewrite (path_kill_slashes_spec (path_kill_slashes a)), Ec, Ea, path_kill_slashes_spec.
Qed.

(** ** Splitting into words *)

Fixpoint ends_in (sep s : string) : bool :=
  match s with
  | EmptyString => false
  | String c s' => match s' with EmptyString => mem_char c sep | _ => ends_in sep s' end
  end.
Lemma ends_in_app sep a b : b ≠ EmptyString → ends_in sep (a +:+ b) = ends_in sep b.
Proof.
  intros Hb. induction a as [|c a IH]; [done|]. change (String c a +:+ b) with (String c (a +:+ b)). cbn [ends_in].
  rewrite <- IH. destruct (a +:+ b) eqn:E; [|done]. destruct a; [by simpl in E|done].
Qed.
Lemma ends_in_clean sep w : clean sep w → ends_in sep w = false.
Proof.
  unfold clean. induction w as [|c w IH]; intros Hw; [done|]. cbn in *. apply andb_true_iff in Hw as [Hc Hw].
  destruct w; [by apply negb_true_iff|by apply IH].
Qed.
Lemma clean_take sep s : clean sep (str_take (strcspn s sep) s).
Proof. pose proof (pieces_clean sep s) as [H _]. by rewrite pieces_eq in H. Qed.
Lemma ends_in_skip sep s : str_drop (strspn s sep) s = EmptyString → s ≠ EmptyString → ends_in sep s = true.
Proof.
  induction s as [|c s IH]; [done|]. cbn [strspn]. destruct (mem_char c sep) eqn:Hc; [|done]. cbn [str_drop ends_in].
  intros Hs _. destruct s; [done|by apply IH].
Qed.

Lemma split_nonempty s sep : s ≠ EmptyString → split s sep =
  Some (str_take (strcspn (str_drop (strspn s sep) s) sep) (str_drop (strspn s sep) s),
        str_drop (strcspn (str_drop (strspn s sep) s) sep) (str_drop (strspn s sep) s)).
Proof. by destruct s. Qed.

(** C27.  [strv_split] cuts a string into the words between its separators, in
    order, and ends; where the string ends with a separator there is an empty
    word more at the end. *)
Theorem strv_split_words s sep :
  strv_split s sep = Some (words sep s ++ (if ends_in sep s then [EmptyString] else [])).
Proof.
  unfold strv_split. assert (∀ n s, strlen s ≤ n → foreach_word (λ c, split c sep) n s =
    Some (words sep s ++ (if ends_in sep s then [EmptyString] else []))) as Hw; [|by apply Hw].
  clear s. intros n. induction n as [|n IH]; intros s Hn; (destruct (decide (s = EmptyString)) as [->|Hs]; [done|]).
  { by destruct s; [|simpl in Hn; lia]. }
  cbn [foreach_word]. rewrite split_nonempty by done. rewrite (words_start sep s _ eq_refl).
  destruct (str_drop (strspn s sep) s) as [|c s'] eqn:E.
  - rewrite (ends_in_skip sep s E) by done. by destruct n.
  - destruct (word_length _ _ _ _ E) as (Hl & Hp & Hd). set (w := str_take _ _) in *. set (r := str_drop (strcspn (String c s') sep) (String c s')) in *.
    rewrite IH by lia. cbn [fmap option_fmap option_map app]. f_equal. f_equal. f_equal.
    assert (s = str_take (strspn s sep) s +:+ w +:+ r) as Es.
    { unfold w, r. rewrite str_take_drop. rewrite <- E. by rewrite str_take_drop. }
    rewrite Es. destruct r as [|d r'] eqn:Er.
    + rewrite append_nil_r, ends_in_app; [|intros Ew; rewrite Ew in Hl; cbn [strlen String.length] in Hl; lia].
      by rewrite (ends_in_clean sep w (clean_take _ _)).
    + rewrite !ends_in_app; [done|done|]. by destruct w.
Qed.
