(* ===== verification/UnitName.v ===== *)
(** * Unit names (src/unit-name.c, and the types of names in src/unit.c)

    A name is [prefix.suffix] or [prefix@instance.suffix].  Texts of any kind
    become names by an escape that turns slashes into dashes.  Where the code
    asserts something of its arguments the functions answer [None] if it does
    not hold; allocation succeeds. *)

From stdpp Require Import base gmap strings list fin_maps.
From Stdlib Require Import ZArith Ascii Lia.
From S2P Require Import Prelude CString JobType StrUtil Paths.

Definition dash : ascii := "-"%char.
Definition at_sign : ascii := "@"%char.
Definition dot : ascii := "."%char.
Definition UNIT_NAME_MAX : nat := 256.
Definition VALID_CHARS : string :=
  "0123456789" +:+ "abcdefghijklmnopqrstuvwxyz" +:+ "ABCDEFGHIJKLMNOPQRSTUVWXYZ" +:+ ":-_.\".

Definition unit_name_is_valid_no_type (n : string) (template_ok : bool) : bool :=
  if bool_decide (UNIT_NAME_MAX ≤ strlen n) then false else
  match rsplit_at n dot with
  | None => false
  | Some (s, _) =>
      if bool_decide (s = EmptyString) then false
      else if negb (in_charset s ("@" +:+ VALID_CHARS)) then false
      else match split_at s at_sign with
           | Some (p, i) =>
               if bool_decide (p = EmptyString) then false
               else negb (negb template_ok && bool_decide (i = EmptyString))
           | None => true
           end
  end.
Definition unit_instance_is_valid (i : string) : bool :=
  if bool_decide (i = EmptyString) then false else in_charset i ("@" +:+ VALID_CHARS).
Definition unit_prefix_is_valid (p : string) : bool :=
  if bool_decide (p = EmptyString) then false else in_charset p VALID_CHARS.

(** The text between the first @ and the last dot, if there is an @. *)
Definition unit_name_to_instance (n : string) : option (option string) :=
  match split_at n at_sign with
  | None => Some None
  | Some (p, _) =>
      '(d, _) ← rsplit_at n dot;
      if bool_decide (strlen p < strlen d) then Some (Some (str_drop (S (strlen p)) d)) else None
  end.
Definition unit_name_to_prefix_and_instance (n : string) : option string :=
  '(d, _) ← rsplit_at n dot; Some d.
Definition unit_name_to_prefix (n : string) : option string :=
  match split_at n at_sign with
  | Some (p, _) => Some p
  | None => unit_name_to_prefix_and_instance n
  end.
Definition unit_name_change_suffix (n suffix : string) : option string :=
  if negb (unit_name_is_valid_no_type n true) then None else
  '(e, _) ← rsplit_at n dot; Some (e +:+ suffix).
Definition unit_name_build (prefix : string) (instance : option string) (suffix : string) : option string :=
  if negb (unit_prefix_is_valid prefix) then None else
  match instance with
  | None => Some (prefix +:+ suffix)
  | Some i => if unit_instance_is_valid i then Some (prefix +:+ "@" +:+ i +:+ suffix) else None
  end.

Definition escape_char (f : ascii) : string :=
  if bool_decide (f = slash) then str1 dash
  else if bool_decide (f = dash ∨ f = backslash) || negb (mem_char f VALID_CHARS)
  then String backslash (String "x" (String (hexchar (Z.shiftr (schar f) 4)) (str1 (hexchar (schar f)))))
  else str1 f.
Definition do_escape (f : string) : string := map_chars escape_char f.
Definition unit_name_build_escape (prefix : string) (instance : option string) (suffix : string) : string :=
  match instance with
  | Some i => do_escape prefix +:+ "@" +:+ do_escape i +:+ suffix
  | None => do_escape prefix +:+ suffix
  end.
Definition unit_name_escape (f : string) : string := do_escape f.
Fixpoint unescape_rec (f : string) : string :=
  match f with
  | EmptyString => EmptyString
  | String c f1 =>
      if bool_decide (c = dash) then String slash (unescape_rec f1)
      else if bool_decide (c = backslash) then
        match f1 with
        | String x (String e (String g f4)) =>
            if bool_decide (x ≠ "x"%char ∨ (unhexchar e < 0)%Z ∨ (unhexchar g < 0)%Z) then String backslash (unescape_rec f1)
            else String (to_char (Z.lor (Z.shiftl (unhexchar e) 4) (unhexchar g))) (unescape_rec f4)
        | _ => String backslash (unescape_rec f1)
        end
      else String c (unescape_rec f1)
  end.
Definition unit_name_unescape (f : string) : string := cut (unescape_rec f).

Definition unit_name_is_template (n : string) : bool :=
  match split_at n at_sign with
  | Some (_, r) => match r with String c _ => bool_decide (c = dot) | EmptyString => false end
  | None => false
  end.
(** Without an @ the code goes on with [p - f] where [p] is NULL. *)
Definition unit_name_replace_instance (f i : string) : option string :=
  '(e, suffix) ← rsplit_at f dot;
  match split_at f at_sign with
  | Some (p, _) => Some (p +:+ "@" +:+ i +:+ "." +:+ suffix)
  | None => None
  end.
Definition unit_name_template (f : string) : option string :=
  match split_at f at_sign with
  | None => Some f
  | Some (p, _) => '(e, suffix) ← rsplit_at f dot; Some (p +:+ "@." +:+ suffix)
  end.

Definition without_root (p : string) : string :=
  match p with String c p' => if bool_decide (c = slash) then p' else p | EmptyString => p end.
Definition unit_name_from_path (path suffix : string) : string :=
  let p := without_root (path_kill_slashes path) in
  if bool_decide (p = EmptyString) then "-" +:+ suffix else unit_name_build_escape p None suffix.
Definition unit_name_from_path_instance (prefix path suffix : string) : string :=
  let p := without_root (path_kill_slashes path) in
  if bool_decide (p = EmptyString) then unit_name_build_escape prefix (Some "-") suffix
  else unit_name_build_escape prefix (Some p) suffix.
Definition absolute (e : string) : string := if path_is_absolute e then e else "/" +:+ e.
Definition unit_name_to_path (name : string) : option string :=
  w ← unit_name_to_prefix name; Some (absolute (unit_name_unescape w)).
Definition unit_name_path_unescape (f : string) : string := absolute (unit_name_unescape f).

(** ** Types of names (src/unit.c) *)

(** The [suffix] fields of the types' tables. *)
Definition unit_suffix (t : UnitType) : string :=
  match t with
  | UNIT_SERVICE => ".service" | UNIT_SOCKET => ".socket" | UNIT_TARGET => ".target" | UNIT_DEVICE => ".device"
  | UNIT_MOUNT => ".mount" | UNIT_AUTOMOUNT => ".automount" | UNIT_SNAPSHOT => ".snapshot" | UNIT_TIMER => ".timer"
  | UNIT_SWAP => ".swap" | UNIT_PATH => ".path"
  end.
Definition unit_types : list UnitType :=
  [UNIT_SERVICE; UNIT_SOCKET; UNIT_TARGET; UNIT_DEVICE; UNIT_MOUNT; UNIT_AUTOMOUNT; UNIT_SNAPSHOT; UNIT_TIMER;
   UNIT_SWAP; UNIT_PATH].
Definition unit_name_to_type (n : string) : option UnitType := List.find (λ t, endswith n (unit_suffix t)) unit_types.
Definition unit_name_is_valid (n : string) (template_ok : bool) : bool :=
  match unit_name_to_type n with None => false | Some _ => unit_name_is_valid_no_type n template_ok end.

(** ** The parts of a name *)

Lemma split_at_app a c r : mem_char c a = false → split_at (a +:+ String c r) c = Some (a, r).
Proof.
  induction a as [|d a IH]; simpl; [by rewrite bool_decide_true|].
  intros [Hd Ha]%orb_false_iff. apply bool_decide_eq_false in Hd. rewrite bool_decide_false by congruence. by rewrite IH.
Qed.
Lemma split_at_None s c : mem_char c s = false → split_at s c = None.
Proof.
  induction s as [|d s IH]; simpl; [done|]. intros [Hd Hs]%orb_false_iff. apply bool_decide_eq_false in Hd.
  rewrite bool_decide_false by congruence. by rewrite IH.
Qed.
Lemma rsplit_at_None s c : mem_char c s = false → rsplit_at s c = None.
Proof.
  induction s as [|d s IH]; simpl; [done|]. intros [Hd Hs]%orb_false_iff. apply bool_decide_eq_false in Hd.
  rewrite IH by done. by rewrite bool_decide_false by congruence.
Qed.
Lemma rsplit_at_app a c t : mem_char c t = false → rsplit_at (a +:+ String c t) c = Some (a, t).
Proof.
  intros Ht. induction a as [|d a IH]; simpl; [by rewrite rsplit_at_None, bool_decide_true|]. by rewrite IH.
Qed.
Lemma rsplit_at_Some s c a t : rsplit_at s c = Some (a, t) → s = a +:+ String c t ∧ mem_char c t = false.
Proof.
  revert a t. induction s as [|d s IH]; intros a t; simpl; [done|]. destruct (rsplit_at s c) as [[a' t']|] eqn:E.
  - intros [= <- <-]. destruct (IH a' t' eq_refl) as [-> ?]. done.
  - case_bool_decide; [|done]. intros [= <- <-]. subst. split; [done|]. clear IH. induction s as [|x s IH]; [done|].
    simpl in *. destruct (rsplit_at s c) as [[??]|]; [done|]. case_bool_decide; [done|]. rewrite IH by done.
    by rewrite bool_decide_false by congruence.
Qed.
Lemma mem_char_map_chars c enc s : (∀ f, mem_char c (enc f) = false) → mem_char c (map_chars enc s) = false.
Proof. intros Hf. induction s as [|d s IH]; [done|]. simpl. by rewrite mem_char_app, Hf, IH. Qed.
Lemma str_drop_app a b : str_drop (strlen a) (a +:+ b) = b.
Proof. induction a as [|c a IH]; [apply str_drop_0|]. exact IH. Qed.

(** ** The escape *)

Lemma unescape_escape s : nul_free s = true → unit_name_unescape (do_escape s) = s.
Proof.
  intros Hs. unfold unit_name_unescape. enough (unescape_rec (do_escape s) = s) as -> by (by apply cut_nul_free).
  revert s Hs. apply (map_chars_roundtrip escape_char unescape_rec); [done|].
  intros c s _. unfold escape_char. case_bool_decide as Hsl; [by subst|].
  destruct (_ || _) eqn:Hc.
  - destruct (hex_roundtrip c) as (E & H1 & H2).
    change (unescape_rec (String backslash (String "x" (String ?a (str1 ?b))) +:+ s)) with
      (unescape_rec (String backslash (String "x" (String a (String b s))))).
    cbn [unescape_rec]. rewrite (bool_decide_false (backslash = dash)) by done.
    rewrite bool_decide_true by done. rewrite bool_decide_false by (intros [Hx|[?|?]]; [by apply Hx|lia..]). by rewrite E.
  - apply orb_false_iff in Hc as [Hc%bool_decide_eq_false _]. change (str1 c +:+ s) with (String c s). cbn [unescape_rec].
    by rewrite !bool_decide_false by naive_solver.
Qed.
Lemma escape_charset s : in_charset (do_escape s) VALID_CHARS = true.
Proof.
  apply map_chars_all_in. apply (every_char (λ c, all_in (λ c, mem_char c VALID_CHARS) (escape_char c) = true)).
  vm_compute. reflexivity.
Qed.
Lemma escape_no_at s : mem_char at_sign (do_escape s) = false.
Proof.
  apply mem_char_map_chars. apply (every_char (λ c, mem_char at_sign (escape_char c) = false)). vm_compute. reflexivity.
Qed.
Lemma escape_nonempty s : s ≠ EmptyString → do_escape s ≠ EmptyString.
Proof.
  destruct s as [|c s]; [done|]. intros _. change (escape_char c +:+ do_escape s ≠ EmptyString).
  assert (escape_char c ≠ EmptyString) as Hc.
  { apply (every_char (λ c, escape_char c ≠ EmptyString)). vm_compute. reflexivity. }
  destruct (escape_char c) as [|a r]; [done|]. by change (String a (r +:+ do_escape s) ≠ EmptyString).
Qed.

(** What the suffix of a name has to be: a dot and a text without one. *)
Definition suffix_ok (suffix : string) : Prop := ∃ t, suffix = String dot t ∧ mem_char dot t = false ∧ mem_char at_sign t = false.
Lemma unit_suffix_ok t : suffix_ok (unit_suffix t).
Proof. destruct t; eexists; (split; [reflexivity|by split]). Qed.

Definition name_stem (prefix : string) (instance : option string) : string :=
  match instance with Some i => prefix +:+ String at_sign i | None => prefix end.
Lemma build_escape_eq p i suffix : unit_name_build_escape p i suffix = name_stem (do_escape p) (do_escape <$> i) +:+ suffix.
Proof. destruct i; [|done]. simpl. by rewrite append_assoc. Qed.

Lemma str_drop_past p c i : str_drop (S (strlen p)) (p +:+ String c i) = i.
Proof.
  replace (p +:+ String c i) with ((p +:+ str1 c) +:+ i) by (by rewrite append_assoc).
  replace (S (strlen p)) with (strlen (p +:+ str1 c)) by (rewrite append_length; unfold strlen; simpl; lia).
  apply str_drop_app.
Qed.

(** The parts of a name that was put together from a stem and a suffix. *)
Lemma parts_of p i suffix : suffix_ok suffix → mem_char at_sign p = false →
  let n := name_stem p i +:+ suffix in
  unit_name_to_prefix n = Some p ∧ unit_name_to_instance n = Some i ∧
  unit_name_to_prefix_and_instance n = Some (name_stem p i).
Proof.
  intros (t & -> & Hd & Ha) Hp n. assert (rsplit_at n dot = Some (name_stem p i, t)) as Er by (by apply rsplit_at_app).
  unfold unit_name_to_prefix, unit_name_to_instance, unit_name_to_prefix_and_instance. rewrite Er. simpl.
  destruct i as [i|]; simpl in *.
  - assert (split_at n at_sign = Some (p, i +:+ String dot t)) as Es.
    { unfold n. rewrite append_assoc. by apply split_at_app. }
    rewrite Es. simpl. rewrite append_length. rewrite bool_decide_true by (unfold strlen; simpl; lia). split_and!; [done| |done].
    do 2 f_equal. exact (str_drop_past p at_sign i).
  - assert (split_at n at_sign = None) as Es.
    { apply split_at_None. unfold n. rewrite mem_char_app, Hp. done. }
    by rewrite Es.
Qed.

Lemma all_in_mem ok c s : all_in ok s = true → ok c = false → mem_char c s = false.
Proof.
  intros Hs Hc. induction s as [|d s IH]; [done|]. simpl in *. apply andb_true_iff in Hs as [Hd Hs].
  rewrite IH by done. rewrite bool_decide_false by congruence. done.
Qed.
Lemma all_in_weaken (ok ok' : ascii → bool) s : (∀ c, ok c = true → ok' c = true) → all_in ok s = true → all_in ok' s = true.
Proof.
  intros Hok. induction s as [|c s IH]; [done|]. simpl. rewrite !andb_true_iff. naive_solver.
Qed.
Lemma valid_with_at s : in_charset s VALID_CHARS = true → in_charset s ("@" +:+ VALID_CHARS) = true.
Proof. apply all_in_weaken. intros c Hc. rewrite mem_char_app, Hc. apply orb_true_r. Qed.

Lemma stem_valid p i suffix template_ok : suffix_ok suffix → p ≠ EmptyString → in_charset p VALID_CHARS = true →
  (∀ i', i = Some i' → in_charset i' ("@" +:+ VALID_CHARS) = true) → (template_ok = true ∨ i ≠ Some EmptyString) →
  strlen (name_stem p i +:+ suffix) < UNIT_NAME_MAX → unit_name_is_valid_no_type (name_stem p i +:+ suffix) template_ok = true.
Proof.
  intros (t & -> & Hd & Ha) Hp Hpc Hic Ht Hlen. unfold unit_name_is_valid_no_type. rewrite bool_decide_false by lia.
  rewrite rsplit_at_app by done. assert (mem_char at_sign p = false) as Hpa by (by apply (all_in_mem _ _ _ Hpc)).
  destruct i as [i|]; cbn [name_stem].
  - rewrite bool_decide_false by (by destruct p). specialize (Hic i eq_refl). unfold in_charset in *. rewrite all_in_app.
    pose proof (valid_with_at p Hpc) as Hpc'. unfold in_charset in Hpc'. rewrite Hpc'. cbn [all_in]. rewrite Hic.
    assert (mem_char at_sign ("@" +:+ VALID_CHARS) = true) as -> by reflexivity. cbn [andb negb].
    rewrite split_at_app by done. rewrite bool_decide_false by done. apply negb_true_iff, andb_false_iff.
    destruct Ht as [->|Hi]; [by left|right]. apply bool_decide_eq_false. naive_solver.
  - rewrite bool_decide_false by done. rewrite (valid_with_at p Hpc). simpl. by rewrite split_at_None.
Qed.

(** *** Paths *)
Lemma mem_char_kill x s b : x ≠ slash → mem_char x s = false → mem_char x (kill_slashes_rec b s) = false.
Proof.
  intros Hx. revert b. induction s as [|c s IH]; intros b; [done|]. cbn [mem_char kill_slashes_rec].
  intros [Hc Hs]%orb_false_iff. destruct (bool_decide (c = slash)); [by apply IH|].
  assert (mem_char x (String c (kill_slashes_rec false s)) = false) as E by (cbn; by rewrite Hc, IH).
  destruct b; [|exact E]. cbn [mem_char]. cbn [mem_char] in E. by rewrite E, bool_decide_false.
Qed.
Lemma nul_free_components path : nul_free path = true → nul_free (join_with slashes (components path)) = true.
Proof.
  unfold nul_free. rewrite !negb_true_iff. intros Hp.
  assert ("000"%char ≠ slash) as Hn by done. pose proof (mem_char_kill _ path false Hn Hp) as Hk. revert Hk.
  destruct (kill_slashes_rec_spec path) as [-> _]. unfold components, words. destruct (pieces slashes path) as [w l]; cbn [fst snd].
  rewrite mem_char_app. intros [Hw Hl]%orb_false_iff. destruct w as [|c w]; cbn [push].
  - destruct l as [|x l]; [done|]. rewrite <- join_with_slashes. simpl in Hl. done.
  - pose proof (join_with_slashes (String c w) l) as <-. rewrite mem_char_app. by rewrite Hw.
Qed.
Lemma to_path_from_path path suffix : suffix_ok suffix → nul_free path = true →
  unit_name_to_path (unit_name_from_path path suffix) = Some (path_of true (components path)).
Proof.
  intros Hsuf Hp. unfold unit_name_from_path, unit_name_to_path. rewrite path_kill_slashes_spec.
  pose proof (nul_free_components path Hp) as Hj. pose proof (words_clean slashes path) as Hc. fold (components path) in Hc.
  destruct (components path) as [|w l].
  - assert (without_root (path_of (path_is_absolute path) []) = EmptyString) as -> by (by destruct (path_is_absolute path)).
    rewrite bool_decide_true by done. destruct (parts_of "-" None suffix Hsuf eq_refl) as (E & _). simpl in E. by rewrite E.
  - apply Forall_cons in Hc as [[Hw Hne] _]. rewrite <- join_with_slashes in Hj.
    destruct w as [|c w]; [done|]. set (j := String c w +:+ with_slashes l) in *.
    assert (bool_decide (c = slash) = false) as Hcs.
    { unfold clean in Hw. simpl in Hw. rewrite orb_false_r in Hw. apply andb_true_iff in Hw as [Hw _]. by apply negb_true_iff in Hw. }
    assert (without_root (path_of (path_is_absolute path) (String c w :: l)) = j) as ->.
    { unfold path_of. rewrite <- join_with_slashes. fold j. destruct (path_is_absolute path); [done|].
      change (without_root (String c (w +:+ with_slashes l)) = j). simpl. by rewrite Hcs. }
    rewrite bool_decide_false by done. rewrite build_escape_eq.
    destruct (parts_of (do_escape j) None suffix Hsuf (escape_no_at j)) as (E & _). simpl in E. simpl. rewrite E. simpl.
    rewrite unescape_escape by done. unfold absolute.
    assert (path_is_absolute j = false) as -> by exact Hcs. unfold path_of. by rewrite <- join_with_slashes.
Qed.

(** C28.  Arbitrary texts survive being put into a unit name: the name that
    [unit_name_build_escape] makes of a prefix, an instance and a suffix is a
    valid one as long as it is short enough, and the prefix and the instance
    can be read back from it; a path comes back from its name as the absolute path with
    single slashes; the escape is injective. *)
Theorem unit_name_roundtrip suffix : suffix_ok suffix →
  (∀ p i, nul_free p = true → nul_free (default "" i) = true →
     let n := unit_name_build_escape p i suffix in
     option_map unit_name_unescape (unit_name_to_prefix n) = Some p ∧
     option_map (option_map unit_name_unescape) (unit_name_to_instance n) = Some i ∧
     (p ≠ EmptyString → strlen n < UNIT_NAME_MAX →
        ∀ template_ok, (template_ok = true ∨ i ≠ Some EmptyString) → unit_name_is_valid_no_type n template_ok = true)) ∧
  (∀ path, nul_free path = true →
     unit_name_to_path (unit_name_from_path path suffix) = Some (path_of true (components path))) ∧
  (∀ s1 s2, nul_free s1 = true → nul_free s2 = true → unit_name_escape s1 = unit_name_escape s2 → s1 = s2).
Proof.
  intros Hsuf. split_and!.
  - intros p i Hp Hi n. unfold n. rewrite build_escape_eq.
    destruct (parts_of (do_escape p) (do_escape <$> i) suffix Hsuf (escape_no_at p)) as (-> & -> & _). split_and!.
    + simpl. by rewrite unescape_escape.
    + destruct i as [i|]; [|done]. simpl. by rewrite unescape_escape.
    + intros Hne Hlen tok Hi'. apply stem_valid; [done|by apply escape_nonempty|apply escape_charset| | |exact Hlen].
      * destruct i as [i|]; [|done]. intros _ [= <-]. apply valid_with_at, escape_charset.
      * destruct Hi' as [?|Hi']; [by left|right]. destruct i as [i|]; [|done]. intros [= E]. apply Hi'. f_equal.
        destruct (decide (i = EmptyString)); [done|]. by apply escape_nonempty in E.
  - intros path Hp. apply to_path_from_path; done.
  - intros s1 s2 H1 H2 E. rewrite <- (unescape_escape s1), <- (unescape_escape s2) by done. unfold unit_name_escape in E. by rewrite E.
Qed.
Lemma unit_name_roundtrip_witness :
  let n := unit_name_build_escape "getty" (Some "tty/1@a.b") ".service" in
  n = "getty@tty-1\x40a.b.service" ∧ option_map unit_name_unescape (unit_name_to_prefix n) = Some "getty" ∧
  unit_name_is_valid_no_type n false = true ∧
  unit_name_from_path "//home//a-b/" ".mount" = "home-a\x2db.mount" ∧
  unit_name_to_path (unit_name_from_path "//home//a-b/" ".mount") = Some "/home/a-b".
Proof.
  assert (suffix_ok ".service") as H1 by (apply (unit_suffix_ok UNIT_SERVICE)).
  assert (suffix_ok ".mount") as H2 by (apply (unit_suffix_ok UNIT_MOUNT)).
  destruct (unit_name_roundtrip ".service" H1) as (Ha & _).
  destruct (unit_name_roundtrip ".mount" H2) as (_ & Hb & _).
  destruct (Ha "getty" (Some "tty/1@a.b") eq_refl eq_refl) as (E1 & _ & E2).
  split_and!; [reflexivity|exact E1| |reflexivity|exact (Hb "//home//a-b/" eq_refl)].
  apply E2; [discriminate|vm_compute; lia|right; discriminate].
Defined.
