(* ===== verification/TimeSpan.v ===== *)
(** * Time spans and sizes as text (src/util.c)

    [format_timespan] writes a time span in units from weeks to microseconds
    into a buffer, [parse_usec] reads such texts, [parse_bytes] sizes.  [usec_t]
    is an unsigned 64 bit integer and wraps; [off_t] is a signed one, and
    where it overflows the program is undefined, which is [None] here. *)

From stdpp Require Import base gmap strings list fin_maps.
From Stdlib Require Import ZArith Ascii Lia.
From S2P Require Import Prelude CString StrUtil Paths.

Local Open Scope Z_scope.

Definition USEC_PER_SEC : Z := 1000000.
Definition USEC_PER_MSEC : Z := 1000.
Definition USEC_PER_MINUTE : Z := 60 * USEC_PER_SEC.
Definition USEC_PER_HOUR : Z := 60 * USEC_PER_MINUTE.
Definition USEC_PER_DAY : Z := 24 * USEC_PER_HOUR.
Definition USEC_PER_WEEK : Z := 7 * USEC_PER_DAY.

Definition parse_usec_table : list (string * Z) :=
  [("sec", USEC_PER_SEC); ("s", USEC_PER_SEC); ("min", USEC_PER_MINUTE); ("hr", USEC_PER_HOUR); ("h", USEC_PER_HOUR);
   ("d", USEC_PER_DAY); ("w", USEC_PER_WEEK); ("msec", USEC_PER_MSEC); ("ms", USEC_PER_MSEC); ("m", USEC_PER_MINUTE);
   ("usec", 1); ("us", 1); ("", USEC_PER_SEC)].
Definition parse_bytes_table : list (string * Z) :=
  [("B", 1); ("K", 1024); ("M", 1024 * 1024); ("G", 1024 * 1024 * 1024); ("T", 1024 * 1024 * 1024 * 1024); ("", 1)].

(** The loop of both parsers; [add] is the addition to the result. *)
Fixpoint parse_units (table : list (string * Z)) (add : Z → Z → option Z) (n : nat) (p : string) (r : Z) : option (Z + Z) :=
  match n with
  | O => None
  | S n' =>
      let '(l, e, errno) := strtoll false p in
      if bool_decide (errno ≠ 0) then Some (inl (- errno))
      else if bool_decide (l < 0) then Some (inl (- ERANGE))
      else if bool_decide (e = p) then Some (inl (- EINVAL))
      else
        let e := str_drop (strspn e WHITESPACE) e in
        match List.find (λ u, startswith e u.1) table with
        | None => Some (inl (- EINVAL))
        | Some u =>
            r ← add r (l * u.2);
            let p := str_drop (strlen u.1) e in
            if bool_decide (p ≠ EmptyString) then parse_units table add n' p r else Some (inr r)
        end
  end.
Definition parse_usec (t : string) : option (Z + Z) :=
  parse_units parse_usec_table (λ r x, Some (u64 (r + u64 x))) (S (strlen t)) t 0.
Definition off_t_ok (x : Z) : bool := bool_decide (LLONG_MIN ≤ x ≤ LLONG_MAX).
Definition parse_bytes (t : string) : option (Z + Z) :=
  parse_units parse_bytes_table (λ r x, if off_t_ok x && off_t_ok (r + x) then Some (r + x) else None) (S (strlen t)) t 0.

(** [%llu] *)
Fixpoint decimal_rec (n : nat) (x : Z) : string :=
  match n with
  | O => EmptyString
  | S n' => (if bool_decide (x < 10) then EmptyString else decimal_rec n' (x / 10)) +:+ str1 (decchar x)
  end.
Definition decimal (x : Z) : string := decimal_rec 20 x.

Definition timespan_table : list (string * Z) :=
  [("w", USEC_PER_WEEK); ("d", USEC_PER_DAY); ("h", USEC_PER_HOUR); ("min", USEC_PER_MINUTE); ("s", USEC_PER_SEC);
   ("ms", USEC_PER_MSEC); ("us", 1)].

(** What is in the buffer before [p], and [l] bytes from there to its end.
    [snprintf] writes at most [l - 1] characters and a NUL and answers how many
    there were to write. *)
Fixpoint format_units (table : list (string * Z)) (t l : Z) (out : string) : string :=
  match table with
  | [] => out
  | (suffix, usec) :: table' =>
      if bool_decide (t < usec) then format_units table' t l out
      else if bool_decide (l ≤ 1) then out
      else
        let piece := (if bool_decide (out = EmptyString) then EmptyString else " ") +:+ decimal (t / usec) +:+ suffix in
        let k := Z.of_nat (strlen piece) in
        let n := Z.min k l in
        let written := if bool_decide (k < l) then piece else str_take (Z.to_nat (l - 1)) piece +:+ str1 "000" in
        format_units table' (t `mod` usec) (l - n) (out +:+ written)
  end.
(** The text in the buffer, and the index of the last byte that was written. *)
Definition format_timespan (l t : Z) : option (string * Z) :=
  if bool_decide (t = 2 ^ 64 - 1) then None
  else if bool_decide (t = 0) then Some (cut (str_take (Z.to_nat (l - 1)) "0"), l - 1)
  else
    let out := format_units timespan_table t l EmptyString in
    Some (cut out, Z.of_nat (strlen out)).
Definition FORMAT_TIMESPAN_MAX : Z := 64.

(** ** Reading numbers *)

Fixpoint starts (s p : string) : bool :=
  match p, s with
  | EmptyString, _ => true
  | String _ _, EmptyString => false
  | String d p', String c s' => bool_decide (c = d) && starts s' p'
  end.
Lemma startswith_iff s p : startswith s p = bool_decide (str_take (strlen p) s = p).
Proof.
  unfold startswith, same_start. rewrite str_take_self. case_bool_decide as Hp.
  - destruct p; [|done]. by rewrite bool_decide_true by (by destruct s).
  - case_bool_decide; [|done]. rewrite bool_decide_false; [done|]. intros E. apply (f_equal strlen) in E.
    rewrite str_take_length in E. lia.
Qed.
Lemma startswith_starts s p : startswith s p = starts s p.
Proof.
  rewrite startswith_iff. revert s. induction p as [|d p IH]; intros s; [by destruct s|].
  destruct s as [|c s]; [done|]. cbn [starts strlen String.length str_take]. rewrite <- IH. rewrite <- bool_decide_and.
  apply bool_decide_ext. split; [intros [= -> E]; by split|]. intros [-> E]; unfold strlen in E; by rewrite E.
Qed.

Lemma decchar_digit x : 0 ≤ x → digit_in 10 (decchar x) = Some (x `mod` 10) ∧ isspace (decchar x) = false ∧
  decchar x ≠ "-"%char ∧ decchar x ≠ "+"%char.
Proof.
  intros Hx. unfold decchar. rewrite Z.rem_mod_nonneg by lia. pose proof (Z.mod_pos_bound x 10 ltac:(lia)) as Hb.
  set (d := x `mod` 10) in *. clearbody d.
  assert (d = 0 ∨ d = 1 ∨ d = 2 ∨ d = 3 ∨ d = 4 ∨ d = 5 ∨ d = 6 ∨ d = 7 ∨ d = 8 ∨ d = 9) as Hd by lia.
  repeat destruct Hd as [->|Hd]; try (split_and!; reflexivity || discriminate). subst. split_and!; reflexivity || discriminate.
Qed.
Lemma digits_decimal n : ∀ x acc cnt r, 0 ≤ x < 10 ^ Z.of_nat n →
  digits 10 acc cnt (decimal_rec n x +:+ r) =
    digits 10 (acc * 10 ^ Z.of_nat (strlen (decimal_rec n x)) + x) (cnt + strlen (decimal_rec n x))%nat r.
Proof.
  induction n as [|n IH]; intros x acc cnt r Hx; [simpl in Hx; simpl; f_equal; lia|]. cbn [decimal_rec].
  destruct (decchar_digit x ltac:(lia)) as (Hd & _). case_bool_decide as Hsmall.
  - change ((EmptyString +:+ str1 (decchar x)) +:+ r) with (String (decchar x) r). cbn [digits].
    rewrite Hd. rewrite Z.mod_small by lia. change (strlen ("" +:+ str1 (decchar x))) with 1%nat.
    by rewrite Nat.add_1_r.
  - rewrite append_assoc. rewrite IH.
    2:{ rewrite Nat2Z.inj_succ, Z.pow_succ_r in Hx by lia. split; [apply Z.div_pos; lia|]. apply Z.div_lt_upper_bound; lia. }
    change (str1 (decchar x) +:+ r) with (String (decchar x) r). cbn [digits]. rewrite Hd.
    assert (strlen (decimal_rec n (x / 10) +:+ str1 (decchar x)) = S (strlen (decimal_rec n (x / 10)))) as ->.
    { rewrite append_length. unfold strlen; simpl. lia. }
    f_equal; [|lia]. rewrite Nat2Z.inj_succ, Z.pow_succ_r by lia. pose proof (Z.div_mod x 10 ltac:(lia)). lia.
Qed.

Lemma decimal_rec_first n x : 0 ≤ x → ∃ c s, decimal_rec (S n) x = String c s ∧ isspace c = false ∧
  c ≠ "-"%char ∧ c ≠ "+"%char.
Proof.
  revert x. induction n as [|n IH]; intros x Hx; destruct (decchar_digit x Hx) as (_ & ? & ? & ?).
  - exists (decchar x), EmptyString. cbn [decimal_rec]. by case_bool_decide.
  - destruct (decide (x < 10)).
    + exists (decchar x), EmptyString. cbn [decimal_rec]. by rewrite bool_decide_true.
    + destruct (IH (x / 10)) as (c & s & E & ?); [by apply Z.div_pos; lia|].
      exists c, (s +:+ str1 (decchar x)). split; [|done]. change (decimal_rec (S (S n)) x) with
        ((if bool_decide (x < 10) then EmptyString else decimal_rec (S n) (x / 10)) +:+ str1 (decchar x)).
      rewrite bool_decide_false by done. by rewrite E.
Qed.
Definition no_digit (r : string) : Prop := match r with String c _ => digit_in 10 c = None | EmptyString => True end.
Lemma digits_stop r acc cnt : no_digit r → digits 10 acc cnt r = (acc, cnt, r).
Proof. destruct r as [|c r]; [done|]. simpl. by intros ->. Qed.

(** A number that was written is read again, after a space or not. *)
Lemma strtoll_decimal x r sp : 0 ≤ x < LLONG_MAX → no_digit r → sp = EmptyString ∨ sp = " " →
  strtoll false (sp +:+ decimal x +:+ r) = (x, r, 0) ∧ (strlen r < strlen (sp +:+ decimal x +:+ r))%nat.
Proof.
  intros Hx Hr Hsp. unfold LLONG_MAX in Hx.
  destruct (decimal_rec_first 19 x ltac:(lia)) as (c & s & E & Hc1 & Hc2 & Hc3).
  pose proof (digits_decimal 20 x 0 0 r ltac:(lia)) as Hd. fold (decimal x) in Hd, E.
  assert (strlen (decimal x) ≠ 0)%nat as Hne by (by rewrite E). split.
  - assert (skip_space (sp +:+ decimal x +:+ r) = decimal x +:+ r) as Hskip.
    { rewrite E. change (String c s +:+ r) with (String c (s +:+ r)).
      destruct Hsp as [->| ->]; simpl; by rewrite Hc1. }
    unfold strtoll, strto. rewrite Hskip.
    assert (sign (decimal x +:+ r) = (false, decimal x +:+ r)) as ->.
    { rewrite E. change (String c s +:+ r) with (String c (s +:+ r)). simpl.
      by rewrite bool_decide_false, bool_decide_false. }
    cbv beta iota. rewrite Hd. rewrite digits_stop by done. rewrite bool_decide_false by lia.
    rewrite bool_decide_false by (unfold LLONG_MAX; lia). rewrite bool_decide_false by (unfold LLONG_MIN; lia).
    done.
  - rewrite !append_length. lia.
Qed.

(** ** What was written can be read *)

(** The text without the limit of the buffer. *)
Fixpoint span_text (table : list (string * Z)) (t : Z) (first : bool) : string :=
  match table with
  | [] => EmptyString
  | (suffix, usec) :: table' =>
      if bool_decide (t < usec) then span_text table' t first
      else (if first then EmptyString else " ") +:+ decimal (t / usec) +:+ suffix +:+ span_text table' (t `mod` usec) false
  end.
(** What is not a multiple of the last unit gets lost. *)
Fixpoint span_rest (table : list (string * Z)) (t : Z) : Z :=
  match table with
  | [] => t
  | (_, usec) :: table' => span_rest table' (if bool_decide (t < usec) then t else t `mod` usec)
  end.

(** The first entry that fits is the right one, for every unit that is
    written and whatever follows. *)
Definition next_unit (rest : string) : Prop := rest = EmptyString ∨ ∃ r, rest = String " " r.
Lemma unit_found u rest : u ∈ timespan_table → next_unit rest →
  ∃ suffix, List.find (λ w, startswith (str_drop (strspn (u.1 +:+ rest) WHITESPACE) (u.1 +:+ rest)) w.1) parse_usec_table =
      Some (suffix, u.2) ∧
    str_drop (strlen suffix) (str_drop (strspn (u.1 +:+ rest) WHITESPACE) (u.1 +:+ rest)) = rest ∧
    no_digit (u.1 +:+ rest) ∧ 0 < u.2.
Proof.
  intros Hu Hrest. assert (∀ e, List.find (λ w, startswith e w.1) parse_usec_table = List.find (λ w, starts e w.1) parse_usec_table) as Hext.
  { intros e. generalize parse_usec_table as l. induction l as [|w l IH]; [done|]. simpl. by rewrite startswith_starts, IH. }
  setoid_rewrite Hext. unfold timespan_table in Hu. rewrite !elem_of_cons in Hu.
  repeat (destruct Hu as [->|Hu]; [destruct Hrest as [->|[r ->]]; eexists; split_and!; reflexivity|]).
  by apply elem_of_nil in Hu.
Qed.

Lemma span_text_next table t : next_unit (span_text table t false).
Proof.
  revert t. induction table as [|[s u] table IH]; intros t; [by left|]. simpl. case_bool_decide; [apply IH|].
  right. eexists. reflexivity.
Qed.
Lemma decimal_nonempty x : strlen (decimal x) ≠ 0%nat.
Proof.
  unfold decimal. cbn [decimal_rec]. rewrite append_length.
  change (strlen (str1 (decchar x))) with 1%nat. intros E. apply Nat.eq_add_0 in E as [_ ?]. done.
Qed.
Lemma span_text_empty table t first : span_text table t first = EmptyString → span_rest table t = t.
Proof.
  revert t. induction table as [|[s u] table IH]; intros t; [done|]. simpl. case_bool_decide as Ht; [apply IH|].
  intros E. apply (f_equal strlen) in E. rewrite !append_length in E.
  pose proof (decimal_nonempty (t / u)). change (strlen EmptyString) with 0%nat in E. lia.
Qed.
Lemma units_bounded u : u ∈ timespan_table → 0 < u.2 < LLONG_MAX.
Proof.
  unfold timespan_table. rewrite !elem_of_cons.
  intros Hu. repeat (destruct Hu as [->|Hu]; [done|]). by apply elem_of_nil in Hu.
Qed.

Lemma parse_span table : (∀ u, u ∈ table → u ∈ timespan_table) → ∀ n t first r,
  0 ≤ t → 0 ≤ r → r + t < 2 ^ 64 → (t < LLONG_MAX ∨ ∃ s u table', table = (s, u) :: table' ∧ 4 ≤ u) →
  span_text table t first ≠ EmptyString → (strlen (span_text table t first) < n)%nat →
  parse_units parse_usec_table (λ r x, Some (u64 (r + u64 x))) n (span_text table t first) r =
    Some (inr (r + (t - span_rest table t))).
Proof.
  induction table as [|[s u] table IH]; intros Hin n t first r Ht Hr Hsum Hbig Hne Hn; [done|].
  assert ((s, u) ∈ timespan_table) as Hu by (apply Hin; left). destruct (units_bounded _ Hu) as [Hu0 Hu1]. simpl in Hu0, Hu1.
  cbn [span_text span_rest] in *. case_bool_decide as Hlt.
  { apply IH; try done; [intros v Hv; apply Hin; by right|left; lia]. }
  set (T := span_text table (t `mod` u) false) in *. pose proof (span_text_next table (t `mod` u)) as HT. fold T in HT.
  destruct (unit_found (s, u) T Hu HT) as (suffix & Hfind & Hdrop & Hnd & _). cbn [fst snd] in Hfind, Hdrop, Hnd.
  assert (0 ≤ t / u < LLONG_MAX) as Hdiv.
  { split; [apply Z.div_pos; lia|]. apply Z.div_lt_upper_bound; [lia|].
    destruct Hbig as [Hbig|(s' & u' & table' & [= -> -> ->] & Hu4)]; unfold LLONG_MAX in *; nia. }
  destruct n as [|n]; [lia|]. cbn [parse_units].
  destruct (strtoll_decimal (t / u) (s +:+ T) (if first then EmptyString else " ") Hdiv Hnd ltac:(destruct first; auto)) as [-> Hshort].
  rewrite (bool_decide_false (0 ≠ 0)), (bool_decide_false (t / u < 0)) by lia.
  rewrite bool_decide_false by (intros E; rewrite E in Hshort at 1; lia).
  rewrite Hfind. cbn [snd fst]. change (Some ?x ≫= ?f) with (f x). cbv beta zeta. rewrite Hdrop.
  pose proof (Z.div_mod t u ltac:(lia)) as Hdm. pose proof (Z.mod_pos_bound t u Hu0) as Hmod.
  assert (u64 (r + u64 (t / u * u)) = r + t / u * u) as ->.
  { unfold u64. rewrite (Z.mod_small (t / u * u)) by nia. rewrite Z.mod_small; nia. }
  case_bool_decide as HTe.
  - unfold T in *. rewrite IH; [do 2 f_equal; lia|intros v Hv; apply Hin; by right|lia|nia|lia|left; lia|done|rewrite (append_length s) in Hshort; lia].
  - rewrite (span_text_empty table (t `mod` u) false HTe). do 2 f_equal. lia.
Qed.

(** *** The buffer *)

Lemma decimal_rec_length n : ∀ k x, (0 < k)%nat → 0 ≤ x < 10 ^ Z.of_nat k → (strlen (decimal_rec n x) ≤ k)%nat.
Proof.
  induction n as [|n IH]; intros k x Hk Hx; [unfold strlen; simpl; lia|]. cbn [decimal_rec]. rewrite append_length.
  case_bool_decide; [unfold strlen; simpl; lia|]. destruct k as [|[|k]]; [lia|change (10 ^ Z.of_nat 1) with 10 in Hx; lia|].
  rewrite Nat2Z.inj_succ, Z.pow_succ_r in Hx by lia. specialize (IH (S k) (x / 10) ltac:(lia)).
  assert (0 ≤ x / 10 < 10 ^ Z.of_nat (S k)) as Hd by (split; [apply Z.div_pos; lia|apply Z.div_lt_upper_bound; lia]).
  specialize (IH Hd). unfold strlen in *; simpl. lia.
Qed.
Lemma span_length s u table k bound L : (0 < k)%nat → 0 < u → bound ≤ u * 10 ^ Z.of_nat k →
  (∀ t f, 0 ≤ t < u → (strlen (span_text table t f) ≤ L)%nat) →
  ∀ t f, 0 ≤ t < bound → (strlen (span_text ((s, u) :: table) t f) ≤ 1 + k + strlen s + L)%nat.
Proof.
  intros Hk Hu Hb HL t f Ht. cbn [span_text]. case_bool_decide as Hlt.
  - specialize (HL t f ltac:(lia)). lia.
  - rewrite !append_length. pose proof (HL (t `mod` u) false (Z.mod_pos_bound t u Hu)).
    assert (strlen (decimal (t / u)) ≤ k)%nat.
    { apply decimal_rec_length; [done|]. split; [apply Z.div_pos; lia|]. apply Z.div_lt_upper_bound; [done|]. lia. }
    destruct f; unfold strlen in *; simpl; lia.
Qed.
Lemma span_text_length t f : 0 ≤ t < 2 ^ 64 → (strlen (span_text timespan_table t f) < 40)%nat.
Proof.
  intros Ht. unfold timespan_table.
  assert (∀ t f, 0 ≤ t < 1 → (strlen (span_text [] t f) ≤ 0)%nat) as H0 by done.
  pose proof (span_length "us" 1 _ 3 1000 _ ltac:(lia) ltac:(lia) ltac:(lia) H0) as H1.
  pose proof (span_length "ms" USEC_PER_MSEC _ 3 1000000 _ ltac:(lia) ltac:(done) ltac:(done) H1) as H2.
  pose proof (span_length "s" USEC_PER_SEC _ 2 60000000 _ ltac:(lia) ltac:(done) ltac:(done) H2) as H3.
  pose proof (span_length "min" USEC_PER_MINUTE _ 2 3600000000 _ ltac:(lia) ltac:(done) ltac:(done) H3) as H4.
  pose proof (span_length "h" USEC_PER_HOUR _ 2 86400000000 _ ltac:(lia) ltac:(done) ltac:(done) H4) as H5.
  pose proof (span_length "d" USEC_PER_DAY _ 1 604800000000 _ ltac:(lia) ltac:(done) ltac:(done) H5) as H6.
  pose proof (span_length "w" USEC_PER_WEEK _ 8 (2 ^ 64) _ ltac:(lia) ltac:(done) ltac:(done) H6 t f Ht) as H7.
  eapply Nat.le_lt_trans; [exact H7|]. unfold strlen; simpl. lia.
Qed.

Lemma append_empty a b : a +:+ b = EmptyString → a = EmptyString ∧ b = EmptyString.
Proof. intros E. apply (f_equal strlen) in E. rewrite append_length in E. destruct a, b; done. Qed.
Lemma format_units_text table : (∀ u, u ∈ table → 0 < u.2) → ∀ t l out,
  Z.of_nat (strlen (span_text table t (bool_decide (out = EmptyString)))) < l →
  format_units table t l out = out +:+ span_text table t (bool_decide (out = EmptyString)).
Proof.
  induction table as [|[s u] table IH]; intros Hu t l out Hl; [by rewrite append_nil_r|]. cbn [format_units span_text] in *.
  assert (∀ u, u ∈ table → 0 < u.2) as Hu' by (intros v Hv; apply Hu; by right).
  case_bool_decide as Ht; [by apply IH|]. set (piece := (if bool_decide (out = EmptyString) then EmptyString else " ") +:+ decimal (t / u) +:+ s).
  assert ((if bool_decide (out = EmptyString) then EmptyString else " ") +:+ decimal (t / u) +:+ s +:+ span_text table (t `mod` u) false
    = piece +:+ span_text table (t `mod` u) false) as E by (unfold piece; by rewrite !append_assoc).
  rewrite E in Hl |- *. rewrite append_length in Hl.
  assert (piece ≠ EmptyString ∧ (1 < strlen piece + 1)%nat) as [Hp Hp1].
  { pose proof (decimal_nonempty (t / u)) as Hd.
    unfold piece. split; [|rewrite !append_length; lia].
    intros [_ [Ed _]%append_empty]%append_empty. by rewrite Ed in Hd. }
  rewrite bool_decide_false by lia. rewrite (bool_decide_true (Z.of_nat (strlen piece) < l)) by lia.
  rewrite Z.min_l by lia. assert (bool_decide (out +:+ piece = EmptyString) = false) as Eo.
  { apply bool_decide_eq_false. by intros [_ ?]%append_empty. }
  rewrite IH; [|done|rewrite Eo; lia]. by rewrite Eo, append_assoc.
Qed.
Lemma decimal_nul n x : 0 ≤ x → mem_char "000" (decimal_rec n x) = false.
Proof.
  revert x. induction n as [|n IH]; intros x Hx; [done|]. cbn [decimal_rec]. rewrite mem_char_app.
  assert (mem_char "000" (str1 (decchar x)) = false) as ->.
  { destruct (decchar_digit x Hx) as (Hd & _). simpl. rewrite orb_false_r. apply bool_decide_eq_false. intros E. by rewrite <- E in Hd. }
  case_bool_decide; [done|]. rewrite IH by (apply Z.div_pos; lia). done.
Qed.
Lemma span_text_nul table : (∀ u, u ∈ table → 0 < u.2 ∧ mem_char "000" u.1 = false) → ∀ t f, 0 ≤ t → nul_free (span_text table t f) = true.
Proof.
  intros Hu. unfold nul_free. induction table as [|[s u] table IH]; intros t f Ht; [done|]. cbn [span_text].
  assert (∀ v, v ∈ table → 0 < v.2 ∧ mem_char "000" v.1 = false) as Hu' by (intros v Hv; apply Hu; by right).
  destruct (Hu (s, u)) as [Hu0 Hs]; [left|]. simpl in Hu0, Hs.
  case_bool_decide; [by apply IH|]. rewrite !mem_char_app. rewrite Hs. unfold decimal. rewrite decimal_nul by (apply Z.div_pos; lia).
  specialize (IH Hu' (t `mod` u) false ltac:(apply Z.mod_pos_bound; lia)). apply negb_true_iff in IH. rewrite IH. by destruct f.
Qed.

Lemma span_rest_one table s : ∀ t, 0 ≤ t → (∀ u, u ∈ table → 0 < u.2) → span_rest (table ++ [(s, 1)]) t = 0.
Proof.
  induction table as [|[s' u] table IH]; intros t Ht Hu; cbn [span_rest app].
  - case_bool_decide; [lia|]. apply Z.mod_1_r.
  - assert (0 < u) by (apply (Hu (s', u)); left). apply IH; [|intros v Hv; apply Hu; by right].
    case_bool_decide; [done|]. by apply Z.mod_pos_bound.
Qed.

(** C29.  "The result of this function can be parsed with parse_usec": every
    time span that [format_timespan] writes into a buffer of at least
    [FORMAT_TIMESPAN_MAX] bytes is within the buffer, and [parse_usec] reads it
    as the same number of microseconds. *)
Theorem timespan_roundtrip t l : 0 ≤ t < 2 ^ 64 - 1 → FORMAT_TIMESPAN_MAX ≤ l →
  ∃ text last, format_timespan l t = Some (text, last) ∧ 0 ≤ last < l ∧ parse_usec text = Some (inr t).
Proof.
  unfold FORMAT_TIMESPAN_MAX. intros Ht Hl. unfold format_timespan. rewrite bool_decide_false by lia. case_bool_decide as H0.
  { subst t. eexists _, _. split; [reflexivity|]. split; [lia|].
    replace (Z.to_nat (l - 1)) with (S (Z.to_nat (l - 2))) by lia. change (str_take (S (Z.to_nat (l - 2))) "0") with (String "0" (str_take (Z.to_nat (l - 2)) "")).
    destruct (Z.to_nat (l - 2)); vm_compute; reflexivity. }
  pose proof (span_text_length t true ltac:(lia)) as Hlen.
  assert (∀ u, u ∈ timespan_table → 0 < u.2 ∧ mem_char "000" u.1 = false) as Hu.
  { unfold timespan_table. intros u. rewrite !elem_of_cons. intros Hu. repeat (destruct Hu as [->|Hu]; [done|]). by apply elem_of_nil in Hu. }
  rewrite format_units_text; [|intros u Hin; by apply Hu|rewrite bool_decide_true by done; lia]. change (EmptyString +:+ ?x) with x.
  rewrite bool_decide_true by done. rewrite cut_nul_free by (apply span_text_nul; [done|lia]).
  assert (span_rest timespan_table t = 0) as Hrest.
  { apply (span_rest_one (take 6 timespan_table) "us"); [lia|]. intros u Hin. apply units_bounded, (sublist_elem (take 6 timespan_table)); [|done].
    apply sublist_take. }
  eexists _, _. split; [reflexivity|]. split; [lia|]. unfold parse_usec.
  rewrite (parse_span timespan_table); try lia; try done.
  - rewrite Hrest. do 2 f_equal. lia.
  - right. eexists _, _, _. split; [reflexivity|]. done.
  - intros E%span_text_empty. congruence.
Qed.
Lemma timespan_roundtrip_witness :
  format_timespan 64 694861000001 = Some ("1w 1d 1h 1min 1s 1us", 20) ∧
  parse_usec "1w 1d 1h 1min 1s 1us" = Some (inr 694861000001).
Proof.
  destruct (timespan_roundtrip 694861000001 64 ltac:(lia) ltac:(done)) as (text & last & E & _ & Hp).
  assert (format_timespan 64 694861000001 = Some ("1w 1d 1h 1min 1s 1us", 20)) as C by (vm_compute; reflexivity).
  rewrite E in C. injection C as -> ->. by split.
Defined.

(** A buffer that is too small is written past its end, by the last NUL. *)
Lemma format_timespan_overruns : format_timespan 2 60000000 = Some ("1", 2).
Proof. vm_compute. reflexivity. Qed.
(** A time span that does not fit wraps around without an error; a size that
    does not fit overflows a signed integer. *)
Lemma parse_usec_wraps : parse_usec "30500569w" = Some (inr 57490448384).
Proof. vm_compute. reflexivity. Qed.
Lemma parse_bytes_overflows : parse_bytes "8388608T" = None ∧ parse_bytes "8388607T" = Some (inr 9223370937343148032).
Proof. vm_compute. split; reflexivity. Qed.
