(* ===== verification/Text.v ===== *)
(** * Other helpers on text (src/util.c)

    Trimming, quoting, names of hosts and terminals, shortening for the
    screen. *)

From stdpp Require Import base gmap strings list fin_maps.
From Stdlib Require Import ZArith Ascii Lia.
From S2P Require Import Prelude CString StrUtil Paths UnitName.

(** What is left of the first [n] characters without the white space at their end. *)
Fixpoint rstrip (s : string) (n : nat) : string :=
  match n with
  | O => EmptyString
  | S n' => match String.get n' s with
            | Some c => if mem_char c WHITESPACE then rstrip s n' else str_take n s
            | None => EmptyString
            end
  end.
Definition strstrip (s : string) : string :=
  let s := str_drop (strspn s WHITESPACE) s in rstrip s (strlen s).
Fixpoint delete_chars (s bad : string) : string :=
  match s with
  | EmptyString => EmptyString
  | String f s' => if mem_char f bad then delete_chars s' bad else String f (delete_chars s' bad)
  end.
Definition truncate_nl (s : string) : string := str_take (strcspn s NEWLINE) s.
Fixpoint ascii_strlower (t : string) : string :=
  match t with
  | EmptyString => EmptyString
  | String p t' => String (if in_range "A" p "Z" then to_char (schar p - schar "A" + schar "a") else p) (ascii_strlower t')
  end.
Fixpoint chars_intersect (a b : string) : bool :=
  match a with EmptyString => false | String p a' => mem_char p b || chars_intersect a' b end.
Definition ignore_file (filename : string) : bool :=
  bool_decide (String.get 0 filename = Some dot) ||
  bool_decide (filename = "lost+found") || bool_decide (filename = "aquota.user") || bool_decide (filename = "aquota.group") ||
  existsb (endswith filename) ["~"; ".rpmnew"; ".rpmsave"; ".rpmorig"; ".dpkg-old"; ".dpkg-new"; ".swp"].
Definition fstype_is_network (fstype : string) : bool :=
  existsb (λ t, bool_decide (t = fstype)) ["cifs"; "smbfs"; "ncpfs"; "nfs"; "nfs4"; "gfs"; "gfs2"].
Definition nulstr_contains (nulstr : list string) (needle : string) : bool :=
  existsb (λ i, bool_decide (i = needle)) nulstr.

Definition unquote (s quotes : string) : string :=
  let l := strlen s in
  if bool_decide (l < 2) then s else
  match String.get 0 s with
  | Some c => if mem_char c quotes && bool_decide (String.get (l - 1) s = Some c) then str_take (l - 2) (str_drop 1 s) else s
  | None => s
  end.
Definition normalize_env_assignment (s : string) : string :=
  match split_at s "=" with
  | None => strstrip s
  | Some (name, p) => name +:+ "=" +:+ unquote (strstrip p) QUOTES
  end.
Definition fstab_node_to_udev_node (p : string) : string :=
  if startswith p "LABEL=" then "/dev/disk/by-label/" +:+ xescape (unquote (str_drop 6 p) QUOTES) "/ "
  else if startswith p "UUID=" then "/dev/disk/by-uuid/" +:+ xescape (unquote (str_drop 5 p) QUOTES) "/ "
  else p.

Definition skip_dev (tty : string) : string := if startswith tty "/dev/" then str_drop 5 tty else tty.
Definition vtnr_from_tty (tty : string) : Z :=
  let tty := skip_dev tty in
  if negb (startswith tty "tty") then (- EINVAL)%Z else
  match String.get 3 tty with
  | Some c =>
      if negb (in_range "0" c "9") then (- EINVAL)%Z else
      match safe_atoi (str_drop 3 tty) with
      | inl e => (- e)%Z
      | inr i => if bool_decide (i < 0 ∨ i > 63)%Z then (- EINVAL)%Z else i
      end
  | None => (- EINVAL)%Z
  end.
Definition tty_is_vc (tty : string) : bool := bool_decide (0 ≤ vtnr_from_tty (skip_dev tty))%Z.
Definition display_is_local (display : string) : bool :=
  bool_decide (String.get 0 display = Some ":"%char) &&
  match String.get 1 display with Some c => in_range "0" c "9" | None => false end.
Definition socket_from_display (display : string) : Z + string :=
  if negb (display_is_local display) then inl (- EINVAL)%Z else
  let k := strspn (str_drop 1 display) "0123456789" in
  inr ("/tmp/.X11-unix/X" +:+ str_take k (str_drop 1 display)).

(** Reading a byte: the text, its NUL, or outside it. *)
Definition char_at (p : string) (i : nat) : option ascii :=
  if bool_decide (i < strlen p) then String.get i p else if bool_decide (i = strlen p) then Some "000"%char else None.
Definition priority_of (p : string) (priority a b c : Z) (k : nat) : string * Z :=
  if bool_decide (a < 0 ∨ b < 0 ∨ c < 0)%Z then (p, priority) else (str_drop k p, (a * 100 + b * 10 + c)%Z).
(** The priority in front of a message, and what follows it; [None] where a
    byte outside the text is read. *)
Definition parse_syslog_priority (p : string) (priority : Z) : option (string * Z) :=
  c0 ← char_at p 0;
  if bool_decide (c0 ≠ "<"%char) then Some (p, priority)
  else if negb (mem_char ">" p) then Some (p, priority)
  else
    c1 ← char_at p 1; c2 ← char_at p 2;
    if bool_decide (c2 = ">"%char) then Some (priority_of p priority 0 0 (undecchar c1) 3) else
    c3 ← char_at p 3;
    if bool_decide (c3 = ">"%char) then Some (priority_of p priority 0 (undecchar c1) (undecchar c2) 4) else
    c4 ← char_at p 4;
    if bool_decide (c4 = ">"%char) then Some (priority_of p priority (undecchar c1) (undecchar c2) (undecchar c3) 5)
    else Some (p, priority).

Definition strshorten (s : string) (l : nat) : string := if bool_decide (l < strlen s) then str_take l s else s.
Definition HOST_NAME_MAX : nat := 64.
Definition hostname_valid_char (c : ascii) : bool :=
  in_range "a" c "z" || in_range "A" c "Z" || in_range "0" c "9" || bool_decide (c = dash) || bool_decide (c = "_"%char) ||
  bool_decide (c = dot).
Definition hostname_is_valid (s : string) : bool :=
  if bool_decide (s = EmptyString) then false
  else if negb (all_in hostname_valid_char s) then false
  else negb (bool_decide (HOST_NAME_MAX < strlen s)).
Fixpoint keep_chars (ok : ascii → bool) (s : string) : string :=
  match s with EmptyString => EmptyString | String c s' => if ok c then String c (keep_chars ok s') else keep_chars ok s' end.
Definition hostname_cleanup (s : string) : string := strshorten (keep_chars hostname_valid_char s) HOST_NAME_MAX.

(** [unsigned] arithmetic; [memcpy] takes [n] bytes from an offset of [s],
    [None] where that is not in it. *)
Definition copy_from (s : string) (offset n : Z) : option string :=
  if bool_decide (0 ≤ offset ∧ 0 ≤ n ∧ offset + n ≤ Z.of_nat (strlen s))%Z
  then Some (str_take (Z.to_nat n) (str_drop (Z.to_nat offset) s)) else None.
(** [t] is written to the buffer [r] from the offset on, [None] where it does not fit. *)
Definition write_to (r : string) (offset : Z) (t : string) : option string :=
  if bool_decide (0 ≤ offset ∧ offset + Z.of_nat (strlen t) ≤ Z.of_nat (strlen r))%Z
  then Some (str_take (Z.to_nat offset) r +:+ t +:+ str_drop (Z.to_nat offset + strlen t) r) else None.
Fixpoint nuls (n : nat) : string := match n with O => EmptyString | S n => String "000" (nuls n) end.
Definition ellipsize (s : string) (length percent : Z) : option string :=
  if negb (bool_decide (percent ≤ 100 ∧ 3 ≤ length)%Z) then None else
  let l := Z.of_nat (strlen s) in
  if bool_decide (l ≤ 3 ∨ l ≤ length)%Z then Some s else
  let x := (u32 (length * percent) / 100)%Z in
  let x := if bool_decide (x > length - 3)%Z then (length - 3)%Z else x in
  let r := nuls (Z.to_nat (u32 (length + 1))) in
  a ← copy_from s 0 x;
  r ← write_to r 0 a;
  r ← write_to r x ".";
  r ← write_to r (x + 1) ".";
  r ← write_to r (x + 2) ".";
  b ← copy_from s (l - (length - x - 3)) (length - x - 3);
  r ← write_to r (x + 3) b;
  Some (cut r).

(** ** Properties *)

Lemma copy_from_spec s offset n : (0 ≤ offset)%Z → (0 ≤ n)%Z → (offset + n ≤ Z.of_nat (strlen s))%Z →
  ∃ a b c, s = a +:+ b +:+ c ∧ copy_from s offset n = Some b ∧ Z.of_nat (strlen a) = offset ∧ Z.of_nat (strlen b) = n.
Proof.
  intros Ho Hn Hl. unfold copy_from. rewrite bool_decide_true by lia.
  exists (str_take (Z.to_nat offset) s), (str_take (Z.to_nat n) (str_drop (Z.to_nat offset) s)),
    (str_drop (Z.to_nat n) (str_drop (Z.to_nat offset) s)).
  rewrite !str_take_drop, !str_take_length, str_drop_length. split_and!; [done|done|lia|lia].
Qed.

Lemma nuls_length n : strlen (nuls n) = n.
Proof. induction n as [|n IH]; [done|]. simpl. by rewrite IH. Qed.
Lemma str_take_whole p q : str_take (strlen p) (p +:+ q) = p.
Proof. induction p as [|c p IH]; [by destruct q|]. simpl. by rewrite IH. Qed.
Lemma drop_past p q n : str_drop (strlen p + n) (p +:+ q) = str_drop n q.
Proof. by induction p as [|c p IH]. Qed.
Lemma drop_nuls k n : str_drop k (nuls n) = nuls (n - k).
Proof. revert n. induction k as [|k IH]; intros [|n]; try done. simpl. by rewrite IH. Qed.
(** Writing on where the text in the buffer ends. *)
Lemma write_next p n t offset : offset = Z.of_nat (strlen p) →
  write_to (p +:+ nuls n) offset t = if bool_decide (strlen t ≤ n) then Some ((p +:+ t) +:+ nuls (n - strlen t)) else None.
Proof.
  intros ->. unfold write_to. rewrite append_length, nuls_length. case_bool_decide as H1.
  - rewrite bool_decide_true by lia. rewrite Nat2Z.id, str_take_whole, drop_past, drop_nuls. by rewrite append_assoc.
  - by rewrite bool_decide_false by lia.
Qed.
Lemma cut_nuls s n : nul_free s = true → cut (s +:+ nuls n) = s.
Proof.
  unfold nul_free. induction s as [|c s IH]; [by destruct n|]. simpl. rewrite negb_orb, andb_true_iff, negb_true_iff. intros [Hc Hs].
  apply bool_decide_eq_false in Hc. rewrite bool_decide_false; [by rewrite IH|].
  intros E. apply Hc. unfold code in E. rewrite <- (ascii_N_embedding c). by replace (N_of_ascii c) with 0%N by lia.
Qed.

(** The buffer after the dots, or [None] if they do not fit. *)
Lemma write_parts n a b x : x = Z.of_nat (strlen a) →
  (r ← write_to (nuls n) 0 a; r ← write_to r x "."; r ← write_to r (x + 1) "."; r ← write_to r (x + 2) ".";
   r ← write_to r (x + 3) b; Some (cut r)) =
  if bool_decide (strlen a + 3 + strlen b ≤ n) then Some (cut (a +:+ "..." +:+ b +:+ nuls (n - (strlen a + 3 + strlen b)))) else None.
Proof.
  intros ->. change (write_to (nuls n) 0 a) with (write_to ("" +:+ nuls n) 0 a). rewrite (write_next "" n a 0 eq_refl).
  change ("" +:+ a) with a.
  case_bool_decide as H1; simpl; [|by rewrite bool_decide_false by lia].
  do 3 (rewrite write_next by (rewrite ?append_length; simpl; lia); cbn [strlen String.length];
        match goal with |- context [bool_decide (?u ≤ ?v)] => destruct (decide (u ≤ v));
          [rewrite (bool_decide_true (u ≤ v)) by done|rewrite (bool_decide_false (u ≤ v)) by done; by rewrite bool_decide_false by lia] end;
        cbn [mbind option_bind]).
  rewrite write_next by (rewrite !append_length; simpl; lia).
  destruct (decide (strlen a + 3 + strlen b ≤ n)).
  - rewrite !bool_decide_true by lia. cbn [mbind option_bind]. rewrite !append_assoc.
    replace (n - (strlen a + 3 + strlen b)) with (n - strlen a - 1 - 1 - 1 - strlen b) by lia. reflexivity.
  - by rewrite !bool_decide_false by lia.
Qed.
Lemma nul_free_app a b : nul_free (a +:+ b) = nul_free a && nul_free b.
Proof. unfold nul_free. by rewrite mem_char_app, negb_orb. Qed.

(** [ellipsize] neither reads outside its text nor writes outside its buffer, however the multiplication
    wraps, for every length but the largest: a text that fits stays, of any other the
    result has just the length asked for, and is a start of the text, three dots and an end of the text. *)
Lemma ellipsize_bounds s length percent : nul_free s = true → (3 ≤ length < 2 ^ 32 - 1)%Z → (0 ≤ percent ≤ 100)%Z →
  ∃ r, ellipsize s length percent = Some r ∧
    ((Z.of_nat (strlen s) ≤ length)%Z → r = s) ∧
    ((length < Z.of_nat (strlen s))%Z → (3 < Z.of_nat (strlen s))%Z →
       Z.of_nat (strlen r) = length ∧ ∃ a b c d, s = a +:+ c ∧ s = d +:+ b ∧ r = a +:+ "..." +:+ b).
Proof.
  intros Hs Hl Hp. unfold ellipsize. rewrite bool_decide_true by lia. cbn [negb]. case_bool_decide as Hfit.
  { exists s. split_and!; [done|done|]. intros. lia. }
  set (x0 := (u32 (length * percent) / 100)%Z).
  assert (0 ≤ x0)%Z by (apply Z.div_pos; [apply Z.mod_pos_bound|]; lia).
  set (x := if bool_decide (x0 > length - 3)%Z then (length - 3)%Z else x0).
  assert (0 ≤ x ≤ length - 3)%Z as Hx by (unfold x; case_bool_decide; lia). clearbody x.
  destruct (copy_from_spec s 0 x) as (a0 & a & c & Ea & -> & La0 & La); [lia..|].
  destruct (copy_from_spec s (Z.of_nat (strlen s) - (length - x - 3)) (length - x - 3)) as (d & b & b0 & Eb & -> & Ld & Lb); [lia..|].
  cbn [mbind option_bind]. rewrite (write_parts _ a b x) by done.
  assert (u32 (length + 1) = length + 1)%Z as -> by (unfold u32; rewrite Z.mod_small; lia).
  rewrite bool_decide_true by lia.
  assert (strlen b0 = 0) as Lb0 by (apply (f_equal strlen) in Eb; rewrite !append_length in Eb; lia).
  destruct b0; [|done]. rewrite append_nil_r in Eb. destruct a0; [|done].
  assert (nul_free a = true ∧ nul_free b = true) as [Na Nb].
  { pose proof Hs as Ha. pose proof Hs as Hb. rewrite Ea in Ha. rewrite Eb in Hb.
    change (EmptyString +:+ a +:+ c) with (a +:+ c) in Ha. rewrite nul_free_app in Ha, Hb.
    apply andb_true_iff in Ha as [? ?], Hb as [? ?]. done. }
  assert (cut (a +:+ "..." +:+ b +:+ nuls (Z.to_nat (length + 1) - (strlen a + 3 + strlen b))) = a +:+ "..." +:+ b) as ->.
  { rewrite <- !append_assoc. apply cut_nuls. by rewrite !nul_free_app, Na, Nb. }
  eexists. split; [done|]. split; [lia|]. intros _ _. split.
  - rewrite !append_length. simpl. lia.
  - by exists a, b, c, d.
Qed.
(** For the largest length the size of the buffer wraps around to 0, and what does not fit into that length is
    written outside it. *)
Lemma ellipsize_overflows s percent : (0 ≤ percent ≤ 100)%Z → (2 ^ 32 - 1 < Z.of_nat (strlen s))%Z →
  ellipsize s (2 ^ 32 - 1) percent = None.
Proof.
  intros Hp Hs. unfold ellipsize. rewrite bool_decide_true by lia. cbn [negb]. rewrite bool_decide_false by lia.
  set (x0 := (u32 ((2 ^ 32 - 1) * percent) / 100)%Z).
  assert (0 ≤ x0)%Z by (apply Z.div_pos; [apply Z.mod_pos_bound|]; lia).
  set (x := if bool_decide (x0 > _)%Z then _ else x0).
  assert (0 ≤ x ≤ 2 ^ 32 - 1 - 3)%Z as Hx by (unfold x; case_bool_decide; lia). clearbody x.
  destruct (copy_from_spec s 0 x) as (a0 & a & c & _ & -> & _ & La); [lia..|].
  destruct (copy_from_spec s (Z.of_nat (strlen s) - (2 ^ 32 - 1 - x - 3)) (2 ^ 32 - 1 - x - 3)) as (d & b & b0 & _ & -> & _ & _); [lia..|].
  cbn [mbind option_bind]. rewrite (write_parts _ a b x) by done.
  replace (u32 (2 ^ 32 - 1 + 1)) with 0%Z by reflexivity. by rewrite bool_decide_false by (simpl; lia).
Qed.
Example ellipsize_middle : ellipsize "a-very-long-unit.service" 12 50 = Some "a-very...ice" ∧
  ellipsize "a-very-long-unit.service" 42949673 100 = Some "a-very-long-unit.service".
Proof. split; vm_compute; reflexivity. Qed.

Lemma all_in_keep ok s : all_in ok (keep_chars ok s) = true.
Proof. induction s as [|c s IH]; [done|]. simpl. destruct (ok c) eqn:E; [simpl; by rewrite E|done]. Qed.
Lemma all_in_take ok n s : all_in ok s = true → all_in ok (str_take n s) = true.
Proof.
  revert s. induction n as [|n IH]; intros [|c s]; simpl; try done. intros [-> Hs]%andb_true_iff. by apply IH.
Qed.
Lemma keep_all_in ok s : all_in ok s = true → keep_chars ok s = s.
Proof. induction s as [|c s IH]; [done|]. simpl. intros [-> Hs]%andb_true_iff. by rewrite IH. Qed.
(** What is left of a text by [hostname_cleanup] is a valid host name or
    nothing, and a valid one is not changed. *)
Lemma hostname_cleanup_correct s :
  (hostname_cleanup s ≠ EmptyString → hostname_is_valid (hostname_cleanup s) = true) ∧
  (hostname_is_valid s = true → hostname_cleanup s = s).
Proof.
  unfold hostname_is_valid, hostname_cleanup, strshorten. split.
  - intros Hne. rewrite bool_decide_false by done.
    assert (all_in hostname_valid_char (if bool_decide (HOST_NAME_MAX < strlen (keep_chars hostname_valid_char s))
      then str_take HOST_NAME_MAX (keep_chars hostname_valid_char s) else keep_chars hostname_valid_char s) = true) as ->.
    { case_bool_decide; [apply all_in_take|]; apply all_in_keep. }
    cbn [negb]. apply negb_true_iff, bool_decide_eq_false. case_bool_decide; [|done]. rewrite str_take_length. lia.
  - case_bool_decide; [done|]. destruct (all_in hostname_valid_char s) eqn:Hs; [|done]. simpl.
    intros Hl%negb_true_iff%bool_decide_eq_false. rewrite keep_all_in by done. by rewrite bool_decide_false.
Qed.

(** Of the text "<>" the byte after the NUL is read. *)
Lemma parse_syslog_priority_overrun : parse_syslog_priority "<>" 0 = None ∧ parse_syslog_priority "<30>x" 0 = Some ("x", 30%Z).
Proof. by vm_compute. Qed.
