(* ===== verification/RateLimit.v ===== *)
(** * Rate limits (src/ratelimit.c)

    A counter of the calls since the current interval began.  The clock is an
    argument: the times at which the calls happen. *)

From stdpp Require Import base list.
From Stdlib Require Import ZArith Lia Sorted.
From S2P Require Import Prelude.

Local Open Scope Z_scope.

Record RateLimit := mkRateLimit { interval : Z; begin : Z; burst : Z; num : Z }.

(** [RATELIMIT_INIT] *)
Definition RATELIMIT_INIT (interval burst : Z) : RateLimit := mkRateLimit interval 0 burst 0.

Definition ratelimit_test (ts : Z) (r : RateLimit) : bool * RateLimit :=
  if bool_decide (begin r ≤ 0 ∨ u64 (begin r + interval r) < ts) then
    (true, mkRateLimit (interval r) ts (burst r) 1)
  else if bool_decide (num r ≤ burst r) then
    (true, mkRateLimit (interval r) (begin r) (burst r) (u32 (num r + 1)))
  else (false, r).

(** A call at each of the times; what is let through. *)
Fixpoint ratelimit_run (times : list Z) (r : RateLimit) : list bool :=
  match times with
  | [] => []
  | ts :: times' => let '(ok, r') := ratelimit_test ts r in ok :: ratelimit_run times' r'
  end.
(** How many calls at times in [p] are let through. *)
Fixpoint passed (p : Z → bool) (times : list Z) (r : RateLimit) : Z :=
  match times with
  | [] => 0
  | ts :: times' =>
      let '(ok, r') := ratelimit_test ts r in (if ok && p ts then 1 else 0) + passed p times' r'
  end.

Section bounds.
Context (I B : Z) (I_ok : 0 < I < 2 ^ 63) (B_ok : 0 < B < 2 ^ 32 - 1).

(** A window that began at a time that has passed. *)
Record open_at (r : RateLimit) (t : Z) : Prop := {
  oa_interval : interval r = I;
  oa_burst : burst r = B;
  oa_begin : 0 < begin r ≤ t;
  oa_num : 1 ≤ num r ≤ B + 1 }.
(** The clock does not go back and stays in its range. *)
Definition clock (t : Z) (times : list Z) : Prop := StronglySorted Z.le times ∧ ∀ ts, ts ∈ times → t ≤ ts ∧ 0 < ts < 2 ^ 63.

Lemma clock_cons t ts times : clock t (ts :: times) → t ≤ ts ∧ 0 < ts < 2 ^ 63 ∧ clock ts times.
Proof.
  intros [Hs Ht]. apply StronglySorted_inv in Hs as [Hs Hall]. destruct (Ht ts) as [? ?]; [left|]. split_and!; try lia.
  split; [done|]. intros x Hx. rewrite Forall_forall in Hall. specialize (Hall x Hx).
  destruct (Ht x); [by right|]. lia.
Qed.
Lemma test_open r t ts : open_at r t → t ≤ ts → 0 < ts < 2 ^ 63 → t < 2 ^ 63 →
  ratelimit_test ts r =
    if bool_decide (begin r + I < ts) then (true, mkRateLimit I ts B 1)
    else if bool_decide (num r ≤ B) then (true, mkRateLimit I (begin r) B (num r + 1)) else (false, r).
Proof.
  intros [Hi Hb Hbeg Hn] Ht Hts Ht'. unfold ratelimit_test. rewrite Hi, Hb. unfold u64, u32. rewrite Z.mod_small by lia.
  rewrite (bool_decide_ext (begin r ≤ 0 ∨ begin r + I < ts) (begin r + I < ts)) by lia.
  case_bool_decide; [done|]. case_bool_decide; [|done]. by rewrite Z.mod_small by lia.
Qed.
Lemma test_fresh r t : begin r = 0 → interval r = I → burst r = B →
  ratelimit_test t r = (true, mkRateLimit I t B 1).
Proof. intros Hb Hi HB. unfold ratelimit_test. rewrite Hb, Hi, HB. by rewrite bool_decide_true by lia. Qed.

(** What is left of the window. *)
Lemma passed_in_window times : ∀ r t e, open_at r t → t < 2 ^ 63 → clock t times → e ≤ begin r + I →
  ∀ p, (∀ ts, p ts = true → ts ≤ e) → 0 ≤ passed p times r ≤ B + 1 - num r.
Proof.
  induction times as [|ts times IH]; intros r t e Hr Ht Hc He p Hp; cbn [passed].
  { destruct Hr as [_ _ _ ?]. lia. }
  apply clock_cons in Hc as (Hts & Hts' & Hc). rewrite (test_open r t ts) by done. pose proof Hr as [Hi Hb Hbeg Hn].
  case_bool_decide as Hnew; [|case_bool_decide as Hfull].
  - assert (p ts = false) as Hpf by (destruct (p ts) eqn:E; [specialize (Hp ts E); lia|done]). rewrite Hpf. simpl.
    assert (∀ times r, (∀ ts, ts ∈ times → p ts = false) → passed p times r = 0) as Hnone.
    { clear. intros times. induction times as [|x times IH]; intros r Hall; [done|]. simpl. destruct (ratelimit_test x r) as [ok r'].
      rewrite (Hall x) by left. rewrite IH by (intros; apply Hall; by right). by destruct ok. }
    rewrite Hnone; [lia|]. intros x Hx. destruct (p x) eqn:E; [|done]. destruct Hc as [_ Hc]. specialize (Hc x Hx).
    specialize (Hp x E). lia.
  - set (r' := mkRateLimit _ _ _ _). assert (open_at r' ts) as Hr' by (split; simpl; lia).
    specialize (IH r' ts e Hr' ltac:(lia) Hc He p Hp). simpl in IH. destruct (p ts); simpl; lia.
  - assert (open_at r ts) as Hr' by (split; lia). specialize (IH r ts e Hr' ltac:(lia) Hc He p Hp). simpl. lia.
Qed.

(** A stretch as long as the interval, from a time in it on. *)
Section stretch.
Context (s : Z).
Let p (ts : Z) : bool := bool_decide (s ≤ ts ≤ s + I).
Lemma p_le ts : p ts = true → ts ≤ s + I.
Proof. intros E%bool_decide_eq_true. lia. Qed.
Lemma p_count ts : 0 ≤ (if p ts then 1 else 0) ≤ 1.
Proof. destruct (p ts); lia. Qed.
Lemma new_window ts : 0 < ts → ∀ n, 1 ≤ n ≤ B + 1 → open_at (mkRateLimit I ts B n) ts.
Proof. intros ? n Hn. split; simpl; lia. Qed.

Lemma passed_from_window times ts : s ≤ ts → 0 < ts < 2 ^ 63 → clock ts times →
  passed p times (mkRateLimit I ts B 1) ≤ B.
Proof.
  intros Hs Hts Hc. pose proof (passed_in_window times _ ts (s + I) (new_window ts ltac:(lia) 1 ltac:(lia)) ltac:(lia) Hc
    ltac:(simpl; lia) p p_le) as Hw. simpl in Hw. lia.
Qed.
Lemma passed_within times : ∀ r t, open_at r t → s ≤ t < 2 ^ 63 → clock t times →
  passed p times r ≤ (B + 1 - num r) + (B + 1).
Proof.
  induction times as [|ts times IH]; intros r t Hr Ht Hc; cbn [passed]; [destruct Hr; lia|].
  apply clock_cons in Hc as (Hts & Hts' & Hc). rewrite (test_open r t ts) by (done || lia). pose proof Hr as [Hi Hb Hbeg Hn].
  pose proof (p_count ts). case_bool_decide as Hnew; [|case_bool_decide as Hfull]; cbv beta iota; cbn [andb].
  - pose proof (passed_from_window times ts ltac:(lia) Hts' Hc). lia.
  - assert (open_at (mkRateLimit I (begin r) B (num r + 1)) ts) as Hr' by (split; simpl; lia).
    specialize (IH _ ts Hr' ltac:(lia) Hc). simpl in IH. lia.
  - assert (open_at r ts) as Hr' by (split; lia). specialize (IH r ts Hr' ltac:(lia) Hc). lia.
Qed.
Lemma passed_in_stretch times : ∀ r t, open_at r t ∨ begin r = 0 ∧ interval r = I ∧ burst r = B → t < 2 ^ 63 →
  clock t times → passed p times r ≤ 2 * (B + 1).
Proof.
  induction times as [|ts times IH]; intros r t Hr Ht Hc; cbn [passed]; [lia|].
  apply clock_cons in Hc as (Hts & Hts' & Hc). pose proof (p_count ts) as Hp.
  assert ((if p ts then 1 else 0) + passed p times (mkRateLimit I ts B 1) ≤ 2 * (B + 1)) as Hbegin.
  { destruct (decide (s ≤ ts)) as [Hs|Hs].
    - pose proof (passed_from_window times ts Hs Hts' Hc). lia.
    - assert (p ts = false) as -> by (apply bool_decide_eq_false; lia).
      specialize (IH _ ts (or_introl (new_window ts ltac:(lia) 1 ltac:(lia))) ltac:(lia) Hc). lia. }
  destruct Hr as [Hr|(Hb & Hi & HB)]; [|by rewrite (test_fresh r ts)].
  rewrite (test_open r t ts) by done. pose proof Hr as [Hi Hb Hbeg Hn].
  case_bool_decide as Hnew; [exact Hbegin|]. case_bool_decide as Hfull; cbv beta iota; cbn [andb].
  - assert (open_at (mkRateLimit I (begin r) B (num r + 1)) ts) as Hr' by (split; simpl; lia).
    destruct (decide (s ≤ ts)) as [Hs|Hs].
    + pose proof (passed_within times _ ts Hr' ltac:(lia) Hc) as Hw. simpl in Hw. lia.
    + assert (p ts = false) as -> by (apply bool_decide_eq_false; lia).
      specialize (IH _ ts (or_introl Hr') ltac:(lia) Hc). lia.
  - assert (open_at r ts) as Hr' by (split; lia). specialize (IH r ts (or_introl Hr') ltac:(lia) Hc). lia.
Qed.
End stretch.

(** A burst: all the calls at one time. *)
Lemma burst_run n : ∀ r t, open_at r t → begin r = t → t < 2 ^ 63 →
  ratelimit_run (replicate n t) r = (λ i, bool_decide (num r + Z.of_nat i ≤ B)) <$> seq 0 n.
Proof.
  induction n as [|n IH]; intros r t Hr Hbt Ht; [done|]. cbn [replicate ratelimit_run seq]. pose proof Hr as [Hi Hb Hbeg Hn].
  rewrite (test_open r t t) by (done || lia). rewrite bool_decide_false by lia. rewrite fmap_cons, <- fmap_S_seq, <- list_fmap_compose.
  rewrite Z.add_0_r. case_bool_decide as Hfull.
  - rewrite (IH _ t) by (done || (split; simpl; lia)). f_equal. apply list_fmap_ext. intros _ i _. simpl. apply bool_decide_ext. lia.
  - rewrite (IH r t) by done. f_equal. apply list_fmap_ext. intros _ i _. simpl. apply bool_decide_ext. lia.
Qed.
End bounds.

(** C30.  A rate limit of [burst] calls per [interval] lets one call more than
    that through: of the calls at one time just the first [burst + 1] pass.  In any
    stretch of time as long as the interval no more than twice that pass,
    whenever the calls come. *)
Theorem ratelimit_bounds I B times : 0 < I < 2 ^ 63 → 0 < B < 2 ^ 32 - 1 → clock 0 times →
  (∀ s, passed (λ ts, bool_decide (s ≤ ts ≤ s + I)) times (RATELIMIT_INIT I B) ≤ 2 * (B + 1)) ∧
  (∀ n t, 0 < t < 2 ^ 63 →
     ratelimit_run (replicate n t) (RATELIMIT_INIT I B) = (λ i, bool_decide (Z.of_nat i ≤ B)) <$> seq 0 n).
Proof.
  intros HI HB Hc. split.
  - intros s. apply (passed_in_stretch I B HI HB s times _ 0); [by right|lia|done].
  - intros n t Ht. destruct n as [|n]; [done|]. cbn [replicate ratelimit_run seq].
    rewrite (test_fresh I B (RATELIMIT_INIT I B) t) by done. rewrite (burst_run I B HI HB n _ t); [|split; simpl; lia|done|lia].
    rewrite fmap_cons. rewrite bool_decide_true by lia. f_equal. rewrite <- fmap_S_seq, <- list_fmap_compose.
    apply list_fmap_ext. intros _ i _. simpl. apply bool_decide_ext. lia.
Qed.
Lemma ratelimit_bounds_witness :
  let times := [1; 1; 1; 5; 10; 11; 12; 12; 30] in
  clock 0 times ∧ passed (λ ts, bool_decide (2 ≤ ts ≤ 2 + 10)) times (RATELIMIT_INIT 10 1) ≤ 4 ∧
  ratelimit_run [7; 7; 7] (RATELIMIT_INIT 10 1) = [true; true; false].
Proof.
  assert (clock 0 [1; 1; 1; 5; 10; 11; 12; 12; 30]) as Hc.
  { split; [repeat constructor; lia|]. intros ts. rewrite !elem_of_cons, elem_of_nil. lia. }
  destruct (ratelimit_bounds 10 1 _ ltac:(lia) ltac:(lia) Hc) as [H1 H2].
  split_and!; [exact Hc|apply H1|exact (H2 3%nat 7 ltac:(lia))].
Defined.
