(* ===== verification/OrderedMap.v ===== *)
(** * Ordered maps: what src/hashmap.c promises

    A [Hashmap] is seen by its clients as a list of entries in insertion
    order, without two entries for one key: [hashmap_put] appends,
    [hashmap_replace] keeps the position, [HASHMAP_FOREACH] walks the list.
    This is the abstract specification that Hashmap.v implements and that the
    engine (Engine.v and the files after it) is written against. *)

From stdpp Require Import base gmap strings list fin_maps.
From Stdlib Require Import ZArith Lia.
From S2P Require Import Prelude.

Section omap.
Context {K V : Type} `{EqDecision K}.
Implicit Types (m : list (K * V)) (k : K) (v : V).

Fixpoint om_get m k : option V :=
  match m with
  | [] => None
  | (k', v) :: m' => if decide (k' = k) then Some v else om_get m' k
  end.

(** In place where the key is there, at the end where it is not. *)
Fixpoint om_replace m k v : list (K * V) :=
  match m with
  | [] => [(k, v)]
  | (k', v') :: m' =>
      if decide (k' = k) then (k, v) :: m' else (k', v') :: om_replace m' k v
  end.

Definition om_remove m k : list (K * V) := filter (λ e, e.1 ≠ k) m.

Definition om_keys m : list K := m.*1.
Definition om_wf m : Prop := NoDup (om_keys m).

Lemma om_get_Some_elem m k v : om_get m k = Some v → (k, v) ∈ m.
Proof.
  induction m as [|[k' v'] m IH]; simpl; [done|].
  case_decide; intros; simplify_eq; [left|right; auto].
Qed.

Lemma om_elem_get m k v : om_wf m → (k, v) ∈ m → om_get m k = Some v.
Proof.
  unfold om_wf, om_keys. induction m as [|[k' v'] m IH]; simpl; [by intros _ ?%elem_of_nil|].
  intros [Hk Hn]%NoDup_cons [?|Hin]%elem_of_cons; simplify_eq; [by rewrite decide_True|].
  rewrite decide_False; [auto|]. intros ->. destruct Hk.
  apply list_elem_of_fmap. by exists (k, v).
Qed.

Lemma om_get_iff m k v : om_wf m → om_get m k = Some v ↔ (k, v) ∈ m.
Proof. split; [apply om_get_Some_elem|by apply om_elem_get]. Qed.

Lemma om_get_None m k : om_get m k = None ↔ k ∉ om_keys m.
Proof.
  unfold om_keys. induction m as [|[k' v'] m IH]; simpl.
  { split; [intros _ ?%elem_of_nil|]; done. }
  rewrite not_elem_of_cons. case_decide; subst; [split; [done|by intros [? _]]|].
  rewrite IH. split; [by intros; split|by intros [_ ?]].
Qed.

Lemma om_get_replace m k v k' :
  om_get (om_replace m k v) k' = if decide (k = k') then Some v else om_get m k'.
Proof.
  induction m as [|[k1 v1] m IH]; simpl; [done|].
  destruct (decide (k1 = k)) as [->|]; simpl; [by destruct (decide (k = k'))|].
  rewrite IH. destruct (decide (k1 = k')), (decide (k = k')); congruence.
Qed.

Lemma om_keys_replace m k v :
  om_keys (om_replace m k v) = if decide (k ∈ om_keys m) then om_keys m else om_keys m ++ [k].
Proof.
  unfold om_keys. induction m as [|[k1 v1] m IH].
  { case_decide as Hin; [by apply elem_of_nil in Hin|done]. }
  cbn [om_replace]. destruct (decide (k1 = k)) as [->|Hne].
  - clear IH. rewrite !fmap_cons. cbn [fst]. case_decide as Hin; [done|]. destruct Hin. by left.
  - rewrite !fmap_cons, IH. cbn [fst].
    destruct (decide (k ∈ m.*1)), (decide (k ∈ k1 :: m.*1)); set_solver.
Qed.

Lemma om_wf_replace m k v : om_wf m → om_wf (om_replace m k v).
Proof.
  unfold om_wf. rewrite om_keys_replace. case_decide; [done|].
  intros. apply NoDup_app. split; [done|]. split; [set_solver|]. by apply NoDup_singleton.
Qed.

Lemma om_get_remove m k k' :
  om_get (om_remove m k) k' = if decide (k = k') then None else om_get m k'.
Proof.
  unfold om_remove. induction m as [|[k1 v1] m IH]; simpl; [by destruct (decide _)|].
  rewrite filter_cons; simpl. destruct (decide (k1 ≠ k)) as [Hn|Hn]; simpl.
  - rewrite IH. destruct (decide (k1 = k')), (decide (k = k')); congruence.
  - apply dec_stable in Hn as ->. rewrite IH. by destruct (decide (k = k')).
Qed.

Lemma om_keys_remove m k : om_keys (om_remove m k) = filter (λ x, x ≠ k) (om_keys m).
Proof.
  unfold om_keys, om_remove. induction m as [|[k1 v1] m IH]; [done|].
  destruct (decide (k1 = k)) as [->|].
  - rewrite filter_cons_False by naive_solver. rewrite fmap_cons, filter_cons_False by naive_solver. done.
  - rewrite filter_cons_True by done. rewrite !fmap_cons, filter_cons_True by done. by rewrite IH.
Qed.

Lemma om_wf_remove m k : om_wf m → om_wf (om_remove m k).
Proof. unfold om_wf. rewrite om_keys_remove. apply NoDup_filter. Qed.

Lemma om_elem_remove m k e : e ∈ om_remove m k ↔ e ∈ m ∧ e.1 ≠ k.
Proof. unfold om_remove. rewrite list_elem_of_filter. naive_solver. Qed.

Lemma om_get_app m1 m2 k : om_get (m1 ++ m2) k = match om_get m1 k with Some v => Some v | None => om_get m2 k end.
Proof. induction m1 as [|[k1 v1] m1 IH]; simpl; [done|]. by case_decide. Qed.

(** The entry for a key splits the map. *)
Lemma om_wf_split m1 k v m2 : om_wf (m1 ++ (k, v) :: m2) → k ∉ om_keys m1 ∧ k ∉ om_keys m2.
Proof.
  unfold om_wf, om_keys. rewrite fmap_app, fmap_cons. simpl.
  intros (_ & Hd & [Hk _]%NoDup_cons)%NoDup_app. split; [|done]. intros Hk1. apply (Hd k Hk1). left.
Qed.
Lemma om_remove_absent m k : k ∉ om_keys m → om_remove m k = m.
Proof.
  intros Hk. apply filter_id. intros [k' v'] He E. simpl in E. subst. apply Hk, list_elem_of_fmap.
  by exists (k, v').
Qed.
Lemma om_remove_split m1 k v m2 : om_wf (m1 ++ (k, v) :: m2) → om_remove (m1 ++ (k, v) :: m2) k = m1 ++ m2.
Proof.
  intros [H1 H2]%om_wf_split. unfold om_remove. rewrite filter_app, filter_cons_False by (simpl; auto).
  f_equal; by apply om_remove_absent.
Qed.
Lemma om_replace_split m1 k v m2 v' : k ∉ om_keys m1 → om_replace (m1 ++ (k, v) :: m2) k v' = m1 ++ (k, v') :: m2.
Proof.
  induction m1 as [|[k1 v1] m1 IH]; simpl; [by rewrite decide_True|].
  intros [? ?]%(not_elem_of_cons (om_keys m1) k k1). rewrite decide_False by done.
  f_equal. by apply IH.
Qed.
Lemma om_replace_absent m k v : k ∉ om_keys m → om_replace m k v = m ++ [(k, v)].
Proof.
  induction m as [|[k1 v1] m IH]; simpl; [done|].
  intros [? ?]%(not_elem_of_cons (om_keys m) k k1). rewrite decide_False by done.
  f_equal. by apply IH.
Qed.
End omap.
