(* ===== verification/Strv.v ===== *)
(** * Lists of strings and environments (src/strv.c, replace_env in src/util.c)

    A [char**] is the list of its strings before the NULL; the functions that
    tell a NULL array from an empty one take an option.  An environment is a
    list of texts [name=value]; [pairs] is what it means, as an ordered map.
    Allocation succeeds. *)

From stdpp Require Import base gmap strings list fin_maps.
From Stdlib Require Import ZArith Ascii Lia.
From S2P Require Import Prelude CString OrderedMap StrUtil Paths UnitName.

Definition strv_find (l : list string) (name : string) : option string := List.find (λ i, bool_decide (i = name)) l.
Definition strv_find_prefix (l : list string) (name : string) : option string := List.find (λ i, startswith i name) l.
Definition strv_length (l : option (list string)) : Z := match l with None => 0 | Some l => u32 (Z.of_nat (length l)) end.
Definition strv_copy (l : option (list string)) : list string := default [] l.
Definition strv_merge (a b : option (list string)) : list string :=
  match a, b with
  | None, _ => strv_copy b
  | _, None => strv_copy a
  | Some a, Some b => a ++ b
  end.
Definition strv_merge_concat (a b : option (list string)) (suffix : string) : list string :=
  match b with
  | None => strv_copy a
  | Some b => strv_copy a ++ map (λ s, s +:+ suffix) b
  end.
(** The separator is left out as long as nothing has been written. *)
Definition strv_join (l : list string) (separator : option string) : string :=
  let separator := default " " separator in
  foldl (λ r s, (if bool_decide (r = EmptyString) then EmptyString else r +:+ separator) +:+ s) EmptyString l.
Definition strv_append (l : option (list string)) (s : option string) : list string :=
  match l, s with
  | None, None => []
  | None, Some s => [s]
  | Some l, None => l
  | Some l, Some s => l ++ [s]
  end.
Definition strv_remove (l : list string) (s : string) : list string := filter (λ f, f ≠ s) l.
(** The rest of the list is edited in place before the loop goes on to it. *)
Fixpoint strv_uniq_rec (n : nat) (l : list string) : option (list string) :=
  match l with
  | [] => Some []
  | i :: l' => match n with O => None | S n' => option_map (cons i) (strv_uniq_rec n' (strv_remove l' i)) end
  end.
Definition strv_uniq (l : list string) : option (list string) := strv_uniq_rec (length l) l.
Definition strv_overlap (a b : list string) : bool := existsb (λ i, existsb (λ j, bool_decide (i = j)) b) a.

(** The strings of a block of [l] bytes, each ended by a NUL except perhaps the
    last one. *)
Fixpoint nulstr_rec (cur : string) (s : string) : list string :=
  match s with
  | EmptyString => match cur with EmptyString => [] | _ => [cur] end
  | String c s' => if bool_decide (code c = 0%Z) then cur :: nulstr_rec EmptyString s' else nulstr_rec (cur +:+ str1 c) s'
  end.
Definition strv_parse_nulstr (s : string) : list string := nulstr_rec EmptyString s.

(** ** Environments *)

Definition equals : ascii := "="%char.
(** [strncmp(a, b, n) == 0] *)
Definition strneq (a b : string) (n : nat) : bool := bool_decide (str_take n a = str_take n b).

(** One entry of [a]: where the entries so far have its name it takes the place
    of the first of them. *)
Fixpoint env_place (r : list string) (a : string) (n : nat) : list string :=
  match r with
  | [] => [a]
  | j :: r' => if strneq j a n then a :: r' else j :: env_place r' a n
  end.
Definition env_append_one (r : list string) (a : string) : list string :=
  let n := strcspn a (str1 equals) in
  let n := if bool_decide (String.get n a = Some equals) then S n else n in
  env_place r a n.
Definition env_append (r a : list string) : list string := foldl env_append_one r a.
Definition strv_env_merge (lists : list (list string)) : list string := foldl env_append [] lists.
Definition env_match (t pattern : string) : bool :=
  if bool_decide (t = pattern) then true
  else if mem_char equals pattern then false
  else let l := strlen pattern in strneq t pattern l && bool_decide (String.get l t = Some equals).
Definition strv_env_delete (x : list string) (lists : list (list string)) : list string :=
  filter (λ k, existsb (λ l, existsb (env_match k) l) lists = false) x.
Definition strv_env_unset (l : list string) (p : string) : list string := filter (λ f, env_match f p = false) l.
Definition strv_env_set (x : list string) (p : string) : list string := env_append (env_append [] x) [p].
Fixpoint strv_env_get_with_length (l : list string) (name : string) (k : nat) : option string :=
  match l with
  | [] => None
  | i :: l' =>
      if strneq i name k && bool_decide (String.get k i = Some equals) then Some (str_drop (S k) i)
      else strv_env_get_with_length l' name k
  end.
Definition strv_env_get (l : list string) (name : string) : option string := strv_env_get_with_length l name (strlen name).
Definition strv_env_clean (l : list string) : list string :=
  filter (λ s, match strchr s equals with Some (String _ EmptyString) => false | _ => true end = true) l.

(** *** Variables in a text *)

Inductive EnvState := WORD | CURLY | VARIABLE.
Definition dollar : ascii := "$"%char.
(** [r] is the result so far, [w] the text from [word] to where the loop is. *)
Fixpoint replace_env_rec (env : list string) (state : EnvState) (r w : string) (e : string) : string :=
  match e with
  | EmptyString => r +:+ w
  | String c e' =>
      match state with
      | WORD => replace_env_rec env (if bool_decide (c = dollar) then CURLY else WORD) r (w +:+ str1 c) e'
      | CURLY =>
          if bool_decide (c = "{"%char) then
            replace_env_rec env VARIABLE (r +:+ str_take (strlen w - 1) w) (String dollar (str1 c)) e'
          else if bool_decide (c = dollar) then replace_env_rec env WORD (r +:+ w) EmptyString e'
          else replace_env_rec env WORD r (w +:+ str1 c) e'
      | VARIABLE =>
          if bool_decide (c = "}"%char) then
            let t := default EmptyString (strv_env_get_with_length env (str_drop 2 w) (strlen w - 2)) in
            replace_env_rec env WORD (r +:+ t) EmptyString e'
          else replace_env_rec env VARIABLE r (w +:+ str1 c) e'
      end
  end.
Definition replace_env (format : string) (env : list string) : string := replace_env_rec env WORD EmptyString EmptyString format.
(** [$FOO] as a word of its own is split into words, [${FOO}] is not. *)
Definition is_variable_word (i : string) : bool :=
  match i with String c i' => bool_decide (c = dollar) && negb (bool_decide (String.get 0 i' = Some "{"%char)) | EmptyString => false end.
Fixpoint replace_env_argv (argv env : list string) : option (list string) :=
  match argv with
  | [] => Some []
  | i :: argv' =>
      let words :=
        if is_variable_word i then
          match strv_env_get env (str_drop 1 i) with
          | Some e => strv_split_quoted e
          | None => Some []
          end
        else Some [replace_env i env] in
      match words, replace_env_argv argv' env with Some w, Some l => Some (w ++ l) | _, _ => None end
  end.

(** ** What they mean *)

(** A name and a value make an assignment. *)
Definition assign (p : string * string) : string := p.1 +:+ String equals p.2.
Definition name_ok (p : string * string) : Prop := mem_char equals p.1 = false.

Lemma strcspn_name n r : mem_char equals n = false → strcspn (n +:+ String equals r) (str1 equals) = strlen n.
Proof.
  induction n as [|c n IH]; [done|]. cbn [mem_char]. intros [Hc Hn]%orb_false_iff.
  change (String c n +:+ String equals r) with (String c (n +:+ String equals r)). cbn [strcspn str1 mem_char].
  rewrite orb_false_r. rewrite bool_decide_false by (apply bool_decide_eq_false in Hc; congruence).
  unfold strlen in *. simpl. by rewrite IH.
Qed.
Lemma get_at n c r : String.get (strlen n) (n +:+ String c r) = Some c.
Proof. induction n as [|d n IH]; [done|]. exact IH. Qed.
Lemma take_past n c r : str_take (S (strlen n)) (n +:+ String c r) = n +:+ str1 c.
Proof.
  induction n as [|d n IH]; [by destruct r|].
  change (String d (str_take (S (strlen n)) (n +:+ String c r)) = String d (n +:+ str1 c)). by rewrite IH.
Qed.
Lemma take_name n r : str_take (strlen n) (n +:+ r) = n.
Proof. induction n as [|d n IH]; [by destruct r|]. change (String d (str_take (strlen n) (n +:+ r)) = String d n). by rewrite IH. Qed.

(** Two assignments start alike up to the equals sign when they assign the
    same name. *)
Lemma take_assign n m v : mem_char equals n = false → mem_char equals m = false →
  (str_take (S (strlen n)) (m +:+ String equals v) = n +:+ str1 equals ↔ m = n) ∧
  (str_take (strlen n) (m +:+ String equals v) = n ∧ String.get (strlen n) (m +:+ String equals v) = Some equals ↔ m = n).
Proof.
  intros Hn Hm. split.
  - split; [|by intros ->; apply take_past]. revert m Hm. induction n as [|d n IH]; intros m Hm.
    + destruct m as [|x m]; [done|]. simpl in Hm. apply orb_false_iff in Hm as [Hx _]. apply bool_decide_eq_false in Hx.
      intros E. change (String x (str_take 0 (m +:+ String equals v)) = String equals "") in E. injection E as ->. done.
    + cbn [mem_char] in Hn. apply orb_false_iff in Hn as [Hd Hn]. apply bool_decide_eq_false in Hd.
      destruct m as [|x m].
      * intros E. change (String equals (str_take (S (strlen n)) v) = String d (n +:+ str1 equals)) in E. injection E as E _. congruence.
      * cbn [mem_char] in Hm. apply orb_false_iff in Hm as [Hx Hm].
        change (String x (str_take (S (strlen n)) (m +:+ String equals v)) = String d (n +:+ str1 equals) → String x m = String d n).
        intros [= -> E]. f_equal. by apply IH.
  - split; [|by intros ->; split; [apply take_name|apply get_at]]. revert m Hm. induction n as [|d n IH]; intros m Hm.
    + destruct m as [|x m]; [done|]. simpl in Hm. apply orb_false_iff in Hm as [Hx _]. apply bool_decide_eq_false in Hx.
      intros [_ E]. change (Some x = Some equals) in E. injection E as ->. done.
    + cbn [mem_char] in Hn. apply orb_false_iff in Hn as [Hd Hn]. apply bool_decide_eq_false in Hd.
      destruct m as [|x m].
      * intros [E _]. change (String equals (str_take (strlen n) v) = String d n) in E. injection E as E _. congruence.
      * cbn [mem_char] in Hm. apply orb_false_iff in Hm as [Hx Hm].
        change (String x (str_take (strlen n) (m +:+ String equals v)) = String d n ∧ String.get (strlen n) (m +:+ String equals v) = Some equals → String x m = String d n).
        intros [[= -> E] G]. f_equal. by apply IH.
Qed.

Lemma env_place_pairs r p : Forall name_ok r → name_ok p →
  env_place (map assign r) (assign p) (S (strlen p.1)) = map assign (om_replace r p.1 p.2).
Proof.
  destruct p as [n v]. intros Hr Hp. cbn [fst snd]. induction Hr as [|[m w] r Hm Hr IH]; [done|]. cbn [map env_place om_replace].
  destruct (take_assign n m w Hp Hm) as (E & _).
  assert (strneq (assign (m, w)) (assign (n, v)) (S (strlen n)) = bool_decide (m = n)) as ->.
  { unfold strneq, assign. cbn [fst snd]. rewrite (take_past n). by apply bool_decide_ext. }
  rewrite IH. case_bool_decide; [by rewrite decide_True|by rewrite decide_False].
Qed.
Lemma env_append_one_pairs r p : Forall name_ok r → name_ok p →
  env_append_one (map assign r) (assign p) = map assign (om_replace r p.1 p.2).
Proof.
  intros Hr Hp. unfold env_append_one. assert (strcspn (assign p) (str1 equals) = strlen p.1) as -> by (by apply strcspn_name).
  assert (String.get (strlen p.1) (assign p) = Some equals) as -> by apply get_at. rewrite bool_decide_true by done.
  by apply env_place_pairs.
Qed.
Lemma name_ok_replace r p : Forall name_ok r → name_ok p → Forall name_ok (om_replace r p.1 p.2).
Proof.
  intros Hr Hp. destruct p as [n v]. induction Hr as [|[m w] r Hm Hr IH]; simpl; [by constructor|].
  case_decide; by constructor.
Qed.
Definition om_add (m : list (string * string)) (p : string * string) : list (string * string) := om_replace m p.1 p.2.
Lemma env_append_pairs a : ∀ r, Forall name_ok r → Forall name_ok a →
  env_append (map assign r) (map assign a) = map assign (foldl om_add r a) ∧ Forall name_ok (foldl om_add r a).
Proof.
  unfold env_append. induction a as [|p a IH]; intros r Hr Ha; [done|]. apply Forall_cons in Ha as [Hp Ha]. simpl.
  rewrite env_append_one_pairs by done. apply IH; [by apply name_ok_replace|done].
Qed.
Lemma strv_env_merge_pairs ls : Forall (Forall name_ok) ls → ∀ r, Forall name_ok r →
  foldl env_append (map assign r) (map (map assign) ls) = map assign (foldl om_add r (concat ls)) ∧
  Forall name_ok (foldl om_add r (concat ls)).
Proof.
  induction 1 as [|l ls Hl Hls IH]; intros r Hr; [done|]. simpl. rewrite foldl_app.
  destruct (env_append_pairs l r Hr Hl) as [-> Hok]. by apply IH.
Qed.
Lemma env_get_pairs r n : Forall name_ok r → mem_char equals n = false → strv_env_get (map assign r) n = om_get r n.
Proof.
  intros Hr Hn. unfold strv_env_get. induction Hr as [|[m v] r Hm Hr IH]; [done|]. cbn [map strv_env_get_with_length om_get].
  destruct (take_assign n m v Hn Hm) as (_ & E). rewrite IH.
  assert (strneq (assign (m, v)) n (strlen n) && bool_decide (String.get (strlen n) (assign (m, v)) = Some equals) = bool_decide (m = n)) as ->.
  { unfold strneq, assign. cbn [fst snd]. rewrite str_take_self, <- bool_decide_and. by apply bool_decide_ext. }
  case_bool_decide as Hmn; [rewrite decide_True by done|by rewrite decide_False]. subst. f_equal. apply str_drop_past.
Qed.
Lemma om_get_fold a : ∀ r n, om_get (foldl om_add r a) n = match om_get (rev a) n with Some v => Some v | None => om_get r n end.
Proof.
  induction a as [|[m v] a IH]; intros r n; [done|]. simpl. rewrite IH. unfold om_add at 1. simpl. rewrite om_get_replace.
  rewrite om_get_app. simpl. destruct (om_get (rev a) n); [done|]. by case_decide.
Qed.
Lemma om_wf_fold a : ∀ r, om_wf r → om_wf (foldl om_add r a).
Proof. induction a as [|p a IH]; intros r Hr; [done|]. by apply IH, om_wf_replace. Qed.

(** C31.  Merging environments: of all the assignments to a variable in the
    lists the last one counts, every variable has one place in the result, where
    the first list that names it put it, and what the merged environment says
    of a name is what a look at the lists from the end finds. *)
Theorem strv_env_merge_correct ls : Forall (Forall name_ok) ls →
  let m := foldl om_add [] (concat ls) in
  strv_env_merge (map (map assign) ls) = map assign m ∧ om_wf m ∧
  (∀ n, mem_char equals n = false → strv_env_get (strv_env_merge (map (map assign) ls)) n = om_get (rev (concat ls)) n) ∧
  (∀ x p, Forall name_ok x → om_wf x → name_ok p → strv_env_set (map assign x) (assign p) = map assign (om_replace x p.1 p.2)).
Proof.
  intros Hls m. destruct (strv_env_merge_pairs ls Hls []) as [E Hok]; [done|]. change (map assign []) with (@nil string) in E.
  assert (∀ x m, om_wf (m ++ x) → foldl om_add m x = m ++ x) as Hid.
  { induction x as [|[k v] x IH]; intros r Hr; [by rewrite app_nil_r|]. simpl. unfold om_add at 2. simpl.
    destruct (om_wf_split _ _ _ _ Hr) as [Hk _]. rewrite om_replace_absent by done. rewrite IH; rewrite <- app_assoc; done. }
  split_and!; [exact E|by apply om_wf_fold; constructor| |].
  - intros n Hn. unfold strv_env_merge. rewrite E, env_get_pairs by done. rewrite om_get_fold. by destruct (om_get (rev (concat ls)) n).
  - intros x p Hx Hwf Hp. unfold strv_env_set. destruct (env_append_pairs x [] (Forall_nil_2 _) Hx) as [Ex _].
    change (map assign []) with (@nil string) in Ex. rewrite Ex, (Hid x []) by done. simpl.
    by apply env_append_one_pairs.
Qed.
Lemma strv_env_merge_correct_witness :
  strv_env_merge [["A=1"; "B=2"]; ["C=x=y"; "A=3"]; ["B="]] = ["A=3"; "B="; "C=x=y"] ∧
  strv_env_get (strv_env_merge [["A=1"; "B=2"]; ["C=x=y"; "A=3"]; ["B="]]) "A" = Some "3".
Proof.
  assert (Forall (Forall name_ok) [[("A", "1"); ("B", "2")]; [("C", "x=y"); ("A", "3")]; [("B", "")]]) as H by (repeat constructor).
  destruct (strv_env_merge_correct _ H) as (E & _ & G & _). split; [exact E|exact (G "A" eq_refl)].
Defined.

(** An entry that is not an assignment takes the place of one it is the start
    of. *)
Lemma env_append_prefix : env_append ["FOOBAR=1"] ["FOO"] = ["FOO"].
Proof. vm_compute. reflexivity. Qed.

(** *** Texts with variables *)

Inductive Piece := Text (s : string) | Dollar | Var (name : string).
Definition piece_ok (p : Piece) : Prop :=
  match p with Text s => mem_char dollar s = false | Dollar => True | Var n => mem_char "}" n = false end.
Definition written (p : Piece) : string :=
  match p with Text s => s | Dollar => "$$" | Var n => "${" +:+ n +:+ "}" end.
Definition meaning (env : list string) (p : Piece) : string :=
  match p with Text s => s | Dollar => "$" | Var n => default EmptyString (strv_env_get env n) end.
Fixpoint concat_map (f : Piece → string) (l : list Piece) : string :=
  match l with [] => EmptyString | p :: l' => f p +:+ concat_map f l' end.

Lemma replace_text env s : ∀ r w e, mem_char dollar s = false →
  replace_env_rec env WORD r w (s +:+ e) = replace_env_rec env WORD r (w +:+ s) e.
Proof.
  induction s as [|c s IH]; intros r w e; [by rewrite append_nil_r|]. cbn [mem_char]. intros [Hc Hs]%orb_false_iff.
  apply bool_decide_eq_false in Hc. change (String c s +:+ e) with (String c (s +:+ e)). cbn [replace_env_rec].
  rewrite bool_decide_false by congruence. rewrite IH by done. by rewrite append_assoc.
Qed.
Lemma replace_var env n : ∀ r w e, mem_char "}" n = false →
  replace_env_rec env VARIABLE r w (n +:+ e) = replace_env_rec env VARIABLE r (w +:+ n) e.
Proof.
  induction n as [|c n IH]; intros r w e; [by rewrite append_nil_r|]. cbn [mem_char]. intros [Hc Hn]%orb_false_iff.
  apply bool_decide_eq_false in Hc. change (String c n +:+ e) with (String c (n +:+ e)). cbn [replace_env_rec].
  rewrite bool_decide_false by congruence. rewrite IH by done. by rewrite append_assoc.
Qed.
Lemma take_before w c : str_take (strlen (w +:+ str1 c) - 1) (w +:+ str1 c) = w.
Proof. rewrite append_length. replace (strlen w + strlen (str1 c) - 1) with (strlen w) by (unfold strlen; simpl; lia). apply take_name. Qed.

Lemma replace_env_pieces env l : Forall piece_ok l → ∀ r w,
  replace_env_rec env WORD r w (concat_map written l) = r +:+ w +:+ concat_map (meaning env) l.
Proof.
  induction 1 as [|p l Hp Hl IH]; intros r w; [by rewrite append_nil_r|]. cbn [concat_map].
  destruct p as [s| |n]; cbn [written meaning] in *.
  - rewrite replace_text by done. by rewrite IH, !append_assoc.
  - change ("$$" +:+ concat_map written l) with (String dollar (String dollar (concat_map written l))).
    cbn [replace_env_rec]. rewrite bool_decide_true by done. rewrite (bool_decide_false (dollar = "{"%char)) by done.
    rewrite IH. by rewrite !append_assoc.
  - rewrite !append_assoc. change ("${" +:+ n +:+ "}" +:+ concat_map written l) with
      (String dollar (String "{" (n +:+ String "}" (concat_map written l)))).
    cbn [replace_env_rec]. rewrite !bool_decide_true by done. rewrite take_before, replace_var by done.
    cbn [replace_env_rec]. rewrite bool_decide_true by done. rewrite IH.
    change (String dollar (str1 "{") +:+ n) with (String dollar (String "{" n)). cbn [str_drop].
    replace (strlen (String dollar (String "{" n)) - 2) with (strlen n) by (unfold strlen; simpl; lia).
    by rewrite !append_assoc.
Qed.

(** C32.  [replace_env]: in a text that is put together from plain text, [$$] and
    [${NAME}], the second becomes a dollar sign, the third the value of the
    variable in the environment, or nothing, and the plain text stays. *)
Theorem replace_env_correct env l : Forall piece_ok l →
  replace_env (concat_map written l) env = concat_map (meaning env) l.
Proof. intros Hl. unfold replace_env. by rewrite (replace_env_pieces env l Hl). Qed.
Lemma replace_env_correct_witness :
  replace_env "a$$b${X}c${Y}${X}" ["Y"; "X=1$2"] = "a$b1$2c1$2".
Proof.
  exact (replace_env_correct ["Y"; "X=1$2"] [Text "a"; Dollar; Text "b"; Var "X"; Text "c"; Var "Y"; Var "X"]
    ltac:(repeat constructor)).
Defined.
