(* ===== verification/IntrusiveList.v ===== *)
(** * Intrusive doubly linked lists (src/list.h)

    The macros on the fields [name_next] and [name_prev] of the items, which
    the entries of the hash map, the jobs and the queues of the engine use.
    [represents s l] says that the pointers in the store make up the list [l];
    the macros do on it what the engine's model says they do. *)

From stdpp Require Import base gmap list fin_maps.
From Stdlib Require Import ZArith Lia.
From S2P Require Import Prelude.

(** [LIST_FIELDS(t, name)] *)
Record Link := mkLink { next : option nat; prev : option nat }.
#[export] Instance Link_rebuild : Rebuild Link := λ k, mkLink (next k) (prev k).

(** ** Segments of a list *)

Definition hd_or (l : list nat) (q : option nat) : option nat :=
  match l with [] => q | x :: _ => Some x end.
Definition last_or (l : list nat) (p : option nat) : option nat :=
  match last l with Some x => Some x | None => p end.

(** The items [l] with [p] before and [q] after them. *)
Fixpoint seg (L : gmap nat Link) (p : option nat) (l : list nat) (q : option nat) : Prop :=
  match l with
  | [] => True
  | x :: l' => L !! x = Some (mkLink (hd_or l' q) p) ∧ seg L (Some x) l' q
  end.

Definition set_next (v : option nat) (k : Link) : Link := k <| next := v |>.
Definition set_prev (v : option nat) (k : Link) : Link := k <| prev := v |>.

Lemma last_or_cons x l p : last_or (x :: l) p = last_or l (Some x).
Proof. unfold last_or. rewrite last_cons. by destruct (last l). Qed.
Lemma hd_or_app l1 l2 q : hd_or (l1 ++ l2) q = hd_or l1 (hd_or l2 q).
Proof. by destruct l1. Qed.
Lemma last_or_snoc l x p : last_or (l ++ [x]) p = Some x.
Proof. unfold last_or. by rewrite last_snoc. Qed.

Lemma seg_app L l1 l2 q : ∀ p,
  seg L p (l1 ++ l2) q ↔ seg L p l1 (hd_or l2 q) ∧ seg L (last_or l1 p) l2 q.
Proof.
  induction l1 as [|x l1 IH]; intros p; simpl; [unfold last_or; simpl; tauto|].
  rewrite IH, hd_or_app, last_or_cons. tauto.
Qed.
Lemma seg_ext L L' l q : ∀ p, (∀ x, x ∈ l → L' !! x = L !! x) → seg L p l q → seg L' p l q.
Proof.
  induction l as [|x l IH]; intros p Hl; simpl; [done|]. intros [Hx Hs]. split.
  - rewrite Hl; [done|left].
  - apply IH; [|done]. intros y Hy. apply Hl. by right.
Qed.
Lemma seg_alter L f z p l q : z ∉ l → seg L p l q → seg (alter f z L) p l q.
Proof.
  intros Hz. apply seg_ext. intros x Hx. apply lookup_alter_ne. by intros ->.
Qed.

Lemma seg_set_next L p l z q q' :
  z ∉ l → seg L p (l ++ [z]) q → seg (alter (set_next q') z L) p (l ++ [z]) q'.
Proof.
  intros Hz [Hl [Hx _]]%seg_app. apply seg_app. split; [by apply seg_alter|]. simpl. split; [|done].
  by rewrite lookup_alter_eq, Hx.
Qed.
Lemma seg_set_prev L p p' y l q :
  y ∉ l → seg L p (y :: l) q → seg (alter (set_prev p') y L) p' (y :: l) q.
Proof.
  intros Hy [Hx Hl]. simpl. rewrite lookup_alter_eq, Hx. split; [done|by apply seg_alter].
Qed.

(** Both neighbours are told, where there are any. *)
Definition tell_next (n p : option nat) (L : gmap nat Link) : gmap nat Link :=
  match n with Some n => alter (set_prev p) n L | None => L end.
Definition tell_prev (p n : option nat) (L : gmap nat Link) : gmap nat Link :=
  match p with Some p => alter (set_next n) p L | None => L end.

Lemma seg_tell_next L p p' l q :
  NoDup l → seg L p l q → seg (tell_next (hd_or l None) p' L) p' l q.
Proof.
  destruct l as [|y l]; simpl; [done|]. intros [Hy _]%NoDup_cons Hs. by apply (seg_set_prev L p p' y l q).
Qed.
Lemma seg_tell_prev L p l q q' :
  NoDup l → seg L p l q → seg (tell_prev (last_or l None) q' L) p l q'.
Proof.
  destruct l as [|z l] using rev_ind; [done|]. clear IHl. rewrite last_or_snoc. simpl.
  intros Hn. apply seg_set_next. apply NoDup_app in Hn as (_ & Hd & _). intros Hz. apply (Hd z Hz). left.
Qed.
Lemma seg_tell_next_other L n p' p l q :
  (∀ x, n = Some x → x ∉ l) → seg L p l q → seg (tell_next n p' L) p l q.
Proof. destruct n as [n|]; simpl; [|done]. intros Hn. apply seg_alter. by apply Hn. Qed.
Lemma seg_tell_prev_other L n p' p l q :
  (∀ x, n = Some x → x ∉ l) → seg L p l q → seg (tell_prev n p' L) p l q.
Proof. destruct n as [n|]; simpl; [|done]. intros Hn. apply seg_alter. by apply Hn. Qed.

Lemma hd_or_elem l x : hd_or l None = Some x → x ∈ l.
Proof. destruct l; simpl; [done|]. intros [= ->]. left. Qed.
Lemma last_or_elem l x : last_or l None = Some x → x ∈ l.
Proof.
  unfold last_or. destruct (last l) as [y|] eqn:E; [|done]. intros [= ->].
  apply last_Some in E as [l' ->]. apply elem_of_app. right. left.
Qed.

(** Taking [x] out of a list: its neighbours get linked to each other. *)
Lemma seg_remove L l1 x l2 :
  NoDup (l1 ++ x :: l2) → seg L None (l1 ++ x :: l2) None →
  L !! x = Some (mkLink (hd_or l2 None) (last_or l1 None)) ∧
  seg (tell_prev (last_or l1 None) (hd_or l2 None) (tell_next (hd_or l2 None) (last_or l1 None) L))
    None (l1 ++ l2) None.
Proof.
  intros (Hn1 & Hd & [Hx Hn2]%NoDup_cons)%NoDup_app [H1 [HL H2]]%seg_app. split; [done|].
  apply seg_app. split.
  - apply (seg_tell_prev _ _ _ (hd_or (x :: l2) None)); [done|]. apply seg_tell_next_other; [|done].
    intros y Hy%hd_or_elem Hy1. apply (Hd y Hy1). by right.
  - apply seg_tell_prev_other.
    + intros y Hy%last_or_elem Hy2. apply (Hd y Hy). by right.
    + by apply (seg_tell_next _ (Some x)).
Qed.

(** A new item [x] between [l1] and [l2]. *)
Lemma seg_insert L l1 x l2 :
  NoDup (l1 ++ x :: l2) → seg L None (l1 ++ l2) None →
  seg (<[x := mkLink (hd_or l2 None) (last_or l1 None)]>
        (tell_prev (last_or l1 None) (Some x) (tell_next (hd_or l2 None) (Some x) L)))
    None (l1 ++ x :: l2) None.
Proof.
  intros (Hn1 & Hd & [Hx Hn2]%NoDup_cons)%NoDup_app [H1 H2]%seg_app.
  assert (x ∉ l1) as Hx1 by (intros H; apply (Hd x H); left).
  apply seg_app. split; [|simpl; split; [by rewrite lookup_insert_eq|]].
  - eapply seg_ext; [intros y Hy; apply lookup_insert_ne; by intros ->|]. simpl.
    apply (seg_tell_prev _ _ _ (hd_or l2 None)); [done|]. apply seg_tell_next_other; [|done].
    intros y Hy%hd_or_elem Hy1. apply (Hd y Hy1). by right.
  - eapply seg_ext; [intros y Hy; apply lookup_insert_ne; by intros ->|].
    apply seg_tell_prev_other.
    + intros y Hy%last_or_elem Hy2. apply (Hd y Hy). by right.
    + by apply (seg_tell_next _ (last_or l1 None)).
Qed.

(** ** The macros *)

Record LStore := mkLStore { links : gmap nat Link; lhead : option nat }.
#[export] Instance LStore_rebuild : Rebuild LStore := λ s, mkLStore (links s) (lhead s).
Abbreviation LM := (M LStore).

Definition item_at (x : nat) : LM Link := s ← get; deref (links s !! x).
Definition update_item (x : nat) (f : Link → Link) : LM unit :=
  k ← item_at x; modify (λ s, s <| links ::= <[x := f k]> |>).

Definition LIST_INIT (item : nat) : LM unit := update_item item (λ _, mkLink None None).

Definition LIST_PREPEND (item : nat) : LM unit :=
  h ← gets lhead;
  update_item item (set_next h);;
  match h with Some n => update_item n (set_prev (Some item)) | None => mret tt end;;
  update_item item (set_prev None);;
  modify (λ s, s <| lhead := Some item |>).

Definition LIST_REMOVE (item : nat) : LM unit :=
  k ← item_at item;
  match next k with Some n => update_item n (set_prev (prev k)) | None => mret tt end;;
  k ← item_at item;
  match prev k with
  | Some p => update_item p (set_next (next k))
  | None =>
      h ← gets lhead;
      assert_ (bool_decide (h = Some item));;
      modify (λ s, s <| lhead := next k |>)
  end;;
  update_item item (λ _, mkLink None None).

Fixpoint LIST_FIND_HEAD (n : nat) (item : nat) : LM nat :=
  match n with
  | O => nofuel
  | S n' => k ← item_at item; match prev k with Some p => LIST_FIND_HEAD n' p | None => mret item end
  end.
Fixpoint LIST_FIND_TAIL (n : nat) (item : nat) : LM nat :=
  match n with
  | O => nofuel
  | S n' => k ← item_at item; match next k with Some p => LIST_FIND_TAIL n' p | None => mret item end
  end.

Definition LIST_INSERT_AFTER (a : option nat) (b : nat) : LM unit :=
  match a with
  | None => LIST_PREPEND b
  | Some a =>
      k ← item_at a;
      update_item b (set_next (next k));;
      match next k with Some n => update_item n (set_prev (Some b)) | None => mret tt end;;
      update_item b (set_prev (Some a));;
      update_item a (set_next (Some b))
  end.

Definition LIST_JUST_US (item : nat) : LM bool :=
  k ← item_at item; mret (bool_decide (prev k = None) && bool_decide (next k = None)).

(** [LIST_FOREACH] with a body that only notes the items down. *)
Fixpoint LIST_FOREACH (n : nat) (i : option nat) : LM (list nat) :=
  match i with
  | None => mret []
  | Some x =>
      match n with
      | O => nofuel
      | S n' => k ← item_at x; l ← LIST_FOREACH n' (next k); mret (x :: l)
      end
  end.

(** ** What they do *)

Record represents (s : LStore) (l : list nat) : Prop := {
  re_seg : seg (links s) None l None;
  re_NoDup : NoDup l;
  re_head : lhead s = hd_or l None }.
Definition live (s : LStore) (x : nat) : Prop := is_Some (links s !! x).

Lemma update_item_eq x f s :
  live s x → update_item x f s = Ret tt (s <| links ::= alter f x |>).
Proof.
  intros [k Hk]. unfold update_item, item_at, mbind, M_bind, get. rewrite Hk. simpl. unfold modify.
  f_equal. unfold upd; simpl. f_equal. apply map_eq. intros y. rewrite lookup_alter, lookup_insert.
  case_decide; [subst; by rewrite Hk|done].
Qed.

Lemma seg_live L p l q x : seg L p l q → x ∈ l → is_Some (L !! x).
Proof.
  revert p. induction l as [|y l IH]; intros p; simpl; [by intros _ ?%elem_of_nil|].
  intros [Hy Hs] [->|Hx]%elem_of_cons; [by eexists|by eapply IH].
Qed.

Lemma wp_update_item x f s (Q : unit → LStore → Prop) :
  live s x → Q tt (s <| links ::= alter f x |>) → wp (update_item x f) s Q.
Proof. intros Hx HQ. eapply wp_intro; [by apply update_item_eq|exact HQ]. Qed.
Lemma wp_item_at x s k (Q : Link → LStore → Prop) : links s !! x = Some k → Q k s → wp (item_at x) s Q.
Proof. intros Hk HQ. eapply wp_intro; [|exact HQ]. unfold item_at, mbind, M_bind, get. by rewrite Hk. Qed.

(** Telling the neighbour, in the code and on the store. *)
Lemma wp_tell_next n v s (Q : unit → LStore → Prop) :
  (∀ x, n = Some x → live s x) → Q tt (s <| links ::= tell_next n v |>) →
  wp (match n with Some n => update_item n (set_prev v) | None => mret tt end) s Q.
Proof.
  destruct n as [n|]; simpl; intros Hl HQ; [apply wp_update_item; [by apply Hl|done]|].
  apply wp_ret. by destruct s.
Qed.

Lemma live_alter s x f y : live s y → live (s <| links ::= alter f x |>) y.
Proof. unfold live; simpl. by rewrite lookup_alter_is_Some. Qed.
Lemma live_tell_next s n v y : live s y → live (s <| links ::= tell_next n v |>) y.
Proof. destruct n; [apply live_alter|done]. Qed.

Definition untouched (s s' : LStore) (l : list nat) : Prop :=
  ∀ y, y ∉ l → links s' !! y = links s !! y.

Lemma LIST_PREPEND_spec s l x :
  represents s l → live s x → x ∉ l →
  wp (LIST_PREPEND x) s (λ _ s', represents s' (x :: l) ∧ untouched s s' (x :: l)).
Proof.
  intros [Hs Hn Hh] [k Hk] Hx. unfold LIST_PREPEND. wp_step. wp_step. rewrite Hh.
  assert (∀ y, hd_or l None = Some y → live s y ∧ y ≠ x) as Hhd.
  { intros y Hy%hd_or_elem. split; [by eapply seg_live|by intros ->]. }
  wp_step. apply wp_update_item; [by eexists|].
  wp_step. apply wp_tell_next; [intros y Hy; by apply live_alter, Hhd|].
  wp_step. apply wp_update_item; [apply live_tell_next, live_alter; by eexists|]. wp_step.
  match goal with |- represents ?s' _ ∧ _ =>
    assert (links s' = <[x := mkLink (hd_or l None) None]> (tell_next (hd_or l None) (Some x) (links s))) as E end.
  { simpl. apply map_eq. intros y. destruct (decide (y = x)) as [->|Hy].
    - rewrite lookup_insert_eq, lookup_alter_eq. destruct (hd_or l None) as [n|] eqn:E; simpl.
      + rewrite lookup_alter_ne by (by apply Hhd). rewrite lookup_alter_eq, Hk. done.
      + by rewrite lookup_alter_eq, Hk.
    - rewrite lookup_insert_ne, lookup_alter_ne by done. destruct (hd_or l None) as [n|]; simpl.
      + rewrite !(lookup_alter_if _ _ n). by rewrite lookup_alter_ne.
      + by rewrite lookup_alter_ne. }
  split; [split; rewrite ?E|].
  - apply (seg_insert (links s) [] x l); [by apply NoDup_cons|done].
  - by apply NoDup_cons.
  - done.
  - intros y Hy. rewrite E. apply not_elem_of_cons in Hy as [Hyx Hyl]. rewrite lookup_insert_ne by done.
    destruct (hd_or l None) as [n|] eqn:En; simpl; [|done]. apply lookup_alter_ne. intros ->.
    by apply Hyl, hd_or_elem.
Qed.

Lemma LIST_REMOVE_spec s l1 x l2 :
  represents s (l1 ++ x :: l2) →
  wp (LIST_REMOVE x) s (λ _ s', represents s' (l1 ++ l2) ∧ links s' !! x = Some (mkLink None None) ∧
    untouched s s' (l1 ++ x :: l2)).
Proof.
  intros [Hs Hn Hh]. destruct (seg_remove _ l1 x l2 Hn Hs) as [Hx Hs'].
  assert (∀ y, y ∈ l1 ++ x :: l2 → live s y) as Hlive by (intros; by eapply seg_live).
  pose proof Hn as (Hn1 & Hd & [Hx2 Hn2]%NoDup_cons)%NoDup_app.
  assert (x ∉ l1) as Hx1 by (intros H; apply (Hd x H); left).
  assert (∀ y, hd_or l2 None = Some y → y ∈ l2 ∧ y ≠ x) as Hhd.
  { intros y Hy%hd_or_elem. split; [done|by intros ->]. }
  assert (∀ y, last_or l1 None = Some y → y ∈ l1 ∧ y ≠ x) as Hla.
  { intros y Hy%last_or_elem. split; [done|by intros ->]. }
  unfold LIST_REMOVE. wp_step. eapply wp_item_at; [exact Hx|]. cbn [next prev].
  wp_step. apply wp_tell_next; [intros y Hy; apply Hlive, elem_of_app; right; right; by apply Hhd|].
  set (s1 := s <| links ::= _ |>).
  assert (links s1 !! x = Some (mkLink (hd_or l2 None) (last_or l1 None))) as Hx'.
  { unfold s1; simpl. destruct (hd_or l2 None) as [n|]; simpl; [|done].
    rewrite lookup_alter_ne; [done|]. by apply Hhd. }
  assert (links s1 = tell_next (hd_or l2 None) (last_or l1 None) (links s)) as E1 by reflexivity.
  assert (lhead s1 = lhead s ∧ ∀ y, y ∈ l1 ++ x :: l2 → live s1 y) as [Eh Hlive1].
  { split; [done|]. intros y Hy. by apply live_tell_next, Hlive. }
  clearbody s1. wp_step. eapply wp_item_at; [exact Hx'|]. cbn [next prev]. wp_step.
  set (L2 := tell_prev (last_or l1 None) (hd_or l2 None) (links s1)).
  apply (wp_mono _ _ (λ _ s2, links s2 = L2 ∧ lhead s2 = hd_or (l1 ++ l2) None)).
  { unfold L2. destruct l1 as [|p l1 _] using rev_ind.
    - cbn. wp_step. wp_step. wp_step. rewrite Eh, Hh. simpl.
      rewrite bool_decide_true by done. apply wp_ret. wp_step. done.
    - rewrite last_or_snoc. apply wp_update_item; [apply Hlive1; set_solver|].
      split; [done|]. simpl. rewrite Eh, Hh. by destruct l1. }
  intros [] s2 [EL EH]. unfold wp. rewrite update_item_eq; [split_and!|].
  - split; [|by apply NoDup_app; split_and!; [|intros y ? ?; apply (Hd y); [|right]|]|done].
    simpl. rewrite EL. unfold L2. apply seg_alter; [set_solver|]. by rewrite E1.
  - simpl. rewrite lookup_alter_eq, EL. unfold L2. destruct (last_or l1 None) as [p|]; simpl.
    + rewrite lookup_alter_ne by (by apply Hla). by rewrite Hx'.
    + by rewrite Hx'.
  - intros y Hy. rewrite not_elem_of_app, not_elem_of_cons in Hy. destruct Hy as (Hy1 & Hyx & Hy2).
    simpl. rewrite lookup_alter_ne by done. rewrite EL. unfold L2. rewrite E1.
    destruct (last_or l1 None) as [p|] eqn:Ep; simpl; [rewrite lookup_alter_ne by (intros ->; by apply Hy1, last_or_elem)|];
      (destruct (hd_or l2 None) as [n|] eqn:En; simpl; [apply lookup_alter_ne; intros ->; by apply Hy2, hd_or_elem|done]).
  - unfold live. rewrite EL. unfold L2. destruct (last_or l1 None) as [p|]; simpl; rewrite ?lookup_alter_is_Some, Hx'; eauto.
Qed.

Lemma LIST_INSERT_AFTER_spec s l1 a l2 b :
  represents s (l1 ++ a :: l2) → live s b → b ∉ l1 ++ a :: l2 →
  wp (LIST_INSERT_AFTER (Some a) b) s (λ _ s', represents s' (l1 ++ a :: b :: l2)).
Proof.
  intros [Hs Hn Hh] [k Hk] Hb. destruct (seg_remove _ l1 a l2 Hn Hs) as [Ha _].
  assert (∀ y, y ∈ l1 ++ a :: l2 → live s y ∧ y ≠ b) as Hlive.
  { intros y Hy. split; [by eapply seg_live|by intros ->]. }
  assert (∀ y, hd_or l2 None = Some y → live s y ∧ y ≠ b) as Hhd.
  { intros y Hy%hd_or_elem. apply Hlive. set_solver. }
  destruct (Hlive a) as [Hal Hab]; [set_solver|].
  assert (NoDup ((l1 ++ [a]) ++ b :: l2)) as Hn'.
  { rewrite NoDup_app in Hn. destruct Hn as (Hn1 & Hd & [Ha2 Hn2]%NoDup_cons).
    rewrite <- app_assoc. simpl. apply NoDup_app. split_and!; [done|set_solver|].
    repeat (apply NoDup_cons; split; [set_solver|]). done. }
  unfold LIST_INSERT_AFTER. wp_step. eapply wp_item_at; [exact Ha|]. cbn [next prev].
  wp_step. apply wp_update_item; [by eexists|].
  wp_step. apply wp_tell_next; [intros y Hy; by apply live_alter, Hhd|].
  wp_step. apply wp_update_item; [apply live_tell_next, live_alter; by eexists|].
  apply wp_update_item; [by apply live_alter, live_tell_next, live_alter|].
  match goal with |- represents ?s' _ =>
    assert (links s' = <[b := mkLink (hd_or l2 None) (last_or (l1 ++ [a]) None)]>
      (tell_prev (last_or (l1 ++ [a]) None) (Some b) (tell_next (hd_or l2 None) (Some b) (links s)))) as E end.
  { rewrite last_or_snoc. simpl. apply map_eq. intros y. destruct (decide (y = b)) as [->|Hy].
    - rewrite lookup_insert_eq, lookup_alter_ne, lookup_alter_eq by done.
      destruct (hd_or l2 None) as [n|] eqn:E; simpl.
      + rewrite lookup_alter_ne by (by apply Hhd). by rewrite lookup_alter_eq, Hk.
      + by rewrite lookup_alter_eq, Hk.
    - rewrite lookup_insert_ne by done. rewrite !(lookup_alter_if _ _ a), (lookup_alter_ne _ _ b) by done.
      f_equal. destruct (hd_or l2 None) as [n|]; simpl; [|by rewrite lookup_alter_ne].
      rewrite !(lookup_alter_if _ _ n). by rewrite lookup_alter_ne. }
  replace (l1 ++ a :: b :: l2) with ((l1 ++ [a]) ++ b :: l2) by (by rewrite <- app_assoc).
  split; [|done|].
  - rewrite E. apply seg_insert; [done|]. by rewrite <- app_assoc.
  - simpl. rewrite Hh. by destruct l1.
Qed.

(** Walking the list. *)
Lemma LIST_FIND_HEAD_spec s l1 : ∀ x l2 n,
  represents s (l1 ++ x :: l2) → length l1 < n →
  LIST_FIND_HEAD n x s = Ret (default x (head l1)) s.
Proof.
  induction l1 as [|y l1 IH] using rev_ind; intros x l2 n Hr Hn; (destruct n as [|n]; [simpl in Hn; lia|]); simpl;
    pose proof (seg_remove _ _ x l2 (re_NoDup _ _ Hr) (re_seg _ _ Hr)) as [Hx _];
    unfold mbind, M_bind, item_at, get; unfold mbind, M_bind; rewrite Hx; simpl.
  - done.
  - rewrite last_or_snoc. rewrite length_app in Hn. simpl in Hn. rewrite <- app_assoc in Hr.
    rewrite (IH y (x :: l2) n Hr) by lia. by destruct l1.
Qed.
Lemma default_last (y x : nat) l : default y (last l) = default x (last (y :: l)).
Proof. rewrite last_cons. by destruct (last l). Qed.
Lemma LIST_FIND_TAIL_spec s l2 : ∀ l1 x n,
  represents s (l1 ++ x :: l2) → length l2 < n →
  LIST_FIND_TAIL n x s = Ret (default x (last l2)) s.
Proof.
  induction l2 as [|y l2 IH]; intros l1 x n Hr Hn; (destruct n as [|n]; [simpl in Hn; lia|]); simpl;
    pose proof (seg_remove _ l1 x _ (re_NoDup _ _ Hr) (re_seg _ _ Hr)) as [Hx _];
    unfold mbind, M_bind, item_at, get; unfold mbind, M_bind; rewrite Hx; simpl.
  - done.
  - simpl in Hn. rewrite (IH (l1 ++ [x]) y n); [|by rewrite <- app_assoc|lia].
    by rewrite (default_last y x).
Qed.
Lemma LIST_FOREACH_seg s l : ∀ p n,
  seg (links s) p l None → length l ≤ n → LIST_FOREACH n (hd_or l None) s = Ret l s.
Proof.
  induction l as [|x l IH]; intros p n Hs Hn; [by destruct n|]. destruct n as [|n]; [simpl in Hn; lia|].
  destruct Hs as [Hx Hs]. simpl in Hn |- *.
  unfold mbind, M_bind, item_at, get; unfold mbind, M_bind. rewrite Hx. simpl.
  rewrite (IH (Some x) n Hs) by lia. done.
Qed.

(** C24. The macros of src/list.h implement lists: when the pointers make up
    [l], [LIST_PREPEND] of a new item makes them up [x :: l],
    [LIST_INSERT_AFTER] puts the new item behind the given one, [LIST_REMOVE]
    takes the item out and clears its own pointers, [LIST_FIND_HEAD] and
    [LIST_FIND_TAIL] end at the ends of the list and [LIST_FOREACH] visits the
    items in their order.  None of them follows a pointer outside the list. *)
Theorem intrusive_list_correct s l :
  represents s l →
  (∀ x, live s x → x ∉ l → wp (LIST_PREPEND x) s (λ _ s', represents s' (x :: l) ∧ untouched s s' (x :: l))) ∧
  (∀ l1 x l2, l = l1 ++ x :: l2 →
     wp (LIST_REMOVE x) s (λ _ s', represents s' (l1 ++ l2) ∧ links s' !! x = Some (mkLink None None) ∧
       untouched s s' l) ∧
     LIST_FIND_HEAD (S (length l)) x s = Ret (default x (head l)) s ∧
     LIST_FIND_TAIL (S (length l)) x s = Ret (default x (last l)) s ∧
     ∀ b, live s b → b ∉ l → wp (LIST_INSERT_AFTER (Some x) b) s (λ _ s', represents s' (l1 ++ x :: b :: l2))) ∧
  LIST_FOREACH (length l) (lhead s) s = Ret l s.
Proof.
  intros Hr. split_and!.
  - intros x. by apply LIST_PREPEND_spec.
  - intros l1 x l2 ->. split_and!.
    + by apply LIST_REMOVE_spec.
    + rewrite (LIST_FIND_HEAD_spec s l1 x l2) by (done || rewrite length_app; lia). by destruct l1.
    + rewrite (LIST_FIND_TAIL_spec s l2 l1 x) by (done || rewrite length_app; simpl; lia).
      rewrite last_app, last_cons. by destruct (last l2).
    + intros b. by apply LIST_INSERT_AFTER_spec.
  - rewrite (re_head _ _ Hr). apply (LIST_FOREACH_seg s l None); [apply Hr|done].
Qed.

(** ** Examples *)

(** Three items, of which two are linked. *)
Definition s_two : LStore :=
  mkLStore (list_to_map [(1, mkLink (Some 2) None); (2, mkLink None (Some 1)); (3, mkLink None None)]) (Some 1).
Lemma s_two_represents : represents s_two [1; 2].
Proof.
  split; [vm_compute; split; [reflexivity|split; [reflexivity|exact I]]| |reflexivity].
  apply (bool_decide_unpack _). vm_compute. exact I.
Qed.

Lemma intrusive_list_correct_witness :
  ∃ s1 s2, LIST_INSERT_AFTER (Some 1) 3 s_two = Ret tt s1 ∧ represents s1 [1; 3; 2] ∧
    LIST_REMOVE 1 s_two = Ret tt s2 ∧ represents s2 [2].
Proof.
  destruct (intrusive_list_correct s_two [1; 2] s_two_represents) as (_ & Hrm & _).
  destruct (Hrm [] 1 [2] eq_refl) as (H1 & _ & _ & H2).
  destruct (wp_elim _ _ _ H1) as ([] & s2 & E2 & Hr2 & _).
  assert (3 ∉ [1; 2]) as H3 by (apply (bool_decide_unpack _); vm_compute; exact I).
  assert (live s_two 3) as Hl by (eexists; vm_compute; reflexivity).
  destruct (wp_elim _ _ _ (H2 3 Hl H3)) as ([] & s1 & E1 & Hr1).
  exists s1, s2. by split_and!.
Defined.
