(* ===== verification/Hashmap.v ===== *)
(** * The hash map (src/hashmap.c)

    Entries are chained from 127 buckets and, in the order of their insertion,
    on one more list for iteration.  The store holds the entries of all maps,
    since [hashmap_move] hands them over.  What the operations do is in
    HashmapSpec.v, and that any client gets the results of ordered maps
    (OrderedMap.v), [hashmap_refines], in HashmapIter.v.

    Keys are compared by what [compare_func] sees: two pointers to equal
    strings are one key.  Where the C code returns NULL for "not there" the
    model returns [None]; values are not NULL.  An entry comes from a memory
    pool or from [malloc], which the model does not tell apart: either way it is
    memory that is not in use. *)

From stdpp Require Import base gmap strings list fin_maps.
From Stdlib Require Import ZArith Lia.
From S2P Require Import Prelude OrderedMap IntrusiveList.

Definition NBUCKETS : nat := 127.

Record HEntry {K V : Type} := mkHEntry {
  e_key : K;
  e_value : V;
  e_bucket : Link;
  e_iterate : Link }.
Arguments HEntry : clear implicits.
Arguments mkHEntry {K V}.
#[export] Instance HEntry_rebuild {K V} : Rebuild (HEntry K V) := λ e,
  mkHEntry (e_key e) (e_value e) (e_bucket e) (e_iterate e).

Record Hashmap {K : Type} := mkHashmap {
  hash_func : K → Z;
  compare_func : K → K → Z;
  BY_HASH : list (option nat);
  iterate_list_head : option nat;
  iterate_list_tail : option nat;
  n_entries : Z }.
Arguments Hashmap : clear implicits.
Arguments mkHashmap {K}.
#[export] Instance Hashmap_rebuild {K} : Rebuild (Hashmap K) := λ h,
  mkHashmap (hash_func h) (compare_func h) (BY_HASH h) (iterate_list_head h) (iterate_list_tail h)
    (n_entries h).

Record HStore {K V : Type} := mkHStore {
  entries : gmap nat (HEntry K V);
  maps : gmap nat (Hashmap K);
  h_next : nat;
  h_oom : list bool }.
Arguments HStore : clear implicits.
Arguments mkHStore {K V}.
#[export] Instance HStore_rebuild {K V} : Rebuild (HStore K V) := λ s,
  mkHStore (entries s) (maps s) (h_next s) (h_oom s).

Inductive Iterator := ITERATOR_FIRST | ITERATOR_LAST | AT (e : nat).

(** *** The hash functions *)

(** DJB's hash function on the bytes, as signed characters, before the NUL. *)
Definition signed_char (b : Z) : Z := if bool_decide (b < 128)%Z then b else (b - 256)%Z.
Definition string_hash_step (hash c : Z) : Z := u32 (u32 (Z.shiftl hash 5) + hash + signed_char c).
Definition string_hash_func (p : list Z) : Z := foldl string_hash_step 5381%Z p.
(** [strcmp] on byte strings *)
Fixpoint string_compare_func (a b : list Z) : Z :=
  match a, b with
  | [], [] => 0
  | [], _ :: _ => -1
  | _ :: _, [] => 1
  | x :: a', y :: b' => if bool_decide (x < y) then -1 else if bool_decide (y < x) then 1
                        else string_compare_func a' b'
  end%Z.
Definition trivial_hash_func (p : Z) : Z := u32 p.
Definition trivial_compare_func (a b : Z) : Z :=
  (if bool_decide (a < b) then -1 else if bool_decide (b < a) then 1 else 0)%Z.

Section hashmap.
Context {K V : Type} `{EqDecision K, EqDecision V}.
Abbreviation HM := (M (HStore K V)).
Implicit Types (st : HStore K V) (h e : nat) (k : K) (v : V).

Definition h_alloc : HM bool := λ st,
  match h_oom st with [] => Ret true st | b :: l => Ret b (st <| h_oom := l |>) end.
Definition h_fresh : HM nat := λ st, Ret (h_next st) (st <| h_next ::= S |>).
Definition entry_at e : HM (HEntry K V) := st ← get; deref (entries st !! e).
Definition map_at h : HM (Hashmap K) := st ← get; deref (maps st !! h).
Definition update_entry e (f : HEntry K V → HEntry K V) : HM unit :=
  E ← entry_at e; modify (λ st, st <| entries ::= <[e := f E]> |>).
Definition update_map h (f : Hashmap K → Hashmap K) : HM unit :=
  H ← map_at h; modify (λ st, st <| maps ::= <[h := f H]> |>).

Definition bucket_of (H : Hashmap K) k : nat := Z.to_nat (u32 (hash_func H k) `mod` Z.of_nat NBUCKETS).

Definition hashmap_new (hash : K → Z) (cmp : K → K → Z) : HM (option nat) :=
  ok ← h_alloc;
  if negb ok then mret None else
  h ← h_fresh;
  modify (λ st, st <| maps ::= <[h := mkHashmap hash cmp (replicate NBUCKETS None) None None 0]> |>);;
  mret (Some h).
(** [*h], which may be NULL, and what it is afterwards. *)
Definition hashmap_ensure_allocated (h : option nat) (hash : K → Z) (cmp : K → K → Z) : HM (Z * option nat) :=
  match h with
  | Some h => mret (0%Z, Some h)
  | None =>
      h ← hashmap_new hash cmp;
      mret (match h with None => ((- ENOMEM)%Z, None) | Some h => (0%Z, Some h) end)
  end.

(** ** Linking entries *)

Definition link_entry h e (hash : nat) : HM unit :=
  H ← map_at h;
  b ← deref (BY_HASH H !! hash);
  update_entry e (λ E, E <| e_bucket := mkLink b None |>);;
  match b with Some n => update_entry n (λ E, E <| e_bucket ::= set_prev (Some e) |>) | None => mret tt end;;
  update_map h (λ H, H <| BY_HASH ::= <[hash := Some e]> |>);;
  H ← map_at h;
  update_entry e (λ E, E <| e_iterate := mkLink None (iterate_list_tail H) |>);;
  match iterate_list_tail H with
  | Some t =>
      assert_ (bool_decide (iterate_list_head H ≠ None));;
      update_entry t (λ E, E <| e_iterate ::= set_next (Some e) |>)
  | None =>
      assert_ (bool_decide (iterate_list_head H = None));;
      update_map h (λ H, H <| iterate_list_head := Some e |>)
  end;;
  update_map h (λ H, H <| iterate_list_tail := Some e |>);;
  update_map h (λ H, H <| n_entries ::= λ n, u32 (n + 1) |>);;
  H ← map_at h;
  assert_ (bool_decide (1 ≤ n_entries H)%Z).

Definition unlink_entry h e (hash : nat) : HM unit :=
  E ← entry_at e;
  match next (e_iterate E) with
  | Some n => update_entry n (λ N, N <| e_iterate ::= set_prev (prev (e_iterate E)) |>)
  | None => update_map h (λ H, H <| iterate_list_tail := prev (e_iterate E) |>)
  end;;
  E ← entry_at e;
  match prev (e_iterate E) with
  | Some p => update_entry p (λ N, N <| e_iterate ::= set_next (next (e_iterate E)) |>)
  | None => update_map h (λ H, H <| iterate_list_head := next (e_iterate E) |>)
  end;;
  E ← entry_at e;
  match next (e_bucket E) with
  | Some n => update_entry n (λ N, N <| e_bucket ::= set_prev (prev (e_bucket E)) |>)
  | None => mret tt
  end;;
  E ← entry_at e;
  match prev (e_bucket E) with
  | Some p => update_entry p (λ N, N <| e_bucket ::= set_next (next (e_bucket E)) |>)
  | None => update_map h (λ H, H <| BY_HASH ::= <[hash := next (e_bucket E)]> |>)
  end;;
  H ← map_at h;
  assert_ (bool_decide (1 ≤ n_entries H)%Z);;
  update_map h (λ H, H <| n_entries ::= λ n, u32 (n - 1) |>).

Definition remove_entry h e : HM unit :=
  H ← map_at h;
  E ← entry_at e;
  unlink_entry h e (bucket_of H (e_key E));;
  modify (λ st, st <| entries ::= delete e |>).

Fixpoint scan (n : nat) (H : Hashmap K) (p : option nat) k : HM (option nat) :=
  match p with
  | None => mret None
  | Some e =>
      match n with
      | O => nofuel
      | S n' =>
          E ← entry_at e;
          if bool_decide (compare_func H (e_key E) k = 0%Z) then mret (Some e)
          else scan n' H (next (e_bucket E)) k
      end
  end.
(** A bucket has no more entries than there are. *)
Definition hash_scan h (hash : nat) k : HM (option nat) :=
  H ← map_at h;
  assert_ (bool_decide (hash < NBUCKETS));;
  p ← deref (BY_HASH H !! hash);
  n ← gets (λ st, size (entries st));
  scan n H p k.
(** [h->hash_func(key) % NBUCKETS] and [hash_scan] *)
Definition lookup_entry h k : HM (option nat) :=
  H ← map_at h; hash_scan h (bucket_of H k) k.

(** ** The operations

    Those that accept NULL for the map take an option. *)

Definition hashmap_put h k v : HM Z :=
  H ← map_at h;
  o ← lookup_entry h k;
  match o with
  | Some e => E ← entry_at e; mret (if bool_decide (e_value E = v) then 0 else - EEXIST)%Z
  | None =>
      ok ← h_alloc;
      if negb ok then mret (- ENOMEM)%Z else
      e ← h_fresh;
      modify (λ st, st <| entries ::= <[e := mkHEntry k v (mkLink None None) (mkLink None None)]> |>);;
      link_entry h e (bucket_of H k);;
      mret 1%Z
  end.
Definition hashmap_replace h k v : HM Z :=
  o ← lookup_entry h k;
  match o with
  | Some e => update_entry e (λ E, E <| e_key := k |> <| e_value := v |>);; mret 0%Z
  | None => hashmap_put h k v
  end.
Definition hashmap_get (h : option nat) k : HM (option V) :=
  match h with
  | None => mret None
  | Some h =>
      o ← lookup_entry h k;
      match o with None => mret None | Some e => E ← entry_at e; mret (Some (e_value E)) end
  end.
Definition hashmap_remove (h : option nat) k : HM (option V) :=
  match h with
  | None => mret None
  | Some h =>
      o ← lookup_entry h k;
      match o with
      | None => mret None
      | Some e => E ← entry_at e; remove_entry h e;; mret (Some (e_value E))
      end
  end.
Definition hashmap_remove_value (h : option nat) k v : HM (option V) :=
  match h with
  | None => mret None
  | Some h =>
      o ← lookup_entry h k;
      match o with
      | None => mret None
      | Some e =>
          E ← entry_at e;
          if bool_decide (e_value E ≠ v) then mret None else remove_entry h e;; mret (Some v)
      end
  end.

(** The entry moves to the new key's bucket and to the end of the list. *)
Definition rekey h e (k_old k_new : K) v : HM unit :=
  H ← map_at h;
  unlink_entry h e (bucket_of H k_old);;
  update_entry e (λ E, E <| e_key := k_new |> <| e_value := v |>);;
  link_entry h e (bucket_of H k_new).
Definition hashmap_remove_and_put (h : option nat) (old_key new_key : K) v : HM Z :=
  match h with
  | None => mret (- ENOENT)%Z
  | Some h =>
      o ← lookup_entry h old_key;
      match o with
      | None => mret (- ENOENT)%Z
      | Some e =>
          x ← lookup_entry h new_key;
          match x with
          | Some _ => mret (- EEXIST)%Z
          | None => rekey h e old_key new_key v;; mret 0%Z
          end
      end
  end.
Definition hashmap_remove_and_replace (h : option nat) (old_key new_key : K) v : HM Z :=
  match h with
  | None => mret (- ENOENT)%Z
  | Some h =>
      o ← lookup_entry h old_key;
      match o with
      | None => mret (- ENOENT)%Z
      | Some e =>
          x ← lookup_entry h new_key;
          match x with Some x => when (bool_decide (e ≠ x)) (remove_entry h x) | None => mret tt end;;
          rekey h e old_key new_key v;; mret 0%Z
      end
  end.

(** The iterator that was passed, then key and value, [None] at the end. *)
Definition hashmap_iterate (h : option nat) (i : Iterator) : HM (Iterator * option (K * V)) :=
  match h with
  | None => mret (ITERATOR_LAST, None)
  | Some h =>
      H ← map_at h;
      match i, iterate_list_head H with
      | ITERATOR_LAST, _ | ITERATOR_FIRST, None => mret (ITERATOR_LAST, None)
      | ITERATOR_FIRST, Some e | AT e, _ =>
          E ← entry_at e;
          mret (match next (e_iterate E) with Some n => AT n | None => ITERATOR_LAST end,
                Some (e_key E, e_value E))
      end
  end.
Definition hashmap_iterate_backwards (h : option nat) (i : Iterator) : HM (Iterator * option (K * V)) :=
  match h with
  | None => mret (ITERATOR_FIRST, None)
  | Some h =>
      H ← map_at h;
      match i, iterate_list_tail H with
      | ITERATOR_FIRST, _ | ITERATOR_LAST, None => mret (ITERATOR_FIRST, None)
      | ITERATOR_LAST, Some e | AT e, _ =>
          E ← entry_at e;
          mret (match prev (e_iterate E) with Some n => AT n | None => ITERATOR_FIRST end,
                Some (e_key E, e_value E))
      end
  end.
(** [HASHMAP_FOREACH_KEY] with a body that may change the map. *)
Fixpoint HASHMAP_FOREACH (n : nat) (h : option nat) (i : Iterator) (body : K → V → HM unit) : HM unit :=
  r ← hashmap_iterate h i;
  match r.2 with
  | None => mret tt
  | Some kv =>
      match n with
      | O => nofuel
      | S n' => body kv.1 kv.2;; HASHMAP_FOREACH n' h r.1 body
      end
  end.
(** The iterator is left alone when there is no such key. *)
Definition hashmap_iterate_skip (h : option nat) k (i : Iterator) : HM (Iterator * option V) :=
  match h with
  | None => mret (i, None)
  | Some h =>
      o ← lookup_entry h k;
      match o with
      | None => mret (i, None)
      | Some e => E ← entry_at e; mret (AT e, Some (e_value E))
      end
  end.

(** [h ? h->iterate_list_head : NULL], and the other end *)
Definition end_entry (pick : Hashmap K → option nat) (h : option nat) : HM (option nat) :=
  match h with None => mret None | Some h => H ← map_at h; mret (pick H) end.
Definition hashmap_first (h : option nat) : HM (option V) :=
  o ← end_entry iterate_list_head h;
  match o with None => mret None | Some e => E ← entry_at e; mret (Some (e_value E)) end.
Definition hashmap_last (h : option nat) : HM (option V) :=
  o ← end_entry iterate_list_tail h;
  match o with None => mret None | Some e => E ← entry_at e; mret (Some (e_value E)) end.
Definition steal (h : option nat) : HM (option (K * V)) :=
  o ← end_entry iterate_list_head h;
  match h, o with
  | Some h, Some e => E ← entry_at e; remove_entry h e;; mret (Some (e_key E, e_value E))
  | _, _ => mret None
  end.
Definition hashmap_steal_first (h : option nat) : HM (option V) := o ← steal h; mret (snd <$> o).
Definition hashmap_steal_first_key (h : option nat) : HM (option K) := o ← steal h; mret (fst <$> o).
Definition hashmap_size (h : option nat) : HM Z :=
  match h with None => mret 0%Z | Some h => H ← map_at h; mret (n_entries H) end.
Definition hashmap_isempty (h : option nat) : HM bool :=
  match h with None => mret true | Some h => H ← map_at h; mret (bool_decide (n_entries H = 0%Z)) end.

Definition h_fuel : HM nat := gets (λ st, S (size (entries st))).
Definition hashmap_clear (h : option nat) : HM unit :=
  match h with
  | None => mret tt
  | Some h =>
      n ← h_fuel;
      while_some n (H ← map_at h; mret (iterate_list_head H)) (remove_entry h)
  end.
Definition hashmap_free (h : option nat) : HM unit :=
  match h with
  | None => mret tt
  | Some h' => hashmap_clear h;; modify (λ st, st <| maps ::= delete h' |>)
  end.

(** ** Two maps *)

Fixpoint merge_rec (n : nat) h (p : option nat) : HM Z :=
  match p with
  | None => mret 0%Z
  | Some e =>
      match n with
      | O => nofuel
      | S n' =>
          E ← entry_at e;
          r ← hashmap_put h (e_key E) (e_value E);
          if bool_decide (r < 0 ∧ r ≠ - EEXIST)%Z then mret r else
          E ← entry_at e;
          merge_rec n' h (next (e_iterate E))
      end
  end.
Definition hashmap_merge h (other : option nat) : HM Z :=
  match other with
  | None => mret 0%Z
  | Some o => O ← map_at o; n ← h_fuel; merge_rec n h (iterate_list_head O)
  end.

Fixpoint move_rec (n : nat) h other (p : option nat) : HM unit :=
  match p with
  | None => mret tt
  | Some e =>
      match n with
      | O => nofuel
      | S n' =>
          E ← entry_at e;
          H ← map_at h;
          o ← hash_scan h (bucket_of H (e_key E)) (e_key E);
          match o with
          | Some _ => mret tt
          | None =>
              O ← map_at other;
              unlink_entry other e (bucket_of O (e_key E));;
              link_entry h e (bucket_of H (e_key E))
          end;;
          move_rec n' h other (next (e_iterate E))
      end
  end.
Definition hashmap_move h (other : option nat) : HM unit :=
  match other with
  | None => mret tt
  | Some o => O ← map_at o; n ← h_fuel; move_rec n h o (iterate_list_head O)
  end.
Definition hashmap_move_one h (other : option nat) k : HM Z :=
  match other with
  | None => mret 0%Z
  | Some o =>
      x ← lookup_entry h k;
      match x with
      | Some _ => mret (- EEXIST)%Z
      | None =>
          y ← lookup_entry o k;
          match y with
          | None => mret (- ENOENT)%Z
          | Some e =>
              H ← map_at h; O ← map_at o;
              unlink_entry o e (bucket_of O k);; link_entry h e (bucket_of H k);; mret 0%Z
          end
      end
  end.
Definition hashmap_copy h : HM (option nat) :=
  H ← map_at h;
  c ← hashmap_new (hash_func H) (compare_func H);
  match c with
  | None => mret None
  | Some c =>
      r ← hashmap_merge c (Some h);
      if bool_decide (r < 0)%Z then hashmap_free (Some c);; mret None else mret (Some c)
  end.
(** The values in their order; the C array ends with a NULL. *)
Fixpoint collect (n : nat) (h : option nat) (i : Iterator) : HM (list V) :=
  r ← hashmap_iterate h i;
  match r.2 with
  | None => mret []
  | Some kv =>
      match n with O => nofuel | S n' => l ← collect n' h r.1; mret (kv.2 :: l) end
  end.
Definition hashmap_get_strv h : HM (option (list V)) :=
  ok ← h_alloc;
  if negb ok then mret None else
  n ← h_fuel; l ← collect n (Some h) ITERATOR_FIRST; mret (Some l).
End hashmap.
