(* ===== verification/HashmapRep.v ===== *)
(** * Hash maps in the store (Hashmap.v)

    [rep W h ps m]: the entries [ps] make up the map [h] with the contents
    [m], in the order of the list for iteration; every bucket holds the entries
    whose key hashes to it.  [link_entry] and [unlink_entry] do what they
    should to it and touch nothing of the other maps ([frame]). *)

From stdpp Require Import base gmap strings list fin_maps.
From Stdlib Require Import ZArith Lia.
From S2P Require Import Prelude OrderedMap IntrusiveList Hashmap.

Section hashmap_spec.
Context {K V : Type} `{EqDecision K, EqDecision V}.
Abbreviation HM := (M (HStore K V)).
Implicit Types (st : HStore K V) (h e : nat) (k : K) (v : V) (m : list (K * V)).

(** ** The store, field by field *)

Record View := mkView {
  v_kv : gmap nat (K * V);
  v_il : gmap nat Link;
  v_bl : gmap nat Link;
  v_maps : gmap nat (Hashmap K);
  v_next : nat;
  v_oom : list bool }.
#[global] Instance View_rebuild : Rebuild View := λ W,
  mkView (v_kv W) (v_il W) (v_bl W) (v_maps W) (v_next W) (v_oom W).
Implicit Types W : View.

Definition vw st : View := {|
  v_kv := (λ E, (e_key E, e_value E)) <$> entries st;
  v_il := e_iterate <$> entries st;
  v_bl := e_bucket <$> entries st;
  v_maps := maps st;
  v_next := h_next st;
  v_oom := h_oom st |}.

Lemma vw_entry st p kv : v_kv (vw st) !! p = Some kv →
  ∃ b i, v_bl (vw st) !! p = Some b ∧ v_il (vw st) !! p = Some i ∧
    entries st !! p = Some (mkHEntry kv.1 kv.2 b i).
Proof.
  simpl. rewrite !lookup_fmap. destruct (entries st !! p) as [[k v b i]|]; simpl; [|done].
  intros [= <-]. eauto.
Qed.
Lemma vw_live st p : is_Some (v_kv (vw st) !! p) → is_Some (entries st !! p).
Proof. intros [kv Hp]. destruct (vw_entry st p kv Hp) as (? & ? & _ & _ & ->). eauto. Qed.

Lemma fmap_alter {A B} (f : A → B) (u : A → A) (g : B → B) (p : nat) (L : gmap nat A) :
  (∀ a, f (u a) = g (f a)) → f <$> alter u p L = alter g p (f <$> L).
Proof.
  intros E. apply map_eq. intros q. rewrite lookup_fmap, !lookup_alter_if, lookup_fmap.
  destruct (L !! q); simpl; [|done]. f_equal. by case_decide.
Qed.
Lemma fmap_alter_id {A B} (f : A → B) (u : A → A) (p : nat) (L : gmap nat A) :
  (∀ a, f (u a) = f a) → f <$> alter u p L = f <$> L.
Proof.
  intros E. apply map_eq. intros q. rewrite !lookup_fmap, lookup_alter_if.
  destruct (L !! q); simpl; [|done]. f_equal. by case_decide.
Qed.

Lemma update_entry_eq p f st :
  is_Some (entries st !! p) → update_entry p f st = Ret tt (st <| entries ::= alter f p |>).
Proof.
  intros [E HE]. unfold update_entry, entry_at, get, mbind, M_bind. rewrite HE. simpl. unfold modify.
  f_equal. unfold upd; simpl. f_equal. apply map_eq. intros y. rewrite lookup_alter, lookup_insert.
  case_decide; [subst; by rewrite HE|done].
Qed.

Lemma wp_entry_at st p kv b i (Q : HEntry K V → HStore K V → Prop) :
  v_kv (vw st) !! p = Some kv → v_bl (vw st) !! p = Some b → v_il (vw st) !! p = Some i →
  Q (mkHEntry kv.1 kv.2 b i) st → wp (entry_at p) st Q.
Proof.
  intros Hp Hb Hi HQ. destruct (vw_entry st p kv Hp) as (b' & i' & Hb' & Hi' & HE).
  eapply wp_intro; [|exact HQ]. unfold entry_at, get, mbind, M_bind. rewrite HE.
  assert (b' = b) as -> by congruence. assert (i' = i) as -> by congruence. done.
Qed.
Lemma wp_map_at st h H (Q : Hashmap K → HStore K V → Prop) :
  v_maps (vw st) !! h = Some H → Q H st → wp (map_at h) st Q.
Proof. intros HH HQ. eapply wp_intro; [|exact HQ]. unfold map_at, get, mbind, M_bind. simpl in HH. by rewrite HH. Qed.

Lemma wp_update_il st p g (Q : unit → HStore K V → Prop) :
  is_Some (v_kv (vw st) !! p) → (∀ st', vw st' = (vw st) <| v_il ::= alter g p |> → Q tt st') →
  wp (update_entry p (λ E, E <| e_iterate ::= g |>)) st Q.
Proof.
  intros Hp HQ. eapply wp_intro; [by apply update_entry_eq, vw_live|]. apply HQ. unfold vw; simpl.
  rewrite (fmap_alter e_iterate _ g), !fmap_alter_id by done. done.
Qed.
Lemma wp_update_bl st p g (Q : unit → HStore K V → Prop) :
  is_Some (v_kv (vw st) !! p) → (∀ st', vw st' = (vw st) <| v_bl ::= alter g p |> → Q tt st') →
  wp (update_entry p (λ E, E <| e_bucket ::= g |>)) st Q.
Proof.
  intros Hp HQ. eapply wp_intro; [by apply update_entry_eq, vw_live|]. apply HQ. unfold vw; simpl.
  rewrite (fmap_alter e_bucket _ g), !fmap_alter_id by done. done.
Qed.
Lemma wp_update_map st h H f (Q : unit → HStore K V → Prop) :
  v_maps (vw st) !! h = Some H → (∀ st', vw st' = (vw st) <| v_maps ::= <[h := f H]> |> → Q tt st') →
  wp (update_map h f) st Q.
Proof.
  intros HH HQ. eapply wp_intro; [|by apply (HQ (st <| maps ::= <[h := f H]> |>))].
  unfold update_map, map_at, get, mbind, M_bind. simpl in HH. by rewrite HH.
Qed.

(** ** The representation *)

Record rep_map W (H : Hashmap K) (ps : list nat) m : Prop := {
  rm_funcs : ∀ a b, compare_func H a b = 0%Z ↔ a = b;
  rm_iter : seg (v_il W) None ps None;
  rm_NoDup : NoDup ps;
  rm_head : iterate_list_head H = hd_or ps None;
  rm_tail : iterate_list_tail H = last_or ps None;
  rm_len : length (BY_HASH H) = NBUCKETS;
  rm_bucket : ∀ b, b < NBUCKETS → ∃ l, BY_HASH H !! b = Some (hd_or l None) ∧
    seg (v_bl W) None l None ∧ NoDup l ∧
    ∀ p, p ∈ l ↔ p ∈ ps ∧ ∃ kv, v_kv W !! p = Some kv ∧ bucket_of H kv.1 = b;
  rm_contents : Forall2 (λ p kv, v_kv W !! p = Some kv) ps m;
  rm_keys : om_wf m;
  rm_count : n_entries H = Z.of_nat (length m) ∧ (Z.of_nat (length m) < 2 ^ 32)%Z }.
Definition rep W h ps m : Prop := ∃ H, v_maps W !! h = Some H ∧ rep_map W H ps m.

(** Only the map [h] and the entries [ps] may have changed. *)
Record frame (ps : list nat) h W W' : Prop := {
  fr_kv : ∀ p, p ∉ ps → v_kv W' !! p = v_kv W !! p;
  fr_il : ∀ p, p ∉ ps → v_il W' !! p = v_il W !! p;
  fr_bl : ∀ p, p ∉ ps → v_bl W' !! p = v_bl W !! p;
  fr_maps : ∀ g, g ≠ h → v_maps W' !! g = v_maps W !! g }.

Lemma bucket_of_lt (H : Hashmap K) k : bucket_of H k < NBUCKETS.
Proof. unfold bucket_of, NBUCKETS. pose proof (Z.mod_pos_bound (u32 (hash_func H k)) 127). lia. Qed.

Lemma contents_in W ps m p : Forall2 (λ p kv, v_kv W !! p = Some kv) ps m → p ∈ ps →
  ∃ kv, kv ∈ m ∧ v_kv W !! p = Some kv.
Proof.
  induction 1 as [|q kv ps m Hq HF IH]; [by intros ?%elem_of_nil|]. intros [->|Hp]%elem_of_cons.
  - exists kv. split; [left|done].
  - destruct (IH Hp) as (kv' & ? & ?). exists kv'. split; [by right|done].
Qed.
Lemma contents_of W ps m kv : Forall2 (λ p kv, v_kv W !! p = Some kv) ps m → kv ∈ m →
  ∃ p, p ∈ ps ∧ v_kv W !! p = Some kv.
Proof.
  induction 1 as [|q kv' ps m Hq HF IH]; [by intros ?%elem_of_nil|]. intros [->|Hp]%elem_of_cons.
  - exists q. split; [left|done].
  - destruct (IH Hp) as (p & ? & ?). exists p. split; [by right|done].
Qed.

Lemma contents_ext (L L' : gmap nat (K * V)) ps m : (∀ p, p ∈ ps → L' !! p = L !! p) →
  Forall2 (λ p kv, L !! p = Some kv) ps m → Forall2 (λ p kv, L' !! p = Some kv) ps m.
Proof.
  intros E. induction 1 as [|p kv ps m Hp HF IH]; constructor.
  - rewrite E; [done|left].
  - apply IH. intros q Hq. apply E. by right.
Qed.

Lemma rep_frame W W' h g ps qs m :
  rep W g qs m → g ≠ h → (∀ p, p ∈ qs → p ∉ ps) → frame ps h W W' → rep W' g qs m.
Proof.
  intros (H & HH & [Hf Hi Hn Hh Ht Hl Hb Hc Hk Hcnt]) Hg Hd [F1 F2 F3 F4].
  exists H. split; [by rewrite F4|]. split; try done.
  - eapply seg_ext; [|exact Hi]. intros p Hp. by apply F2, Hd.
  - intros b Hbb. destruct (Hb b Hbb) as (l & Hhd & Hs & Hnd & Hin). exists l. split_and!; [done| |done|].
    + eapply seg_ext; [|exact Hs]. intros p Hp%Hin. apply F3, Hd, Hp.
    + intros p. rewrite Hin. split; (intros [Hp (kv & Hkv & ?)]; split; [done|]; exists kv; split; [|done]).
      * rewrite F1; [done|by apply Hd].
      * rewrite <- F1; [done|by apply Hd].
  - eapply contents_ext; [|exact Hc]. intros p Hp. by apply F1, Hd.
Qed.

(** ** Linking an entry *)

Lemma alter_const (L : gmap nat Link) e x : is_Some (L !! e) → alter (λ _, x) e L = <[e := x]> L.
Proof.
  intros [y Hy]. apply map_eq. intros p. rewrite lookup_alter, lookup_insert.
  case_decide; [subst; by rewrite Hy|done].
Qed.
Lemma alter_insert_comm (L : gmap nat Link) (f : Link → Link) n e x :
  n ≠ e → alter f n (<[e := x]> L) = <[e := x]> (alter f n L).
Proof.
  intros Hne. by apply alter_insert_ne.
Qed.
Lemma tell_next_insert (L : gmap nat Link) n (w : option nat) e x :
  n ≠ Some e → tell_next n w (<[e := x]> L) = <[e := x]> (tell_next n w L).
Proof. destruct n; simpl; [|done]. intros. apply alter_insert_comm. congruence. Qed.
Lemma tell_prev_insert (L : gmap nat Link) n (w : option nat) e x :
  n ≠ Some e → tell_prev n w (<[e := x]> L) = <[e := x]> (tell_prev n w L).
Proof. destruct n; simpl; [|done]. intros. apply alter_insert_comm. congruence. Qed.

Lemma tell_next_other n (w : option nat) (L : gmap nat Link) p : n ≠ Some p → tell_next n w L !! p = L !! p.
Proof. destruct n; simpl; [|done]. intros. apply lookup_alter_ne. congruence. Qed.
Lemma tell_prev_other n (w : option nat) (L : gmap nat Link) p : n ≠ Some p → tell_prev n w L !! p = L !! p.
Proof. destruct n; simpl; [|done]. intros. apply lookup_alter_ne. congruence. Qed.

Definition linked_map (H : Hashmap K) e (hash : nat) (ps : list nat) : Hashmap K :=
  mkHashmap (hash_func H) (compare_func H) (<[hash := Some e]> (BY_HASH H)) (hd_or (ps ++ [e]) None)
    (Some e) (u32 (n_entries H + 1)).
Definition linked_view W h (H : Hashmap K) e (hash : nat) (b : option nat) ps : View :=
  W <| v_bl := <[e := mkLink b None]> (tell_next b (Some e) (v_bl W)) |>
    <| v_il := <[e := mkLink None (last_or ps None)]> (tell_prev (last_or ps None) (Some e) (v_il W)) |>
    <| v_maps ::= <[h := linked_map H e hash ps]> |>.

Lemma rep_link W h H ps m e kv b :
  rep_map W H ps m → v_kv W !! e = Some kv → e ∉ ps → kv.1 ∉ om_keys m →
  (Z.of_nat (length m) + 1 < 2 ^ 32)%Z → BY_HASH H !! bucket_of H kv.1 = Some b →
  rep_map (linked_view W h H e (bucket_of H kv.1) b ps) (linked_map H e (bucket_of H kv.1) ps)
    (ps ++ [e]) (m ++ [kv]).
Proof.
  intros [Hf Hi Hn Hh Ht Hl Hb Hc Hk [Hcnt Hsz]] He Hps Hkm Hroom Hbk. set (hash := bucket_of H kv.1) in *.
  split; simpl.
  - done.
  - pose proof (seg_insert (v_il W) ps e []) as Hs. simpl in Hs. rewrite app_nil_r in Hs. apply Hs; [|done].
    apply NoDup_app. split_and!; [done|set_solver|apply NoDup_singleton].
  - apply NoDup_app. split_and!; [done|set_solver|apply NoDup_singleton].
  - done.
  - by rewrite last_or_snoc.
  - by rewrite length_insert.
  - intros b' Hb'. destruct (Hb b' Hb') as (l & Hhd & Hs & Hnd & Hin). destruct (decide (b' = hash)) as [->|Hne].
    + assert (e ∉ l) as Hel by (intros [? _]%Hin; done).
      exists (e :: l). rewrite list_lookup_insert_eq by (by rewrite Hl). split_and!; [done| | |].
      * assert (b = hd_or l None) as -> by congruence. apply (seg_insert (v_bl W) [] e l); [by apply NoDup_cons|done].
      * by apply NoDup_cons.
      * intros p. rewrite elem_of_cons, Hin, elem_of_app, list_elem_of_singleton. split.
        -- intros [->|[? ?]]; [|by auto]. split; [by right|]. by exists kv.
        -- intros [[?|?] ?]; auto.
    + exists l. rewrite list_lookup_insert_ne by done. split_and!; [done| |done|].
      * eapply seg_ext; [|exact Hs]. intros p Hp. destruct (decide (p = e)) as [->|Hpe].
        { apply Hin in Hp as [? _]. done. }
        rewrite lookup_insert_ne by done. apply tell_next_other. intros ->.
        destruct (Hb hash) as (l0 & Hhd0 & _ & _ & Hin0); [apply bucket_of_lt|]. fold hash in Hbk.
        assert (hd_or l0 None = Some p) as Hp0 by congruence. apply hd_or_elem, Hin0 in Hp0 as [_ (kv1 & Hkv1 & E1)].
        apply Hin in Hp as [_ (kv2 & Hkv2 & E2)]. congruence.
      * intros p. rewrite Hin, elem_of_app, list_elem_of_singleton. split; [tauto|].
        intros [[?| ->] (kv' & Hkv' & E)]; [by eauto|]. assert (kv' = kv) as -> by congruence. done.
  - apply Forall2_app; [done|]. by repeat constructor.
  - unfold om_wf, om_keys in *. rewrite fmap_app. apply NoDup_app. split_and!; [done| |apply NoDup_singleton].
    intros x Hx. simpl. rewrite list_elem_of_singleton. by intros ->.
  - rewrite length_app. simpl. rewrite Hcnt. unfold u32. rewrite Z.mod_small; lia.
Qed.

Lemma linked_frame W h H e hash b ps :
  (∀ x, b = Some x → x ∈ ps) → frame (ps ++ [e]) h W (linked_view W h H e hash b ps).
Proof.
  intros Hb. split; simpl.
  - done.
  - intros p [Hp He]%not_elem_of_app. rewrite lookup_insert_ne by set_solver. apply tell_prev_other.
    intros E. by apply Hp, last_or_elem.
  - intros p [Hp He]%not_elem_of_app. rewrite lookup_insert_ne by set_solver. apply tell_next_other.
    intros E. by apply Hp, Hb.
  - intros g Hg. by rewrite lookup_insert_ne.
Qed.

(** The code does that. *)
Lemma live_il st p : is_Some (v_kv (vw st) !! p) → is_Some (v_il (vw st) !! p) ∧ is_Some (v_bl (vw st) !! p).
Proof. intros [kv Hp]. destruct (vw_entry st p kv Hp) as (b & i & -> & -> & _). eauto. Qed.

Lemma rep_live W H ps m p : rep_map W H ps m → p ∈ ps → is_Some (v_kv W !! p).
Proof. intros Hr Hp. destruct (contents_in _ _ _ p (rm_contents _ _ _ _ Hr) Hp) as (kv & _ & ?). by exists kv. Qed.

Record same_alloc W W' : Prop := {
  sa_next : v_next W' = v_next W;
  sa_oom : v_oom W' = v_oom W;
  sa_kv : v_kv W' = v_kv W;
  sa_funcs : ∀ g H', v_maps W' !! g = Some H' →
    ∃ H, v_maps W !! g = Some H ∧ hash_func H' = hash_func H ∧ compare_func H' = compare_func H }.
#[global] Instance same_alloc_preorder : PreOrder same_alloc.
Proof.
  split; [by split; eauto|]. intros W1 W2 W3 [N1 O1 K1 F1] [N2 O2 K2 F2]. split; [congruence..|].
  intros g H3 (H2 & E2 & ? & ?)%F2. destruct (F1 g H2 E2) as (H1 & E1 & ? & ?). exists H1. split_and!; congruence.
Qed.
Lemma same_alloc_map W W' h H H' : v_maps W !! h = Some H →
  v_next W' = v_next W → v_oom W' = v_oom W → v_kv W' = v_kv W → v_maps W' = <[h := H']> (v_maps W) →
  hash_func H' = hash_func H → compare_func H' = compare_func H → same_alloc W W'.
Proof.
  intros HH ??? E ??. split; [done..|]. intros g G. rewrite E, lookup_insert. case_decide; [|by eauto].
  intros [= <-]. subst. eauto.
Qed.

Lemma bucket_head W H ps m b : rep_map W H ps m → b < NBUCKETS →
  ∃ o, BY_HASH H !! b = Some o ∧ ∀ n, o = Some n → n ∈ ps ∧ ∃ kv, v_kv W !! n = Some kv.
Proof.
  intros Hr Hb. destruct (rm_bucket _ _ _ _ Hr b Hb) as (l & Hhd & _ & _ & Hin). exists (hd_or l None).
  split; [done|]. intros n Hn%hd_or_elem%Hin. destruct Hn as [? (kv & ? & _)]. eauto.
Qed.

Lemma link_entry_spec st h H ps m e kv :
  v_maps (vw st) !! h = Some H → rep_map (vw st) H ps m → v_kv (vw st) !! e = Some kv → e ∉ ps →
  kv.1 ∉ om_keys m → (Z.of_nat (length m) + 1 < 2 ^ 32)%Z →
  wp (link_entry h e (bucket_of H kv.1)) st (λ _ st', rep (vw st') h (ps ++ [e]) (m ++ [kv]) ∧
    frame (ps ++ [e]) h (vw st) (vw st') ∧ same_alloc (vw st) (vw st')).
Proof.
  intros HH Hr He Hps Hk Hroom. set (hash := bucket_of H kv.1).
  destruct (bucket_head _ _ _ _ hash Hr (bucket_of_lt H _)) as (b & Hb & Hbin).
  destruct (live_il st e) as [Hil Hbl]; [by eexists|].
  unfold link_entry. wp_step. eapply wp_map_at; [done|]. wp_step. eapply wp_deref; [exact Hb|].
  wp_step. apply wp_update_bl; [by eexists|]. intros st1 E1. wp_step.
  apply (wp_mono _ _ (λ _ st2, vw st2 = (vw st) <| v_bl := <[e := mkLink b None]> (tell_next b (Some e) (v_bl (vw st))) |>)).
  { assert (vw st1 = (vw st) <| v_bl := <[e := mkLink b None]> (v_bl (vw st)) |>) as E1'
      by (rewrite E1; unfold upd; simpl; by rewrite alter_const).
    destruct b as [n|]; [|by wp_step]. destruct (Hbin n eq_refl) as [Hn [kvn Hkvn]].
    assert (n ≠ e) by (by intros ->). apply wp_update_bl; [rewrite E1'; by eexists|]. intros st2 ->. rewrite E1'.
    unfold upd; simpl. by rewrite alter_insert_comm. }
  intros [] st2 E2. wp_step. apply (wp_update_map _ _ H); [by rewrite E2|]. intros st3 E3. rewrite E2 in E3.
  set (H1 := H <| BY_HASH ::= _ |>) in E3. wp_step.
  apply (wp_map_at _ _ H1); [rewrite E3; apply lookup_insert_eq|].
  wp_step. change (iterate_list_tail H1) with (iterate_list_tail H). rewrite (rm_tail _ _ _ _ Hr).
  apply (wp_update_il _ _ (λ _, mkLink None (last_or ps None))); [rewrite E3; by eexists|]. intros st4 E4. rewrite E3 in E4.
  set (I1 := <[e := mkLink None (last_or ps None)]> (tell_prev (last_or ps None) (Some e) (v_il (vw st)))).
  set (H2 := H1 <| iterate_list_head := hd_or (ps ++ [e]) None |>).
  wp_step. apply (wp_mono _ _ (λ _ st5, vw st5 = (vw st2) <| v_il := I1 |> <| v_maps ::= <[h := H2]> |>)).
  { change (iterate_list_head H1) with (iterate_list_head H). rewrite (rm_head _ _ _ _ Hr).
    destruct ps as [|t ps' _] using rev_ind.
    - cbn. apply wp_bind, wp_ret. apply (wp_update_map _ _ H1); [rewrite E4; apply lookup_insert_eq|].
      intros st5 ->. rewrite E4, E2. unfold upd; simpl. rewrite alter_const by done. by rewrite insert_insert_eq.
    - unfold I1. rewrite last_or_snoc. cbn. wp_step. rewrite bool_decide_true by (by destruct ps'). apply wp_ret.
      assert (t ≠ e) by (intros ->; set_solver).
      destruct (rep_live _ _ _ _ t Hr) as [kvt Hkvt]; [set_solver|].
      assert (H2 = H1) as ->.
      { unfold H2, H1, upd; simpl. f_equal. rewrite (rm_head _ _ _ _ Hr). by destruct ps'. }
      apply wp_update_il; [rewrite E4; by eexists|]. intros st5 ->. rewrite E4, E2. unfold upd; simpl.
      rewrite alter_const by done. rewrite last_or_snoc. by rewrite alter_insert_comm. }
  intros [] st5 E5. wp_step. apply (wp_update_map _ _ H2); [rewrite E5; apply lookup_insert_eq|]. intros st6 E6.
  wp_step. eapply wp_update_map; [rewrite E6; apply lookup_insert_eq|]. intros st7 E7.
  assert (vw st7 = linked_view (vw st) h H e hash b ps) as EW.
  { rewrite E7, E6, E5, E2. unfold linked_view, linked_map, upd; simpl. by rewrite !insert_insert_eq. }
  pose proof (rep_link (vw st) h H ps m e kv b Hr He Hps Hk Hroom Hb) as Hrep. fold hash in Hrep.
  assert (v_maps (vw st7) !! h = Some (linked_map H e hash ps)) as HH7 by (rewrite EW; apply lookup_insert_eq).
  wp_step. eapply wp_map_at; [exact HH7|]. rewrite bool_decide_true.
  - apply wp_ret. rewrite EW. split_and!.
    + exists (linked_map H e hash ps). split; [apply lookup_insert_eq|done].
    + apply linked_frame. intros x ->. by apply Hbin.
    + by apply (same_alloc_map _ _ h H (linked_map H e hash ps)).
  - destruct (rm_count _ _ _ _ Hrep) as [-> _]. rewrite length_app. simpl. lia.
Qed.

(** ** Unlinking an entry *)

Definition unlinked_map (H : Hashmap K) (hash : nat) (ps1 ps2 l1 l2 : list nat) : Hashmap K :=
  mkHashmap (hash_func H) (compare_func H)
    (match l1 with [] => <[hash := hd_or l2 None]> (BY_HASH H) | _ => BY_HASH H end)
    (hd_or (ps1 ++ ps2) None) (last_or (ps1 ++ ps2) None) (u32 (n_entries H - 1)).
Definition closed_gap (l1 l2 : list nat) (L : gmap nat Link) : gmap nat Link :=
  tell_prev (last_or l1 None) (hd_or l2 None) (tell_next (hd_or l2 None) (last_or l1 None) L).
Definition unlinked_view W h (H : Hashmap K) (hash : nat) (ps1 ps2 l1 l2 : list nat) : View :=
  W <| v_il := closed_gap ps1 ps2 (v_il W) |> <| v_bl := closed_gap l1 l2 (v_bl W) |>
    <| v_maps ::= <[h := unlinked_map H hash ps1 ps2 l1 l2]> |>.

Lemma closed_gap_other l1 l2 (L : gmap nat Link) p : p ∉ l1 → p ∉ l2 → closed_gap l1 l2 L !! p = L !! p.
Proof.
  intros H1 H2. unfold closed_gap. rewrite tell_prev_other, tell_next_other; [done| |].
  - intros E. by apply H2, hd_or_elem.
  - intros E. by apply H1, last_or_elem.
Qed.

(** Where the entry is in its bucket. *)
Lemma bucket_split W H ps m e kv : rep_map W H ps m → e ∈ ps → v_kv W !! e = Some kv →
  ∃ l1 l2, BY_HASH H !! bucket_of H kv.1 = Some (hd_or (l1 ++ e :: l2) None) ∧
    seg (v_bl W) None (l1 ++ e :: l2) None ∧ NoDup (l1 ++ e :: l2) ∧
    ∀ p, p ∈ l1 ++ e :: l2 ↔ p ∈ ps ∧ ∃ kv', v_kv W !! p = Some kv' ∧ bucket_of H kv'.1 = bucket_of H kv.1.
Proof.
  intros Hr He Hkv. destruct (rm_bucket _ _ _ _ Hr (bucket_of H kv.1)) as (l & ? & ? & ? & Hin); [apply bucket_of_lt|].
  assert (e ∈ l) as (l1 & l2 & ->)%list_elem_of_split by (apply Hin; eauto). by exists l1, l2.
Qed.

Lemma rep_unlink W h H ps1 e ps2 m1 kv m2 l1 l2 :
  rep_map W H (ps1 ++ e :: ps2) (m1 ++ kv :: m2) → length ps1 = length m1 → v_kv W !! e = Some kv →
  BY_HASH H !! bucket_of H kv.1 = Some (hd_or (l1 ++ e :: l2) None) →
  seg (v_bl W) None (l1 ++ e :: l2) None → NoDup (l1 ++ e :: l2) →
  (∀ p, p ∈ l1 ++ e :: l2 ↔ p ∈ ps1 ++ e :: ps2 ∧
    ∃ kv', v_kv W !! p = Some kv' ∧ bucket_of H kv'.1 = bucket_of H kv.1) →
  rep_map (unlinked_view W h H (bucket_of H kv.1) ps1 ps2 l1 l2)
    (unlinked_map H (bucket_of H kv.1) ps1 ps2 l1 l2) (ps1 ++ ps2) (m1 ++ m2).
Proof.
  intros [Hf Hi Hn Hh Ht Hl Hb Hc Hk [Hcnt Hsz]] Hlen He Hbk Hbs Hbn Hbin. set (hash := bucket_of H kv.1) in *.
  assert (ps1 ++ e :: ps2 ≡ₚ e :: (ps1 ++ ps2)) as HP by (symmetry; apply Permutation_middle).
  assert (NoDup (e :: (ps1 ++ ps2))) as [Heps Hnps]%NoDup_cons by (by rewrite <- HP).
  assert (NoDup (e :: (l1 ++ l2))) as [Hel Hnl]%NoDup_cons by (by rewrite Permutation_middle).
  split; simpl; try done.
  - by apply (seg_remove (v_il W) ps1 e ps2).
  - destruct l1; [by rewrite length_insert|done].
  - intros b Hb'. destruct (decide (b = hash)) as [->|Hne].
    + exists (l1 ++ l2). split_and!; [| |done|].
      * destruct l1; [by rewrite list_lookup_insert_eq by (by rewrite Hl)|done].
      * by apply (seg_remove (v_bl W) l1 e l2).
      * intros p. pose proof (Hbin p) as Hp. rewrite elem_of_app, elem_of_cons in Hp. rewrite HP, elem_of_cons in Hp.
        rewrite elem_of_app. destruct (decide (p = e)) as [->|]; [|naive_solver].
        split; [intros Hx; exfalso; by apply Hel, elem_of_app|intros [Hx _]; done].
    + destruct (Hb b Hb') as (l & Hhd & Hs & Hnd & Hin). exists l. split_and!; [| |done|].
      * destruct l1; [by rewrite list_lookup_insert_ne|done].
      * eapply seg_ext; [|exact Hs]. intros p (_ & kv1 & E1 & B1)%Hin.
        apply closed_gap_other; intros Hx; (assert (p ∈ l1 ++ e :: l2) as (_ & kv2 & E2 & B2)%Hbin by set_solver; rewrite E1 in E2; destruct Hne; simplify_eq; done).
      * intros p. rewrite Hin, HP, elem_of_cons. split; [|tauto].
        intros [[->|?] (kv' & E & B)]; [|by eauto]. destruct Hne. assert (kv' = kv) as -> by congruence. done.
  - apply Forall2_app_inv in Hc as [Hc1 Hc2]; [|done]. apply Forall2_cons in Hc2 as [_ Hc2]. by apply Forall2_app.
  - unfold om_wf, om_keys in *. rewrite fmap_app in *. rewrite fmap_cons in Hk. rewrite <- Permutation_middle in Hk.
    by apply NoDup_cons in Hk as [_ Hk].
  - rewrite Hcnt. rewrite length_app in Hsz. rewrite !length_app. simpl in *. unfold u32. rewrite Z.mod_small; lia.
Qed.

Lemma unlinked_frame W h H hash ps1 e ps2 l1 l2 : (∀ p, p ∈ l1 ++ l2 → p ∈ ps1 ++ e :: ps2) →
  frame (ps1 ++ e :: ps2) h W (unlinked_view W h H hash ps1 ps2 l1 l2).
Proof.
  intros Hin. split; simpl.
  - done.
  - intros p Hp. apply closed_gap_other; set_solver.
  - intros p Hp. apply closed_gap_other; intros Hx; apply Hp, Hin; set_solver.
  - intros g Hg. by rewrite lookup_insert_ne.
Qed.

(** One neighbour is told, or else the map. *)
Lemma wp_told_il st (f : option nat → Link → Link) n w h H (u : Hashmap K → Hashmap K) (Q : unit → HStore K V → Prop) :
  (∀ x, n = Some x → is_Some (v_kv (vw st) !! x)) → v_maps (vw st) !! h = Some H →
  (∀ st', vw st' = (vw st) <| v_il := match n with Some x => alter (f w) x (v_il (vw st)) | None => v_il (vw st) end |>
      <| v_maps ::= <[h := match n with Some _ => H | None => u H end]> |> → Q tt st') →
  wp (match n with Some x => update_entry x (λ N, N <| e_iterate ::= f w |>) | None => update_map h u end) st Q.
Proof.
  intros Hn HH HQ. destruct n as [x|].
  - apply wp_update_il; [by apply Hn|]. intros st' E. apply HQ. rewrite E. unfold upd; simpl.
    by rewrite insert_id.
  - apply (wp_update_map _ _ H); [done|]. intros st' E. apply HQ. by rewrite E.
Qed.
Lemma wp_told_bl st (f : option nat → Link → Link) n w h H (u : Hashmap K → Hashmap K) c (Q : unit → HStore K V → Prop) :
  (∀ x, n = Some x → is_Some (v_kv (vw st) !! x)) → v_maps (vw st) !! h = Some H →
  (c = update_map h u ∨ c = mret tt ∧ u H = H) →
  (∀ st', vw st' = (vw st) <| v_bl := match n with Some x => alter (f w) x (v_bl (vw st)) | None => v_bl (vw st) end |>
      <| v_maps ::= <[h := match n with Some _ => H | None => u H end]> |> → Q tt st') →
  wp (match n with Some x => update_entry x (λ N, N <| e_bucket ::= f w |>) | None => c end) st Q.
Proof.
  intros Hn HH Hc HQ. destruct n as [x|].
  - apply wp_update_bl; [by apply Hn|]. intros st' E. apply HQ. rewrite E. unfold upd; simpl.
    by rewrite insert_id.
  - destruct Hc as [->|[-> Hu]].
    + apply (wp_update_map _ _ H); [done|]. intros st' E. apply HQ. by rewrite E.
    + apply wp_ret, HQ. rewrite Hu. unfold upd; simpl. by rewrite insert_id.
Qed.

(** What the map's own pointers are in the end. *)
Lemma unlink_steps (H : Hashmap K) hash ps1 e ps2 l1 l2 :
  iterate_list_head H = hd_or (ps1 ++ e :: ps2) None → iterate_list_tail H = last_or (ps1 ++ e :: ps2) None →
  let H1 := match hd_or ps2 None with Some _ => H | None => H <| iterate_list_tail := last_or ps1 None |> end in
  let H2 := match last_or ps1 None with Some _ => H1 | None => H1 <| iterate_list_head := hd_or ps2 None |> end in
  let H3 := match last_or l1 None with Some _ => H2 | None => H2 <| BY_HASH ::= <[hash := hd_or l2 None]> |> end in
  H3 <| n_entries ::= λ n, u32 (n - 1) |> = unlinked_map H hash ps1 ps2 l1 l2.
Proof.
  destruct H as [hf cf bk hd tl n]. simpl. intros -> ->. unfold unlinked_map; simpl.
  assert (∀ l, last_or l None = None ∧ l = [] ∨ is_Some (last_or l None) ∧ l ≠ []) as Hlast.
  { intros l. destruct l as [|x l _] using rev_ind; [by left|]. right. rewrite last_or_snoc. split; [done|by destruct l]. }
  assert (∀ l x, l ≠ [] → last_or (ps1 ++ x ++ l) None = last_or l None) as Hl.
  { intros l x Hne. destruct l as [|y l _] using rev_ind; [done|].
    by rewrite app_assoc, app_assoc, !last_or_snoc. }
  assert (last_or (ps1 ++ e :: ps2) None = match ps2 with [] => Some e | _ => last_or ps2 None end) as ->.
  { destruct ps2; [by rewrite last_or_snoc|]. by apply (Hl _ [e]). }
  assert (last_or (ps1 ++ ps2) None = match ps2 with [] => last_or ps1 None | _ => last_or ps2 None end) as ->.
  { destruct ps2; [by rewrite app_nil_r|]. by apply (Hl _ []). }
  rewrite !hd_or_app.
  destruct (Hlast l1) as [[-> ->]|[[y1 ->] Hl1]], (Hlast ps1) as [[-> ->]|[[y2 ->] Hps1]], ps2 as [|x2 ps2];
    try (destruct l1; [done|]); try (destruct ps1; [done|]); done.
Qed.

Lemma unlink_entry_spec st h H ps1 e ps2 m1 kv m2 :
  v_maps (vw st) !! h = Some H → rep_map (vw st) H (ps1 ++ e :: ps2) (m1 ++ kv :: m2) →
  length ps1 = length m1 → v_kv (vw st) !! e = Some kv →
  wp (unlink_entry h e (bucket_of H kv.1)) st (λ _ st', rep (vw st') h (ps1 ++ ps2) (m1 ++ m2) ∧
    frame (ps1 ++ e :: ps2) h (vw st) (vw st') ∧ same_alloc (vw st) (vw st')).
Proof.
  intros HH Hr Hlen He. set (hash := bucket_of H kv.1).
  destruct (bucket_split _ _ _ _ e kv Hr) as (l1 & l2 & Hb & Hbs & Hbn & Hbin); [set_solver|done|].
  pose proof (seg_remove _ _ _ _ (rm_NoDup _ _ _ _ Hr) (rm_iter _ _ _ _ Hr)) as [Hil _].
  pose proof (seg_remove _ _ _ _ Hbn Hbs) as [Hbl _].
  pose proof (rep_unlink _ h H ps1 e ps2 m1 kv m2 l1 l2 Hr Hlen He Hb Hbs Hbn Hbin) as Hrep. fold hash in Hrep.
  assert (∀ x, x ∈ ps1 ++ e :: ps2 → is_Some (v_kv (vw st) !! x)) as Hlive by (intros x; by apply (rep_live _ _ _ _ _ Hr)).
  assert (e ∉ ps1 ∧ e ∉ ps2) as [He1 He2].
  { pose proof (rm_NoDup _ _ _ _ Hr) as Hn. apply NoDup_app in Hn as (_ & Hd & [? _]%NoDup_cons).
    split; [|done]. intros Hx. apply (Hd e Hx). left. }
  assert (e ∉ l1 ∧ e ∉ l2) as [Hel1 Hel2].
  { apply NoDup_app in Hbn as (_ & Hd & [? _]%NoDup_cons). split; [|done]. intros Hx. apply (Hd e Hx). left. }
  assert (∀ x, x ∈ l1 ++ e :: l2 → x ∈ ps1 ++ e :: ps2) as Hsub by (intros x []%Hbin; done).
  unfold unlink_entry. wp_step. eapply wp_entry_at; [done..|]. cbn.
  wp_step. eapply (wp_told_il _ set_prev _ _ _ H (λ H, H <| iterate_list_tail := last_or ps1 None |>)); [|done|].
  { intros x Hx%hd_or_elem. apply Hlive. set_solver. }
  intros st1 E1.
  wp_step. eapply wp_entry_at; [by rewrite E1|by rewrite E1| |].
  { rewrite E1. simpl. rewrite <- Hil. by apply (tell_next_other (hd_or ps2 None)); intros ?%hd_or_elem. }
  cbn. wp_step. set (H1 := match hd_or ps2 None with Some _ => H | None => _ end) in E1.
  eapply (wp_told_il _ set_next _ _ _ H1 (λ H, H <| iterate_list_head := hd_or ps2 None |>)).
  { intros x Hx%last_or_elem. rewrite E1. apply Hlive. set_solver. }
  { rewrite E1. apply lookup_insert_eq. }
  intros st2 E2. set (H2 := match last_or ps1 None with Some _ => H1 | None => _ end) in E2.
  assert (vw st2 = (vw st) <| v_il := closed_gap ps1 ps2 (v_il (vw st)) |> <| v_maps ::= <[h := H2]> |>) as E2'.
  { rewrite E2, E1. unfold upd; simpl. by rewrite insert_insert_eq. }
  clear E2. rename E2' into E2.
  wp_step. eapply wp_entry_at; [by rewrite E2|by rewrite E2| |].
  { rewrite E2. simpl. rewrite closed_gap_other; done. }
  cbn. wp_step. eapply (wp_told_bl _ set_prev _ _ _ H2 id); [| |by right|].
  { intros x Hx%hd_or_elem. rewrite E2. apply Hlive, Hsub. set_solver. }
  { rewrite E2. apply lookup_insert_eq. }
  intros st3 E3. wp_step. eapply wp_entry_at; [by rewrite E3, E2| | |].
  { rewrite E3, E2. simpl. rewrite <- Hbl. by apply (tell_next_other (hd_or l2 None)); intros ?%hd_or_elem. }
  { rewrite E3, E2. simpl. by rewrite closed_gap_other. }
  cbn. wp_step. eapply (wp_told_bl _ set_next _ _ _ H2 (λ H, H <| BY_HASH ::= <[hash := hd_or l2 None]> |>)); [| |by left|].
  { intros x Hx%last_or_elem. rewrite E3, E2. apply Hlive, Hsub. set_solver. }
  { rewrite E3, E2. cbn. case_match; rewrite ?lookup_insert_eq; done. }
  intros st4 E4. set (H3 := match last_or l1 None with Some _ => H2 | None => _ end) in E4.
  assert (vw st4 = (vw st) <| v_il := closed_gap ps1 ps2 (v_il (vw st)) |> <| v_bl := closed_gap l1 l2 (v_bl (vw st)) |>
     <| v_maps ::= <[h := H3]> |>) as E4'.
  { rewrite E4, E3, E2. unfold upd; simpl. unfold closed_gap. by rewrite !insert_insert_eq. }
  assert (H3 <| n_entries ::= λ n, u32 (n - 1) |> = unlinked_map H hash ps1 ps2 l1 l2) as EH.
  { apply (unlink_steps _ _ _ e); [apply (rm_head _ _ _ _ Hr)|apply (rm_tail _ _ _ _ Hr)]. }
  assert (n_entries H3 = n_entries H) as En.
  { unfold H3, H2, H1. destruct (last_or l1 None), (last_or ps1 None), (hd_or ps2 None); done. }
  clearbody H3. clear E1 E2 E3 E4 H1 H2.
  wp_step. apply (wp_map_at _ _ H3); [rewrite E4'; apply lookup_insert_eq|].
  wp_step. rewrite bool_decide_true.
  2:{ rewrite En. destruct (rm_count _ _ _ _ Hr) as [-> _]. rewrite length_app. simpl. lia. }
  apply wp_ret. apply (wp_update_map _ _ H3); [rewrite E4'; apply lookup_insert_eq|].
  intros st5 ->. rewrite E4'. rewrite EH.
  assert (∀ W : View, W = unlinked_view (vw st) h H hash ps1 ps2 l1 l2 →
    rep W h (ps1 ++ ps2) (m1 ++ m2) ∧ frame (ps1 ++ e :: ps2) h (vw st) W ∧ same_alloc (vw st) W) as Hend.
  { intros W ->. split_and!.
    - exists (unlinked_map H hash ps1 ps2 l1 l2). split; [apply lookup_insert_eq|done].
    - apply unlinked_frame. intros p Hp. apply Hsub. set_solver.
    - by apply (same_alloc_map _ _ h H (unlinked_map H hash ps1 ps2 l1 l2)). }
  apply Hend. unfold unlinked_view, upd; simpl. by rewrite insert_insert_eq.
Qed.
End hashmap_spec.
