(* ===== verification/HashmapSpec.v ===== *)
(** * The hash maps implement ordered maps (Hashmap.v)

    [stores st A]: the store holds the maps [A], each an ordered map
    (OrderedMap.v) under its address, every entry belongs to one of them, and
    what the counter has not reached yet is free.  Every operation does to the
    contents of its map what the ordered map's operation does. *)

From stdpp Require Import base gmap strings list fin_maps fin_sets.
From Stdlib Require Import ZArith Lia.
From S2P Require Import Prelude OrderedMap IntrusiveList Hashmap HashmapRep.

Section hashmap_ops.
Context {K V : Type} `{EqDecision K, EqDecision V}.
Abbreviation HM := (M (HStore K V)).
Abbreviation Contents := (gmap nat (list (K * V))).
Abbreviation Owners := (gmap nat (list nat)).
Implicit Types (st : HStore K V) (h e : nat) (k : K) (v : V) (m : list (K * V)).
Implicit Types (W : @View K V) (A : Contents) (P : Owners) (o : option nat).

(** [P] gives the entries of each map; [o] is an entry that is in none, as it
    is on its way in or out. *)
Record inv W A P o : Prop := {
  iv_rep : ∀ h m, A !! h = Some m → ∃ ps, P !! h = Some ps ∧ rep W h ps m;
  iv_maps : ∀ h, v_maps W !! h = None ↔ A !! h = None;
  iv_owners : ∀ h, P !! h = None ↔ A !! h = None;
  iv_disj : ∀ g h ps qs p, P !! g = Some ps → P !! h = Some qs → p ∈ ps → p ∈ qs → g = h;
  iv_loose : ∀ p, o = Some p → is_Some (v_kv W !! p) ∧ ∀ h ps, P !! h = Some ps → p ∉ ps;
  iv_owned : ∀ p, is_Some (v_kv W !! p) → o = Some p ∨ ∃ h ps, P !! h = Some ps ∧ p ∈ ps;
  iv_fresh : ∀ p, v_next W ≤ p → v_kv W !! p = None ∧ v_maps W !! p = None }.
Definition stores st A : Prop := ∃ P, inv (vw st) A P None.

Lemma inv_rep W A P o h m : inv W A P o → A !! h = Some m →
  ∃ ps H, P !! h = Some ps ∧ v_maps W !! h = Some H ∧ rep_map W H ps m.
Proof. intros HI HA. destruct (iv_rep _ _ _ _ HI h m HA) as (ps & ? & H & ? & ?). eauto. Qed.

(** What happens to one map, and to the entry that is in none. *)
Lemma inv_step W W' A P o o' h ps qs ps' m' :
  inv W A P o → P !! h = Some ps → frame qs h W W' → same_alloc W W' → rep W' h ps' m' →
  (∀ p, p ∈ qs → p ∈ ps ∨ o = Some p) →
  (∀ p, p ∈ ps' ∨ o' = Some p ↔ p ∈ ps ∨ o = Some p) → (∀ p, o' = Some p → p ∉ ps') →
  inv W' (<[h := m']> A) (<[h := ps']> P) o'.
Proof.
  intros [Hrep Hmaps Hown Hdisj Hloose Howned Hfresh] HP HF [Hn _ Hkv _] Hr Hqs Hps Ho'.
  assert (is_Some (A !! h)) as HAh by (apply not_eq_None_Some; rewrite <- Hown, HP; done).
  assert (∀ p g rs, P !! g = Some rs → g ≠ h → p ∈ ps ∨ o = Some p → p ∉ rs) as Hapart.
  { intros p g rs Hg Hne [Hp|Hp] Hprs.
    - by destruct Hne, (Hdisj g h rs ps p).
    - by destruct (Hloose p Hp) as [_ ?%(λ X, X g rs Hg)]. }
  split.
  - intros g m. rewrite !lookup_insert. case_decide as E; [intros [= <-]; subst; eauto|]. intros Hg.
    destruct (Hrep g m Hg) as (rs & Hrs & Hgr). exists rs. split; [done|].
    apply (rep_frame W W' h g qs rs m Hgr); [congruence| |done].
    intros p Hp Hpq%Hqs. by apply (Hapart p g rs).
  - intros g. rewrite lookup_insert. case_decide as E; [subst; destruct Hr as (H & -> & _); by split|].
    by rewrite (fr_maps _ _ _ _ HF), Hmaps.
  - intros g. rewrite !lookup_insert. case_decide; [done|apply Hown].
  - intros g1 g2 rs qs' p. rewrite !lookup_insert.
    destruct (decide (h = g1)) as [<-|], (decide (h = g2)) as [<-|]; [done| | |by apply Hdisj].
    + intros [= <-] H2 Hp1 Hp2. exfalso. by apply (Hapart p g2 qs'); [|done|apply Hps; auto|].
    + intros H1 [= <-] Hp1 Hp2. exfalso. by apply (Hapart p g1 rs); [|done|apply Hps; auto|].
  - intros p Hp. assert (p ∈ ps ∨ o = Some p) as Hpo by (apply Hps; auto). split.
    + rewrite Hkv. destruct Hpo as [Hpo|Hpo]; [|by apply Hloose].
      destruct HAh as [m Hm]. destruct (Hrep h m Hm) as (ps0 & Hps0 & H & _ & Hr0).
      assert (ps0 = ps) as -> by congruence. by apply (rep_live _ _ _ _ p Hr0).
    + intros g rs. rewrite lookup_insert. case_decide; [intros [= <-]; auto|]. intros Hg.
      by apply (Hapart p g rs).
  - intros p. rewrite Hkv. intros [Hp|(g & rs & Hg & Hp)]%Howned.
    + assert (p ∈ ps' ∨ o' = Some p) as [?|?] by (apply Hps; auto); [right|by left].
      exists h, ps'. by rewrite lookup_insert_eq.
    + destruct (decide (g = h)) as [->|Hne].
      * assert (p ∈ ps' ∨ o' = Some p) as [?|?] by (apply Hps; left; congruence); [right|by left].
        exists h, ps'. by rewrite lookup_insert_eq.
      * right. exists g, rs. by rewrite lookup_insert_ne.
  - intros p. rewrite Hn, Hkv. intros Hp. split; [by apply Hfresh|].
    destruct (decide (p = h)) as [->|Hne]; [|rewrite (fr_maps _ _ _ _ HF) by done; by apply Hfresh].
    destruct (Hfresh h Hp) as [_ E%Hmaps]. destruct HAh. congruence.
Qed.

(** ** The steps of an operation *)

Definition keeps st st' : Prop := same_alloc (vw st) (vw st').

Lemma link_spec st A P e h ps m H kv :
  inv (vw st) A P (Some e) → A !! h = Some m → P !! h = Some ps → v_maps (vw st) !! h = Some H →
  v_kv (vw st) !! e = Some kv → kv.1 ∉ om_keys m → (Z.of_nat (length m) + 1 < 2 ^ 32)%Z →
  wp (link_entry h e (bucket_of H kv.1)) st (λ _ st',
    inv (vw st') (<[h := m ++ [kv]]> A) (<[h := ps ++ [e]]> P) None ∧ keeps st st').
Proof.
  intros HI HA HP HH He Hk Hroom. destruct (inv_rep _ _ _ _ _ _ HI HA) as (ps' & H' & HP' & HH' & Hr).
  assert (ps' = ps) as -> by congruence. assert (H' = H) as -> by congruence.
  eapply wp_mono; [apply (link_entry_spec _ _ _ ps m); try done|].
  - by apply (iv_loose _ _ _ _ HI e eq_refl) with h.
  - intros [] st' (Hr' & Hf & Hs). split; [|done]. eapply inv_step; try done.
    + intros p. rewrite elem_of_app, list_elem_of_singleton. naive_solver.
    + intros p. rewrite elem_of_app, list_elem_of_singleton. naive_solver.
Qed.

Lemma unlink_spec st A P h ps1 e ps2 m1 kv m2 H :
  inv (vw st) A P None → A !! h = Some (m1 ++ kv :: m2) → P !! h = Some (ps1 ++ e :: ps2) →
  length ps1 = length m1 → v_maps (vw st) !! h = Some H → v_kv (vw st) !! e = Some kv →
  wp (unlink_entry h e (bucket_of H kv.1)) st (λ _ st',
    inv (vw st') (<[h := m1 ++ m2]> A) (<[h := ps1 ++ ps2]> P) (Some e) ∧ keeps st st').
Proof.
  intros HI HA HP Hl HH He. destruct (inv_rep _ _ _ _ _ _ HI HA) as (ps' & H' & HP' & HH' & Hr).
  assert (ps' = ps1 ++ e :: ps2) as -> by congruence. assert (H' = H) as -> by congruence.
  eapply wp_mono; [by eapply unlink_entry_spec|]. intros [] st' (Hr' & Hf & Hs). split; [|done].
  assert (e ∉ ps1 ++ ps2) as Hn.
  { pose proof (rm_NoDup _ _ _ _ Hr) as Hn. rewrite <- Permutation_middle in Hn. by apply NoDup_cons in Hn as [? _]. }
  eapply inv_step; try done.
  - by left.
  - intros p. set_solver.
  - by intros p [= <-].
Qed.

(** An entry of the store becomes one that is in no map, and goes away. *)
Lemma inv_alloc st A P kv b i : inv (vw st) A P None →
  inv (vw (st <| h_next ::= S |> <| entries ::= <[h_next st := mkHEntry kv.1 kv.2 b i]> |>)) A P (Some (h_next st)).
Proof.
  intros [Hrep Hmaps Hown Hdisj Hloose Howned Hfresh].
  assert (∀ h ps, P !! h = Some ps → h_next st ∉ ps) as Hnew.
  { intros h ps HP Hp. destruct (A !! h) as [m|] eqn:HA; [|rewrite (proj2 (Hown h) HA) in HP; done].
    destruct (Hrep h m HA) as (ps' & HP' & H & _ & Hr). assert (ps' = ps) as -> by congruence.
    destruct (rep_live _ _ _ _ _ Hr Hp) as [kv' Hkv]. destruct (Hfresh (h_next st)) as [E _]; [done|]. congruence. }
  assert (∀ ps h, P !! h = Some ps → frame [h_next st] (S (h + h_next st)) (vw st)
    (vw (st <| h_next ::= S |> <| entries ::= <[h_next st := mkHEntry kv.1 kv.2 b i]> |>))) as Hfr.
  { intros ps h HP. split; [..|done]; intros p Hp%not_elem_of_cons; cbn; rewrite !lookup_fmap, lookup_insert_ne; naive_solver. }
  split.
  - intros h m HA. destruct (Hrep h m HA) as (ps & HP & Hr). exists ps. split; [done|].
    eapply rep_frame; [done| | |by apply (Hfr ps h)]; [lia|]. intros p Hp [->|?%elem_of_nil]%elem_of_cons; [|done].
    by apply (Hnew h ps).
  - done.
  - done.
  - done.
  - intros p [= <-]. split; [|done]. cbn. rewrite lookup_fmap, lookup_insert_eq. done.
  - intros p. cbn. rewrite lookup_fmap. destruct (decide (p = h_next st)) as [->|]; [by left|].
    rewrite lookup_insert_ne by done. intros Hp. right. destruct (Howned p) as [?|?]; [|done..].
    cbn. by rewrite lookup_fmap.
  - intros p Hp. cbn in *. rewrite lookup_fmap, lookup_insert_ne by lia. specialize (Hfresh p). cbn in Hfresh.
    rewrite lookup_fmap in Hfresh. apply Hfresh. lia.
Qed.
Lemma inv_free st A P e : inv (vw st) A P (Some e) → inv (vw (st <| entries ::= delete e |>)) A P None.
Proof.
  intros [Hrep Hmaps Hown Hdisj Hloose Howned Hfresh]. destruct (Hloose e eq_refl) as [_ He].
  assert (∀ h, frame [e] (S h) (vw st) (vw (st <| entries ::= delete e |>))) as Hfr.
  { intros h. split; [..|done]; intros p Hp%not_elem_of_cons; cbn; rewrite !lookup_fmap, lookup_delete_ne; naive_solver. }
  split; try done.
  - intros h m HA. destruct (Hrep h m HA) as (ps & HP & Hr). exists ps. split; [done|].
    eapply rep_frame; [done| | |by apply (Hfr h)]; [lia|]. intros p Hp [->|?%elem_of_nil]%elem_of_cons; [|done].
    by apply (He h ps).
  - intros p Hp. cbn in Hp. rewrite lookup_fmap in Hp. destruct (decide (p = e)) as [->|Hne].
    { rewrite lookup_delete_eq in Hp. by destruct Hp. }
    rewrite lookup_delete_ne in Hp by done. destruct (Howned p) as [?|?]; [|congruence|by right].
    cbn. by rewrite lookup_fmap.
  - intros p Hp. cbn in *. specialize (Hfresh p Hp). cbn in Hfresh. rewrite lookup_fmap in Hfresh |- *.
    split; [|by apply Hfresh]. destruct Hfresh as [Hf _]. apply fmap_None in Hf.
    destruct (decide (p = e)) as [->|]; [by rewrite lookup_delete_eq|by rewrite lookup_delete_ne, Hf].
Qed.

Lemma same_funcs_bucket (H H' : Hashmap K) k : hash_func H' = hash_func H → bucket_of H' k = bucket_of H k.
Proof. unfold bucket_of. by intros ->. Qed.
Lemma keeps_bucket st st' g H H' : keeps st st' → v_maps (vw st) !! g = Some H → v_maps (vw st') !! g = Some H' →
  ∀ k, bucket_of H' k = bucket_of H k.
Proof. intros [_ _ _ Hf] HH HH' k. destruct (Hf g H' HH') as (H2 & ? & ? & _). apply same_funcs_bucket. congruence. Qed.

Lemma remove_spec st A P h ps1 e ps2 m1 kv m2 :
  inv (vw st) A P None → A !! h = Some (m1 ++ kv :: m2) → P !! h = Some (ps1 ++ e :: ps2) →
  length ps1 = length m1 → v_kv (vw st) !! e = Some kv →
  wp (remove_entry h e) st (λ _ st',
    inv (vw st') (<[h := m1 ++ m2]> A) (<[h := ps1 ++ ps2]> P) None ∧
    h_next st' = h_next st ∧ h_oom st' = h_oom st ∧ v_kv (vw st') = delete e (v_kv (vw st))).
Proof.
  intros HI HA HP Hl He. destruct (inv_rep _ _ _ _ _ _ HI HA) as (ps & H & HP' & HH & Hr).
  destruct (vw_entry _ _ _ He) as (b & i & Hb & Hi & _).
  unfold remove_entry. wp_step. eapply wp_map_at; [done|]. wp_step. eapply wp_entry_at; [done..|]. cbn.
  wp_step. eapply wp_mono; [by eapply unlink_spec|]. intros [] st' [HI' [Hn Ho Hk _]]. apply wp_modify.
  split_and!; [by apply inv_free|done|done|]. cbn in Hk |- *. by rewrite fmap_delete, Hk.
Qed.

(** What does not touch the maps and the entries. *)
Lemma inv_ext W W' A P o : v_kv W' = v_kv W → v_il W' = v_il W → v_bl W' = v_bl W → v_maps W' = v_maps W →
  v_next W ≤ v_next W' → inv W A P o → inv W' A P o.
Proof.
  intros E1 E2 E3 E4 Hn [Hrep Hmaps Hown Hdisj Hloose Howned Hfresh]. split; rewrite ?E1, ?E4; try done.
  - intros h m HA. destruct (Hrep h m HA) as (ps & HP & Hr). exists ps. split; [done|].
    apply (rep_frame W W' (Datatypes.S h) h [] ps m Hr); [lia|by intros ? ? ?%elem_of_nil|].
    by split; intros; rewrite ?E1, ?E2, ?E3, ?E4.
  - intros p Hp. apply Hfresh. lia.
Qed.

(** ** Changing the key and the value of an entry *)

Lemma wp_set_kv st e k v (Q : unit → HStore K V → Prop) : is_Some (v_kv (vw st) !! e) →
  (∀ st', vw st' = (vw st) <| v_kv ::= <[e := (k, v)]> |> → Q () st') →
  wp (update_entry e (λ E, E <| e_key := k |> <| e_value := v |>)) st Q.
Proof.
  intros He HQ. eapply wp_intro; [by apply update_entry_eq, vw_live|]. apply HQ. unfold vw; simpl.
  rewrite (fmap_alter _ _ (λ _, (k, v))), !fmap_alter_id by done. unfold upd; simpl. f_equal.
  destruct He as [kv Hkv]. cbn in Hkv. apply map_eq. intros p. rewrite lookup_alter, lookup_insert.
  case_decide; [subst; by rewrite Hkv|done].
Qed.

Lemma rep_set_value W H ps1 e ps2 m1 k v m2 v' :
  rep_map W H (ps1 ++ e :: ps2) (m1 ++ (k, v) :: m2) → length ps1 = length m1 →
  rep_map (W <| v_kv ::= <[e := (k, v')]> |>) H (ps1 ++ e :: ps2) (m1 ++ (k, v') :: m2).
Proof.
  intros [Hf Hi Hn Hh Ht Hl Hb Hc Hk Hcnt] Hlen.
  apply Forall2_app_inv in Hc as [Hc1 Hc2]; [|done]. apply Forall2_cons in Hc2 as [He Hc2].
  assert (∀ l, l ⊆ ps1 ++ ps2 → ∀ m, Forall2 (λ p kv, v_kv W !! p = Some kv) l m →
    Forall2 (λ p kv, <[e := (k, v')]> (v_kv W) !! p = Some kv) l m) as Hext.
  { intros l Hl' m. apply contents_ext. intros p Hp%Hl'. apply lookup_insert_ne. intros <-.
    rewrite <- Permutation_middle in Hn. by apply NoDup_cons in Hn as [? _]. }
  split; simpl; try done.
  - intros b Hb'. destruct (Hb b Hb') as (l & Hhd & Hs & Hnd & Hin). exists l. split_and!; [done..|].
    intros p. rewrite Hin. destruct (decide (p = e)) as [->|Hne]; [|by rewrite lookup_insert_ne].
    rewrite lookup_insert_eq, He. split; intros [? (kv & [= <-] & ?)]; (split; [done|]); eexists; split; done.
  - apply Forall2_app; [apply Hext; [set_solver|done]|]. constructor; [by rewrite lookup_insert_eq|].
    apply Hext; [set_solver|done].
  - unfold om_wf, om_keys in *. by rewrite fmap_app, fmap_cons in Hk |- *.
  - by rewrite length_app in Hcnt |- *.
Qed.

Lemma set_frame W h e k v : frame [e] h W (W <| v_kv ::= <[e := (k, v)]> |>).
Proof. split; [|done..]. intros p Hp%not_elem_of_cons. simpl. rewrite lookup_insert_ne; naive_solver. Qed.

(** In place, or while the entry is in no map. *)
Lemma inv_set_kv W A P o e k v h m :
  inv W A P o → is_Some (v_kv W !! e) →
  (o = Some e ∨ ∃ ps H, P !! h = Some ps ∧ e ∈ ps ∧ v_maps W !! h = Some H ∧ rep_map (W <| v_kv ::= <[e := (k, v)]> |>) H ps m) →
  inv (W <| v_kv ::= <[e := (k, v)]> |>) (if bool_decide (o = Some e) then A else <[h := m]> A) P o.
Proof.
  intros [Hrep Hmaps Hown Hdisj Hloose Howned Hfresh] Hlive Hcase.
  set (W' := upd v_kv _ W). set (A' := if bool_decide _ then _ else _).
  assert (∀ p, is_Some (v_kv W' !! p) ↔ is_Some (v_kv W !! p)) as Hdom.
  { intros p. unfold W'. simpl. rewrite lookup_insert. case_decide; [subst|done]. split; [done|by eexists]. }
  assert (∀ g, A' !! g = None ↔ A !! g = None) as HA'.
  { intros g. unfold A'. case_bool_decide; [done|]. destruct Hcase as [?|(ps & H0 & HP & _)]; [done|].
    rewrite lookup_insert. case_decide; [subst|done]. rewrite <- Hown, HP. done. }
  split; try done.
  - intros g mg Hg. assert (o = Some e ∨ g ≠ h → A !! g = Some mg) as HA.
    { unfold A' in Hg. case_bool_decide; [done|]. intros [?|?]; [done|]. by rewrite lookup_insert_ne in Hg. }
    assert (∀ ps, P !! g = Some ps → e ∉ ps → rep W g ps mg → rep W' g ps mg) as Hkeep.
    { intros ps HP He Hr. eapply (rep_frame _ _ (Datatypes.S g)); [exact Hr|lia| |apply set_frame].
      intros p Hp [->|?%elem_of_nil]%elem_of_cons; done. }
    destruct Hcase as [Ho|(ps & H & HP & He & HH & Hr)].
    + destruct (Hrep g mg (HA (or_introl Ho))) as (ps & HP & Hr). exists ps. split; [done|]. apply Hkeep; [done| |done].
      by apply (Hloose e Ho) with g.
    + assert (o ≠ Some e) as Hne by (intros Ho; by apply (Hloose e Ho) in HP).
      destruct (decide (g = h)) as [->|Hgh].
      * exists ps. split; [done|]. exists H. split; [done|]. unfold A' in Hg. rewrite bool_decide_false in Hg by done.
        rewrite lookup_insert_eq in Hg. by injection Hg as ->.
      * destruct (Hrep g mg (HA (or_intror Hgh))) as (ps' & HP' & Hr'). exists ps'. split; [done|].
        apply Hkeep; [done| |done]. intros He'. apply Hgh. by apply (Hdisj g h ps' ps e).
  - intros g. rewrite HA'. apply Hmaps.
  - intros g. rewrite HA'. apply Hown.
  - intros p Hp. rewrite Hdom. by apply Hloose.
  - intros p. rewrite Hdom. apply Howned.
  - intros p Hp. split; [|by apply Hfresh]. apply eq_None_not_Some. rewrite Hdom. apply eq_None_not_Some.
    by apply Hfresh.
Qed.

(** ** Looking up *)

Lemma live_length {B} (L : gmap nat B) l : NoDup l → (∀ p, p ∈ l → is_Some (L !! p)) → length l ≤ size L.
Proof.
  intros Hn Hl. rewrite <- (size_list_to_set (C := gset nat) l Hn), <- size_dom. apply subseteq_size.
  intros p Hp%elem_of_list_to_set. apply elem_of_dom. auto.
Qed.

Lemma scan_spec st H k l : ∀ n q, length l ≤ n → (∀ a b, compare_func H a b = 0%Z ↔ a = b) →
  seg (v_bl (vw st)) q l None → (∀ p, p ∈ l → is_Some (v_kv (vw st) !! p)) →
  wp (scan n H (hd_or l None) k) st (λ o st', st' = st ∧
    match o with
    | Some e => e ∈ l ∧ ∃ v, v_kv (vw st) !! e = Some (k, v)
    | None => ∀ p v, p ∈ l → v_kv (vw st) !! p ≠ Some (k, v)
    end).
Proof.
  induction l as [|e l IH]; intros n q Hn Hf Hs Hl; simpl.
  { assert (scan n H None k = mret None) as -> by (by destruct n). apply wp_ret. split; [done|].
    by intros p v ?%elem_of_nil. }
  destruct n as [|n]; [simpl in Hn; lia|]. destruct Hs as [He Hs]. destruct (Hl e) as [[k' v] Hkv]; [left|].
  destruct (vw_entry _ _ _ Hkv) as (b & i & Hb & Hi & _). assert (b = mkLink (hd_or l None) q) as -> by congruence.
  simpl. wp_step. eapply wp_entry_at; [done..|]. cbn. case_bool_decide as E.
  - apply Hf in E as ->. apply wp_ret. split; [done|]. split; [left|eauto].
  - eapply wp_mono; [apply (IH n (Some e)); [simpl in Hn; lia|done..|]|].
    { intros p Hp. apply Hl. by right. }
    intros [e'|] st' [-> HQ]; (split; [done|]).
    + destruct HQ as [? HQ]. split; [by right|done].
    + intros p v' [->|Hp]%elem_of_cons; [|by apply HQ]. intros Hc.
      assert (Some (k', v) = Some (k, v')) as [= -> ->] by exact (eq_trans (eq_sym Hkv) Hc). by apply E, Hf.
Qed.

(** Where the entry is in the order of iteration. *)
Definition at_key st h k m (o : option nat) (ps : list nat) : Prop :=
  match o with
  | Some e => ∃ v ps1 ps2 m1 m2, ps = ps1 ++ e :: ps2 ∧ m = m1 ++ (k, v) :: m2 ∧ length ps1 = length m1 ∧
      v_kv (vw st) !! e = Some (k, v) ∧ om_get m k = Some v
  | None => k ∉ om_keys m ∧ om_get m k = None
  end.

Lemma contents_split st ps m e kv : Forall2 (λ p kv, v_kv (vw st) !! p = Some kv) ps m → e ∈ ps →
  v_kv (vw st) !! e = Some kv → ∃ ps1 ps2 m1 m2, ps = ps1 ++ e :: ps2 ∧ m = m1 ++ kv :: m2 ∧ length ps1 = length m1.
Proof.
  intros HF (ps1 & ps2 & ->)%list_elem_of_split He.
  apply Forall2_app_inv_l in HF as (m1 & m2' & HF1 & HF2 & ->).
  apply Forall2_cons_inv_l in HF2 as (kv' & m2 & E & HF2 & ->). assert (kv' = kv) as -> by congruence.
  exists ps1, ps2, m1, m2. split_and!; [done|done|by eapply Forall2_length].
Qed.

Lemma hash_scan_spec st W H h ps m k :
  W = vw st → v_maps W !! h = Some H → rep_map W H ps m →
  wp (hash_scan h (bucket_of H k) k) st (λ o st', st' = st ∧ at_key st h k m o ps).
Proof.
  intros -> HH Hr. destruct (rm_bucket _ _ _ _ Hr (bucket_of H k)) as (l & Hb & Hs & Hn & Hin); [apply bucket_of_lt|].
  assert (∀ p, p ∈ l → is_Some (v_kv (vw st) !! p)) as Hl by (intros p (_ & kv & ? & _)%Hin; eauto).
  unfold hash_scan. wp_step. eapply wp_map_at; [done|]. wp_step.
  rewrite bool_decide_true by apply bucket_of_lt. apply wp_ret. wp_step. eapply wp_deref; [done|].
  wp_step. apply wp_gets. eapply wp_mono; [eapply scan_spec; [|by apply Hr|done|done]|].
  { apply live_length; [done|]. intros p Hp. by apply vw_live, Hl. }
  intros [e|] st' [-> HQ]; (split; [done|]).
  - destruct HQ as [He [v Hv]]. apply Hin in He as [He _].
    destruct (contents_split _ _ _ e (k, v) (rm_contents _ _ _ _ Hr)) as (ps1 & ps2 & m1 & m2 & -> & -> & ?); [done..|].
    exists v, ps1, ps2, m1, m2. split_and!; try done. apply om_elem_get; [apply Hr|set_solver].
  - assert (k ∉ om_keys m) as Hk; [|by split; [|apply om_get_None]].
    intros ([k' v] & E & Hkv)%list_elem_of_fmap. simpl in E. subst k'.
    destruct (contents_of _ _ _ _ (rm_contents _ _ _ _ Hr) Hkv) as (p & Hp & Hpk).
    apply (HQ p v); [|done]. apply Hin. eauto.
Qed.

Lemma lookup_spec st A P h m ps k : inv (vw st) A P None → A !! h = Some m → P !! h = Some ps →
  wp (lookup_entry h k) st (λ o st', st' = st ∧ at_key st h k m o ps).
Proof.
  intros HI HA HP. destruct (inv_rep _ _ _ _ _ _ HI HA) as (ps' & H & HP' & HH & Hr).
  assert (ps' = ps) as -> by congruence. unfold lookup_entry. wp_step. eapply wp_map_at; [done|].
  by eapply hash_scan_spec.
Qed.
End hashmap_ops.
