(* ===== verification/HashmapOps.v ===== *)
(** * The contract of the hash map (Hashmap.v)

    The operations of src/hashmap.c on ordered maps, and the theorem that the
    C code refines them: whatever program of operations runs on maps that
    exist, it returns what the ordered maps say and never touches an entry
    that is gone.  The abstract store is the contents of the maps, the outcomes of
    the allocations to come and the address the next one returns. *)

From stdpp Require Import base gmap strings list fin_maps fin_sets.
From Stdlib Require Import ZArith Lia.
From S2P Require Import Prelude OrderedMap IntrusiveList Hashmap HashmapRep HashmapSpec.

(** ** The operations of ordered maps *)

Record AStore {K V : Type} := mkAStore {
  a_maps : gmap nat (list (K * V));
  a_oom : list bool;
  a_next : nat }.
Arguments AStore : clear implicits.
Arguments mkAStore {K V}.
#[export] Instance AStore_rebuild {K V} : Rebuild (AStore K V) := λ S,
  mkAStore (a_maps S) (a_oom S) (a_next S).

Section contract.
Context {K V : Type} `{EqDecision K, EqDecision V}.
Abbreviation HM := (M (HStore K V)).
Abbreviation AM := (M (AStore K V)).
Implicit Types (st : HStore K V) (S : AStore K V) (h e : nat) (k : K) (v : V) (m : list (K * V)).

Definition a_alloc : AM bool := λ S,
  match a_oom S with [] => Ret true S | b :: l => Ret b (S <| a_oom := l |>) end.
Definition a_fresh : AM nat := λ S, Ret (a_next S) (S <| a_next ::= Datatypes.S |>).
Definition a_map h : AM (list (K * V)) := S ← get; deref (a_maps S !! h).
Definition a_set h m : AM unit := modify (λ S, S <| a_maps ::= <[h := m]> |>).
(** [n_entries] is an [unsigned]: a map with 2^32 entries is out of bounds. *)
Definition a_room m : AM unit := assert_ (bool_decide (Z.of_nat (length m) + 1 < 2 ^ 32)%Z).

Definition spec_new : AM (option nat) :=
  ok ← a_alloc; if negb ok then mret None else h ← a_fresh; a_set h [];; mret (Some h).
Definition spec_put h k v : AM Z :=
  m ← a_map h;
  match om_get m k with
  | Some v' => mret (if bool_decide (v' = v) then 0 else - EEXIST)%Z
  | None =>
      a_room m;;
      ok ← a_alloc;
      if negb ok then mret (- ENOMEM)%Z else a_fresh;; a_set h (m ++ [(k, v)]);; mret 1%Z
  end.
Definition spec_replace h k v : AM Z :=
  m ← a_map h;
  match om_get m k with
  | Some _ => a_set h (om_replace m k v);; mret 0%Z
  | None => spec_put h k v
  end.
Definition spec_remove h k : AM (option V) :=
  m ← a_map h; a_set h (om_remove m k);; mret (om_get m k).
Definition spec_remove_value h k v : AM (option V) :=
  m ← a_map h;
  if bool_decide (om_get m k = Some v) then a_set h (om_remove m k);; mret (Some v) else mret None.
Definition spec_remove_and_put h k_old k_new v : AM Z :=
  m ← a_map h;
  match om_get m k_old, om_get m k_new with
  | None, _ => mret (- ENOENT)%Z
  | _, Some _ => mret (- EEXIST)%Z
  | _, None => a_set h (om_remove m k_old ++ [(k_new, v)]);; mret 0%Z
  end.
Definition spec_remove_and_replace h k_old k_new v : AM Z :=
  m ← a_map h;
  match om_get m k_old with
  | None => mret (- ENOENT)%Z
  | Some _ => a_set h (om_remove (om_remove m k_new) k_old ++ [(k_new, v)]);; mret 0%Z
  end.
Definition spec_steal h : AM (option (K * V)) :=
  m ← a_map h;
  match m with [] => mret None | kv :: m' => a_set h m';; mret (Some kv) end.
Definition spec_free h : AM unit := a_map h;; modify (λ S, S <| a_maps ::= delete h |>).

Fixpoint spec_merge_rec h m : AM Z :=
  match m with
  | [] => mret 0%Z
  | kv :: m' =>
      r ← spec_put h kv.1 kv.2;
      if bool_decide (r < 0 ∧ r ≠ - EEXIST)%Z then mret r else spec_merge_rec h m'
  end.
Definition spec_merge h o : AM Z := assert_ (bool_decide (h ≠ o));; m ← a_map o; spec_merge_rec h m.
(** One entry moves from [o] to [h], unless there is one for its key. *)
Definition spec_move_entry h o kv : AM unit :=
  m ← a_map h; mo ← a_map o;
  match om_get m kv.1 with
  | Some _ => mret tt
  | None => a_room m;; a_set o (om_remove mo kv.1);; a_set h (m ++ [kv])
  end.
Definition spec_move h o : AM unit :=
  assert_ (bool_decide (h ≠ o));; m ← a_map o; for_each m (spec_move_entry h o).
Definition spec_move_one h o k : AM Z :=
  assert_ (bool_decide (h ≠ o));;
  m ← a_map h; mo ← a_map o;
  match om_get m k, om_get mo k with
  | Some _, _ => mret (- EEXIST)%Z
  | _, None => mret (- ENOENT)%Z
  | None, Some v => spec_move_entry h o (k, v);; mret 0%Z
  end.
Definition spec_copy h : AM (option nat) :=
  a_map h;;
  c ← spec_new;
  match c with
  | None => mret None
  | Some c =>
      r ← spec_merge c h;
      if bool_decide (r < 0)%Z then spec_free c;; mret None else mret (Some c)
  end.
Definition spec_get_strv h : AM (option (list V)) :=
  m ← a_map h; ok ← a_alloc; mret (if ok : bool then Some m.*2 else None).

(** A map that may be NULL is then an empty one that stays empty. *)
Definition or_null {A} (h : option nat) (null : A) (c : nat → AM A) : AM A :=
  match h with None => mret null | Some h => c h end.

(** ** Refinement *)

Record RP st S (P : gmap nat (list nat)) : Prop := {
  rp_inv : inv (vw st) (a_maps S) P None;
  rp_oom : h_oom st = a_oom S;
  rp_next : h_next st = a_next S }.
Definition R st S : Prop := ∃ P, RP st S P.

Definition refines_to (RR : HStore K V → AStore K V → Prop) {A} (c : HM A) st (a : AM A) S : Prop :=
  match a S with Ret r S' => wp c st (λ r' st', r' = r ∧ RR st' S') | _ => True end.
Abbreviation refines_at := (refines_to R).
(** Where the ordered maps have an outcome, the code returns it. *)
Definition refines {A} (c : HM A) (a : AM A) : Prop := ∀ st S, R st S → refines_at c st a S.

Lemma ra_ret {A} RR (x : A) st S : RR st S → refines_to RR (mret x) st (mret x) S.
Proof. intros ?. cbn. by apply wp_ret. Qed.
Lemma ra_bind' {A B} (RR RR' : HStore K V → AStore K V → Prop) (c : HM A) (f : A → HM B) (a : AM A) (g : A → AM B) st S :
  refines_to RR c st a S → (∀ r st' S', RR st' S' → refines_to RR' (f r) st' (g r) S') →
  refines_to RR' (c ≫= f) st (a ≫= g) S.
Proof.
  unfold refines_to. intros Hc Hf. unfold mbind at 1, M_bind at 1.
  destruct (a S) as [r S'| |] eqn:E; [|done..].
  destruct (g r S') as [r2 S2| |] eqn:E2; [|done..].
  apply wp_bind. eapply wp_mono; [exact Hc|]. intros r' st' [-> HR]. specialize (Hf r st' S' HR).
  by rewrite E2 in Hf.
Qed.
Lemma ra_bind {A B} (c : HM A) (f : A → HM B) (a : AM A) (g : A → AM B) st S :
  refines_at c st a S → (∀ r, refines (f r) (g r)) → refines_at (c ≫= f) st (a ≫= g) S.
Proof. intros Hc Hf. eapply ra_bind'; [exact Hc|]. intros r st' S' HR. by apply Hf. Qed.
Lemma ra_map {A} RR (c : HM A) st S h (g : list (K * V) → AM A) :
  (∀ m, a_maps S !! h = Some m → refines_to RR c st (g m) S) → refines_to RR c st (a_map h ≫= g) S.
Proof.
  unfold refines_to, a_map, get, mbind, M_bind. destruct (a_maps S !! h) as [m|]; simpl; [|done]. intros Hc. by apply Hc.
Qed.
Lemma ra_assert {A} RR (c : HM A) st S (P : Prop) `{Decision P} (g : AM A) :
  (P → refines_to RR c st g S) → refines_to RR c st (assert_ (bool_decide P);; g) S.
Proof. unfold refines_to, mbind, M_bind. case_bool_decide as HP; simpl; intros Hc; [exact (Hc HP)|done]. Qed.
Lemma ra_pure {A B} RR (c : HM A) (f : A → HM B) (a : AM B) st S (Q : A → Prop) :
  wp c st (λ x st', st' = st ∧ Q x) → (∀ x, Q x → refines_to RR (f x) st a S) → refines_to RR (c ≫= f) st a S.
Proof.
  unfold refines_to. intros Hc Hf. apply wp_elim in Hc as (x & st' & E & -> & HQ). specialize (Hf x HQ).
  destruct (a S); [|done..]. eapply wp_bind, wp_intro; [exact E|done].
Qed.
Lemma ra_map_at {A} RR (f : Hashmap K → HM A) a st S P h m : RP st S P → a_maps S !! h = Some m →
  (∀ H ps, v_maps (vw st) !! h = Some H → P !! h = Some ps → rep_map (vw st) H ps m → refines_to RR (f H) st a S) →
  refines_to RR (map_at h ≫= f) st a S.
Proof.
  intros [HI _ _] HA Hf. destruct (inv_rep _ _ _ _ _ _ HI HA) as (ps & H & HP & HH & Hr).
  apply (ra_pure _ _ _ _ _ _ (λ G, G = H)); [by eapply wp_map_at|]. intros ? ->. by apply (Hf H ps).
Qed.
Lemma ra_lookup {A} RR (f : option nat → HM A) a st S P h m k : RP st S P → a_maps S !! h = Some m →
  (∀ o ps, P !! h = Some ps → at_key st h k m o ps → refines_to RR (f o) st a S) →
  refines_to RR (lookup_entry h k ≫= f) st a S.
Proof.
  intros [HI _ _] HA Hf. destruct (inv_rep _ _ _ _ _ _ HI HA) as (ps & H & HP & HH & Hr).
  eapply ra_pure; [by eapply lookup_spec|]. intros o Ho. by apply (Hf o ps).
Qed.
Lemma ra_entry {A} RR (f : HEntry K V → HM A) a st S p kv : v_kv (vw st) !! p = Some kv →
  (∀ b i, v_bl (vw st) !! p = Some b → v_il (vw st) !! p = Some i →
     refines_to RR (f (mkHEntry kv.1 kv.2 b i)) st a S) → refines_to RR (entry_at p ≫= f) st a S.
Proof.
  intros Hp Hf. destruct (vw_entry _ _ _ Hp) as (b & i & Hb & Hi & _).
  apply (ra_pure _ _ _ _ _ _ (λ E, E = mkHEntry kv.1 kv.2 b i)); [by eapply wp_entry_at|]. intros ? ->. by apply Hf.
Qed.
Lemma ra_det {A B C} RR (c : HM A) (f : A → HM B) (a : AM C) (g : C → AM B) st S x y st' S' :
  c st = Ret x st' → a S = Ret y S' → refines_to RR (f x) st' (g y) S' → refines_to RR (c ≫= f) st (a ≫= g) S.
Proof.
  unfold refines_to. intros Ec Ea Hf. rewrite (bind_ret a g S y S' Ea). destruct (g y S'); [|done..].
  by eapply wp_bind, wp_intro.
Qed.
Lemma ra_alloc {A} RR (f : bool → HM A) (g : bool → AM A) st S P : RP st S P →
  (∀ b st' S', RP st' S' P → entries st' = entries st → maps st' = maps st → a_maps S' = a_maps S →
     refines_to RR (f b) st' (g b) S') → refines_to RR (h_alloc ≫= f) st (a_alloc ≫= g) S.
Proof.
  intros HR Hf. pose proof HR as [HI Ho Hn].
  assert (∀ l, RP (st <| h_oom := l |>) (S <| a_oom := l |>) P) as HR'.
  { intros l. split; [|done..]. by eapply inv_ext; [..|exact HI]. }
  destruct (h_oom st) as [|b l] eqn:E.
  - eapply ra_det; [unfold h_alloc; by rewrite E|unfold a_alloc; by rewrite <- Ho|]. by apply Hf.
  - eapply ra_det; [unfold h_alloc; by rewrite E|unfold a_alloc; by rewrite <- Ho|]. by apply Hf; [apply HR'|..].
Qed.

(** ** The operations *)

Lemma ra_of_wp {A} RR (c : HM A) (a : AM A) st S r S' :
  a S = Ret r S' → wp c st (λ r' st', r' = r ∧ RR st' S') → refines_to RR c st a S.
Proof. unfold refines_to. by intros ->. Qed.
Lemma a_map_eq {A} (g : list (K * V) → AM A) S h m : a_maps S !! h = Some m → (a_map h ≫= g) S = g m S.
Proof. intros E. unfold a_map, get, mbind, M_bind. by rewrite E. Qed.

(** The entries of the other maps are not even moved. *)
Definition off h (P : gmap nat (list nat)) S0 st S : Prop :=
  ∃ P', RP st S P' ∧ ∀ g, g ≠ h → P' !! g = P !! g ∧ a_maps S !! g = a_maps S0 !! g.
Lemma off_self h P st S : RP st S P → off h P S st S.
Proof. intros HR. by exists P. Qed.
Lemma off_R h P S0 st S : off h P S0 st S → R st S.
Proof. intros (P' & HR & _). by exists P'. Qed.
Lemma off_trans h P1 P2 S1 S2 st S : off h P2 S2 st S →
  (∀ g, g ≠ h → P2 !! g = P1 !! g ∧ a_maps S2 !! g = a_maps S1 !! g) → off h P1 S1 st S.
Proof.
  intros (P3 & HR & E3) E2. exists P3. split; [done|]. intros g Hg. destruct (E3 g Hg), (E2 g Hg). split; congruence.
Qed.

Lemma ra_mono {A} (RR RR' : HStore K V → AStore K V → Prop) (c : HM A) st a S :
  (∀ st S, RR st S → RR' st S) → refines_to RR c st a S → refines_to RR' c st a S.
Proof.
  unfold refines_to. intros HRR. destruct (a S); [|done..]. intros Hc. eapply wp_mono; [exact Hc|]. naive_solver.
Qed.
Lemma add_refines st S P h m H k v : RP st S P → a_maps S !! h = Some m → v_maps (vw st) !! h = Some H →
  k ∉ om_keys m → (Z.of_nat (length m) + 1 < 2 ^ 32)%Z →
  refines_to (off h P S) (e ← h_fresh;
    modify (λ st, st <| entries ::= <[e := mkHEntry k v (mkLink None None) (mkLink None None)]> |>);;
    link_entry h e (bucket_of H k);; mret 1%Z) st
    (a_fresh;; a_set h (m ++ [(k, v)]);; mret 1%Z) S.
Proof.
  intros [HI Ho Hn] HA HH Hk Hroom. destruct (inv_rep _ _ _ _ _ _ HI HA) as (ps & H' & HP & HH' & Hr).
  eapply ra_of_wp; [reflexivity|]. apply wp_bind. eapply wp_intro; [reflexivity|]. apply wp_bind, wp_modify.
  pose proof (inv_alloc st _ _ (k, v) (mkLink None None) (mkLink None None) HI) as HI1. cbn [fst snd] in HI1.
  set (st1 := upd entries _ _) in *. apply wp_bind.
  eapply wp_mono; [apply (link_spec st1 (a_maps S) P (h_next st) h ps m H (k, v)); try done|].
  { cbn. by rewrite lookup_fmap, lookup_insert_eq. }
  intros [] st' [HI' [Hn' Ho' _ _]]. apply wp_ret. split; [done|].
  eexists. split; [split; [exact HI'|cbn in *; congruence..]|]. intros g Hg. simpl. by rewrite !lookup_insert_ne.
Qed.

Lemma put_off h k v st S P : RP st S P → refines_to (off h P S) (hashmap_put h k v) st (spec_put h k v) S.
Proof.
  intros HR. apply ra_map. intros m HA. unfold hashmap_put.
  eapply ra_map_at; [done..|]. intros H ps HH HP Hr. eapply ra_lookup; [done..|]. intros [e|] ps' HP'.
  - intros (v' & ps1 & ps2 & m1 & m2 & _ & _ & _ & He & ->). eapply ra_entry; [done|]. intros b i _ _. simpl.
    by apply ra_ret, off_self.
  - intros [Hk ->]. apply ra_assert. intros Hroom. eapply ra_alloc; [done|].
    intros ok st' S' HR' _ Em Ea. destruct ok; simpl.
    + eapply ra_mono; [|eapply (add_refines st' S' P); [done| | |done..]].
      * intros st2 S2 HO. apply (off_trans _ _ _ _ _ _ _ HO). intros g _. by rewrite Ea.
      * congruence.
      * cbn. by rewrite Em.
    + apply ra_ret. exists P. split; [done|]. intros g _. by rewrite Ea.
Qed.
Lemma put_refines h k v : refines (hashmap_put h k v) (spec_put h k v).
Proof. intros st S [P HR]. eapply ra_mono; [apply (off_R h P S)|by apply put_off]. Qed.

(** The spec of removing an entry, for the abstract store. *)
Lemma remove_R st S P h ps1 e ps2 m1 k v m2 : RP st S P → a_maps S !! h = Some (m1 ++ (k, v) :: m2) →
  P !! h = Some (ps1 ++ e :: ps2) → length ps1 = length m1 → v_kv (vw st) !! e = Some (k, v) →
  wp (remove_entry h e) st (λ _ st',
    RP st' (S <| a_maps ::= <[h := m1 ++ m2]> |>) (<[h := ps1 ++ ps2]> P) ∧ v_kv (vw st') = delete e (v_kv (vw st))).
Proof.
  intros [HI Ho Hn] HA HP Hl He. eapply wp_mono; [by eapply (remove_spec st (a_maps S) P h ps1 e ps2 m1 (k, v) m2)|].
  intros [] st' (HI' & Hn' & Ho' & Hk). split; [|done]. split; [exact HI'|simpl; congruence..].
Qed.
Lemma a_wf st S P h m : RP st S P → a_maps S !! h = Some m → om_wf m.
Proof. intros [HI _ _] HA. destruct (inv_rep _ _ _ _ _ _ HI HA) as (ps & H & _ & _ & Hr). apply Hr. Qed.

Lemma replace_refines h k v : refines (hashmap_replace h k v) (spec_replace h k v).
Proof.
  intros st S [P HR]. apply ra_map. intros m HA. unfold hashmap_replace.
  pose proof (a_wf _ _ _ _ _ HR HA) as Hwf. eapply ra_lookup; [done..|]. intros [e|] ps HP.
  - intros (v' & ps1 & ps2 & m1 & m2 & -> & -> & Hl & He & ->). destruct HR as [HI Ho Hn].
    destruct (inv_rep _ _ _ _ _ _ HI HA) as (ps & H & HP' & HH & Hr).
    assert (ps = ps1 ++ e :: ps2) as -> by congruence.
    eapply ra_of_wp; [reflexivity|]. apply wp_bind, wp_set_kv; [by eexists|]. intros st' E. apply wp_ret.
    split; [done|]. rewrite om_replace_split by (by apply (om_wf_split _ _ _ _ Hwf)).
    pose proof (inv_set_kv _ _ _ None e k v h (m1 ++ (k, v) :: m2) HI (mk_is_Some _ _ He)) as HI'.
    rewrite bool_decide_false in HI' by done. exists P. split; simpl.
    + rewrite E. apply HI'. right. exists (ps1 ++ e :: ps2), H. split_and!; [done|set_solver|done|].
      by eapply rep_set_value.
    + change (h_oom st') with (v_oom (vw st')). by rewrite E.
    + change (h_next st') with (v_next (vw st')). by rewrite E.
  - intros [Hk ->]. apply put_refines. by exists P.
Qed.

Lemma get_refines (h : option nat) k : refines (hashmap_get h k) (or_null h None (λ h, m ← a_map h; mret (om_get m k))).
Proof.
  intros st S [P HR]. destruct h as [h|]; [|apply ra_ret; by exists P]. apply ra_map. intros m HA.
  eapply ra_lookup; [done..|]. intros [e|] ps HP.
  - intros (v & ps1 & ps2 & m1 & m2 & _ & _ & _ & He & ->). eapply ra_entry; [done|]. intros b i _ _.
    apply ra_ret. by exists P.
  - intros [_ ->]. apply ra_ret. by exists P.
Qed.

Lemma set_id S h m : a_maps S !! h = Some m → S <| a_maps ::= <[h := m]> |> = S.
Proof. intros HA. destruct S. unfold upd; simpl in *. by rewrite insert_id. Qed.

Lemma remove_refines (h : option nat) k : refines (hashmap_remove h k) (or_null h None (λ h, spec_remove h k)).
Proof.
  intros st S [P HR]. destruct h as [h|]; [|apply ra_ret; by exists P]. apply ra_map. intros m HA.
  pose proof (a_wf _ _ _ _ _ HR HA) as Hwf. eapply ra_lookup; [done..|]. intros [e|] ps HP.
  - intros (v & ps1 & ps2 & m1 & m2 & -> & -> & Hl & He & ->). eapply ra_entry; [done|]. intros b i _ _.
    eapply ra_of_wp; [reflexivity|]. apply wp_bind. eapply wp_mono; [by eapply remove_R|].
    intros [] st' [HR' _]. apply wp_ret. split; [done|]. rewrite om_remove_split by done. eexists; exact HR'.
  - intros [Hk ->]. eapply ra_of_wp; [reflexivity|]. apply wp_ret. split; [done|].
    rewrite om_remove_absent, set_id by done. by exists P.
Qed.

Lemma remove_value_refines (h : option nat) k v :
  refines (hashmap_remove_value h k v) (or_null h None (λ h, spec_remove_value h k v)).
Proof.
  intros st S [P HR]. destruct h as [h|]; [|apply ra_ret; by exists P]. apply ra_map. intros m HA.
  pose proof (a_wf _ _ _ _ _ HR HA) as Hwf. eapply ra_lookup; [done..|]. intros [e|] ps HP.
  - intros (v' & ps1 & ps2 & m1 & m2 & -> & -> & Hl & He & ->). eapply ra_entry; [done|]. intros b i _ _. simpl.
    destruct (decide (v' = v)) as [->|Hne].
    + rewrite bool_decide_false, bool_decide_true by naive_solver.
      eapply ra_of_wp; [reflexivity|]. apply wp_bind. eapply wp_mono; [by eapply remove_R|].
      intros [] st' [HR' _]. apply wp_ret. split; [done|]. rewrite om_remove_split by done. eexists; exact HR'.
    + rewrite bool_decide_true, bool_decide_false by naive_solver. apply ra_ret. by exists P.
  - intros [Hk ->]. apply ra_ret. by exists P.
Qed.

Lemma rekey_R st S P h ps1 e ps2 m1 k v m2 k' v' : RP st S P → a_maps S !! h = Some (m1 ++ (k, v) :: m2) →
  P !! h = Some (ps1 ++ e :: ps2) → length ps1 = length m1 → v_kv (vw st) !! e = Some (k, v) →
  k' ∉ om_keys (m1 ++ m2) →
  wp (rekey h e k k' v') st (λ _ st', R st' (S <| a_maps ::= <[h := (m1 ++ m2) ++ [(k', v')]]> |>)).
Proof.
  intros [HI Ho Hn] HA HP Hl He Hk. destruct (inv_rep _ _ _ _ _ _ HI HA) as (ps & H & _ & HH & Hr).
  destruct (rm_count _ _ _ _ Hr) as [_ Hroom]. rewrite length_app in Hroom. simpl in Hroom.
  unfold rekey. wp_step. eapply wp_map_at; [done|]. wp_step.
  eapply wp_mono; [by eapply (unlink_spec st (a_maps S) P h ps1 e ps2 m1 (k, v) m2)|].
  intros [] st1 [HI1 HK1]. wp_step. pose proof (sa_kv _ _ HK1) as Ekv1.
  apply wp_set_kv; [rewrite Ekv1; by eexists|]. intros st2 E2.
  assert (inv (vw st2) (<[h := m1 ++ m2]> (a_maps S)) (<[h := ps1 ++ ps2]> P) (Some e)) as HI2.
  { rewrite E2. pose proof (inv_set_kv _ _ _ (Some e) e k' v' h [] HI1) as X. rewrite bool_decide_true in X by done.
    apply X; [rewrite Ekv1; by eexists|by left]. }
  destruct (inv_rep _ _ _ _ h (m1 ++ m2) HI2) as (ps' & H' & _ & HH' & _); [apply lookup_insert_eq|].
  assert (bucket_of H k' = bucket_of H' k') as ->.
  { destruct HK1 as [_ _ _ Hf]. rewrite E2 in HH'. destruct (Hf h H' HH') as (H0 & E0 & Ef & _).
    unfold bucket_of. by assert (H0 = H) as -> by congruence; rewrite Ef. }
  eapply wp_mono; [apply (link_spec st2 _ _ e h (ps1 ++ ps2) (m1 ++ m2) H' (k', v') HI2)|].
  - apply lookup_insert_eq.
  - apply lookup_insert_eq.
  - done.
  - rewrite E2. apply lookup_insert_eq.
  - done.
  - rewrite length_app. lia.
  - intros [] st3 [HI3 HK3]. rewrite !insert_insert_eq in HI3. eexists. split; [exact HI3| |]; simpl.
    + change (v_oom (vw st3) = a_oom S). rewrite (sa_oom _ _ HK3), E2. simpl. rewrite <- Ho. apply (sa_oom _ _ HK1).
    + change (v_next (vw st3) = a_next S). rewrite (sa_next _ _ HK3), E2. simpl. rewrite <- Hn. apply (sa_next _ _ HK1).
Qed.

Lemma remove_and_put_refines (h : option nat) k k' v :
  refines (hashmap_remove_and_put h k k' v) (or_null h (- ENOENT)%Z (λ h, spec_remove_and_put h k k' v)).
Proof.
  intros st S [P HR]. destruct h as [h|]; [|apply ra_ret; by exists P]. apply ra_map. intros m HA.
  pose proof (a_wf _ _ _ _ _ HR HA) as Hwf. eapply ra_lookup; [done..|]. intros [e|] ps HP.
  - intros (v0 & ps1 & ps2 & m1 & m2 & Eps & Em & Hl & He & ->). eapply ra_lookup; [done..|]. intros [x|] ps' HP'.
    + intros (v1 & _ & _ & _ & _ & _ & _ & _ & _ & ->). apply ra_ret. by exists P.
    + intros [Hk' ->]. subst ps m. eapply ra_of_wp; [reflexivity|]. apply wp_bind.
      rewrite om_remove_split by done. eapply wp_mono; [eapply rekey_R; try done|].
      { unfold om_keys in *. rewrite fmap_app in *. rewrite fmap_cons in Hk'. set_solver. }
      intros [] st' HR'. by apply wp_ret.
  - intros [_ ->]. apply ra_ret. by exists P.
Qed.

Lemma om_remove_idem m k : om_remove (om_remove m k) k = om_remove m k.
Proof. apply om_remove_absent. rewrite om_keys_remove. rewrite list_elem_of_filter. by intros [? _]. Qed.

Lemma remove_and_replace_refines (h : option nat) k k' v :
  refines (hashmap_remove_and_replace h k k' v) (or_null h (- ENOENT)%Z (λ h, spec_remove_and_replace h k k' v)).
Proof.
  intros st S [P HR]. destruct h as [h|]; [|apply ra_ret; by exists P]. apply ra_map. intros m HA.
  pose proof (a_wf _ _ _ _ _ HR HA) as Hwf. eapply ra_lookup; [done..|]. intros [e|] ps HP.
  2:{ intros [_ ->]. apply ra_ret. by exists P. }
  intros (v0 & ps1 & ps2 & m1 & m2 & Eps & Em & Hl & He & ->). eapply ra_lookup; [done..|]. intros ox ps' HP'.
  assert (ps' = ps) as -> by congruence. intros Hx.
  (* [x] is another entry, the same one, or not there *)
  assert ((∃ x, ox = Some x ∧ e ≠ x) ∨ ∀ x, ox = Some x → e = x) as [(x & -> & Hne)|Hsame].
  { destruct ox as [x|]; [|by right]. destruct (decide (e = x)); [right|left]; naive_solver. }
  - destruct Hx as (vx & qs1 & qs2 & n1 & n2 & Eqs & En & Hln & Hx & _). rewrite bool_decide_true by done.
    eapply ra_of_wp; [reflexivity|]. apply wp_bind. rewrite Eqs in HP. rewrite En in HA, Hwf.
    eapply wp_mono; [by eapply (remove_R st S P h qs1 x qs2 n1 k' vx n2)|]. intros [] st1 [HR1 Hkv1]. apply wp_bind.
    rewrite En, om_remove_split by done. set (S1 := upd a_maps _ S) in HR1.
    assert (a_maps S1 !! h = Some (n1 ++ n2)) as HA1 by apply lookup_insert_eq.
    pose proof (a_wf _ _ _ _ _ HR1 HA1) as Hwf1.
    destruct (inv_rep _ _ _ _ _ _ (rp_inv _ _ _ HR1) HA1) as (rs & H1 & HP1 & HH1 & Hr1).
    rewrite lookup_insert_eq in HP1. injection HP1 as <-.
    assert (v_kv (vw st1) !! e = Some (k, v0)) as He1 by (rewrite Hkv1, lookup_delete_ne; done).
    destruct (contents_split st1 _ _ e (k, v0) (rm_contents _ _ _ _ Hr1)) as (rs1 & rs2 & o1 & o2 & Ers & Eo & Hlo).
    { rewrite elem_of_app. assert (e ∈ qs1 ++ x :: qs2) as Hin by (rewrite <- Eqs, Eps; set_solver).
      rewrite elem_of_app, elem_of_cons in Hin. naive_solver. }
    { done. }
    rewrite Eo in HA1, Hwf1 |- *. rewrite om_remove_split by done.
    eapply wp_mono; [apply (rekey_R st1 S1 _ h rs1 e rs2 o1 k v0 o2 k' v HR1 HA1); [|done|done|]|].
    + rewrite lookup_insert_eq. by rewrite <- Ers.
    + apply om_wf_split in Hwf as [Hk1 Hk2]. unfold om_keys in *. intros Hin.
      assert (k' ∈ (n1 ++ n2).*1) as Hin2; [|rewrite fmap_app in Hin2; set_solver].
      rewrite Eo. rewrite fmap_app, fmap_cons in *. set_solver.
    + intros [] st2 HR2. apply wp_ret. split; [done|]. unfold S1, upd in *; simpl in *. by rewrite insert_insert_eq in HR2.
  - assert (om_remove (om_remove m k') k = m1 ++ m2 ∧ k' ∉ om_keys (m1 ++ m2)) as [-> Hk'].
    { rewrite Em in Hwf |- *. destruct (om_wf_split _ _ _ _ Hwf) as [Hk1 Hk2]. destruct ox as [x|].
      - destruct Hx as (vx & _ & _ & _ & _ & _ & _ & _ & Hx & _). assert (e = x) as -> by naive_solver.
        assert (k = k') as <- by congruence. rewrite om_remove_idem, om_remove_split by done. split; [done|].
        unfold om_keys in *. rewrite fmap_app. set_solver.
      - destruct Hx as [Hx _]. rewrite Em in Hx. rewrite (om_remove_absent _ k') by done.
        rewrite om_remove_split by done. split; [done|].
        unfold om_keys in *. rewrite fmap_app, fmap_cons in Hx. rewrite fmap_app. set_solver. }
    assert (match ox with Some x => when (bool_decide (e ≠ x)) (remove_entry h x) | None => mret tt end = (mret tt : HM unit)) as ->.
    { destruct ox as [x|]; [|done]. rewrite bool_decide_false; [done|]. intros Hne. by apply Hne, Hsame. }
    subst. eapply ra_of_wp; [reflexivity|]. apply wp_bind, wp_ret, wp_bind.
    eapply wp_mono; [by eapply rekey_R|]. intros [] st2 HR2. by apply wp_ret.
Qed.

(** *** The ends of the list *)

Lemma contents_head st H ps m : rep_map (vw st) H ps m →
  match ps, m with
  | [], [] => iterate_list_head H = None
  | e :: _, kv :: _ => iterate_list_head H = Some e ∧ v_kv (vw st) !! e = Some kv
  | _, _ => False
  end.
Proof.
  intros Hr. pose proof (rm_head _ _ _ _ Hr) as Hh. destruct (rm_contents _ _ _ _ Hr); done.
Qed.

Lemma end_refines {A} (f : option nat → HM A) a st S P h m pick : RP st S P → a_maps S !! h = Some m →
  (∀ H ps, P !! h = Some ps → rep_map (vw st) H ps m → refines_at (f (pick H)) st a S) →
  refines_at (end_entry pick (Some h) ≫= f) st a S.
Proof.
  intros [HI _ _] HA Hf. destruct (inv_rep _ _ _ _ _ _ HI HA) as (ps & H & HP & HH & Hr).
  apply (ra_pure _ _ _ _ _ _ (λ o, o = pick H)); [|by intros ? ->; apply (Hf H ps)].
  unfold end_entry. wp_step. eapply wp_map_at; [done|]. by apply wp_ret.
Qed.

Lemma first_refines (h : option nat) :
  refines (hashmap_first h) (or_null h None (λ h, m ← a_map h; mret (snd <$> head m))).
Proof.
  intros st S [P HR]. destruct h as [h|]; [|apply ra_ret; by exists P]. apply ra_map. intros m HA.
  unfold hashmap_first. eapply end_refines; [done..|]. intros H ps HP Hr. apply contents_head in Hr.
  destruct ps as [|e ps], m as [|kv m]; try done.
  - rewrite Hr. apply ra_ret. by exists P.
  - destruct Hr as [-> He]. eapply ra_entry; [done|]. intros b i _ _. apply ra_ret. by exists P.
Qed.
Lemma last_refines (h : option nat) :
  refines (hashmap_last h) (or_null h None (λ h, m ← a_map h; mret (snd <$> last m))).
Proof.
  intros st S [P HR]. destruct h as [h|]; [|apply ra_ret; by exists P]. apply ra_map. intros m HA.
  unfold hashmap_last. eapply end_refines; [done..|]. intros H ps HP Hr.
  pose proof (rm_tail _ _ _ _ Hr) as Ht. pose proof (rm_contents _ _ _ _ Hr) as Hc.
  destruct m as [|kv m _] using rev_ind.
  - apply Forall2_nil_inv_r in Hc as ->. rewrite Ht. apply ra_ret. by exists P.
  - apply Forall2_app_inv_r in Hc as (ps1 & ps2 & _ & Hc & ->). apply Forall2_cons_inv_r in Hc as (e & ps3 & He & Hc & ->).
    apply Forall2_nil_inv_r in Hc as ->. rewrite last_or_snoc in Ht. rewrite Ht, last_snoc.
    eapply ra_entry; [done|]. intros b i _ _. apply ra_ret. by exists P.
Qed.
Lemma steal_refines (h : option nat) : refines (steal h) (or_null h None spec_steal).
Proof.
  intros st S [P HR]. destruct h as [h|]; [|apply ra_ret; by exists P]. apply ra_map. intros m HA.
  unfold steal. eapply end_refines; [done..|]. intros H ps HP Hr. apply contents_head in Hr.
  destruct ps as [|e ps], m as [|[k v] m]; try done.
  - rewrite Hr. apply ra_ret. by exists P.
  - destruct Hr as [-> He]. eapply ra_entry; [done|]. intros b i _ _.
    eapply ra_of_wp; [reflexivity|]. apply wp_bind.
    eapply wp_mono; [by eapply (remove_R st S P h [] e ps [] k v m)|]. intros [] st' [HR' _]. apply wp_ret.
    split; [done|]. eexists. exact HR'.
Qed.
Lemma steal_first_refines (h : option nat) :
  refines (hashmap_steal_first h) (o ← or_null h None spec_steal; mret (snd <$> o)).
Proof. intros st S HR. apply ra_bind; [by apply steal_refines|]. intros o. intros ???. by apply ra_ret. Qed.
Lemma steal_first_key_refines (h : option nat) :
  refines (hashmap_steal_first_key h) (o ← or_null h None spec_steal; mret (fst <$> o)).
Proof. intros st S HR. apply ra_bind; [by apply steal_refines|]. intros o. intros ???. by apply ra_ret. Qed.

Lemma size_refines (h : option nat) :
  refines (hashmap_size h) (or_null h 0%Z (λ h, m ← a_map h; mret (Z.of_nat (length m)))).
Proof.
  intros st S [P HR]. destruct h as [h|]; [|apply ra_ret; by exists P]. apply ra_map. intros m HA.
  eapply ra_map_at; [done..|]. intros H ps _ _ Hr. destruct (rm_count _ _ _ _ Hr) as [-> _].
  apply ra_ret. by exists P.
Qed.
Lemma isempty_refines (h : option nat) :
  refines (hashmap_isempty h) (or_null h true (λ h, m ← a_map h; mret (bool_decide (m = [])))).
Proof.
  intros st S [P HR]. destruct h as [h|]; [|apply ra_ret; by exists P]. apply ra_map. intros m HA.
  eapply ra_map_at; [done..|]. intros H ps _ _ Hr. destruct (rm_count _ _ _ _ Hr) as [-> _].
  rewrite (bool_decide_ext (Z.of_nat (length m) = 0%Z) (m = [])); [apply ra_ret; by exists P|].
  rewrite <- length_zero_iff_nil. lia.
Qed.

(** *** New maps and maps that go away *)

Lemma new_refines (hash : K → Z) (cmp : K → K → Z) : (∀ a b, cmp a b = 0%Z ↔ a = b) →
  refines (hashmap_new hash cmp) spec_new.
Proof.
  intros Hcmp st S [P HR]. eapply ra_alloc; [done|]. intros ok st' S' HR' _ _ _.
  destruct ok; [|apply ra_ret; by exists P]. cbn [negb].
  eapply ra_of_wp; [reflexivity|]. apply wp_bind. eapply wp_intro; [reflexivity|]. apply wp_bind, wp_modify, wp_ret.
  destruct HR' as [HI Ho Hn]. split; [by rewrite Hn|]. rewrite <- Hn.
  exists (<[h_next st' := []]> P). split; [|simpl; congruence..]. simpl.
  destruct HI as [Hrep Hmaps Hown Hdisj Hloose Howned Hfresh].
  assert (P !! h_next st' = None) as HP by (apply Hown, Hmaps, Hfresh; done).
  split; simpl.
  - intros h m. rewrite !lookup_insert. case_decide as E; [intros [= <-]; subst|].
    + exists []. split; [done|]. eexists. split; [apply lookup_insert_eq|]. split; try done; try by constructor.
      * intros b Hb. exists []. change (BY_HASH _) with (replicate NBUCKETS (None : option nat)). rewrite lookup_replicate_2 by done. split_and!; [done|done|constructor|].
        intros p. split; [by intros ?%elem_of_nil|by intros [?%elem_of_nil _]].
    + intros HA. destruct (Hrep h m HA) as (ps & HPs & Hr). exists ps. split; [done|].
      eapply (rep_frame _ _ (h_next st') h []); [exact Hr|congruence|by intros ? ? ?%elem_of_nil|].
      split; [done..|]. intros g Hg. simpl. by rewrite lookup_insert_ne.
  - intros h. rewrite !lookup_insert. case_decide; [done|]. apply Hmaps.
  - intros h. rewrite !lookup_insert. case_decide; [done|]. apply Hown.
  - intros g h ps qs p. rewrite !lookup_insert. intros H1 H2.
    destruct (decide (h_next st' = g)), (decide (h_next st' = h)); simplify_eq; try by intros ?%elem_of_nil.
    + by intros _ ?%elem_of_nil.
    + by apply (Hdisj g h ps qs).
  - done.
  - intros p [|(h & ps & HPs & Hp)]%Howned; [done|]. right. exists h, ps. split; [|done].
    rewrite lookup_insert_ne; [done|]. congruence.
  - intros p Hp. rewrite lookup_insert_ne by lia. apply Hfresh. simpl. lia.
Qed.

Lemma ensure_allocated_refines (h : option nat) (hash : K → Z) (cmp : K → K → Z) : (∀ a b, cmp a b = 0%Z ↔ a = b) →
  refines (hashmap_ensure_allocated h hash cmp)
    (match h with
     | Some h => mret (0%Z, Some h)
     | None => h ← spec_new; mret (match h with None => ((- ENOMEM)%Z, None) | Some h => (0%Z, Some h) end)
     end).
Proof.
  intros Hcmp st S HR. destruct h as [h|]; [by apply ra_ret|]. apply ra_bind; [by apply new_refines|].
  intros o ???. by apply ra_ret.
Qed.

Lemma clear_loop h m : ∀ n st S P, RP st S P → a_maps S !! h = Some m → length m < n →
  wp (while_some n (H ← map_at h; mret (iterate_list_head H)) (remove_entry h)) st
    (λ _ st', RP st' (S <| a_maps ::= <[h := []]> |>) (<[h := []]> P)).
Proof.
  induction m as [|[k v] m IH]; intros n st S P HR HA Hn; (destruct n as [|n]; [simpl in Hn; lia|]);
    destruct (inv_rep _ _ _ _ _ _ (rp_inv _ _ _ HR) HA) as (ps & H & HP & HH & Hr);
    apply contents_head in Hr; simpl; wp_step; wp_step; (eapply wp_map_at; [done|]); wp_step.
  - destruct ps as [|e ps]; [|done]. rewrite Hr. apply wp_ret. rewrite set_id by done. by rewrite insert_id.
  - destruct ps as [|e ps]; [done|]. destruct Hr as [-> He]. wp_step.
    eapply wp_mono; [by eapply (remove_R st S P h [] e ps [] k v m)|]. intros [] st' [HR' _].
    eapply wp_mono; [eapply IH; [exact HR'|apply lookup_insert_eq|simpl in Hn; lia]|]. intros [] st2 HR2.
    unfold upd in HR2 |- *; simpl in HR2 |- *. by rewrite !insert_insert_eq in HR2.
Qed.
Lemma fuel_enough st S P h m : RP st S P → a_maps S !! h = Some m → length m ≤ size (entries st).
Proof.
  intros [HI _ _] HA. destruct (inv_rep _ _ _ _ _ _ HI HA) as (ps & H & _ & _ & Hr).
  rewrite <- (Forall2_length _ _ _ (rm_contents _ _ _ _ Hr)). apply live_length; [apply Hr|].
  intros p Hp. by apply vw_live, (rep_live _ _ _ _ _ Hr).
Qed.
Lemma clear_refines (h : option nat) : refines (hashmap_clear h) (or_null h tt (λ h, a_map h;; a_set h [])).
Proof.
  intros st S [P HR]. destruct h as [h|]; [|apply ra_ret; by exists P]. apply ra_map. intros m HA.
  eapply ra_of_wp; [reflexivity|]. apply wp_bind, wp_gets. pose proof (fuel_enough _ _ _ _ _ HR HA).
  eapply wp_mono; [eapply (clear_loop h m); [done..|lia]|]. intros [] st' HR'. split; [done|]. eexists; exact HR'.
Qed.
Lemma inv_drop st A P h : inv (vw st) A P None → P !! h = Some [] →
  inv (vw (st <| maps ::= delete h |>)) (delete h A) (delete h P) None.
Proof.
  intros [Hrep Hmaps Hown Hdisj Hloose Howned Hfresh] HP. split; simpl.
  - intros g m. rewrite !lookup_delete. case_decide; [done|]. intros HA. destruct (Hrep g m HA) as (ps & HPs & Hr).
    exists ps. split; [done|]. eapply (rep_frame _ _ h g []); [exact Hr|congruence|by intros ? ? ?%elem_of_nil|].
    split; [done..|]. intros g' Hg'. simpl. by rewrite lookup_delete_ne.
  - intros g. rewrite !lookup_delete. case_decide; [done|]. apply Hmaps.
  - intros g. rewrite !lookup_delete. case_decide; [done|]. apply Hown.
  - intros g1 g2 ps qs p. rewrite !lookup_delete. do 2 case_decide; try done. apply Hdisj.
  - done.
  - intros p [|(g & ps & HPs & Hp)]%Howned; [done|]. right. exists g, ps. split; [|done].
    rewrite lookup_delete_ne; [done|]. intros <-. rewrite HP in HPs. injection HPs as <-. by apply elem_of_nil in Hp.
  - intros p Hp. rewrite lookup_delete. split; [by apply Hfresh|]. case_decide; [done|]. by apply Hfresh.
Qed.
Lemma free_refines (h : option nat) : refines (hashmap_free h) (or_null h tt spec_free).
Proof.
  intros st S [P HR]. destruct h as [h|]; [|apply ra_ret; by exists P]. apply ra_map. intros m HA.
  eapply ra_of_wp; [reflexivity|]. apply wp_bind. unfold hashmap_clear. apply wp_bind, wp_gets.
  pose proof (fuel_enough _ _ _ _ _ HR HA).
  eapply wp_mono; [eapply (clear_loop h m); [done..|lia]|]. intros [] st' [HI Ho Hn]. apply wp_modify.
  split; [done|]. eexists. split; [|exact Ho|exact Hn].
  pose proof (inv_drop _ _ _ h HI (lookup_insert_eq _ _ _)) as HI'. simpl in HI' |- *. by rewrite delete_insert_eq in HI'.
Qed.

(** *** Two maps *)

(** An iterator is at an entry of the map; what comes after it is the rest. *)
Lemma iter_entry st S P o ps1 e rs m1 kv mr : RP st S P → P !! o = Some (ps1 ++ e :: rs) →
  a_maps S !! o = Some (m1 ++ kv :: mr) → length ps1 = length m1 →
  v_kv (vw st) !! e = Some kv ∧ v_il (vw st) !! e = Some (mkLink (hd_or rs None) (last_or ps1 None)).
Proof.
  intros [HI _ _] HP HA Hl. destruct (inv_rep _ _ _ _ _ _ HI HA) as (ps & H & HP' & _ & Hr).
  assert (ps = ps1 ++ e :: rs) as -> by congruence. split.
  - pose proof (rm_contents _ _ _ _ Hr) as Hc. apply Forall2_app_inv in Hc as [_ Hc]; [|done].
    by apply Forall2_cons in Hc as [He _].
  - pose proof (rm_iter _ _ _ _ Hr) as Hs. apply seg_app in Hs as [_ [He _]]. done.
Qed.

Lemma merge_loop h o mr : ∀ rs n st S P ps1 m1, RP st S P → h ≠ o → P !! o = Some (ps1 ++ rs) →
  a_maps S !! o = Some (m1 ++ mr) → length ps1 = length m1 → length mr ≤ n → length rs = length mr →
  refines_to (off h P S) (merge_rec n h (hd_or rs None)) st (spec_merge_rec h mr) S.
Proof.
  induction mr as [|kv mr IH]; intros rs n st S P ps1 m1 HR Hne HP HA Hl Hn Hlr; (destruct rs as [|e rs]; [|try done]); [|done|].
  { destruct n; by apply ra_ret, off_self. }
  destruct n as [|n]; [simpl in Hn; lia|]. simpl.
  destruct (iter_entry _ _ _ _ _ _ _ _ _ _ HR HP HA Hl) as [He _].
  eapply ra_entry; [exact He|]. intros b0 i0 _ _. simpl.
  eapply ra_bind'; [by apply put_off|]. intros r st' S' (P' & HR' & Hoff).
  case_bool_decide as Hrr; [apply ra_ret; by exists P'|].
  destruct (Hoff o) as [EP EA]; [done|]. rewrite <- EP in HP. rewrite <- EA in HA.
  destruct (iter_entry _ _ _ _ _ _ _ _ _ _ HR' HP HA Hl) as [He' Hi'].
  eapply ra_entry; [exact He'|]. intros b i _ Hi. assert (i = mkLink (hd_or rs None) (last_or ps1 None)) as -> by congruence.
  simpl. rewrite (cons_middle e ps1 rs) in HP. rewrite (cons_middle kv m1 mr) in HA. rewrite app_assoc in HP, HA.
  eapply ra_mono; [|eapply (IH rs n st' S' P'); [done|done|exact HP|exact HA| | |]].
  - intros st2 S2 HO. by apply (off_trans _ _ _ _ _ _ _ HO).
  - rewrite !length_app. simpl. lia.
  - simpl in Hn. lia.
  - simpl in Hlr. lia.
Qed.
Lemma merge_refines h (o : option nat) : refines (hashmap_merge h o) (or_null o 0%Z (spec_merge h)).
Proof.
  intros st S [P HR]. destruct o as [o|]; [|apply ra_ret; by exists P]. apply ra_assert. intros Hne.
  apply ra_map. intros m HA. pose proof (fuel_enough _ _ _ _ _ HR HA). unfold hashmap_merge.
  eapply ra_map_at; [done..|]. intros H' ps HH HP Hr.
  eapply (ra_pure _ _ _ _ _ _ (λ n, n = Datatypes.S (size (entries st)))); [by apply wp_gets|]. intros ? ->.
  rewrite (rm_head _ _ _ _ Hr). eapply ra_mono; [apply (off_R h P S)|].
  apply (merge_loop h o m ps _ st S P [] []); try done; [lia|].
  by apply (Forall2_length _ _ _ (rm_contents _ _ _ _ Hr)).
Qed.

Lemma move_R st S P h o ps1 e ps2 m1 k v m2 mh H O : RP st S P → h ≠ o →
  a_maps S !! o = Some (m1 ++ (k, v) :: m2) → P !! o = Some (ps1 ++ e :: ps2) → length ps1 = length m1 →
  v_kv (vw st) !! e = Some (k, v) → a_maps S !! h = Some mh → k ∉ om_keys mh →
  (Z.of_nat (length mh) + 1 < 2 ^ 32)%Z → v_maps (vw st) !! h = Some H → v_maps (vw st) !! o = Some O →
  wp (unlink_entry o e (bucket_of O k);; link_entry h e (bucket_of H k)) st (λ _ st', ∃ P',
    RP st' (S <| a_maps ::= <[o := m1 ++ m2]> |> <| a_maps ::= <[h := mh ++ [(k, v)]]> |>) P' ∧
    P' !! o = Some (ps1 ++ ps2)).
Proof.
  intros [HI Ho Hn] Hne HA HP Hl He HAh Hk Hroom HH HO. wp_step.
  eapply wp_mono; [by eapply (unlink_spec st (a_maps S) P o ps1 e ps2 m1 (k, v) m2 O)|].
  intros [] st1 [HI1 HK1]. destruct (inv_rep _ _ _ _ h mh HI1) as (psh & H' & HP' & HH' & _).
  { by rewrite lookup_insert_ne. }
  rewrite <- (keeps_bucket _ _ _ _ _ HK1 HH HH').
  eapply wp_mono; [apply (link_spec st1 _ _ e h psh mh H' (k, v) HI1); try done|].
  - by rewrite lookup_insert_ne.
  - by rewrite (sa_kv _ _ HK1).
  - intros [] st2 [HI2 HK2]. eexists. split; [split; [exact HI2|..]|].
    + change (v_oom (vw st2) = a_oom S). rewrite (sa_oom _ _ HK2), (sa_oom _ _ HK1). done.
    + change (v_next (vw st2) = a_next S). rewrite (sa_next _ _ HK2), (sa_next _ _ HK1). done.
    + rewrite lookup_insert_ne, lookup_insert_eq by done. done.
Qed.

Lemma move_loop h o mr : ∀ rs n st S P ps1 m1, RP st S P → h ≠ o → P !! o = Some (ps1 ++ rs) →
  a_maps S !! o = Some (m1 ++ mr) → length ps1 = length m1 → length mr ≤ n → length rs = length mr →
  refines_at (move_rec n h o (hd_or rs None)) st (for_each mr (spec_move_entry h o)) S.
Proof.
  induction mr as [|[k v] mr IH]; intros rs n st S P ps1 m1 HR Hne HP HA Hl Hn Hlr; (destruct rs as [|e rs]; [|try done]); [|done|].
  { destruct n; apply ra_ret; by exists P. }
  destruct n as [|n]; [simpl in Hn; lia|]. simpl.
  destruct (iter_entry _ _ _ _ _ _ _ _ _ _ HR HP HA Hl) as [He Hi].
  eapply ra_entry; [exact He|]. intros b i _ Hi'. assert (i = mkLink (hd_or rs None) (last_or ps1 None)) as -> by congruence.
  simpl. destruct (a_maps S !! h) as [mh|] eqn:HAh.
  2:{ unfold refines_to, spec_move_entry, a_map, get, mbind, M_bind. by rewrite HAh. }
  eapply ra_map_at; [done..|]. intros H psh HH HPh Hr.
  eapply ra_pure; [by eapply (hash_scan_spec st (vw st) H h psh mh)|]. intros x Hx.
  eapply (ra_bind' (λ st' S', ∃ P' ps1' m1', RP st' S' P' ∧ P' !! o = Some (ps1' ++ rs) ∧
    a_maps S' !! o = Some (m1' ++ mr) ∧ length ps1' = length m1')).
  2:{ intros [] st' S' (P' & ps1' & m1' & HR' & HP' & HA' & Hl'). eapply IH; try done; simpl in *; lia. }
  unfold spec_move_entry. apply ra_map. intros mh' E. assert (mh' = mh) as -> by congruence. apply ra_map. intros mo Emo.
  assert (mo = m1 ++ (k, v) :: mr) as -> by congruence. simpl. destruct x as [x|].
  - destruct Hx as (v' & _ & _ & _ & _ & _ & _ & _ & _ & ->). apply ra_ret.
    exists P, (ps1 ++ [e]), (m1 ++ [(k, v)]). rewrite <- !app_assoc, !length_app. simpl. split_and!; [done..|lia].
  - destruct Hx as [Hk ->]. apply ra_assert. intros Hroom. eapply ra_map_at; [done..|]. intros O pso HO _ _.
    eapply ra_of_wp; [reflexivity|]. pose proof (a_wf _ _ _ _ _ HR HA) as Hwf. rewrite om_remove_split by done.
    eapply wp_mono; [by eapply (move_R st S P h o ps1 e rs m1 k v mr mh H O)|].
    intros [] st' (P' & HR' & HP'). split; [done|]. exists P', ps1, m1. split_and!; [exact HR'|done| |done].
    simpl. by rewrite lookup_insert_ne, lookup_insert_eq by done.
Qed.
Lemma move_refines h (o : option nat) : refines (hashmap_move h o) (or_null o tt (spec_move h)).
Proof.
  intros st S [P HR]. destruct o as [o|]; [|apply ra_ret; by exists P]. apply ra_assert. intros Hne.
  apply ra_map. intros m HA. pose proof (fuel_enough _ _ _ _ _ HR HA). unfold hashmap_move.
  eapply ra_map_at; [done..|]. intros H' ps HH HP Hr.
  eapply (ra_pure _ _ _ _ _ _ (λ n, n = Datatypes.S (size (entries st)))); [by apply wp_gets|]. intros ? ->.
  rewrite (rm_head _ _ _ _ Hr). apply (move_loop h o m ps _ st S P [] []); try done; [lia|].
  by apply (Forall2_length _ _ _ (rm_contents _ _ _ _ Hr)).
Qed.

Lemma move_one_refines h (o : option nat) k :
  refines (hashmap_move_one h o k) (or_null o 0%Z (λ o, spec_move_one h o k)).
Proof.
  intros st S [P HR]. destruct o as [o|]; [|apply ra_ret; by exists P]. apply ra_assert. intros Hne.
  apply ra_map. intros mh HAh. apply ra_map. intros mo HAo. unfold hashmap_move_one.
  eapply ra_lookup; [done..|]. intros [x|] psh HPh.
  { intros (v' & _ & _ & _ & _ & _ & _ & _ & _ & ->). apply ra_ret. by exists P. }
  intros [Hk ->]. eapply ra_lookup; [done..|]. intros [e|] pso HPo; [|intros [_ ->]; apply ra_ret; by exists P].
  intros (v & ps1 & ps2 & m1 & m2 & -> & -> & Hl & He & ->).
  eapply ra_map_at; [done|exact HAh|]. intros H ? HH _ _. eapply ra_map_at; [done|exact HAo|]. intros O ? HO _ _.
  unfold refines_to. destruct (bool_decide (Z.of_nat (length mh) + 1 < 2 ^ 32)%Z) eqn:Hroom.
  - unfold spec_move_entry. rewrite (bind_ret _ _ S tt (S <| a_maps ::= <[o := m1 ++ m2]> |> <| a_maps ::= <[h := mh ++ [(k, v)]]> |>)).
    2:{ rewrite (a_map_eq _ _ _ _ HAh), (a_map_eq _ _ _ _ HAo). simpl.
        assert (om_get mh k = None) as -> by (by apply om_get_None). unfold a_room. rewrite Hroom.
        rewrite om_remove_split by (by eapply a_wf). done. }
    cbn. apply bool_decide_eq_true in Hroom.
    apply (wp_mono _ _ (λ r st', r = 0%Z ∧ ∃ P', RP st' (S <| a_maps ::= <[o := m1 ++ m2]> |> <| a_maps ::= <[h := mh ++ [(k, v)]]> |>) P')).
    + pose proof (move_R st S P h o ps1 e ps2 m1 k v m2 mh H O HR Hne HAo HPo Hl He HAh Hk Hroom HH HO) as X.
      rewrite wp_bind in X. apply wp_bind. eapply wp_mono; [exact X|]. intros [] st1 X1. apply wp_bind.
      eapply wp_mono; [exact X1|]. intros [] st2 (P' & HR' & _). apply wp_ret. eauto.
    + intros r st' [-> (P' & HR')]. split; [done|]. by exists P'.
  - unfold spec_move_entry. unfold mbind at 1, M_bind at 1. rewrite (a_map_eq _ _ _ _ HAh), (a_map_eq _ _ _ _ HAo). simpl.
    assert (om_get mh k = None) as -> by (by apply om_get_None). unfold a_room. by rewrite Hroom.
Qed.

Lemma copy_refines h : refines (hashmap_copy h) (spec_copy h).
Proof.
  intros st S [P HR]. apply ra_map. intros m HA. eapply ra_map_at; [done..|]. intros H ps HH _ Hr.
  apply ra_bind; [apply new_refines; [apply Hr|by exists P]|]. intros [c|]; [|intros ???; by apply ra_ret].
  intros st1 S1 HR1. apply ra_bind; [by apply (merge_refines c (Some h))|]. intros r st2 S2 HR2.
  case_bool_decide; [|by apply ra_ret].
  apply ra_bind; [by apply (free_refines (Some c))|]. intros [] ???. by apply ra_ret.
Qed.
End contract.
