(* ===== verification/HashmapIter.v ===== *)
(** * Iterating over hash maps, and programs of operations (Hashmap.v)

    [HASHMAP_FOREACH] holds a pointer to the entry that comes next while its
    body runs.  [ahead h rs mr] says what that needs: the entries [rs] that are
    still to come, with the contents [mr], are the end of the list.  A body
    that keeps them there, whatever it does to the entry it was called
    for or to other maps, is run once for every entry.

    [hashmap_refines] puts the operations together: a program of operations
    returns what the ordered maps say. *)

From stdpp Require Import base gmap strings list fin_maps fin_sets.
From Stdlib Require Import ZArith Lia.
From S2P Require Import Prelude OrderedMap IntrusiveList Hashmap HashmapRep HashmapSpec HashmapOps.

Section iteration.
Context {K V : Type} `{EqDecision K, EqDecision V}.
Abbreviation HM := (M (HStore K V)).
Abbreviation AM := (M (AStore K V)).
Abbreviation refines_at := (refines_to R).
Implicit Types (st : HStore K V) (S : AStore K V) (h e : nat) (k : K) (v : V) (m : list (K * V)).

Definition ahead h (rs : list nat) m st S : Prop := ∃ P ps1 m1,
  RP st S P ∧ P !! h = Some (ps1 ++ rs) ∧ a_maps S !! h = Some (m1 ++ m) ∧ length ps1 = length m1.
Definition at_head (rs : list nat) : Iterator := match rs with e :: _ => AT e | [] => ITERATOR_LAST end.
(** Where an iterator is: before [rs], or it has not been used yet. *)
Definition iter_at (i : Iterator) h rs m st S : Prop :=
  ahead h rs m st S ∧ (i = at_head rs ∨ i = ITERATOR_FIRST ∧ a_maps S !! h = Some m).

Lemma ahead_R h rs m st S : ahead h rs m st S → R st S.
Proof. intros (P & ? & ? & HR & _). by exists P. Qed.
Lemma ahead_lengths h rs m st S : ahead h rs m st S → length rs = length m.
Proof.
  intros (P & ps1 & m1 & [HI _ _] & HP & HA & Hl). destruct (inv_rep _ _ _ _ _ _ HI HA) as (ps & H & HP' & _ & Hr).
  assert (ps = ps1 ++ rs) as -> by congruence. pose proof (Forall2_length _ _ _ (rm_contents _ _ _ _ Hr)) as E.
  rewrite !length_app in E. lia.
Qed.
Lemma ahead_start st S P h m : RP st S P → a_maps S !! h = Some m → ∃ rs, ahead h rs m st S.
Proof.
  intros HR HA. destruct (inv_rep _ _ _ _ _ _ (rp_inv _ _ _ HR) HA) as (ps & H & HP & _ & _).
  by exists ps, P, [], [].
Qed.

Lemma iterate_spec i h rs m st S : iter_at i h rs m st S →
  wp (hashmap_iterate (Some h) i) st (λ r st', st' = st ∧
    match rs, m with
    | e :: rs', kv :: m' => r = (at_head rs', Some kv)
    | _, _ => r.2 = None
    end).
Proof.
  intros [Ha Hi]. pose proof (ahead_lengths _ _ _ _ _ Ha) as Hlen. destruct Ha as (P & ps1 & m1 & HR & HP & HA & Hl).
  destruct (inv_rep _ _ _ _ _ _ (rp_inv _ _ _ HR) HA) as (ps & H & HP' & HH & Hr).
  assert (ps = ps1 ++ rs) as -> by congruence. unfold hashmap_iterate. wp_step. eapply wp_map_at; [done|].
  assert (i = at_head rs ∨ i = ITERATOR_FIRST ∧ iterate_list_head H = hd_or rs None) as Hi'.
  { destruct Hi as [?|[-> HAm]]; [by left|]. right. split; [done|]. rewrite (rm_head _ _ _ _ Hr).
    assert (m1 = []) as -> by (apply (app_inv_tail m); simpl; congruence). by destruct ps1. }
  destruct rs as [|e rs], m as [|kv m]; try done.
  - destruct Hi' as [->|[-> ->]]; by apply wp_ret.
  - destruct (iter_entry _ _ _ _ _ _ _ _ _ _ HR HP HA Hl) as [He Hil]. destruct (vw_entry _ _ _ He) as (b & i' & Hb & Hi2 & _).
    assert (i' = mkLink (hd_or rs None) (last_or ps1 None)) as -> by congruence.
    destruct Hi' as [->|[-> ->]]; simpl; wp_step; (eapply wp_entry_at; [done..|]); apply wp_ret; (split; [done|]);
      destruct kv, rs; done.
Qed.

(** The loop, for a body that leaves what is still to come in its place. *)
Section foreach.
Context (h : nat) (body : K → V → HM unit) (spec_body : K → V → AM unit).
Context (body_ok : ∀ e rs k v m st S, ahead h (e :: rs) ((k, v) :: m) st S →
  refines_to (ahead h rs m) (body k v) st (spec_body k v) S).

Lemma foreach_loop m : ∀ n rs i st S, length m ≤ n → iter_at i h rs m st S →
  refines_at (HASHMAP_FOREACH n (Some h) i body) st (for_each m (λ kv, spec_body kv.1 kv.2)) S.
Proof.
  induction m as [|[k v] m IH]; intros n rs i st S Hn Hi; pose proof (ahead_lengths _ _ _ _ _ (proj1 Hi)) as Hl;
    (destruct rs as [|e rs]; [|try done]); try done.
  - assert (HASHMAP_FOREACH n (Some h) i body = (r ← hashmap_iterate (Some h) i; match r.2 with
      | None => mret tt | Some kv => match n with O => nofuel | Datatypes.S n' => body kv.1 kv.2;; HASHMAP_FOREACH n' (Some h) r.1 body end end)) as -> by (by destruct n).
    eapply ra_pure; [by eapply iterate_spec|]. intros r ->. apply ra_ret. by eapply ahead_R, Hi.
  - destruct n as [|n]; [simpl in Hn; lia|]. cbn [HASHMAP_FOREACH for_each].
    eapply ra_pure; [by eapply iterate_spec|]. intros r ->. simpl.
    eapply ra_bind'; [eapply body_ok, Hi|]. intros [] st' S' Ha. apply (IH n rs); [simpl in Hn; lia|].
    split; [done|by left].
Qed.

Lemma foreach_refines n st S m : R st S → a_maps S !! h = Some m → length m ≤ n →
  refines_at (HASHMAP_FOREACH n (Some h) ITERATOR_FIRST body) st (for_each m (λ kv, spec_body kv.1 kv.2)) S.
Proof.
  intros [P HR] HA Hn. destruct (ahead_start _ _ _ _ _ HR HA) as [rs Ha]. apply (foreach_loop m n rs); [done|].
  split; [done|by right].
Qed.
End foreach.

(** ** Removing entries while iterating *)

Lemma split_unique m1 k v m2 n1 v' n2 : om_wf (m1 ++ (k, v) :: m2) → m1 ++ (k, v) :: m2 = n1 ++ (k, v') :: n2 →
  m1 = n1 ∧ v = v' ∧ m2 = n2.
Proof.
  intros Hwf E. pose proof Hwf as Hwf'. rewrite E in Hwf'. apply om_wf_split in Hwf as [Hk _].
  apply om_wf_split in Hwf' as [Hk' _]. revert n1 E Hk'. induction m1 as [|[k1 v1] m1 IH]; intros n1 E Hk'.
  - destruct n1 as [|[k1 v1] n1]; simpl in E; [by simplify_eq|]. injection E as <- _ _. destruct Hk'. left.
  - destruct n1 as [|[k2 v2] n1]; simpl in E; injection E as Ek Ev Er; [subst; destruct Hk; left|].
    apply not_elem_of_cons in Hk as [_ Hk]. apply not_elem_of_cons in Hk' as [_ Hk'].
    destruct (IH Hk n1 Er Hk') as (-> & ? & ?). subst. done.
Qed.

Definition remove_if (f : K → V → bool) h k v : HM unit :=
  if f k v then hashmap_remove (Some h) k;; mret tt else mret tt.
Definition spec_remove_if (f : K → V → bool) h k v : AM unit :=
  if f k v then spec_remove h k;; mret tt else mret tt.

Lemma spec_remove_eq S h k m : a_maps S !! h = Some m →
  spec_remove h k S = Ret (om_get m k) (S <| a_maps ::= <[h := om_remove m k]> |>).
Proof. intros HA. unfold spec_remove. by rewrite (a_map_eq _ _ _ _ HA). Qed.
Lemma remove_if_ok f h e rs k v m st S : ahead h (e :: rs) ((k, v) :: m) st S →
  refines_to (ahead h rs m) (remove_if f h k v) st (spec_remove_if f h k v) S.
Proof.
  intros (P & ps1 & m1 & HR & HP & HA & Hl). unfold remove_if, spec_remove_if. destruct (f k v).
  - pose proof (a_wf _ _ _ _ _ HR HA) as Hwf.
    eapply ra_of_wp; [rewrite (bind_ret _ _ S _ _ (spec_remove_eq S h k _ HA)); reflexivity|].
    apply wp_bind. unfold hashmap_remove. apply wp_bind.
    destruct (iter_entry _ _ _ _ _ _ _ _ _ _ HR HP HA Hl) as [He _].
    eapply wp_mono; [eapply lookup_spec; [apply HR|done..]|]. intros o st' [-> Ho]. destruct o as [e'|].
    + destruct Ho as (v' & qs1 & qs2 & n1 & n2 & Eps & Em & Hln & He' & _).
      destruct (split_unique _ _ _ _ _ _ _ Hwf Em) as (<- & <- & <-).
      destruct (app_inj_1 _ _ _ _ (eq_trans Hl (eq_sym Hln)) Eps) as [<- [= <- <-]].
      destruct (vw_entry _ _ _ He) as (b & i & Hb & Hi & _). apply wp_bind. eapply wp_entry_at; [done..|].
      apply wp_bind. eapply wp_mono; [by eapply (remove_R st S P h ps1 e rs m1 k v m)|].
      intros [] st' [HR' _]. cbn. apply wp_ret. split; [done|]. rewrite om_remove_split by done.
      exists (<[h := ps1 ++ rs]> P), ps1, m1. split_and!; [done|apply lookup_insert_eq| |done]. apply lookup_insert_eq.
    + destruct Ho as [Hk _]. destruct Hk. unfold om_keys. rewrite fmap_app, fmap_cons. set_solver.
  - apply ra_ret. exists P, (ps1 ++ [e]), (m1 ++ [(k, v)]). rewrite <- !app_assoc, !length_app. simpl.
    split_and!; [done..|lia].
Qed.

Lemma spec_purge f h m : ∀ m1 S, a_maps S !! h = Some (m1 ++ m) → om_wf (m1 ++ m) →
  for_each m (λ kv, spec_remove_if f h kv.1 kv.2) S =
    Ret tt (S <| a_maps ::= <[h := m1 ++ filter (λ kv, f kv.1 kv.2 = false) m]> |>).
Proof.
  induction m as [|[k v] m IH]; intros m1 S HA Hwf; cbn [for_each].
  { change (filter _ []) with (@nil (K * V)). by rewrite (set_id S h (m1 ++ [])). }
  destruct (f k v) eqn:Ef.
  - rewrite filter_cons_False by (simpl; congruence).
    rewrite (bind_ret _ _ S tt (S <| a_maps ::= <[h := m1 ++ m]> |>)).
    + rewrite (IH m1) by (apply lookup_insert_eq || (unfold om_wf, om_keys in *; rewrite fmap_app in *;
        rewrite fmap_cons in Hwf; rewrite <- Permutation_middle in Hwf; by apply NoDup_cons in Hwf as [_ ?])).
      unfold upd; simpl. by rewrite insert_insert_eq.
    + unfold spec_remove_if. cbn [fst snd]. rewrite Ef. rewrite (bind_ret _ _ S _ _ (spec_remove_eq S h k _ HA)). by rewrite om_remove_split.
  - rewrite filter_cons_True by done. rewrite (bind_ret _ _ S tt S) by (unfold spec_remove_if; cbn [fst snd]; by rewrite Ef).
    specialize (IH (m1 ++ [(k, v)]) S). rewrite <- !app_assoc in IH. by apply IH.
Qed.

(** C23.  The loop over a map whose body removes the entry it is at, for every
    entry that satisfies [f], comes to its end: every entry is visited once, and
    just those that do not satisfy [f] are left, in their order. *)
Theorem foreach_removes f h m n st S : R st S → a_maps S !! h = Some m → length m ≤ n →
  wp (HASHMAP_FOREACH n (Some h) ITERATOR_FIRST (remove_if f h)) st
    (λ _ st', R st' (S <| a_maps ::= <[h := filter (λ kv, f kv.1 kv.2 = false) m]> |>)).
Proof.
  intros HR HA Hn. destruct HR as [P HR].
  pose proof (foreach_refines h (remove_if f h) (spec_remove_if f h) (remove_if_ok f h)
    n st S m (ex_intro _ P HR) HA Hn) as X.
  unfold refines_to in X. rewrite (spec_purge f h m [] S HA (a_wf _ _ _ _ _ HR HA)) in X.
  eapply wp_mono; [exact X|]. by intros [] st' [_ ?].
Qed.

(** *** [hashmap_get_strv] *)
Lemma collect_spec h m : ∀ n rs i st S, length m ≤ n → iter_at i h rs m st S →
  wp (collect n (Some h) i) st (λ l st', st' = st ∧ l = m.*2).
Proof.
  induction m as [|[k v] m IH]; intros n rs i st S Hn Hi; pose proof (ahead_lengths _ _ _ _ _ (proj1 Hi)) as Hl;
    (destruct rs as [|e rs]; [|try done]); try done.
  - destruct n; simpl; wp_step; (eapply wp_mono; [by eapply iterate_spec|]); intros r st' [-> ->]; by apply wp_ret.
  - destruct n as [|n]; [simpl in Hn; lia|]. cbn [collect]. wp_step.
    eapply wp_mono; [by eapply iterate_spec|]. intros r st' [-> ->]. simpl. wp_step.
    eapply wp_mono; [apply (IH n rs _ st S); [simpl in Hn; lia|]|].
    + split; [|by left]. destruct Hi as [(P & ps1 & m1 & HR & HP & HA & Hl1) _].
      exists P, (ps1 ++ [e]), (m1 ++ [(k, v)]). rewrite <- !app_assoc, !length_app. simpl. split_and!; [done..|lia].
    + intros l st' [-> ->]. by apply wp_ret.
Qed.
Lemma get_strv_refines h : refines (hashmap_get_strv h : HM _) (spec_get_strv h).
Proof.
  intros st S [P HR]. apply ra_map. intros m HA. eapply ra_alloc; [done|]. intros ok st' S' HR' Ee Em Ea.
  destruct ok; [|apply ra_ret; by exists P]. cbn [negb]. rewrite <- Ea in HA.
  destruct (ahead_start _ _ _ _ _ HR' HA) as [rs Ha]. pose proof (fuel_enough _ _ _ _ _ HR' HA).
  eapply ra_of_wp; [reflexivity|]. apply wp_bind, wp_gets, wp_bind.
  eapply wp_mono; [eapply (collect_spec h m _ rs _ st' S'); [lia|split; [done|by right]]|].
  intros l st2 [-> ->]. apply wp_ret. split; [done|]. by exists P.
Qed.
End iteration.

(** ** Programs of operations *)

(** The functions a map is made with: equal is what compares equal. *)
Class KeyFuncs (K : Type) := {
  hash_of : K → Z;
  compare_of : K → K → Z;
  compare_zero : ∀ a b, compare_of a b = 0%Z ↔ a = b }.

Lemma string_compare_zero (a b : list Z) : string_compare_func a b = 0%Z ↔ a = b.
Proof.
  revert b. induction a as [|x a IH]; intros [|y b]; simpl; try done.
  repeat case_bool_decide; try (split; [done|intros [= -> _]; lia]).
  rewrite IH. split; [intros ->; f_equal; lia|by intros [= _ ->]].
Qed.
#[export] Instance string_keys : KeyFuncs (list Z) :=
  {| hash_of := string_hash_func; compare_of := string_compare_func; compare_zero := string_compare_zero |}.
Lemma trivial_compare_zero (a b : Z) : trivial_compare_func a b = 0%Z ↔ a = b.
Proof. unfold trivial_compare_func. repeat case_bool_decide; split; intros; subst; lia. Qed.
#[export] Instance trivial_keys : KeyFuncs Z :=
  {| hash_of := trivial_hash_func; compare_of := trivial_compare_func; compare_zero := trivial_compare_zero |}.

Section programs.
Context {K V : Type} `{EqDecision K, EqDecision V, KeyFuncs K}.
Abbreviation HM := (M (HStore K V)).
Abbreviation AM := (M (AStore K V)).
Implicit Types (st : HStore K V) (S : AStore K V).

Inductive hop :=
  | NEW | ENSURE_ALLOCATED (h : option nat)
  | PUT (h : nat) (k : K) (v : V) | REPLACE (h : nat) (k : K) (v : V)
  | GET (h : option nat) (k : K) | REMOVE (h : option nat) (k : K) | REMOVE_VALUE (h : option nat) (k : K) (v : V)
  | REMOVE_AND_PUT (h : option nat) (k k' : K) (v : V) | REMOVE_AND_REPLACE (h : option nat) (k k' : K) (v : V)
  | FIRST (h : option nat) | LAST (h : option nat) | STEAL_FIRST (h : option nat) | STEAL_FIRST_KEY (h : option nat)
  | SIZE (h : option nat) | ISEMPTY (h : option nat) | CLEAR (h : option nat) | FREE (h : option nat)
  | MERGE (h : nat) (o : option nat) | MOVE (h : nat) (o : option nat) | MOVE_ONE (h : nat) (o : option nat) (k : K)
  | COPY (h : nat) | GET_STRV (h : nat).
Inductive hres :=
  | RUnit | RInt (z : Z) | RBool (b : bool) | RMap (h : option nat) | RErrMap (r : Z * option nat)
  | RKey (k : option K) | RVal (v : option V) | RVals (l : option (list V)).

(** A client: what it calls next depends on what it got. *)
Inductive client := Stop | Call (op : hop) (rest : hres → client).

Definition run_op (op : hop) : HM hres :=
  match op with
  | NEW => RMap <$> hashmap_new hash_of compare_of
  | ENSURE_ALLOCATED h => RErrMap <$> hashmap_ensure_allocated h hash_of compare_of
  | PUT h k v => RInt <$> hashmap_put h k v
  | REPLACE h k v => RInt <$> hashmap_replace h k v
  | GET h k => RVal <$> hashmap_get h k
  | REMOVE h k => RVal <$> hashmap_remove h k
  | REMOVE_VALUE h k v => RVal <$> hashmap_remove_value h k v
  | REMOVE_AND_PUT h k k' v => RInt <$> hashmap_remove_and_put h k k' v
  | REMOVE_AND_REPLACE h k k' v => RInt <$> hashmap_remove_and_replace h k k' v
  | FIRST h => RVal <$> hashmap_first h
  | LAST h => RVal <$> hashmap_last h
  | STEAL_FIRST h => RVal <$> hashmap_steal_first h
  | STEAL_FIRST_KEY h => RKey <$> hashmap_steal_first_key h
  | SIZE h => RInt <$> hashmap_size h
  | ISEMPTY h => RBool <$> hashmap_isempty h
  | CLEAR h => (λ _, RUnit) <$> hashmap_clear h
  | FREE h => (λ _, RUnit) <$> hashmap_free h
  | MERGE h o => RInt <$> hashmap_merge h o
  | MOVE h o => (λ _, RUnit) <$> hashmap_move h o
  | MOVE_ONE h o k => RInt <$> hashmap_move_one h o k
  | COPY h => RMap <$> hashmap_copy h
  | GET_STRV h => RVals <$> (hashmap_get_strv h : HM _)
  end.
Definition spec_op (op : hop) : AM hres :=
  match op with
  | NEW => RMap <$> spec_new
  | ENSURE_ALLOCATED (Some h) => RErrMap <$> mret (0%Z, Some h)
  | ENSURE_ALLOCATED None => RErrMap <$>
      (h ← spec_new; mret (match h with None => ((- ENOMEM)%Z, None) | Some h => (0%Z, Some h) end))
  | PUT h k v => RInt <$> spec_put h k v
  | REPLACE h k v => RInt <$> spec_replace h k v
  | GET h k => RVal <$> or_null h None (λ h, m ← a_map h; mret (om_get m k))
  | REMOVE h k => RVal <$> or_null h None (λ h, spec_remove h k)
  | REMOVE_VALUE h k v => RVal <$> or_null h None (λ h, spec_remove_value h k v)
  | REMOVE_AND_PUT h k k' v => RInt <$> or_null h (- ENOENT)%Z (λ h, spec_remove_and_put h k k' v)
  | REMOVE_AND_REPLACE h k k' v => RInt <$> or_null h (- ENOENT)%Z (λ h, spec_remove_and_replace h k k' v)
  | FIRST h => RVal <$> or_null h None (λ h, m ← a_map h; mret (snd <$> head m))
  | LAST h => RVal <$> or_null h None (λ h, m ← a_map h; mret (snd <$> last m))
  | STEAL_FIRST h => RVal <$> (o ← or_null h None spec_steal; mret (snd <$> o))
  | STEAL_FIRST_KEY h => RKey <$> (o ← or_null h None spec_steal; mret (fst <$> o))
  | SIZE h => RInt <$> or_null h 0%Z (λ h, m ← a_map h; mret (Z.of_nat (length m)))
  | ISEMPTY h => RBool <$> or_null h true (λ h, m ← a_map h; mret (bool_decide (m = [])))
  | CLEAR h => (λ _, RUnit) <$> or_null h tt (λ h, a_map h;; a_set h [])
  | FREE h => (λ _, RUnit) <$> or_null h tt spec_free
  | MERGE h o => RInt <$> or_null o 0%Z (spec_merge h)
  | MOVE h o => (λ _, RUnit) <$> or_null o tt (spec_move h)
  | MOVE_ONE h o k => RInt <$> or_null o 0%Z (λ o, spec_move_one h o k)
  | COPY h => RMap <$> spec_copy h
  | GET_STRV h => RVals <$> spec_get_strv h
  end.

(** What the calls return, in order. *)
Fixpoint run (c : client) : HM (list hres) :=
  match c with
  | Stop => mret []
  | Call op rest => r ← run_op op; l ← run (rest r); mret (r :: l)
  end.
Fixpoint spec_run (c : client) : AM (list hres) :=
  match c with
  | Stop => mret []
  | Call op rest => r ← spec_op op; l ← spec_run (rest r); mret (r :: l)
  end.
Definition empty_store (n : nat) (oom : list bool) : HStore K V := mkHStore ∅ ∅ n oom.
Definition empty_spec (n : nat) (oom : list bool) : AStore K V := mkAStore ∅ oom n.

Lemma ra_fmap {A B} (f : A → B) (c : HM A) (a : AM A) : refines c a → refines (f <$> c) (f <$> a).
Proof. intros Hc st S HR. apply ra_bind; [by apply Hc|]. intros r ???. by apply ra_ret. Qed.
Lemma op_refines op : refines (run_op op) (spec_op op).
Proof.
  destruct op; simpl.
  - by apply ra_fmap, new_refines, compare_zero.
  - pose proof (ensure_allocated_refines (V := V) h hash_of compare_of compare_zero) as X.
    destruct h; by apply ra_fmap.
  - apply ra_fmap, put_refines.
  - apply ra_fmap, replace_refines.
  - apply ra_fmap, get_refines.
  - apply ra_fmap, remove_refines.
  - apply ra_fmap, remove_value_refines.
  - apply ra_fmap, remove_and_put_refines.
  - apply ra_fmap, remove_and_replace_refines.
  - apply ra_fmap, first_refines.
  - apply ra_fmap, last_refines.
  - apply ra_fmap, steal_first_refines.
  - apply ra_fmap, steal_first_key_refines.
  - apply ra_fmap, size_refines.
  - apply ra_fmap, isempty_refines.
  - apply ra_fmap, clear_refines.
  - apply ra_fmap, free_refines.
  - apply ra_fmap, merge_refines.
  - apply ra_fmap, move_refines.
  - apply ra_fmap, move_one_refines.
  - apply ra_fmap, copy_refines.
  - apply ra_fmap, get_strv_refines.
Qed.
Lemma run_refines c : refines (run c) (spec_run c).
Proof.
  induction c as [|op rest IH]; intros st S HR; [by apply ra_ret|]. simpl.
  apply ra_bind; [by apply op_refines|]. intros r st1 S1 HR1. apply ra_bind; [by apply IH|].
  intros l ???. by apply ra_ret.
Qed.
Lemma empty_R n oom : R (empty_store n oom) (empty_spec n oom).
Proof.
  exists ∅. split; [|done..]. split; cbn; try done.
  intros p. by intros [].
Qed.

(** When there are no maps, there are no entries either. *)
Lemma R_no_leak st S : R st S → a_maps S = ∅ → entries st = ∅ ∧ maps st = ∅.
Proof.
  intros [P [HI _ _]] E. rewrite E in HI. split; apply map_eq; intros p; rewrite lookup_empty.
  - destruct (entries st !! p) as [x|] eqn:Ep; [|done].
    destruct (iv_owned _ _ _ _ HI p) as [?|(h & ps & HP & _)]; [|done|].
    + cbn. rewrite lookup_fmap, Ep. done.
    + pose proof (proj2 (iv_owners _ _ _ _ HI h) (lookup_empty h)). congruence.
  - apply (iv_maps _ _ _ _ HI p). apply lookup_empty.
Qed.

(** C22.  src/hashmap.c implements ordered maps: whatever a client calls, and
    however it chooses the next call by what it got, if the maps it names
    exist and none grows to 2^32 entries, then every call returns, with the
    result the ordered maps give, failures of allocation included; and when the
    client has freed its maps, no entry is left. *)
Theorem hashmap_refines (c : client) n oom results S' :
  spec_run c (empty_spec n oom) = Ret results S' →
  ∃ st', run c (empty_store n oom) = Ret results st' ∧ R st' S' ∧
    (a_maps S' = ∅ → entries st' = ∅ ∧ maps st' = ∅).
Proof.
  intros E. pose proof (run_refines c _ _ (empty_R n oom)) as Hr. unfold refines_to in Hr. rewrite E in Hr.
  apply wp_elim in Hr as (r & st' & Er & -> & HR). exists st'. split_and!; [done|done|]. by apply R_no_leak.
Qed.
End programs.

(** Two keys of one bucket, a key that is replaced, a second map, an
    allocation that fails. *)
Section examples.
Definition demo_client : client (K := list Z) (V := Z) :=
  let a := [97%Z] in let b := [98%Z] in let z := [97%Z; 0%Z; 97%Z] in
  Call NEW (λ r, match r with
  | RMap (Some h) =>
      Call (PUT h a 1%Z) (λ _, Call (PUT h b 2%Z) (λ _, Call (PUT h a 3%Z) (λ _, Call (REPLACE h a 3%Z) (λ _,
      Call (COPY h) (λ r, match r with
      | RMap (Some g) =>
          Call (REMOVE_AND_REPLACE (Some g) a b 4%Z) (λ _, Call (GET_STRV g) (λ _, Call (MOVE h (Some g)) (λ _,
          Call (PUT g z 5%Z) (λ _, Call (PUT g z 5%Z) (λ _, Call (MERGE g (Some h)) (λ _,
          Call (GET_STRV g) (λ _, Call (FREE (Some h)) (λ _, Call (FREE (Some g)) (λ _, Stop)))))))))
      | _ => Stop
      end)))))
  | _ => Stop
  end).
Lemma hashmap_refines_witness :
  ∃ st', run demo_client (empty_store 7 [true; true; true; true; true; true; true; false]) =
    Ret [RMap (Some 7); RInt 1; RInt 1; RInt (- EEXIST); RInt 0; RMap (Some 10); RInt 0; RVals (Some [4%Z]); RUnit;
      RInt (- ENOMEM); RInt 1; RInt 0; RVals (Some [4; 5; 3]%Z); RUnit; RUnit] st' ∧ entries st' = ∅ ∧ maps st' = ∅.
Proof.
  destruct (hashmap_refines demo_client 7 [true; true; true; true; true; true; true; false]
    [RMap (Some 7); RInt 1; RInt 1; RInt (- EEXIST); RInt 0; RMap (Some 10); RInt 0; RVals (Some [4%Z]); RUnit;
      RInt (- ENOMEM); RInt 1; RInt 0; RVals (Some [4; 5; 3]%Z); RUnit; RUnit] (mkAStore ∅ [] 15))
    as (st' & E & _ & Hend); [vm_compute; reflexivity|].
  exists st'. split; [exact E|apply Hend; reflexivity].
Defined.

Definition demo_pairs : client (K := Z) (V := Z) :=
  Call NEW (λ _, Call (PUT 1 10%Z 1%Z) (λ _, Call (PUT 1 137%Z 2%Z) (λ _, Call (PUT 1 11%Z 3%Z) (λ _,
    Call (PUT 1 264%Z 4%Z) (λ _, Stop))))).
Definition demo_store : HStore Z Z :=
  match run demo_pairs (empty_store 1 []) with Ret _ st => st | _ => empty_store 1 [] end.
Definition demo_contents : AStore Z Z := mkAStore {[1 := [(10, 1); (137, 2); (11, 3); (264, 4)]%Z]} [] 6.
Lemma demo_pairs_spec :
  spec_run demo_pairs (empty_spec 1 []) = Ret [RMap (Some 1); RInt 1; RInt 1; RInt 1; RInt 1] demo_contents.
Proof. vm_compute. reflexivity. Qed.
Lemma foreach_removes_witness :
  wp (HASHMAP_FOREACH 4 (Some 1) ITERATOR_FIRST (remove_if (λ k _, bool_decide (k < 200)%Z) 1)) demo_store
    (λ _ st', R st' (mkAStore {[1 := [(264, 4)%Z]]} [] 6)).
Proof.
  assert (R demo_store demo_contents) as HR.
  { pose proof (run_refines demo_pairs _ _ (empty_R 1 [])) as Hr. unfold refines_to in Hr.
    rewrite demo_pairs_spec in Hr. apply wp_elim in Hr as (r & st' & Er & -> & HR). unfold demo_store. by rewrite Er. }
  eapply wp_mono.
  - apply (foreach_removes (λ k _, bool_decide (k < 200)%Z) 1 [(10, 1); (137, 2); (11, 3); (264, 4)]%Z 4 demo_store
      demo_contents HR); [reflexivity|simpl; lia].
  - intros [] st' HR'. exact HR'.
Defined.
End examples.
