(* ===== verification/Engine.v ===== *)
(** * The state of the engine (src/manager.h, src/unit.h, src/job.h)

    The objects the manager links together live in three heaps, keyed by
    pointers: units, jobs, and the dependency links of a transaction.
    Intrusive lists ([LIST_FIELDS]) are lists of pointers; the hash maps
    [m->units], [m->jobs] and [m->transaction_jobs] are ordered maps
    (OrderedMap.v).  In [transaction_jobs] the value for a unit is the whole
    chain of its jobs, [j], [j->transaction_next], ...

    The type-specific part of a unit is the type parameter [P]; what the
    engine asks of it is the class [UnitVTable], the [UnitVTable] struct of
    src/unit.h.  Reading through a pointer that is not in its heap is a
    [Fault].  Allocations that the code checks draw on the oracle [oom]; [now]
    and [dual_timestamp_get] read the clocks; [asked] counts what was asked of the system (World.v). *)

From stdpp Require Import base gmap strings list fin_maps.
From Stdlib Require Import ZArith Lia.
From S2P Require Import Prelude CString JobType OrderedMap.

Abbreviation UnitPtr := nat (only parsing).
Abbreviation JobPtr := nat (only parsing).
Abbreviation DepPtr := nat (only parsing).

(** [subject] is [None] for the anchor, the job the user asked for. *)
Record JobDependency := mkJobDependency {
  subject : option JobPtr;
  object : JobPtr;
  matters : bool;
  conflicts : bool }.

Record Job := mkJob {
  j_unit : UnitPtr;
  subject_list : list DepPtr;
  object_list : list DepPtr;
  marker : option JobPtr;
  generation : Z;
  j_id : Z;
  j_type : JobType;
  j_state : JobState;
  timer_watch : bool;
  j_result : JobResult;
  installed : bool;
  in_run_queue : bool;
  matters_to_anchor : bool;
  override : bool;
  in_dbus_queue : bool;
  ignore_order : bool }.

#[export] Instance Job_rebuild : Rebuild Job := λ j,
  mkJob (j_unit j) (subject_list j) (object_list j) (marker j) (generation j) (j_id j)
    (j_type j) (j_state j) (timer_watch j) (j_result j) (installed j) (in_run_queue j)
    (matters_to_anchor j) (override j) (in_dbus_queue j) (ignore_order j).

(** [dual_timestamp] of src/util.h *)
Record DualTimestamp := mkDual { realtime : Z; monotonic : Z }.
Definition no_timestamp : DualTimestamp := mkDual 0 0.
Definition dual_timestamp_is_set (t : DualTimestamp) : bool := bool_decide (0 < realtime t)%Z.

Record Unit (P : Type) := mkUnit {
  u_type : option UnitType;
  load_state : UnitLoadState;
  merged_into : option UnitPtr;
  u_id : string;
  u_instance : option string;
  names : list string;
  dependencies : UnitDependency → list UnitPtr;
  u_job : option JobPtr;
  job_timeout : Z;
  condition_result : bool;
  condition_timestamp : DualTimestamp;
  inactive_exit_timestamp : DualTimestamp;
  active_enter_timestamp : DualTimestamp;
  active_exit_timestamp : DualTimestamp;
  inactive_enter_timestamp : DualTimestamp;
  deserialized_job : option JobType;
  gc_marker : Z;
  load_error : Z;
  stop_when_unneeded : bool;
  default_dependencies : bool;
  allow_isolate : bool;
  on_failure_isolate : bool;
  ignore_on_isolate : bool;
  in_load_queue : bool;
  u_in_dbus_queue : bool;
  in_cleanup_queue : bool;
  in_gc_queue : bool;
  sent_dbus_new_signal : bool;
  u_no_gc : bool;
  in_audit : bool;
  description : option string;
  fragment_path : option string;
  priv : P }.
Arguments mkUnit {P}.
Arguments u_type {P}. Arguments load_state {P}. Arguments merged_into {P}.
Arguments u_id {P}. Arguments u_instance {P}. Arguments names {P}.
Arguments dependencies {P}. Arguments u_job {P}. Arguments job_timeout {P}.
Arguments condition_result {P}. Arguments condition_timestamp {P}. Arguments deserialized_job {P}.
Arguments inactive_exit_timestamp {P}.
Arguments active_enter_timestamp {P}. Arguments active_exit_timestamp {P}.
Arguments inactive_enter_timestamp {P}. Arguments gc_marker {P}. Arguments load_error {P}.
Arguments stop_when_unneeded {P}. Arguments default_dependencies {P}.
Arguments allow_isolate {P}. Arguments on_failure_isolate {P}.
Arguments ignore_on_isolate {P}. Arguments in_load_queue {P}.
Arguments u_in_dbus_queue {P}. Arguments in_cleanup_queue {P}. Arguments in_gc_queue {P}.
Arguments sent_dbus_new_signal {P}. Arguments u_no_gc {P}. Arguments in_audit {P}.
Arguments description {P}. Arguments fragment_path {P}. Arguments priv {P}.

#[export] Instance Unit_rebuild {P} : Rebuild (Unit P) := λ u,
  mkUnit (u_type u) (load_state u) (merged_into u) (u_id u) (u_instance u) (names u)
    (dependencies u) (u_job u) (job_timeout u) (condition_result u)
    (condition_timestamp u) (inactive_exit_timestamp u) (active_enter_timestamp u) (active_exit_timestamp u)
    (inactive_enter_timestamp u) (deserialized_job u) (gc_marker u) (load_error u) (stop_when_unneeded u)
    (default_dependencies u) (allow_isolate u) (on_failure_isolate u)
    (ignore_on_isolate u) (in_load_queue u) (u_in_dbus_queue u) (in_cleanup_queue u)
    (in_gc_queue u) (sent_dbus_new_signal u) (u_no_gc u) (in_audit u) (description u)
    (fragment_path u) (priv u).

Record Manager (P : Type) := mkManager {
  units : gmap UnitPtr (Unit P);
  unit_names : list (string * UnitPtr);
  job_heap : gmap JobPtr Job;
  dep_heap : gmap DepPtr JobDependency;
  jobs : list (Z * JobPtr);
  transaction_jobs : list (UnitPtr * list JobPtr);
  transaction_anchor : list DepPtr;
  load_queue : list UnitPtr;
  run_queue : list JobPtr;
  dbus_unit_queue : list UnitPtr;
  dbus_job_queue : list JobPtr;
  cleanup_queue : list UnitPtr;
  gc_queue : list UnitPtr;
  n_in_gc_queue : Z;
  gc_queue_timestamp : Z;
  m_gc_marker : Z;
  current_job_id : Z;
  n_installed_jobs : Z;
  n_failed_jobs : Z;
  n_reloading : Z;
  taint_usr : bool;
  initrd_timestamp : DualTimestamp;
  startup_timestamp : DualTimestamp;
  finish_timestamp : DualTimestamp;
  dispatching_run_queue : bool;
  dispatching_load_queue : bool;
  has_subscriber : bool;
  next_ptr : nat;
  watch_pids : list (Z * UnitPtr);
  asked : nat;
  oom : list bool;
  wall_clock : Z;
  clock : Z }.
Arguments mkManager {P}.
Arguments units {P}. Arguments unit_names {P}. Arguments job_heap {P}.
Arguments dep_heap {P}. Arguments jobs {P}. Arguments transaction_jobs {P}.
Arguments transaction_anchor {P}. Arguments load_queue {P}. Arguments run_queue {P}.
Arguments dbus_unit_queue {P}. Arguments dbus_job_queue {P}. Arguments cleanup_queue {P}.
Arguments gc_queue {P}. Arguments n_in_gc_queue {P}. Arguments gc_queue_timestamp {P}.
Arguments m_gc_marker {P}. Arguments current_job_id {P}. Arguments n_installed_jobs {P}.
Arguments n_failed_jobs {P}. Arguments n_reloading {P}. Arguments taint_usr {P}. Arguments initrd_timestamp {P}. Arguments startup_timestamp {P}.
Arguments finish_timestamp {P}.
Arguments dispatching_run_queue {P}. Arguments dispatching_load_queue {P}.
Arguments has_subscriber {P}. Arguments next_ptr {P}.
Arguments watch_pids {P}. Arguments asked {P}. Arguments oom {P}. Arguments wall_clock {P}.
Arguments clock {P}.

#[export] Instance Manager_rebuild {P} : Rebuild (Manager P) := λ m,
  mkManager (units m) (unit_names m) (job_heap m) (dep_heap m) (jobs m)
    (transaction_jobs m) (transaction_anchor m) (load_queue m) (run_queue m)
    (dbus_unit_queue m) (dbus_job_queue m) (cleanup_queue m) (gc_queue m)
    (n_in_gc_queue m) (gc_queue_timestamp m) (m_gc_marker m) (current_job_id m)
    (n_installed_jobs m) (n_failed_jobs m) (n_reloading m) (taint_usr m)
    (initrd_timestamp m) (startup_timestamp m) (finish_timestamp m)
    (dispatching_run_queue m) (dispatching_load_queue m) (has_subscriber m) (next_ptr m)
    (watch_pids m) (asked m) (oom m) (wall_clock m) (clock m).

(** What a unit type provides.  A slot that may be NULL is a boolean that
    says whether it is there, next to the operation. *)
Class UnitVTable (P : Type) := {
  vt_active_state : Unit P → UnitActiveState;
  vt_has_start : Unit P → bool;
  vt_start : UnitPtr → M (Manager P) Z;
  vt_has_stop : Unit P → bool;
  vt_stop : UnitPtr → M (Manager P) Z;
  vt_has_reload : Unit P → bool;
  vt_reload : UnitPtr → M (Manager P) Z;
  vt_can_reload : Unit P → bool;
  vt_no_gc : Unit P → bool;
  vt_check_gc : Unit P → bool;
  vt_following : Manager P → UnitPtr → option UnitPtr;
  vt_following_set : Manager P → UnitPtr → list UnitPtr;
  (** [timer_unit_notify] and [path_unit_notify] *)
  vt_state_changed : UnitPtr → UnitActiveState → M (Manager P) unit;
  (** [condition_test_list] on the unit's conditions (src/condition.c) *)
  vt_conditions_hold : Manager P → UnitPtr → bool }.

Section engine.
Context {P : Type}.
Abbreviation MM := (M (Manager P)).

(** ** Access to the heaps *)

Definition unit_at (u : UnitPtr) : MM (Unit P) := λ m, deref (units m !! u) m.
Definition job_at (j : JobPtr) : MM Job := λ m, deref (job_heap m !! j) m.
Definition dep_at (d : DepPtr) : MM JobDependency := λ m, deref (dep_heap m !! d) m.

Definition update_unit (u : UnitPtr) (f : Unit P → Unit P) : MM unit :=
  U ← unit_at u; modify (λ m, m <| units ::= <[u := f U]> |>).
Definition update_job (j : JobPtr) (f : Job → Job) : MM unit :=
  J ← job_at j; modify (λ m, m <| job_heap ::= <[j := f J]> |>).

(** [malloc] and the pools of the hash maps *)
Definition alloc : MM bool := λ m,
  match oom m with [] => Ret true m | b :: l => Ret b (m <| oom := l |>) end.
Definition fresh : MM nat := λ m, Ret (next_ptr m) (m <| next_ptr ::= S |>).
(** [now(CLOCK_MONOTONIC)] *)
Definition now : MM Z := gets clock.
Definition dual_timestamp_get : MM DualTimestamp := gets (λ m, mkDual (wall_clock m) (clock m)).

(** [LIST_REMOVE] on a list that holds the item once *)
Definition list_remove (x : nat) (l : list nat) : list nat := filter (λ y, y ≠ x) l.

(** ** Jobs and links (src/job.c) *)

Definition job_new (type : JobType) (u : UnitPtr) : MM (option JobPtr) :=
  ok ← alloc;
  if negb ok then mret None else
  id ← gets current_job_id;
  modify (λ m, m <| current_job_id := u32 (id + 1) |>);;
  j ← fresh;
  modify (λ m, m <| job_heap ::= <[j := {|
    j_unit := u; subject_list := []; object_list := []; marker := None; generation := 0;
    j_id := id; j_type := type; j_state := JOB_WAITING; timer_watch := false;
    j_result := JOB_DONE; installed := false; in_run_queue := false;
    matters_to_anchor := false; override := false; in_dbus_queue := false;
    ignore_order := false |}]> |>);;
  mret (Some j).

Definition job_dependency_new (subj : option JobPtr) (obj : JobPtr) (matters conflicts : bool)
    : MM (option DepPtr) :=
  ok ← alloc;
  if negb ok then mret None else
  d ← fresh;
  modify (λ m, m <| dep_heap ::= <[d := mkJobDependency subj obj matters conflicts]> |>);;
  match subj with
  | Some s => update_job s (λ J, J <| subject_list ::= cons d |>)
  | None => modify (λ m, m <| transaction_anchor ::= cons d |>)
  end;;
  update_job obj (λ J, J <| object_list ::= cons d |>);;
  mret (Some d).

Definition job_dependency_free (d : DepPtr) : MM unit :=
  l ← dep_at d;
  match subject l with
  | Some s => update_job s (λ J, J <| subject_list ::= list_remove d |>)
  | None => modify (λ m, m <| transaction_anchor ::= list_remove d |>)
  end;;
  update_job (object l) (λ J, J <| object_list ::= list_remove d |>);;
  modify (λ m, m <| dep_heap ::= delete d |>).

(** [LIST_FOREACH] with a test that only reads: is there an item? *)
Fixpoint any {A} (l : list A) (test : A → MM bool) : MM bool :=
  match l with
  | [] => mret false
  | x :: l' => b ← test x; if b : bool then mret true else any l' test
  end.

Definition job_is_anchor (j : JobPtr) : MM bool :=
  J ← job_at j;
  any (object_list J) (λ d, l ← dep_at d; mret (bool_decide (subject l = None))).

Definition job_is_conflicted_by (j : JobPtr) : MM bool :=
  J ← job_at j;
  any (object_list J) (λ d, l ← dep_at d; mret (conflicts l)).

Definition job_add_to_run_queue (j : JobPtr) : MM unit :=
  J ← job_at j;
  assert_ (installed J);;
  if in_run_queue J then mret tt else
  modify (λ m, m <| run_queue ::= cons j |>);;
  update_job j (λ J, J <| in_run_queue := true |>).

Definition job_add_to_dbus_queue (j : JobPtr) : MM unit :=
  J ← job_at j;
  assert_ (installed J);;
  if in_dbus_queue J then mret tt else
  modify (λ m, m <| dbus_job_queue ::= cons j |>);;
  update_job j (λ J, J <| in_dbus_queue := true |>).

(** The timer is armed unless the unit has no timeout; creating the timer
    descriptor may fail, which the callers ignore. *)
Definition job_start_timer (j : JobPtr) : MM unit :=
  J ← job_at j;
  U ← unit_at (j_unit J);
  if bool_decide (job_timeout U ≤ 0)%Z || timer_watch J then mret tt else
  ok ← alloc;
  when ok (update_job j (λ J, J <| timer_watch := true |>)).

(** ** Units (src/unit.c) *)

Fixpoint follow_merge (us : gmap UnitPtr (Unit P)) (fuel : nat) (u : UnitPtr) : option UnitPtr :=
  match fuel with
  | O => None
  | S n =>
      U ← us !! u;
      if bool_decide (load_state U = UNIT_MERGED) then v ← merged_into U; follow_merge us n v
      else Some u
  end.
(** A chain of merges visits every unit at most once. *)
Definition unit_follow_merge (u : UnitPtr) : MM UnitPtr :=
  λ m, deref (follow_merge (units m) (S (size (units m))) u) m.

Context `{UnitVTable P}.

Definition active_state_in (us : gmap UnitPtr (Unit P)) (u : UnitPtr) : option UnitActiveState :=
  v ← follow_merge us (S (size us)) u;
  V ← us !! v;
  Some (vt_active_state V).
Definition unit_active_state (u : UnitPtr) : MM UnitActiveState :=
  λ m, deref (active_state_in (units m) u) m.

Definition unit_can_start (U : Unit P) : bool := vt_has_start U.
Definition unit_can_isolate (U : Unit P) : bool := unit_can_start U && allow_isolate U.
Definition unit_can_reload (U : Unit P) : bool :=
  if negb (vt_has_reload U) then false else vt_can_reload U.

Definition unit_job_is_applicable (U : Unit P) (j : JobType) : bool :=
  match j with
  | JOB_VERIFY_ACTIVE | JOB_START | JOB_STOP => true
  | JOB_RESTART | JOB_TRY_RESTART => unit_can_start U
  | JOB_RELOAD => unit_can_reload U
  | JOB_RELOAD_OR_START => unit_can_reload U && unit_can_start U
  end.

Definition unit_check_gc (u : UnitPtr) : MM bool :=
  U ← unit_at u;
  if bool_decide (load_state U = UNIT_STUB) then mret true
  else if vt_no_gc U then mret true
  else if u_no_gc U then mret true
  else if bool_decide (u_job U ≠ None) then mret true
  else s ← unit_active_state u;
       if bool_decide (s ≠ UNIT_INACTIVE) then mret true
       else mret (vt_check_gc U).

Definition unit_add_to_gc_queue (u : UnitPtr) : MM unit :=
  U ← unit_at u;
  if in_gc_queue U || in_cleanup_queue U then mret tt else
  g ← unit_check_gc u;
  if g : bool then mret tt else
  modify (λ m, m <| gc_queue ::= cons u |>);;
  update_unit u (λ U, U <| in_gc_queue := true |>);;
  modify (λ m, m <| n_in_gc_queue ::= Z.add 1 |>);;
  t ← gets gc_queue_timestamp;
  when (bool_decide (t ≤ 0)%Z)
    (c ← now; modify (λ m, m <| gc_queue_timestamp := c |>)).

Definition unit_add_to_cleanup_queue (u : UnitPtr) : MM unit :=
  U ← unit_at u;
  if in_cleanup_queue U then mret tt else
  modify (λ m, m <| cleanup_queue ::= cons u |>);;
  update_unit u (λ U, U <| in_cleanup_queue := true |>).

Definition unit_add_to_load_queue (u : UnitPtr) : MM unit :=
  U ← unit_at u;
  assert_ (bool_decide (u_type U ≠ None));;
  if bool_decide (load_state U ≠ UNIT_STUB) || in_load_queue U then mret tt else
  modify (λ m, m <| load_queue ::= cons u |>);;
  update_unit u (λ U, U <| in_load_queue := true |>).

Definition unit_add_to_dbus_queue (u : UnitPtr) : MM unit :=
  U ← unit_at u;
  assert_ (bool_decide (u_type U ≠ None));;
  if bool_decide (load_state U = UNIT_STUB) || u_in_dbus_queue U then mret tt else
  s ← gets has_subscriber;
  if negb s then update_unit u (λ U, U <| sent_dbus_new_signal := true |>) else
  modify (λ m, m <| dbus_unit_queue ::= cons u |>);;
  update_unit u (λ U, U <| u_in_dbus_queue := true |>).

Definition unit_pending_inactive (u : UnitPtr) : MM bool :=
  s ← unit_active_state u;
  if UNIT_IS_INACTIVE_OR_DEACTIVATING s then mret true else
  U ← unit_at u;
  match u_job U with
  | Some j => J ← job_at j; mret (bool_decide (j_type J = JOB_STOP))
  | None => mret false
  end.

Definition unit_pending_active (u : UnitPtr) : MM bool :=
  s ← unit_active_state u;
  if UNIT_IS_ACTIVE_OR_ACTIVATING s then mret true else
  U ← unit_at u;
  match u_job U with
  | Some j => J ← job_at j;
      mret (bool_decide (j_type J = JOB_START) || bool_decide (j_type J = JOB_RELOAD_OR_START)
            || bool_decide (j_type J = JOB_RESTART))
  | None => mret false
  end.
End engine.
