(* ===== verification/Transaction.v ===== *)
(** * Building and checking a transaction (src/manager.c)

    A transaction is the set of jobs [m->transaction_jobs] with the
    dependency links between them.  This file has the operations that delete
    from it, the passes over it (what matters to the anchor, minimal impact,
    redundant jobs, garbage, merging).  Recursion and loops take a fuel
    argument; the wrappers without the suffix [_rec] compute one from the
    state, which Wf.v, Passes.v, Matter.v and Merge.v show to be enough. *)

From stdpp Require Import base gmap strings list fin_maps.
From Stdlib Require Import ZArith Lia.
From S2P Require Import Prelude CString JobType OrderedMap Engine.

Section transaction.
Context {P : Type} `{UnitVTable P}.
Abbreviation MM := (M (Manager P)).

(** ** Deleting *)

(** The chain of a unit without [j]; the last job takes the entry along. *)
Definition chain_unlink (u : UnitPtr) (j : JobPtr) (tj : list (UnitPtr * list JobPtr)) :=
  match om_get tj u with
  | None => tj
  | Some l =>
      if decide (j ∈ l) then
        match list_remove j l with
        | [] => om_remove tj u
        | l' => om_replace tj u l'
        end
      else tj
  end.

Definition list_head (l : list nat) : option nat := head l.

(** [manager_transaction_unlink_job], with the recursive
    [transaction_delete_job] as an argument. *)
Definition unlink_job_with (del : JobPtr → bool → MM unit) (n : nat)
    (j : JobPtr) (delete_dependencies : bool) : MM unit :=
  J ← job_at j;
  modify (λ m, m <| transaction_jobs ::= chain_unlink (j_unit J) j |>);;
  while_some n (J ← job_at j; mret (list_head (subject_list J))) job_dependency_free;;
  while_some n (J ← job_at j; mret (list_head (object_list J))) (λ d,
    l ← dep_at d;
    let other := if matters l then subject l else None in
    job_dependency_free d;;
    match other with
    | Some o => when delete_dependencies (del o delete_dependencies)
    | None => mret tt
    end).

Definition job_free_with (del : JobPtr → bool → MM unit) (n : nat) (j : JobPtr) : MM unit :=
  J ← job_at j;
  when (installed J) (
    U ← unit_at (j_unit J);
    when (bool_decide (u_job U = Some j)) (
      update_unit (j_unit J) (λ U, U <| u_job := None |>);;
      unit_add_to_gc_queue (j_unit J));;
    modify (λ m, m <| jobs ::= λ l, om_remove l (j_id J) |>);;
    update_job j (λ J, J <| installed := false |>));;
  unlink_job_with del n j true;;
  J ← job_at j;
  when (in_run_queue J) (modify (λ m, m <| run_queue ::= list_remove j |>));;
  when (in_dbus_queue J) (modify (λ m, m <| dbus_job_queue ::= list_remove j |>));;
  modify (λ m, m <| job_heap ::= delete j |>).

Fixpoint transaction_delete_job_rec (n : nat) (j : JobPtr) (delete_dependencies : bool)
    : MM unit :=
  match n with
  | O => nofuel
  | S n' =>
      unlink_job_with (transaction_delete_job_rec n') n' j delete_dependencies;;
      J ← job_at j;
      when (negb (installed J)) (job_free_with (transaction_delete_job_rec n') n' j)
  end.

(** Every level of the recursion and every round of a loop frees a link. *)
Definition delete_fuel : MM nat := gets (λ m, S (S (size (dep_heap m)))).

Definition manager_transaction_unlink_job (j : JobPtr) (delete_dependencies : bool) : MM unit :=
  n ← delete_fuel; unlink_job_with (transaction_delete_job_rec n) n j delete_dependencies.
Definition transaction_delete_job (j : JobPtr) (delete_dependencies : bool) : MM unit :=
  n ← delete_fuel; transaction_delete_job_rec n j delete_dependencies.
Definition job_free (j : JobPtr) : MM unit :=
  n ← delete_fuel; job_free_with (transaction_delete_job_rec n) n j.

Definition chain_of (u : UnitPtr) (m : Manager P) : list JobPtr :=
  default [] (om_get (transaction_jobs m) u).
(** [hashmap_get(m->transaction_jobs, u)] *)
Definition transaction_job_of (u : UnitPtr) (m : Manager P) : option JobPtr :=
  list_head (chain_of u m).
(** [hashmap_first(m->transaction_jobs)] *)
Definition first_transaction_job (m : Manager P) : option JobPtr :=
  e ← head (transaction_jobs m); list_head e.2.

Definition transaction_delete_unit (u : UnitPtr) : MM unit :=
  n ← gets (λ m, S (size (job_heap m)));
  while_some n (gets (transaction_job_of u)) (λ j, transaction_delete_job j true).

Definition transaction_clean_dependencies : MM unit :=
  l ← gets jobs;
  for_each l (λ e,
    n ← delete_fuel;
    while_some n (J ← job_at e.2; mret (list_head (subject_list J))) job_dependency_free;;
    while_some n (J ← job_at e.2; mret (list_head (object_list J))) job_dependency_free);;
  a ← gets transaction_anchor;
  assert_ (bool_decide (a = [])).

Definition transaction_abort : MM unit :=
  n ← gets (λ m, S (length (concat (transaction_jobs m).*2)));
  while_some n (gets first_transaction_job) (λ j,
    J ← job_at j;
    if installed J then transaction_delete_job j true else job_free j);;
  tj ← gets transaction_jobs;
  assert_ (bool_decide (tj = []));;
  transaction_clean_dependencies.

(** ** What matters to the anchor *)

Fixpoint find_jobs_that_matter_rec (n : nat) (j : option JobPtr) (g : Z) : MM unit :=
  match n with
  | O => nofuel
  | S n' =>
      l ← match j with
          | Some j => J ← job_at j; mret (subject_list J)
          | None => gets transaction_anchor
          end;
      for_each l (λ d,
        L ← dep_at d;
        if negb (matters L) then mret tt else
        O ← job_at (object L);
        if bool_decide (generation O = g) then mret tt else
        update_job (object L) (λ O, O <| matters_to_anchor := true |> <| generation := g |>);;
        find_jobs_that_matter_rec n' (Some (object L)) g)
  end.
(** Every level of the recursion marks a job that was not marked. *)
Definition transaction_find_jobs_that_matter_to_anchor (j : option JobPtr) (g : Z) : MM unit :=
  n ← gets (λ m, S (size (job_heap m))); find_jobs_that_matter_rec n j g.

(** ** Minimal impact, redundant jobs, garbage *)

(** The body of the loop of [transaction_minimize_impact] for one job: does
    the job have to go? *)
Definition has_impact (j : JobPtr) : MM bool :=
  J ← job_at j;
  if matters_to_anchor J then mret false else
  stops_running_service ←
    (if bool_decide (j_type J = JOB_STOP) then
       s ← unit_active_state (j_unit J); mret (UNIT_IS_ACTIVE_OR_ACTIVATING s)
     else mret false);
  U ← unit_at (j_unit J);
  changes_existing_job ←
    match u_job U with
    | None => mret false
    | Some k => K ← job_at k; mret (job_type_is_conflicting (j_type J) (j_type K))
    end;
  mret (stops_running_service || changes_existing_job).

(** The first job of a list that satisfies the test. *)
Fixpoint find_job (l : list JobPtr) (test : JobPtr → MM bool) : MM (option JobPtr) :=
  match l with
  | [] => mret None
  | j :: l' => b ← test j; if b : bool then mret (Some j) else find_job l' test
  end.

(** All jobs of the transaction, in the order of [HASHMAP_FOREACH] with a
    [LIST_FOREACH] inside. *)
Definition all_jobs (m : Manager P) : list JobPtr := concat (transaction_jobs m).*2.
(** The first job of every unit: [HASHMAP_FOREACH] alone. *)
Definition head_jobs (m : Manager P) : list JobPtr :=
  omap (λ e, list_head e.2) (transaction_jobs m).

(** The loops [do { again = false; HASHMAP_FOREACH ... { ...; again = true;
    break; } } while (again)]: delete the first job that the test selects
    until there is none. *)
Definition delete_while (jobs_of : Manager P → list JobPtr) (test : JobPtr → MM bool)
    (delete_dependencies : bool) : MM unit :=
  n ← gets (λ m, S (length (all_jobs m)));
  repeat_while n (
    l ← gets jobs_of;
    o ← find_job l test;
    match o with
    | None => mret false
    | Some j => transaction_delete_job j delete_dependencies;; mret true
    end).

Definition transaction_minimize_impact : MM unit := delete_while all_jobs has_impact true.

(** The test of [transaction_drop_redundant] on one job of a chain: the job
    is a no-op. *)
Definition job_is_noop (k : JobPtr) : MM bool :=
  K ← job_at k;
  anchor ← job_is_anchor k;
  if anchor : bool then mret false else
  redundant ←
    (if installed K then mret true else
       s ← unit_active_state (j_unit K); mret (job_type_is_redundant (j_type K) s));
  if negb redundant then mret false else
  U ← unit_at (j_unit K);
  match u_job U with
  | None => mret true
  | Some e => E ← job_at e; mret (negb (job_type_is_conflicting (j_type K) (j_type E)))
  end.
(** [changes_something] for the chain that starts at [j] *)
Definition changes_something (j : JobPtr) : MM bool :=
  J ← job_at j;
  l ← gets (chain_of (j_unit J));
  any l (λ k, b ← job_is_noop k; mret (negb b)).
Definition transaction_drop_redundant : MM unit :=
  delete_while head_jobs (λ j, b ← changes_something j; mret (negb b)) false.

Definition transaction_collect_garbage : MM unit :=
  delete_while head_jobs (λ j, J ← job_at j; mret (bool_decide (object_list J = []))) true.

(** ** Merging *)

Definition transaction_merge_and_delete_job (j other : JobPtr) (t : JobType) : MM unit :=
  J ← job_at j;
  O ← job_at other;
  assert_ (bool_decide (j_unit J = j_unit O));;
  assert_ (negb (installed J));;
  update_job j (λ J, J <| j_type := t |> <| j_state := JOB_WAITING |>
                       <| override := override J || override O |>
                       <| matters_to_anchor := matters_to_anchor J || matters_to_anchor O |>);;
  for_each (subject_list O) (λ d,
    l ← dep_at d;
    assert_ (bool_decide (subject l = Some other));;
    modify (λ m, m <| dep_heap ::=
      <[d := mkJobDependency (Some j) (object l) (matters l) (conflicts l)]> |>));;
  update_job j (λ J, J <| subject_list ::= app (subject_list O) |>);;
  for_each (object_list O) (λ d,
    l ← dep_at d;
    assert_ (bool_decide (object l = other));;
    modify (λ m, m <| dep_heap ::=
      <[d := mkJobDependency (subject l) j (matters l) (conflicts l)]> |>));;
  update_job j (λ J, J <| object_list ::= app (object_list O) |>);;
  update_job other (λ O, O <| subject_list := [] |> <| object_list := [] |>);;
  transaction_delete_job other true.

(** Which of two jobs that do not merge is dropped; [None]: both matter. *)
Definition choose_victim (j k : JobPtr) : MM (option JobPtr) :=
  J ← job_at j;
  K ← job_at k;
  if negb (matters_to_anchor J) && negb (matters_to_anchor K) then
    if bool_decide (j_type J = JOB_STOP) then
      c ← job_is_conflicted_by j; mret (Some (if c : bool then k else j))
    else if bool_decide (j_type K = JOB_STOP) then
      c ← job_is_conflicted_by k; mret (Some (if c : bool then j else k))
    else mret (Some j)
  else if negb (matters_to_anchor J) then mret (Some j)
  else if negb (matters_to_anchor K) then mret (Some k)
  else mret None.

(** The inner loop of [delete_one_unmergeable_job]; [None]: it ran to its
    end. *)
Fixpoint delete_one_against (j : JobPtr) (ks : list JobPtr) : MM (option Z) :=
  match ks with
  | [] => mret None
  | k :: ks' =>
      J ← job_at j;
      K ← job_at k;
      if job_type_is_mergeable (j_type J) (j_type K) then delete_one_against j ks' else
      d ← choose_victim j k;
      match d with
      | None => mret (Some (- ENOEXEC)%Z)
      | Some d => transaction_delete_job d true;; mret (Some 0%Z)
      end
  end.
(** On the chain that starts at the job the code is called with. *)
Fixpoint delete_one_unmergeable_job (chain : list JobPtr) : MM Z :=
  match chain with
  | [] => mret (- EINVAL)%Z
  | j :: ks =>
      r ← delete_one_against j ks;
      match r with Some r => mret r | None => delete_one_unmergeable_job ks end
  end.

(** The first step of [transaction_merge_jobs] for one chain: [None] where
    its types merge, the result of the function where they do not. *)
Fixpoint check_chain_from (chain : list JobPtr) (t : JobType) (l : list JobPtr)
    : MM (option Z) :=
  match l with
  | [] => mret None
  | k :: l' =>
      K ← job_at k;
      match job_type_merge t (j_type K) with
      | inr t' => check_chain_from chain t' l'
      | inl _ =>
          r ← delete_one_unmergeable_job chain;
          mret (Some (if bool_decide (0 ≤ r) then - EAGAIN else r)%Z)
      end
  end.
Definition check_chain (chain : list JobPtr) : MM (option Z) :=
  match chain with
  | [] => mret None
  | j :: ks => J ← job_at j; check_chain_from chain (j_type J) ks
  end.
Fixpoint check_chains (tj : list (UnitPtr * list JobPtr)) : MM (option Z) :=
  match tj with
  | [] => mret None
  | (_, chain) :: tj' =>
      r ← check_chain chain;
      match r with Some r => mret (Some r) | None => check_chains tj' end
  end.

(** The second step for the chain [j :: ks]: everything into one job of
    type [t]. *)
Fixpoint merge_chain (j : JobPtr) (ks : list JobPtr) (t : JobType) : MM JobPtr :=
  match ks with
  | [] => mret j
  | k :: ks' =>
      J ← job_at j;
      if installed J then transaction_merge_and_delete_job k j t;; merge_chain k ks' t
      else transaction_merge_and_delete_job j k t;; merge_chain j ks' t
  end.
Fixpoint merged_type (t : JobType) (ks : list JobPtr) : MM JobType :=
  match ks with
  | [] => mret t
  | k :: ks' =>
      K ← job_at k;
      match job_type_merge t (j_type K) with
      | inr t' => merged_type t' ks'
      | inl _ => fault
      end
  end.
Definition merge_unit (u : UnitPtr) : MM unit :=
  chain ← gets (chain_of u);
  match chain with
  | [] => fault
  | j :: ks =>
      J ← job_at j;
      t ← merged_type (j_type J) ks;
      U ← unit_at u;
      t ← match u_job U with
          | None => mret t
          | Some e => E ← job_at e;
              mret (match job_type_merge t (j_type E) with inr t' => t' | inl _ => t end)
          end;
      j ← merge_chain j ks t;
      J ← job_at j;
      U ← unit_at u;
      match u_job U with
      | Some e => when (negb (installed J)) (transaction_merge_and_delete_job j e t)
      | None => mret tt
      end;;
      chain ← gets (chain_of u);
      assert_ (bool_decide (chain = [j]))
  end.

Definition transaction_merge_jobs : MM Z :=
  tj ← gets transaction_jobs;
  r ← check_chains tj;
  match r with
  | Some r => mret r
  | None => for_each (om_keys tj) merge_unit;; mret 0%Z
  end.

(** Would a job of the merged transaction replace an installed job that does
    more? *)
Fixpoint is_destructive (tj : list (UnitPtr * list JobPtr)) : MM Z :=
  match tj with
  | [] => mret 0%Z
  | (u, chain) :: tj' =>
      match chain with
      | [j] =>
          J ← job_at j;
          U ← unit_at (j_unit J);
          bad ← match u_job U with
                | None => mret false
                | Some e =>
                    if bool_decide (e = j) then mret false else
                    E ← job_at e; mret (negb (job_type_is_superset (j_type J) (j_type E)))
                end;
          if bad : bool then mret (- EEXIST)%Z else is_destructive tj'
      | _ => fault
      end
  end.
Definition transaction_is_destructive : MM Z := tj ← gets transaction_jobs; is_destructive tj.
End transaction.
