(* ===== verification/TransactionAdd.v ===== *)
(** * Filling a transaction (src/manager.c)

    [transaction_add_job_and_dependencies] puts a job into the transaction,
    links it to the job that asked for it, and does the same for the jobs that
    the dependencies of the unit call for, recursively. *)

From stdpp Require Import base gmap strings list fin_maps.
From Stdlib Require Import ZArith Lia.
From S2P Require Import Prelude CString JobType OrderedMap Engine Transaction.

Section add.
Context {P : Type} `{UnitVTable P}.
Abbreviation MM := (M (Manager P)).

(** The job and whether it is new; [None] when memory is out. *)
Definition transaction_add_one_job (type : JobType) (unit : UnitPtr) (ovr : bool)
    : MM (option (JobPtr * bool)) :=
  f ← gets (chain_of unit);
  o ← find_job f (λ j, J ← job_at j; assert_ (bool_decide (j_unit J = unit));;
                       mret (bool_decide (j_type J = type)));
  match o with
  | Some j => mret (Some (j, false))
  | None =>
      U ← unit_at unit;
      reuse ← match u_job U with
              | Some k => K ← job_at k; mret (if bool_decide (j_type K = type) then Some k else None)
              | None => mret None
              end;
      o ← match reuse with Some k => mret (Some k) | None => job_new type unit end;
      match o with
      | None => mret None
      | Some j =>
          update_job j (λ J, J <| generation := 0%Z |> <| marker := None |>
                               <| matters_to_anchor := false |> <| override := ovr |>);;
          (** [hashmap_replace] allocates an entry for a new key only *)
          ok ← match f with [] => alloc | _ => mret true end;
          if negb ok then job_free j;; mret None else
          modify (λ m, m <| transaction_jobs ::= λ tj, om_replace tj unit (j :: f) |>);;
          mret (Some (j, true))
      end
  end.

(** One pull: the jobs of type [p_type] for all units that the dependency
    [p_dep] lists.  Where [p_required], an error other than [-EBADR] is
    passed on. *)
Record pull := mkPull {
  p_dep : UnitDependency;
  p_type : JobType;
  p_matters : bool;
  p_override : bool;
  p_conflicts : bool;
  p_required : bool }.

(** The pulls of a job in their order. *)
Definition pulls (type : JobType) (ovr : bool) : list pull :=
  match type with
  | JOB_START | JOB_RELOAD_OR_START =>
      [mkPull UNIT_REQUIRES JOB_START true ovr false true;
       mkPull UNIT_BIND_TO JOB_START true ovr false true;
       mkPull UNIT_REQUIRES_OVERRIDABLE JOB_START (negb ovr) ovr false false;
       mkPull UNIT_WANTS JOB_START false false false false;
       mkPull UNIT_REQUISITE JOB_VERIFY_ACTIVE true ovr false true;
       mkPull UNIT_REQUISITE_OVERRIDABLE JOB_VERIFY_ACTIVE (negb ovr) ovr false false;
       mkPull UNIT_CONFLICTS JOB_STOP true ovr true true;
       mkPull UNIT_CONFLICTED_BY JOB_STOP false ovr false false]
  | JOB_STOP | JOB_RESTART | JOB_TRY_RESTART =>
      [mkPull UNIT_REQUIRED_BY type true ovr false true;
       mkPull UNIT_BOUND_BY type true ovr false true]
  | JOB_VERIFY_ACTIVE | JOB_RELOAD => []
  end.

(** The checks before a job is added: 0 or the error. *)
Definition job_refused (U : Unit P) (type : JobType) : Z :=
  if bool_decide (load_state U ≠ UNIT_LOADED ∧ load_state U ≠ UNIT_ERROR ∧
                  load_state U ≠ UNIT_MASKED) then - EINVAL
  else if bool_decide (type ≠ JOB_STOP ∧ load_state U = UNIT_ERROR) then - EINVAL
  else if bool_decide (type ≠ JOB_STOP ∧ load_state U = UNIT_MASKED) then - EINVAL
  else if negb (unit_job_is_applicable U type) then - EBADR
  else 0.

Fixpoint add_job_rec (n : nat) (type : JobType) (unit : UnitPtr) (by_ : option JobPtr)
    (matters ovr conflicts ignore_requirements ignore_ord : bool) : MM (Z * option JobPtr) :=
  match n with
  | O => nofuel
  | S n' =>
      U ← unit_at unit;
      if bool_decide (job_refused U type < 0)%Z then mret (job_refused U type, None) else
      o ← transaction_add_one_job type unit ovr;
      match o with
      | None => mret ((- ENOMEM)%Z, None)
      | Some (ret, is_new) =>
          update_job ret (λ J, J <| ignore_order := ignore_order J || ignore_ord |>);;
          l ← job_dependency_new by_ ret matters conflicts;
          match l with
          | None => mret ((- ENOMEM)%Z, None)
          | Some _ =>
              if negb (is_new && negb ignore_requirements) then mret (0%Z, Some ret) else
              R ← job_at ret;
              following ← gets (λ m, vt_following_set m (j_unit R));
              for_each following (λ dep,
                _ ← add_job_rec n' type dep (Some ret) false ovr false false ignore_ord; mret tt);;
              r ← for_each_r (pulls type ovr) (λ p,
                V ← unit_at (j_unit R);
                for_each_r (dependencies V (p_dep p)) (λ dep,
                  r ← add_job_rec n' (p_type p) dep (Some ret) (p_matters p) (p_override p)
                        (p_conflicts p) false ignore_ord;
                  mret (if p_required p && bool_decide (r.1 < 0)%Z
                            && negb (bool_decide (r.1 = - EBADR)%Z) then r.1 else 0%Z)));
              if bool_decide (r < 0)%Z then mret (r, None) else mret (0%Z, Some ret)
          end
      end
  end.

(** Every level of the recursion but the last adds a job for a unit and a type
    that the transaction did not have. *)
Definition add_fuel : MM nat := gets (λ m, S (S (7 * size (units m)))).
Definition transaction_add_job_and_dependencies (type : JobType) (unit : UnitPtr)
    (by_ : option JobPtr) (matters ovr conflicts ignore_requirements ignore_ord : bool)
    : MM (Z * option JobPtr) :=
  n ← add_fuel;
  add_job_rec n type unit by_ matters ovr conflicts ignore_requirements ignore_ord.

(** A unit under another name than its id is an alias. *)
Definition transaction_add_isolate_jobs : MM Z :=
  l ← gets unit_names;
  for_each l (λ '(k, u),
    U ← unit_at u;
    if bool_decide (u_id U ≠ k) then mret tt else
    if ignore_on_isolate U then mret tt else
    s ← unit_active_state u;
    if UNIT_IS_INACTIVE_OR_FAILED s && bool_decide (u_job U = None) then mret tt else
    t ← gets (transaction_job_of u);
    match t with
    | Some _ => mret tt
    | None =>
        _ ← transaction_add_job_and_dependencies JOB_STOP u None true false false false false;
        mret tt
    end);;
  mret 0%Z.
End add.
