(* ===== verification/Order.v ===== *)
(** * The ordering graph (src/manager.c: transaction_verify_order)

    A depth-first search over the graph whose nodes are jobs and whose edges
    follow UNIT_BEFORE, with the job of the transaction for the other unit,
    or the installed job where the transaction has none.  [generation] and
    [marker] are the search's colours: white, another generation; grey, this
    generation and a marker (the way back); black, this generation and no
    marker. *)

From stdpp Require Import base gmap strings list fin_maps.
From Stdlib Require Import ZArith Lia.
From S2P Require Import Prelude CString JobType OrderedMap Engine Transaction.

Section order.
Context {P : Type} `{UnitVTable P}.
Abbreviation MM := (M (Manager P)).

(** ** The code *)

(** [assert(!j->transaction_prev)]: [j] is the first job of its unit's chain,
    or an installed job that is not in the transaction. *)
Definition assert_first (j : JobPtr) : MM unit :=
  J ← job_at j;
  l ← gets (chain_of (j_unit J));
  assert_ (bool_decide (list_head l = Some j ∨ j ∉ l)).

(** Does a job of the chain from [j] on matter to the anchor? *)
Definition unit_matters_to_anchor (u : UnitPtr) (j : JobPtr) : MM bool :=
  assert_first j;;
  l ← gets (chain_of u);
  any (if decide (j ∈ l) then l else [j]) (λ k, K ← job_at k; mret (matters_to_anchor K)).

(** The way back from [k] along the markers, up to [j]: the first job on it
    that may be deleted. *)
Fixpoint walk_back (n : nat) (g : Z) (j : JobPtr) (k : option JobPtr)
    (delete : option JobPtr) : MM (option JobPtr) :=
  match n with
  | O => nofuel
  | S n' =>
      match k with
      | None => mret delete
      | Some k =>
          K ← job_at k;
          delete ←
            (if bool_decide (delete ≠ None) || installed K then mret delete else
               b ← unit_matters_to_anchor (j_unit K) k;
               mret (if b : bool then delete else Some k));
          if bool_decide (k = j) then mret delete else
          walk_back n' g j
            (if bool_decide (generation K = g ∧ marker K ≠ Some k) then marker K else None)
            delete
      end
  end.

Fixpoint verify_order_one_rec (n : nat) (j : JobPtr) (from : option JobPtr) (g : Z) : MM Z :=
  match n with
  | O => nofuel
  | S n' =>
      assert_first j;;
      J ← job_at j;
      if bool_decide (generation J = g) then
        match marker J with
        | None => mret 0%Z
        | Some _ =>
            w ← gets (λ m, S (S (size (job_heap m))));
            delete ← walk_back w g j from None;
            match delete with
            | Some d => D ← job_at d; transaction_delete_unit (j_unit D);; mret (- EAGAIN)%Z
            | None => mret (- ENOEXEC)%Z
            end
        end
      else
        update_job j (λ J, J <| marker := Some (default j from) |> <| generation := g |>);;
        U ← unit_at (j_unit J);
        r ← for_each_r (dependencies U UNIT_BEFORE) (λ u,
          t ← gets (transaction_job_of u);
          V ← unit_at u;
          match (match t with Some o => Some o | None => u_job V end) with
          | None => mret 0%Z
          | Some o => verify_order_one_rec n' o (Some j) g
          end);
        if bool_decide (r < 0)%Z then mret r else
        update_job j (λ J, J <| marker := None |>);;
        mret 0%Z
  end.
(** Every level of the recursion but the last colours a white job. *)
Definition transaction_verify_order_one (j : JobPtr) (from : option JobPtr) (g : Z) : MM Z :=
  n ← gets (λ m, S (S (size (job_heap m)))); verify_order_one_rec n j from g.

(** The result and the next generation. *)
Definition transaction_verify_order (g : Z) : MM (Z * Z) :=
  tj ← gets head_jobs;
  r ← for_each_r tj (λ j, transaction_verify_order_one j None g);
  mret (r, u32 (g + 1)).
End order.
