(* ===== verification/Links.v ===== *)
(** * The dependency links of a transaction stay consistent

    [wf_links]: every link is in the subject list of its subject (the anchor
    list when it has none) and in the object list of its object, and the
    lists hold nothing else.  [job_dependency_free] is a pure function of the
    state then, and keeps the invariant. *)

From stdpp Require Import base gmap strings list fin_maps.
From Stdlib Require Import ZArith Lia.
From S2P Require Import Prelude CString JobType OrderedMap Engine Transaction.

Section links.
Context {P : Type}.
Abbreviation MM := (M (Manager P)).
Implicit Types m : Manager P.

Definition subjects_of m (s : option JobPtr) : option (list DepPtr) :=
  match s with
  | None => Some (transaction_anchor m)
  | Some j => subject_list <$> job_heap m !! j
  end.
Definition objects_of m (j : JobPtr) : option (list DepPtr) :=
  object_list <$> job_heap m !! j.

Record wf_links m : Prop := {
  link_lists : ∀ d l, dep_heap m !! d = Some l →
    (∃ ds, subjects_of m (subject l) = Some ds ∧ d ∈ ds) ∧
    (∃ ds, objects_of m (object l) = Some ds ∧ d ∈ ds);
  subject_links : ∀ s ds, subjects_of m s = Some ds →
    NoDup ds ∧ ∀ d, d ∈ ds → ∃ l, dep_heap m !! d = Some l ∧ subject l = s;
  object_links : ∀ j ds, objects_of m j = Some ds →
    NoDup ds ∧ ∀ d, d ∈ ds → ∃ l, dep_heap m !! d = Some l ∧ object l = j }.

(** A job without its links: what the rest of the invariant looks at. *)
Definition erase_lists (J : Job) : Job := J <| subject_list := [] |> <| object_list := [] |>.
Definition eheap m : gmap JobPtr Job := erase_lists <$> job_heap m.

Definition remove_dep (d : DepPtr) (J : Job) : Job :=
  J <| subject_list ::= list_remove d |> <| object_list ::= list_remove d |>.
Definition free_dep (d : DepPtr) m : Manager P :=
  m <| dep_heap ::= delete d |> <| job_heap ::= fmap (remove_dep d) |>
    <| transaction_anchor ::= list_remove d |>.

Lemma elem_of_list_remove x y l : x ∈ list_remove y l ↔ x ∈ l ∧ x ≠ y.
Proof. unfold list_remove. rewrite list_elem_of_filter. tauto. Qed.

Lemma list_remove_id x l : x ∉ l → list_remove x l = l.
Proof.
  unfold list_remove. induction l as [|y l IH]; [done|]. intros Hx.
  rewrite filter_cons_True by (intros ->; apply Hx; left).
  f_equal. apply IH. intros ?; apply Hx; by right.
Qed.

Lemma list_remove_eq x l : list_remove x (x :: l) = list_remove x l.
Proof. unfold list_remove. by rewrite filter_cons_False by naive_solver. Qed.
Lemma list_remove_ne x y l : y ≠ x → list_remove x (y :: l) = y :: list_remove x l.
Proof. intros. unfold list_remove. by rewrite filter_cons_True. Qed.

Lemma NoDup_list_remove x l : NoDup l → NoDup (list_remove x l).
Proof. apply NoDup_filter. Qed.

Lemma length_list_remove x l : x ∈ l → length (list_remove x l) < length l.
Proof. intros Hx. apply length_filter_lt with (x := x); [done|naive_solver]. Qed.

Lemma subjects_of_free d m s :
  subjects_of (free_dep d m) s = list_remove d <$> subjects_of m s.
Proof.
  destruct s as [j|]; simpl; [|done]. rewrite lookup_fmap. by destruct (job_heap m !! j).
Qed.
Lemma objects_of_free d m j :
  objects_of (free_dep d m) j = list_remove d <$> objects_of m j.
Proof.
  unfold objects_of; simpl. rewrite lookup_fmap. by destruct (job_heap m !! j).
Qed.
Lemma eheap_free d m : eheap (free_dep d m) = eheap m.
Proof. unfold eheap; simpl. rewrite <- map_fmap_compose. by apply map_fmap_ext. Qed.

Lemma wf_links_free d m : wf_links m → wf_links (free_dep d m).
Proof.
  intros [H1 H2 H3]. split.
  - intros d' l Hd'. simpl in Hd'. apply lookup_delete_Some in Hd' as [Hne Hd'].
    destruct (H1 _ _ Hd') as [(ds1 & Hs & ?) (ds2 & Ho & ?)].
    rewrite subjects_of_free, objects_of_free, Hs, Ho. simpl.
    split; eexists; (split; [done|]); by apply elem_of_list_remove.
  - intros s ds. rewrite subjects_of_free. intros (ds0 & Hs & ->)%fmap_Some.
    destruct (H2 _ _ Hs) as [Hnd Hd]. split; [by apply NoDup_list_remove|].
    intros d' [Hin ?]%elem_of_list_remove. destruct (Hd _ Hin) as (l & ? & ?).
    exists l. simpl. by rewrite lookup_delete_ne.
  - intros j ds. rewrite objects_of_free. intros (ds0 & Hs & ->)%fmap_Some.
    destruct (H3 _ _ Hs) as [Hnd Hd]. split; [by apply NoDup_list_remove|].
    intros d' [Hin ?]%elem_of_list_remove. destruct (Hd _ Hin) as (l & ? & ?).
    exists l. simpl. by rewrite lookup_delete_ne.
Qed.

(** Off the two lists that hold the link, the removal does nothing. *)
Lemma free_dep_elsewhere d m l j J :
  wf_links m → dep_heap m !! d = Some l → job_heap m !! j = Some J →
  (subject l ≠ Some j → list_remove d (subject_list J) = subject_list J) ∧
  (object l ≠ j → list_remove d (object_list J) = object_list J).
Proof.
  intros [_ H2 H3] Hd Hj. split; intros Hne; apply list_remove_id; intros Hin; apply Hne.
  - destruct (H2 (Some j) (subject_list J)) as [_ Hl]; [by simpl; rewrite Hj|].
    destruct (Hl _ Hin) as (l' & ? & ?). congruence.
  - destruct (H3 j (object_list J)) as [_ Hl]; [by unfold objects_of; rewrite Hj|].
    destruct (Hl _ Hin) as (l' & ? & ?). congruence.
Qed.

Lemma free_dep_anchor d m l :
  wf_links m → dep_heap m !! d = Some l → subject l ≠ None →
  list_remove d (transaction_anchor m) = transaction_anchor m.
Proof.
  intros [_ H2 _] Hd Hne. apply list_remove_id. intros Hin. apply Hne.
  destruct (H2 None _ eq_refl) as [_ Hl]. destruct (Hl _ Hin) as (l' & ? & ?). congruence.
Qed.

Lemma update_job_eq j f m J :
  job_heap m !! j = Some J → update_job j f m = Ret tt (m <| job_heap ::= alter f j |>).
Proof.
  intros HJ. unfold update_job, job_at, mbind, M_bind. rewrite HJ. simpl.
  unfold modify. f_equal. unfold upd; simpl. f_equal. apply map_eq. intros k.
  rewrite lookup_alter, lookup_insert. case_decide as Hk; [subst; by rewrite HJ|done].
Qed.

(** Taking the link off the list of its subject and that of its object is
    taking it off all lists. *)
Lemma free_dep_heap d m l s :
  wf_links m → dep_heap m !! d = Some l → subject l = Some s →
  alter (λ J, J <| object_list ::= list_remove d |>) (object l)
    (alter (λ J, J <| subject_list ::= list_remove d |>) s (job_heap m))
  = remove_dep d <$> job_heap m.
Proof.
  intros Hwf Hd Hs. apply map_eq. intros j. rewrite lookup_fmap, !lookup_alter_if.
  destruct (job_heap m !! j) as [J|] eqn:HJ; [simpl; f_equal|done].
  destruct (free_dep_elsewhere d m l j J Hwf Hd HJ) as [E1 E2].
  unfold remove_dep, upd; destruct J; simpl in *.
  repeat case_decide; f_equal; symmetry; (apply E1 || apply E2); congruence.
Qed.
Lemma free_dep_heap_anchor d m l :
  wf_links m → dep_heap m !! d = Some l → subject l = None →
  alter (λ J, J <| object_list ::= list_remove d |>) (object l) (job_heap m)
  = remove_dep d <$> job_heap m.
Proof.
  intros Hwf Hd Hs. apply map_eq. intros j. rewrite lookup_fmap, !lookup_alter_if.
  destruct (job_heap m !! j) as [J|] eqn:HJ; [simpl; f_equal|done].
  destruct (free_dep_elsewhere d m l j J Hwf Hd HJ) as [E1 E2].
  unfold remove_dep, upd; destruct J; simpl in *.
  repeat case_decide; f_equal; symmetry; (apply E1 || apply E2); congruence.
Qed.

Lemma job_dependency_free_eq d m l :
  wf_links m → dep_heap m !! d = Some l → job_dependency_free d m = Ret tt (free_dep d m).
Proof.
  intros Hwf Hd. pose proof (link_lists _ Hwf _ _ Hd) as [(ds1 & Hs & Hin1) (ds2 & Ho & Hin2)].
  unfold objects_of in Ho. apply fmap_Some in Ho as (JO & HJO & ->).
  unfold job_dependency_free, dep_at, mbind, M_bind. rewrite Hd. simpl.
  destruct (subject l) as [s|] eqn:Hsub; simpl in Hs.
  - apply fmap_Some in Hs as (JS & HJS & ->). erewrite update_job_eq by done.
    assert (is_Some (alter (λ J, J <| subject_list ::= list_remove d |>) s (job_heap m) !! object l))
      as [JO' HJO'] by (by apply lookup_alter_is_Some).
    erewrite update_job_eq by exact HJO'. unfold modify, free_dep. f_equal. unfold upd; simpl.
    pose proof (free_dep_heap d m l s Hwf Hd Hsub) as E. unfold upd in E. rewrite E.
    by rewrite (free_dep_anchor d m l Hwf Hd) by congruence.
  - unfold modify at 1. erewrite update_job_eq by exact HJO. unfold modify, free_dep.
    f_equal. unfold upd; simpl. pose proof (free_dep_heap_anchor d m l Hwf Hd Hsub) as E.
    unfold upd in E. by rewrite E.
Qed.

Lemma size_free_dep d m : is_Some (dep_heap m !! d) → size (dep_heap (free_dep d m)) < size (dep_heap m).
Proof.
  intros [l Hl]. simpl. rewrite map_size_delete_Some by eauto.
  assert (size (dep_heap m) ≠ 0); [|lia]. intros E%map_size_empty_inv.
  rewrite E in Hl. by apply lookup_empty_Some in Hl.
Qed.
End links.
