(* ===== verification/Wf.v ===== *)
(** * The invariant of the engine, and deletion from a transaction

    [wf X m]: no pointer dangles, the maps [m->jobs] and [m->transaction_jobs]
    and the pointer [u->meta.job] agree with the job objects, every job that
    is not installed is in the transaction (or in [X], the jobs that are just
    being deleted), the queues hold the jobs that say so, and the links are
    consistent (Links.v).

    [transaction_delete_job_spec] is the total correctness of the mutual
    recursion of [transaction_delete_job], [manager_transaction_unlink_job]
    and [job_free]. *)

From stdpp Require Import base gmap strings list fin_maps.
From Stdlib Require Import ZArith Lia.
From S2P Require Import Prelude CString JobType OrderedMap Engine Transaction Links.

Section wf.
Context {P : Type} `{UnitVTable P}.
Abbreviation MM := (M (Manager P)).
Implicit Types m : Manager P.

Record wf_core (X : list JobPtr) m : Prop := {
  wc_unit : ∀ u U, units m !! u = Some U →
    (∀ d v, v ∈ dependencies U d → is_Some (units m !! v)) ∧
    is_Some (active_state_in (units m) u) ∧
    (∀ j, u_job U = Some j → ∃ J, eheap m !! j = Some J ∧ j_unit J = u ∧ installed J = true);
  wc_job : ∀ j J, eheap m !! j = Some J →
    ∃ U, units m !! j_unit J = Some U ∧
      (if installed J then u_job U = Some j ∧ (j_id J, j) ∈ jobs m
       else (j ∈ chain_of (j_unit J) m ∨ j ∈ X) ∧ in_run_queue J = false
            ∧ in_dbus_queue J = false);
  wc_jobs : om_wf (jobs m) ∧ ∀ id j, (id, j) ∈ jobs m →
    ∃ J, eheap m !! j = Some J ∧ j_id J = id ∧ installed J = true;
  wc_tj : om_wf (transaction_jobs m) ∧ ∀ u l, (u, l) ∈ transaction_jobs m →
    l ≠ [] ∧ NoDup l ∧ ∀ j, j ∈ l → ∃ J, eheap m !! j = Some J ∧ j_unit J = u;
  wc_runq : NoDup (run_queue m) ∧ ∀ j, j ∈ run_queue m ↔
    ∃ J, eheap m !! j = Some J ∧ in_run_queue J = true;
  wc_dbusq : NoDup (dbus_job_queue m) ∧ ∀ j, j ∈ dbus_job_queue m ↔
    ∃ J, eheap m !! j = Some J ∧ in_dbus_queue J = true;
  wc_ptr : (∀ j, is_Some (eheap m !! j) → j < next_ptr m) ∧
    (∀ d, is_Some (dep_heap m !! d) → d < next_ptr m) }.

Definition wf (X : list JobPtr) m : Prop := wf_core X m ∧ wf_links m.

(** ** Chains *)

Definition with_tj (tj : list (UnitPtr * list JobPtr)) m : Manager P :=
  m <| transaction_jobs := tj |>.

Lemma chain_unlink_get u j tj v :
  om_wf tj → (∀ u l, (u, l) ∈ tj → l ≠ []) →
  default [] (om_get (chain_unlink u j tj) v)
  = if decide (u = v) then list_remove j (default [] (om_get tj v)) else default [] (om_get tj v).
Proof.
  intros Hwf Hne. unfold chain_unlink. destruct (om_get tj u) as [l|] eqn:El.
  - case_decide as Hj.
    + destruct (list_remove j l) as [|x l'] eqn:Er;
        rewrite ?om_get_remove, ?om_get_replace; case_decide as Hv; subst; rewrite ?El; simpl; auto;
        by rewrite ?Er.
    + case_decide as Hv; [|done]. subst. rewrite El. simpl. by rewrite list_remove_id.
  - case_decide as Hv; [|done]. subst. by rewrite El.
Qed.

Lemma chain_unlink_wf u j tj :
  om_wf tj → om_wf (chain_unlink u j tj).
Proof.
  intros Hwf. unfold chain_unlink. destruct (om_get tj u); [|done]. case_decide; [|done].
  destruct (list_remove j _); [by apply om_wf_remove|by apply om_wf_replace].
Qed.

Lemma chain_unlink_entry u j tj v l :
  om_wf tj → (∀ u l, (u, l) ∈ tj → l ≠ []) →
  (v, l) ∈ chain_unlink u j tj →
  l ≠ [] ∧ ∃ l0, (v, l0) ∈ tj ∧ l = if decide (u = v) then list_remove j l0 else l0.
Proof.
  intros Hwf Hne Hin. pose proof (chain_unlink_wf u j tj Hwf) as Hwf'.
  pose proof (om_elem_get _ _ _ Hwf' Hin) as Hg. revert Hg. unfold chain_unlink.
  destruct (om_get tj u) as [l0|] eqn:El.
  - case_decide as Hj.
    + destruct (list_remove j l0) as [|x l'] eqn:Er; rewrite ?om_get_remove, ?om_get_replace;
        case_decide as Hv; intros Hg; simplify_eq.
      * apply om_get_Some_elem in Hg. split; eauto.
      * split; [done|]. exists l0. split; [by apply om_get_Some_elem|done].
      * apply om_get_Some_elem in Hg. split; eauto.
    + intros Hg%om_get_Some_elem. split; [eauto|]. exists l. split; [done|].
      case_decide; [subst|done]. rewrite list_remove_id; [done|].
      apply om_get_Some_elem in El. apply om_elem_get in Hg; [|done].
      apply om_elem_get in El; [|done]. congruence.
  - intros Hg%om_get_Some_elem. split; [eauto|]. exists l. split; [done|].
    case_decide; [subst|done]. apply om_elem_get in Hg; [|done]. congruence.
Qed.

Lemma elem_of_chain u m j :
  j ∈ chain_of u m ↔ ∃ l, om_get (transaction_jobs m) u = Some l ∧ j ∈ l.
Proof.
  unfold chain_of. destruct (om_get _ u) as [l|]; simpl; split.
  - eauto.
  - by intros (? & ? & ?); simplify_eq.
  - by intros ?%elem_of_nil.
  - by intros (? & ? & ?).
Qed.

Lemma chain_live X m u j :
  wf_core X m → j ∈ chain_of u m → ∃ J, eheap m !! j = Some J ∧ j_unit J = u.
Proof.
  intros Hwf (l & Hl%om_get_Some_elem & Hj)%elem_of_chain.
  destruct (wc_tj _ _ Hwf) as [_ Ht]. destruct (Ht _ _ Hl) as (_ & _ & ?). eauto.
Qed.

Lemma chain_NoDup X m u : wf_core X m → NoDup (chain_of u m).
Proof.
  intros Hwf. unfold chain_of. destruct (om_get _ u) as [l|] eqn:El; simpl; [|constructor].
  apply om_get_Some_elem in El. destruct (wc_tj _ _ Hwf) as [_ Ht].
  by destruct (Ht _ _ El) as (_ & ? & _).
Qed.

Lemma eheap_Some m j J' : eheap m !! j = Some J' ↔ ∃ J, job_heap m !! j = Some J ∧ J' = erase_lists J.
Proof. unfold eheap. rewrite lookup_fmap, fmap_Some. naive_solver. Qed.

Lemma eheap_live m j : is_Some (eheap m !! j) ↔ is_Some (job_heap m !! j).
Proof. unfold eheap. by rewrite lookup_fmap, fmap_is_Some. Qed.

(** ** The pieces of a deletion on the core invariant *)

(** The core looks at links only through the bound on their pointers. *)
Lemma wf_core_free X d m : wf_core X m → wf_core X (free_dep d m).
Proof.
  intros [Hu Hj Hjs Htj Hrq Hdq Hp].
  split; rewrite ?eheap_free; try done.
  destruct Hp as [Hp1 Hp2]. split; [done|]. intros d'; simpl.
  intros [l [? Hd']%lookup_delete_Some]. apply Hp2. by exists l.
Qed.

Lemma wf_core_unlink X m j J :
  wf_core X m → eheap m !! j = Some J →
  wf_core (j :: X) (with_tj (chain_unlink (j_unit J) j (transaction_jobs m)) m).
Proof.
  intros [Hu Hj Hjs [Htj1 Htj2] Hrq Hdq Hp] HJ.
  assert (∀ u l, (u, l) ∈ transaction_jobs m → l ≠ []) as Hne by (intros; by eapply Htj2).
  split; try done.
  - intros k K HK. destruct (Hj k K HK) as (U & HU & Hk). exists U. split; [done|].
    destruct (installed K); [done|]. destruct Hk as ([Hc|Hx] & ?); (split; [|done]).
    + unfold chain_of, with_tj; simpl. rewrite chain_unlink_get by done.
      case_decide as He; [|by left]. destruct (decide (k = j)) as [->|]; [right; left|].
      left. by apply elem_of_list_remove.
    + right. by right.
  - split; [by apply chain_unlink_wf|]. intros u l Hl.
    apply chain_unlink_entry in Hl as (Hl & l0 & Hin & ->); [|done|done].
    destruct (Htj2 _ _ Hin) as (_ & Hnd & Hlive). split; [done|].
    case_decide; [|done]. split; [by apply NoDup_list_remove|].
    intros k [? ?]%elem_of_list_remove. auto.
Qed.

(** An installed job needs no place in the transaction, and neither does one
    that is there anyway. *)
Lemma wf_core_weaken X m j :
  (∀ J, eheap m !! j = Some J → installed J = true ∨ j ∈ chain_of (j_unit J) m) →
  wf_core (j :: X) m → wf_core X m.
Proof.
  intros Hi [Hu Hj Hjs Htj Hrq Hdq Hp]. split; try done.
  intros k K HK. destruct (Hj k K HK) as (U & HU & Hk). exists U. split; [done|].
  destruct (installed K) eqn:Hin; [done|]. destruct Hk as ([?|[->|?]%elem_of_cons] & ?);
    (split; [|done]); auto.
  destruct (Hi _ HK) as [?|?]; [congruence|auto].
Qed.

(** Freeing a job that nothing refers to any more. *)
Definition with_heap (h : gmap JobPtr Job) m : Manager P := m <| job_heap := h |>.

Lemma eheap_delete j m : eheap (with_heap (delete j (job_heap m)) m) = delete j (eheap m).
Proof. unfold eheap; simpl. by rewrite fmap_delete. Qed.

Lemma wf_core_delete X m j J :
  wf_core (j :: X) m → eheap m !! j = Some J → installed J = false →
  j ∉ chain_of (j_unit J) m → wf_core X (with_heap (delete j (job_heap m)) m).
Proof.
  intros [Hu Hj [Hjs1 Hjs2] [Htj1 Htj2] [Hrq1 Hrq2] [Hdq1 Hdq2] [Hp1 Hp2]] HJ Hni Hnc.
  assert (∀ k K, eheap m !! k = Some K → installed K = true → k ≠ j)
    as Hinst by (intros; intros ->; congruence).
  destruct (Hj _ _ HJ) as (UJ & HUJ & HjJ). rewrite Hni in HjJ. destruct HjJ as (_ & Hr & Hd).
  split; rewrite ?eheap_delete; try done.
  - intros u U HU. destruct (Hu u U HU) as (Hdeps & Has & Hjob). split_and!; try done.
    intros k Hk. destruct (Hjob k Hk) as (K & HK & ? & ?). exists K.
    rewrite lookup_delete_ne by (apply not_eq_sym; eauto). done.
  - intros k K [Hne HK]%lookup_delete_Some. destruct (Hj k K HK) as (U & HU & Hk).
    exists U. split; [done|]. destruct (installed K); [done|].
    destruct Hk as ([?|[?|?]%elem_of_cons] & ?); try done; (split; [|done]); auto.
  - split; [done|]. intros id k Hk. destruct (Hjs2 id k Hk) as (K & HK & ? & ?). exists K.
    rewrite lookup_delete_ne by (apply not_eq_sym; eauto). done.
  - split; [done|]. intros u l Hl. destruct (Htj2 u l Hl) as (Hne & Hnd & Hlive).
    split_and!; try done. intros k Hk. destruct (Hlive k Hk) as (K & HK & HuK). exists K.
    rewrite lookup_delete_ne; [done|]. intros <-. simplify_eq. apply Hnc, elem_of_chain.
    exists l. split; [by apply om_elem_get|done].
  - split; [done|]. intros k. rewrite Hrq2. split; intros (K & HK & ?).
    + exists K. rewrite lookup_delete_ne; [done|]. intros <-. congruence.
    + apply lookup_delete_Some in HK as [? HK]. eauto.
  - split; [done|]. intros k. rewrite Hdq2. split; intros (K & HK & ?).
    + exists K. rewrite lookup_delete_ne; [done|]. intros <-. congruence.
    + apply lookup_delete_Some in HK as [? HK]. eauto.
  - split; [|done]. intros k [K [? HK]%lookup_delete_Some]. apply Hp1. by exists K.
Qed.

Lemma wf_links_delete m j J :
  wf_links m → job_heap m !! j = Some J → subject_list J = [] → object_list J = [] →
  wf_links (with_heap (delete j (job_heap m)) m).
Proof.
  intros [H1 H2 H3] HJ Hs Ho.
  assert (∀ s ds, subjects_of (with_heap (delete j (job_heap m)) m) s = Some ds ↔
    subjects_of m s = Some ds ∧ s ≠ Some j) as Hsub.
  { intros [k|] ds; simpl; [|naive_solver].
    destruct (decide (k = j)) as [->|]; [rewrite lookup_delete_eq|rewrite lookup_delete_ne by done];
      naive_solver. }
  assert (∀ k ds, objects_of (with_heap (delete j (job_heap m)) m) k = Some ds ↔
    objects_of m k = Some ds ∧ k ≠ j) as Hobj.
  { intros k ds; unfold objects_of; simpl.
    destruct (decide (k = j)) as [->|]; [rewrite lookup_delete_eq|rewrite lookup_delete_ne by done];
      naive_solver. }
  split.
  - intros d l Hd. destruct (H1 d l Hd) as [(ds1 & E1 & Hin1) (ds2 & E2 & Hin2)].
    split; [exists ds1|exists ds2]; (split; [|done]); [apply Hsub|apply Hobj]; (split; [done|]).
    + intros E. rewrite E in E1. simpl in E1. rewrite HJ in E1. simpl in E1.
      simplify_eq. rewrite Hs in Hin1. by apply elem_of_nil in Hin1.
    + intros E. rewrite E in E2. unfold objects_of in E2. rewrite HJ in E2. simpl in E2.
      simplify_eq. rewrite Ho in Hin2. by apply elem_of_nil in Hin2.
  - intros s ds [? _]%Hsub. eauto.
  - intros k ds [? _]%Hobj. eauto.
Qed.

(** ** What a deletion may change *)

(** Everything but the heaps of jobs and links and the transaction. *)
Definition rest m : Manager P :=
  m <| job_heap := ∅ |> <| dep_heap := ∅ |> <| transaction_jobs := [] |>
    <| transaction_anchor := [] |>.

Record shrinks (X : list JobPtr) m m' : Prop := {
  sh_rest : rest m' = rest m;
  sh_deps : dep_heap m' ⊆ dep_heap m;
  sh_heap : ∀ k J', job_heap m' !! k = Some J' → ∃ J, job_heap m !! k = Some J ∧
    erase_lists J' = erase_lists J ∧ subject_list J' ⊆ subject_list J ∧
    object_list J' ⊆ object_list J;
  sh_live : ∀ k J, job_heap m !! k = Some J → installed J = true ∨ k ∈ X →
    is_Some (job_heap m' !! k);
  sh_chain : ∀ u, sublist (chain_of u m') (chain_of u m);
  sh_all : sublist (all_jobs m') (all_jobs m) }.

#[global] Instance shrinks_preorder X : PreOrder (shrinks X).
Proof.
  split.
  - intros m. split; try done. intros k J' ?. exists J'. by split_and!.
  - intros m1 m2 m3 [R1 D1 H1 L1 C1 A1] [R2 D2 H2 L2 C2 A2]. split.
    + congruence.
    + by etrans.
    + intros k J3 HJ3. destruct (H2 k J3 HJ3) as (J2 & HJ2 & E2 & S2 & O2).
      destruct (H1 k J2 HJ2) as (J1 & HJ1 & E1 & S1 & O1). exists J1.
      split_and!; [done|congruence|set_solver|set_solver].
    + intros k J1 HJ1 Hk. destruct (L1 k J1 HJ1 Hk) as [J2 HJ2].
      apply (L2 k J2 HJ2). destruct Hk as [Hk|?]; [left|by right].
      destruct (H1 k J2 HJ2) as (J1' & HJ1' & E1 & _). rewrite HJ1 in HJ1'. injection HJ1' as <-.
      pose proof (f_equal installed E1) as Hin. simpl in Hin. congruence.
    + intros u. etrans; [apply C2|apply C1].
    + etrans; [exact A2|exact A1].
Qed.

Lemma shrinks_mono X Y m m' : X ⊆ Y → shrinks Y m m' → shrinks X m m'.
Proof. intros Hs [R D Hh L C A]. split; try done. intros k J HJ [?|?]; eauto. Qed.

Lemma shrinks_size X m m' : shrinks X m m' → size (dep_heap m') ≤ size (dep_heap m).
Proof. intros Hs. by apply map_subseteq_size, (sh_deps _ _ _ Hs). Qed.

Lemma shrinks_units X m m' : shrinks X m m' → units m' = units m.
Proof. intros Hs. apply (f_equal units (sh_rest _ _ _ Hs)). Qed.

Lemma shrinks_free X d m : shrinks X m (free_dep d m).
Proof.
  split; simpl; try done.
  - apply delete_subseteq.
  - intros k J'. rewrite lookup_fmap. intros (J & HJ & ->)%fmap_Some. exists J.
    split_and!; [done..| |]; simpl; intros x [? _]%elem_of_list_remove; done.
  - intros k J HJ _. by rewrite lookup_fmap, HJ.
Qed.

Lemma chain_unlink_all u j tj :
  om_wf tj → sublist (concat (chain_unlink u j tj).*2) (concat tj.*2).
Proof.
  unfold om_wf, om_keys, chain_unlink. induction tj as [|[v l] tj IH]; simpl; [done|].
  intros [Hv Hnd]%NoDup_cons. case_decide as Hu; [subst|].
  - case_decide as Hj; [|done].
    assert (sublist (list_remove j l) l) as Hsub by apply sublist_filter.
    destruct (list_remove j l) as [|x l'] eqn:Er.
    + unfold om_remove. rewrite filter_cons_False by naive_solver.
      rewrite filter_id; [by apply sublist_inserts_l|].
      intros [w lw] Hi. simpl. intros ->. apply Hv, list_elem_of_fmap. by exists (u, lw).
    + by apply (sublist_app (x :: l')).
  - specialize (IH Hnd). destruct (om_get tj u) as [l0|]; [|done].
    case_decide as Hj; [|done]. destruct (list_remove j l0) as [|x l'] eqn:Er.
    + unfold om_remove in *. rewrite filter_cons_True by done. simpl.
      by apply sublist_app.
    + by apply sublist_app.
Qed.

Lemma shrinks_unlink X m u j :
  om_wf (transaction_jobs m) → (∀ u l, (u, l) ∈ transaction_jobs m → l ≠ []) →
  shrinks X m (with_tj (chain_unlink u j (transaction_jobs m)) m).
Proof.
  intros Hwf Hne. split; simpl; try done.
  - intros k J' ?. exists J'. by split_and!.
  - intros v. unfold chain_of, with_tj; simpl. rewrite chain_unlink_get by done.
    case_decide; [|done]. apply sublist_filter.
  - unfold all_jobs. simpl. by apply chain_unlink_all.
Qed.

Lemma shrinks_delete X m j J :
  job_heap m !! j = Some J → installed J = false → j ∉ X →
  shrinks X m (with_heap (delete j (job_heap m)) m).
Proof.
  intros HJ Hi Hx. split; simpl; try done.
  - intros k J' [? ?]%lookup_delete_Some. exists J'. by split_and!.
  - intros k K HK Hk. rewrite lookup_delete_ne; [by eauto|]. intros ->.
    destruct Hk; [congruence|done].
Qed.

Lemma shrinks_eheap X m m' k J :
  shrinks X m m' → eheap m !! k = Some J → is_Some (job_heap m' !! k) → eheap m' !! k = Some J.
Proof.
  intros Hs (K & HK & ->)%eheap_Some [K' HK'].
  destruct (sh_heap _ _ _ Hs k K' HK') as (K0 & HK0 & HE & _). rewrite HK in HK0. injection HK0 as <-.
  apply eheap_Some. exists K'. by rewrite HE.
Qed.

(** ** The loops of [manager_transaction_unlink_job] *)

Lemma wf_free X d m : wf X m → wf X (free_dep d m).
Proof. intros [? ?]. split; [by apply wf_core_free|by apply wf_links_free]. Qed.

Lemma wf_core_mono X Y m : X ⊆ Y → wf_core X m → wf_core Y m.
Proof.
  intros Hs [Hu Hj Hjs Htj Hrq Hdq Hp]. split; try done.
  intros k K HK. destruct (Hj k K HK) as (U & HU & Hk). exists U. split; [done|].
  destruct (installed K); [done|]. naive_solver.
Qed.

(** No job being deleted is the subject of a link. *)
Definition no_subjects (X : list JobPtr) m : Prop :=
  ∀ x, x ∈ X → ∃ J, job_heap m !! x = Some J ∧ subject_list J = [].

Lemma no_subjects_shrinks X m m' : shrinks X m m' → no_subjects X m → no_subjects X m'.
Proof.
  intros Hs Hx x Hin. destruct (Hx x Hin) as (J & HJ & HE).
  destruct (sh_live _ _ _ Hs x J HJ (or_intror Hin)) as [J' HJ']. exists J'. split; [done|].
  destruct (sh_heap _ _ _ Hs x J' HJ') as (J0 & HJ0 & _ & Hsub & _).
  rewrite HJ in HJ0. injection HJ0 as <-. rewrite HE in Hsub.
  destruct (subject_list J') as [|y l]; [done|]. exfalso.
  by apply (not_elem_of_nil y), Hsub; left.
Qed.

Lemma subject_link X m j J d :
  wf X m → job_heap m !! j = Some J → d ∈ subject_list J →
  ∃ l, dep_heap m !! d = Some l ∧ subject l = Some j.
Proof.
  intros [_ Hl] HJ Hd. destruct (subject_links _ Hl (Some j) (subject_list J)) as [_ Hds];
    [by simpl; rewrite HJ|]. auto.
Qed.
Lemma object_link X m j J d :
  wf X m → job_heap m !! j = Some J → d ∈ object_list J →
  ∃ l, dep_heap m !! d = Some l ∧ object l = j.
Proof.
  intros [_ Hl] HJ Hd. destruct (object_links _ Hl j (object_list J)) as [_ Hds];
    [by unfold objects_of; rewrite HJ|]. auto.
Qed.

Lemma list_head_elem (l : list nat) d : list_head l = Some d → d ∈ l.
Proof. destruct l; intros; simplify_eq/=; left. Qed.
Lemma list_head_None (l : list nat) : list_head l = None → l = [].
Proof. by destruct l. Qed.

Lemma wp_job_at j m J (Q : Job → Manager P → Prop) :
  job_heap m !! j = Some J → Q J m → wp (job_at j) m Q.
Proof. intros HJ HQ. eapply wp_intro; [|exact HQ]. unfold job_at. by rewrite HJ. Qed.
Lemma wp_dep_at d m l (Q : JobDependency → Manager P → Prop) :
  dep_heap m !! d = Some l → Q l m → wp (dep_at d) m Q.
Proof. intros Hl HQ. eapply wp_intro; [|exact HQ]. unfold dep_at. by rewrite Hl. Qed.
Lemma wp_unit_at u m U (Q : Unit P → Manager P → Prop) :
  units m !! u = Some U → Q U m → wp (unit_at u) m Q.
Proof. intros HU HQ. eapply wp_intro; [|exact HQ]. unfold unit_at. by rewrite HU. Qed.

Definition only_links X m m' : Prop :=
  wf X m' ∧ (∀ Y, shrinks Y m m') ∧ eheap m' = eheap m ∧
  transaction_jobs m' = transaction_jobs m.

Lemma only_links_refl X m : wf X m → only_links X m m.
Proof. intros. by split. Qed.
Lemma only_links_free X m m1 d : only_links X m m1 → only_links X m (free_dep d m1).
Proof.
  intros (Hw & Hs & He & Ht). split_and!.
  - by apply wf_free.
  - intros Y. etrans; [apply Hs|apply shrinks_free].
  - by rewrite eheap_free.
  - done.
Qed.

(** ** What a deletion spares *)

(** A set of jobs that contains what its members need. *)
Definition closed (S : JobPtr → Prop) m : Prop :=
  ∀ d l o, dep_heap m !! d = Some l → matters l = true → subject l = Some o → S o →
    S (object l).
(** The jobs of [S] stay in the transaction, and the links among them and
    from the anchor to them stay. *)
Definition keeps (S : JobPtr → Prop) m m' : Prop :=
  (∀ k, S k → k ∈ all_jobs m → k ∈ all_jobs m') ∧
  (∀ d l, dep_heap m !! d = Some l → S (object l) → (∀ o, subject l = Some o → S o) →
     dep_heap m' !! d = Some l).
(** The deletion of [j] spreads to the jobs that need it only, and to no
    other job when it is not to spread. *)
Definition spares (dd : bool) j m m' : Prop :=
  ∀ S, (dd = true → closed S m) → ¬ S j → keeps S m m'.

Lemma closed_shrinks X S m m' : shrinks X m m' → closed S m → closed S m'.
Proof.
  intros Hs Hc d l o Hd. apply (Hc d l o).
  by eapply lookup_weaken; [|apply (sh_deps _ _ _ Hs)].
Qed.
#[global] Instance keeps_preorder S : PreOrder (keeps S).
Proof.
  split; [by intros m; split|]. intros m1 m2 m3 [J1 D1] [J2 D2]. split; auto.
Qed.
Lemma keeps_eq S m m' :
  all_jobs m' = all_jobs m → dep_heap m' = dep_heap m → keeps S m m'.
Proof. intros Ha Hd. split; [by rewrite Ha|by rewrite Hd]. Qed.
Lemma keeps_mono S S' m m' : (∀ k, S k → S' k) → keeps S' m m' → keeps S m m'.
Proof. intros Hs [J D]. split; naive_solver. Qed.
Lemma keeps_free S m d l :
  dep_heap m !! d = Some l → (S (object l) → ∃ o, subject l = Some o ∧ ¬ S o) →
  keeps S m (free_dep d m).
Proof.
  intros Hd Hl. split; [done|]. intros d' l' Hd' Ho Hs. simpl.
  rewrite lookup_delete_ne; [done|]. intros <-. simplify_eq.
  destruct (Hl Ho) as (o & Ho' & Hn). by apply Hn, Hs.
Qed.

(** A job whose link to a job it needs is taken away is taken away too (where
    the deletion is to spread), and what is gone, but for [E], has no link any
    more. *)
Definition drags (dd : bool) (E : list JobPtr) m m' : Prop :=
  (dd = true → ∀ d l x, dep_heap m !! d = Some l → matters l = true → subject l = Some x →
     dep_heap m' !! d = None → x ∉ all_jobs m') ∧
  (∀ k, k ∈ all_jobs m → (k ∉ all_jobs m') → (k ∉ E) →
     ∀ d l, dep_heap m' !! d = Some l → object l ≠ k ∧ subject l ≠ Some k).

Lemma drags_trans dd E X m1 m2 m3 :
  shrinks X m1 m2 → shrinks X m2 m3 → drags dd E m1 m2 → drags dd E m2 m3 → drags dd E m1 m3.
Proof.
  intros S1 S2 [A1 B1] [A2 B2]. split.
  - intros Hdd d l x Hd Hm Hs Hd3. destruct (dep_heap m2 !! d) as [l2|] eqn:Hd2.
    + assert (l2 = l) as -> by (pose proof (lookup_weaken _ _ _ _ Hd2 (sh_deps _ _ _ S1)); congruence).
      by apply (A2 Hdd d l x).
    + intros Hx. apply (A1 Hdd d l x Hd Hm Hs Hd2). by apply (sublist_elem _ _ _ (sh_all _ _ _ S2)).
  - intros k Hk1 Hk3 HkE d l Hd. destruct (decide (k ∈ all_jobs m2)) as [Hk2|Hk2].
    + by apply (B2 k Hk2 Hk3 HkE d).
    + apply (B1 k Hk1 Hk2 HkE d). by eapply lookup_weaken, (sh_deps _ _ _ S2).
Qed.
Lemma drags_mono dd E E' m m' : E ⊆ E' → drags dd E m m' → drags dd E' m m'.
Proof. intros HE [A B]. split; [done|]. intros k H1 H2 H3. apply B; [done|done|]. intros ?. by apply H3, HE. Qed.
Lemma drags_eq dd E m m' :
  all_jobs m' = all_jobs m → dep_heap m' = dep_heap m → drags dd E m m'.
Proof. intros Ha Hd. split; rewrite ?Ha, ?Hd; congruence. Qed.
(** One link goes whose subject has gone already, or does not need its object. *)
Lemma drags_free dd E m d l :
  dep_heap m !! d = Some l →
  (dd = true → matters l = true → ∀ x, subject l = Some x → x ∉ all_jobs m) →
  drags dd E m (free_dep d m).
Proof.
  intros Hd Hl. split; [|by intros].
  intros Hdd d' l' x Hd' Hm Hs. simpl. rewrite lookup_delete_None. intros [<-|?]; [|congruence].
  simplify_eq. by apply Hl.
Qed.

(** The loop over the links of which [j] is the subject. *)
Lemma free_subjects_spec n X j m :
  wf X m → is_Some (job_heap m !! j) → size (dep_heap m) < n →
  wp (while_some n (J ← job_at j; mret (list_head (subject_list J))) job_dependency_free) m
    (λ _ m', (only_links X m m' ∧ spares false j m m' ∧
        ∀ d l, dep_heap m !! d = Some l → subject l ≠ Some j → dep_heap m' !! d = Some l) ∧
      ∃ J', job_heap m' !! j = Some J' ∧ subject_list J' = []).
Proof.
  intros Hwf Hj Hn. set (Q := λ m', only_links X m m' ∧ spares false j m m' ∧
    ∀ d l, dep_heap m !! d = Some l → subject l ≠ Some j → dep_heap m' !! d = Some l).
  apply (wp_while_some _ _ (λ m1, Q m1 ∧ is_Some (job_heap m1 !! j))
           (λ m1, size (dep_heap m1)) (λ m', Q m' ∧ ∃ J', _)).
  - intros m1 [(Hol & Hsp & Hk) [J HJ]]. apply wp_bind. eapply wp_job_at; [done|]. apply wp_ret.
    destruct (list_head (subject_list J)) as [d|] eqn:Hd.
    2: { apply list_head_None in Hd. by split; [|eauto]. }
    apply list_head_elem in Hd.
    destruct (subject_link _ _ _ _ _ (proj1 Hol) HJ Hd) as (l & Hl & Hsub).
    eapply wp_intro; [apply (job_dependency_free_eq d m1 l); [apply Hol|done]|].
    split; [|by apply size_free_dep]. split; [|simpl; by rewrite lookup_fmap, HJ].
    split_and!; [by apply only_links_free| |].
    + intros S HS HSj. etrans; [by apply Hsp|]. eapply keeps_free; [done|]. eauto.
    + intros d' l' Hd' Hs. simpl. rewrite lookup_delete_ne; [by apply Hk|].
      intros <-. apply Hs. rewrite (Hk d l' Hd' Hs) in Hl. by injection Hl as ->.
  - split; [|done]. split_and!; [by apply only_links_refl|by intros S _ _|done].
  - done.
Qed.

(** ** The recursion *)

(** [j] is gone from the transaction; freed if it was not installed. *)
Definition deleted X dd j m m' : Prop :=
  wf X m' ∧ shrinks X m m' ∧ (j ∉ all_jobs m') ∧
  (∀ J, eheap m !! j = Some J → installed J = false → job_heap m' !! j = None) ∧
  spares dd j m m' ∧ drags dd [] m m'.

Definition del_spec (del : JobPtr → bool → MM unit) (n : nat) : Prop :=
  ∀ X m j dd, wf X m → is_Some (job_heap m !! j) → j ∉ X → no_subjects X m →
    size (dep_heap m) + 1 < n → wp (del j dd) m (λ _ m', deleted X dd j m m').

Definition unlinked X dd j m m' : Prop :=
  wf (j :: X) m' ∧ shrinks (j :: X) m m' ∧ (j ∉ all_jobs m') ∧
  (∃ J', job_heap m' !! j = Some J' ∧ subject_list J' = [] ∧ object_list J' = []) ∧
  spares dd j m m' ∧ drags dd [] m m'.
(** ... while its links are being freed. *)
Record unlinking X dd j m m' : Prop := {
  ul_wf : wf (j :: X) m';
  ul_shrinks : shrinks (j :: X) m m';
  ul_gone : j ∉ all_jobs m';
  ul_subjects : no_subjects (j :: X) m';
  ul_spares : spares dd j m m';
  ul_drags : drags dd [j] m m' }.

Lemma elem_of_all_jobs X m j :
  wf_core X m → j ∈ all_jobs m ↔ ∃ J, eheap m !! j = Some J ∧ j ∈ chain_of (j_unit J) m.
Proof.
  intros Hwf. unfold all_jobs. rewrite elem_of_concat. split.
  - intros (l & ([u l'] & -> & Hin)%list_elem_of_fmap & Hj). simpl in Hj.
    destruct (wc_tj _ _ Hwf) as [Ho Ht]. destruct (Ht _ _ Hin) as (_ & _ & Hlive).
    destruct (Hlive j Hj) as (J & HJ & <-). exists J. split; [done|].
    apply elem_of_chain. exists l'. split; [by apply om_elem_get|done].
  - intros (J & HJ & (l & Hl%om_get_Some_elem & Hj)%elem_of_chain).
    exists l. split; [|done]. apply list_elem_of_fmap. by exists (j_unit J, l).
Qed.

(** Taking [j] off its chain. *)
Lemma chain_unlink_spec X m j J :
  wf X m → job_heap m !! j = Some J →
  let m1 := with_tj (chain_unlink (j_unit J) j (transaction_jobs m)) m in
  wf (j :: X) m1 ∧ shrinks (j :: X) m m1 ∧ (∀ k, k ∈ all_jobs m1 ↔ k ∈ all_jobs m ∧ k ≠ j).
Proof.
  intros [Hc Hl] HJ m1.
  assert (eheap m !! j = Some (erase_lists J)) as HeJ by (apply eheap_Some; eauto).
  destruct (wc_tj _ _ Hc) as [Htj1 Htj2].
  assert (∀ u l, (u, l) ∈ transaction_jobs m → l ≠ []) as Hne by (intros; by eapply Htj2).
  assert (wf (j :: X) m1) as Hw1.
  { split; [apply (wf_core_unlink X m j (erase_lists J) Hc HeJ)|]. by destruct Hl; split. }
  split_and!; [done|by apply shrinks_unlink|]. intros k.
  rewrite (elem_of_all_jobs X m k Hc), (elem_of_all_jobs (j :: X) m1 k) by apply Hw1.
  change (eheap m1) with (eheap m).
  assert (∀ u, chain_of u m1 = if decide (j_unit J = u) then list_remove j (chain_of u m)
    else chain_of u m) as Hch by (intros u; unfold chain_of, m1; simpl; by rewrite chain_unlink_get).
  setoid_rewrite Hch. split.
  - intros (K & HK & Hin). destruct (decide (j_unit J = j_unit K)).
    + apply elem_of_list_remove in Hin as [? ?]. eauto.
    + split; [eauto|]. intros ->. rewrite HeJ in HK. by injection HK as <-.
  - intros [(K & HK & Hin) Hkj]. exists K. split; [done|].
    case_decide; [by apply elem_of_list_remove|done].
Qed.

Lemma unlink_start_spec X dd n m j J :
  wf X m → job_heap m !! j = Some J → no_subjects X m → size (dep_heap m) < n →
  wp (modify (λ m, m <| transaction_jobs ::= chain_unlink (j_unit J) j |>);;
      while_some n (J ← job_at j; mret (list_head (subject_list J))) job_dependency_free) m
    (λ _ m', unlinking X dd j m m').
Proof.
  intros Hwf HJ HX Hn. destruct (chain_unlink_spec X m j J Hwf HJ) as (Hw1 & Hs1 & Ha1).
  set (m1 := with_tj _ m) in *. wp_step. wp_step.
  change (upd transaction_jobs (chain_unlink (j_unit J) j) m) with m1.
  eapply wp_mono; [apply (free_subjects_spec n (j :: X) j m1); [done|by eexists|done]|].
  intros [] m2 ((Hol & Hsp2 & Hk2) & J2 & HJ2 & HE2). destruct Hol as (Hw2 & Hs2 & He2 & Ht2).
  assert (shrinks (j :: X) m m2) as Hs by (by etrans).
  assert (all_jobs m2 = all_jobs m1) as Ha by (unfold all_jobs; by rewrite Ht2).
  split; [done|done|by rewrite Ha, Ha1; intros []| | |].
  - intros x [->|Hx]%elem_of_cons; [by eauto|].
    apply (no_subjects_shrinks X m m2); [eapply shrinks_mono; [|exact Hs]; set_solver|done|done].
  - intros S _ HSj. etrans; [|by apply Hsp2]. split; [|done]. intros k HSk Hk.
    apply Ha1. split; [done|]. by intros ->.
  - split.
    + intros _ d l x Hd _ Hsub Hd2. rewrite Ha, Ha1. intros [_ Hxj].
      rewrite (Hk2 d l) in Hd2; [done|done|congruence].
    + intros k Hk Hn' HkE. rewrite Ha, Ha1 in Hn'. destruct Hn'. split; [done|].
      intros ->. apply HkE. left.
Qed.

(** One round of the loop over the links of which [j] is the object. *)
Lemma unlink_round_spec del n X dd m m3 j d J3 :
  del_spec del n → size (dep_heap m) < n → unlinking X dd j m m3 →
  job_heap m3 !! j = Some J3 → d ∈ object_list J3 →
  wp (l ← dep_at d;
      let other := if matters l then subject l else None in
      job_dependency_free d;;
      match other with Some o => when dd (del o dd) | None => mret tt end) m3
    (λ _ m5, unlinking X dd j m m5 ∧ size (dep_heap m5) < size (dep_heap m3)).
Proof.
  intros Hdel Hn [Hw3 Hs3 Hj3 HX3 Hsp3 Hdr3] HJ3 Hd.
  destruct (object_link _ _ _ _ _ Hw3 HJ3 Hd) as (l & Hdl & Hol).
  wp_step. eapply wp_dep_at; [done|]. cbv zeta. wp_step.
  eapply wp_intro; [by apply (job_dependency_free_eq d m3 l); [apply Hw3|]|].
  set (m4 := free_dep d m3).
  assert (size (dep_heap m4) < size (dep_heap m3)) as Hsize by (by apply size_free_dep).
  assert (shrinks (j :: X) m3 m4) as Hs4 by apply shrinks_free.
  assert (wf (j :: X) m4) as Hw4 by (by apply wf_free).
  assert (spares dd j m m4) as Hsp4.
  { intros S HS HSj. etrans; [by apply Hsp3|]. eapply keeps_free; [done|]. by rewrite Hol. }
  assert (∀ m5, wf (j :: X) m5 → shrinks (j :: X) m4 m5 → spares dd j m m5 →
    drags dd [j] m3 m5 → unlinking X dd j m m5 ∧ size (dep_heap m5) < size (dep_heap m3)) as Hdone.
  { intros m5 Hw5 Hs5 Hsp5 Hdr5. pose proof (shrinks_size _ _ _ Hs5). split; [|lia].
    assert (shrinks (j :: X) m3 m5) as Hs35 by (by etrans).
    split; [done|by etrans| | |done|by eapply drags_trans].
    - intros Hin. apply Hj3. by apply (sublist_elem _ _ _ (sh_all _ _ _ Hs35)).
    - by eapply no_subjects_shrinks. }
  destruct (if matters l then subject l else None) as [o|] eqn:Ho.
  2: { apply wp_ret, Hdone; [done|reflexivity|done|]. apply (drags_free _ _ _ _ l Hdl).
       intros _ Hm x Hx. rewrite Hm, Hx in Ho. discriminate. }
  destruct dd; [|by apply wp_ret, Hdone; [done|reflexivity|done|apply (drags_free _ _ _ _ l Hdl)]].
  assert (matters l = true ∧ subject l = Some o) as [Hml Hso] by (by destruct (matters l)).
  destruct (link_lists _ (proj2 Hw3) _ _ Hdl) as [(ds & Hds & Hdin) _].
  rewrite Hso in Hds. simpl in Hds. apply fmap_Some in Hds as (O & HO & ->).
  eapply wp_mono; [apply (Hdel (j :: X))|].
  - done.
  - simpl. by rewrite lookup_fmap, HO.
  - intros Hin. destruct (HX3 o Hin) as (O' & HO' & HE). rewrite HO in HO'.
    injection HO' as <-. rewrite HE in Hdin. by apply elem_of_nil in Hdin.
  - by eapply no_subjects_shrinks.
  - pose proof (shrinks_size _ _ _ Hs3). lia.
  - intros [] m5 (Hw5 & Hs5 & Ho5 & _ & Hsp5 & Hdr5). apply Hdone; [done|done| |].
    + intros S HS HSj. etrans; [by apply Hsp4|]. apply (Hsp5 S).
      * intros _. eapply (closed_shrinks (j :: X) _ m); [by etrans|by apply HS].
      * intros HSo. apply HSj. rewrite <- Hol.
        apply (closed_shrinks (j :: X) _ m m3 Hs3 (HS eq_refl) d l o); done.
    + destruct Hdr5 as [A B]. split; [|intros k Hk Hn' _; apply (B k Hk Hn' (not_elem_of_nil k))].
      intros _ d' l' x Hd' Hm Hs Hd5. destruct (decide (d' = d)) as [->|Hne].
      * rewrite Hdl in Hd'. injection Hd' as <-. rewrite Hso in Hs. injection Hs as <-. exact Ho5.
      * apply (A eq_refl d' l' x); try done. simpl. by rewrite lookup_delete_ne.
Qed.

Lemma unlink_job_spec del n X m j dd :
  del_spec del n → wf X m → is_Some (job_heap m !! j) → no_subjects X m →
  size (dep_heap m) < n →
  wp (unlink_job_with del n j dd) m (λ _ m', unlinked X dd j m m').
Proof.
  intros Hdel Hwf [J HJ] HX Hn. unfold unlink_job_with. wp_step. eapply wp_job_at; [done|].
  pose proof (unlink_start_spec X dd n m j J Hwf HJ HX Hn) as Hst.
  apply wp_bind in Hst. wp_step. eapply wp_mono; [exact Hst|]. intros [] m1 Hm1.
  wp_step. eapply wp_mono; [exact Hm1|]. intros [] m2 Hm2.
  eapply (wp_while_some _ _ (unlinking X dd j m) (λ m3, size (dep_heap m3))
           (λ m', unlinked X dd j m m')); [|done|].
  2: { pose proof (shrinks_size _ _ _ (ul_shrinks _ _ _ _ _ Hm2)). lia. }
  intros m3 Hm3. destruct (ul_subjects _ _ _ _ _ Hm3 j) as (J3 & HJ3 & HE3); [left|].
  wp_step. eapply wp_job_at; [done|]. wp_step.
  destruct (list_head (object_list J3)) as [d|] eqn:Hd.
  - apply list_head_elem in Hd. by eapply unlink_round_spec.
  - apply list_head_None in Hd. destruct Hm3 as [Hw3 Hs3 Hj3 HX3 Hsp3 [A B]].
    split_and!; [done|done|done|by eauto|done|]. split; [done|].
    intros k Hk Hn' _ d l Hl. destruct (decide (k = j)) as [->|Hkj].
    + destruct (link_lists _ (proj2 Hw3) d l Hl) as [(ss & Hss & Hin') (ds & Hds & Hin)]. split.
      * intros Ho. rewrite Ho in Hds. unfold objects_of in Hds. rewrite HJ3 in Hds. injection Hds as <-.
        rewrite Hd in Hin. by apply elem_of_nil in Hin.
      * intros Ho. rewrite Ho in Hss. simpl in Hss. rewrite HJ3 in Hss. injection Hss as <-.
        rewrite HE3 in Hin'. by apply elem_of_nil in Hin'.
    + by apply (B k Hk Hn' ltac:(by rewrite list_elem_of_singleton) d l Hl).
Qed.

Lemma wf_mono X Y m : X ⊆ Y → wf X m → wf Y m.
Proof. intros ? [? ?]. split; [by eapply wf_core_mono|done]. Qed.

(** The end of [job_free], once nothing refers to the job. *)
Lemma free_tail_spec X m j J :
  wf (j :: X) m → job_heap m !! j = Some J → subject_list J = [] → object_list J = [] →
  installed J = false → j ∉ X → (j ∉ all_jobs m) →
  wp (J ← job_at j;
      when (in_run_queue J) (modify (λ m, m <| run_queue ::= list_remove j |>));;
      when (in_dbus_queue J) (modify (λ m, m <| dbus_job_queue ::= list_remove j |>));;
      modify (λ m, m <| job_heap ::= delete j |>)) m
    (λ _ m', wf X m' ∧ shrinks X m m' ∧ job_heap m' !! j = None ∧
      all_jobs m' = all_jobs m ∧ dep_heap m' = dep_heap m).
Proof.
  intros [Hc Hl] HJ HE HE' Hi Hx Hj.
  assert (eheap m !! j = Some (erase_lists J)) as HeJ by (apply eheap_Some; eauto).
  destruct (wc_job _ _ Hc j _ HeJ) as (U & HU & Hk). simpl in Hk. rewrite Hi in Hk.
  destruct Hk as (_ & Hr & Hd). simpl in Hr, Hd.
  wp_step. eapply wp_job_at; [done|]. rewrite Hr, Hd. do 4 wp_step.
  wp_step. change (upd job_heap (delete j) m) with (with_heap (delete j (job_heap m)) m).
  split_and!; [|by eapply shrinks_delete|simpl; by rewrite lookup_delete_eq|done..].
  split; [|by eapply wf_links_delete]. eapply wf_core_delete; [done..|].
  intros Hin. apply Hj. rewrite (elem_of_all_jobs (j :: X)) by done. eauto.
Qed.

(** [job_free] of a job that is not installed: of one that has been unlinked
    already ([X] holds it), or straight from the transaction. *)
Lemma job_free_uninstalled_spec del n X m j J :
  del_spec del n → wf X m → job_heap m !! j = Some J → installed J = false →
  no_subjects X m → size (dep_heap m) < n →
  ∀ Y, (∀ k, k ∈ j :: X → k ∈ j :: Y) → j ∉ Y → Y ⊆ X →
  wp (job_free_with del n j) m
    (λ _ m', wf Y m' ∧ shrinks Y m m' ∧ (j ∉ all_jobs m') ∧ job_heap m' !! j = None ∧
      spares true j m m' ∧ drags true [] m m').
Proof.
  intros Hdel Hwf HJ Hi Hns Hn Y HXY HjY HYX. unfold job_free_with.
  wp_step. eapply wp_job_at; [done|]. rewrite Hi. wp_step. wp_step. wp_step. wp_step.
  eapply wp_mono; [by eapply (unlink_job_spec del n X)|].
  intros [] m1 (Hw1 & Hs1 & Hj1 & (J1 & HJ1 & HE1 & HE1') & Hsp1 & Hdr1).
  apply (wf_mono _ (j :: Y)) in Hw1; [|done].
  destruct (sh_heap _ _ _ Hs1 j J1 HJ1) as (J0 & HJ0 & HE & _).
  rewrite HJ in HJ0. injection HJ0 as <-.
  assert (installed J1 = false) as Hi1 by (pose proof (f_equal installed HE); simpl in *; congruence).
  eapply wp_mono; [by apply (free_tail_spec Y m1 j J1)|].
  intros [] m2 (Hw2 & Hs2 & HJ2 & Ha2 & Hd2). split_and!; [done| |by rewrite Ha2|done| |].
  - etrans; [|exact Hs2]. eapply shrinks_mono; [|exact Hs1]. intros k Hk. right. by apply HYX.
  - intros S HS HSj. etrans; [by apply Hsp1|]. by apply keeps_eq.
  - destruct Hdr1 as [A B]. split; by rewrite Ha2, Hd2.
Qed.

Lemma delete_job_rec_spec n : del_spec (transaction_delete_job_rec n) n.
Proof.
  induction n as [|n IH]; intros X m j dd Hwf [J HJ] Hx HX Hn; [lia|].
  simpl. wp_step. eapply wp_mono; [eapply (unlink_job_spec _ n X); eauto; lia|].
  intros [] m1 (Hw1 & Hs1 & Hj1 & (J1 & HJ1 & HE1 & HE1') & Hsp1 & Hdr1).
  destruct (sh_heap _ _ _ Hs1 j J1 HJ1) as (J0 & HJ0 & HE & _).
  rewrite HJ in HJ0. injection HJ0 as <-.
  assert (installed J1 = installed J) as Hi by exact (f_equal installed HE).
  wp_step. eapply wp_job_at; [done|]. rewrite Hi. destruct (installed J) eqn:HiJ; cbn [negb]; wp_step; try (apply wp_ret).
  - split_and!.
    + destruct Hw1 as [Hc1 Hl1]. split; [|done]. eapply wf_core_weaken; [|done].
      intros K (K0 & HK0 & ->)%eheap_Some. left. simpl. congruence.
    + eapply shrinks_mono; [|done]. set_solver.
    + done.
    + intros K (K0 & HK0 & ->)%eheap_Some. simpl. congruence.
    + done.
    + done.
  - assert (no_subjects (j :: X) m1) as HX1.
    { intros x [->|Hin]%elem_of_cons; [by eauto|].
      eapply (no_subjects_shrinks X m); [eapply shrinks_mono; [|done]; set_solver|done..]. }
    pose proof (shrinks_size _ _ _ Hs1).
    eapply wp_mono; [eapply (job_free_uninstalled_spec _ n (j :: X) m1 j J1)
      with (Y := X); try done; [lia|set_solver|set_solver]|].
    intros [] m2 (Hw2 & Hs2 & Hj2 & HJ2 & Hsp2 & Hdr2).
    assert (shrinks X m m1) as Hs1' by (eapply shrinks_mono; [|exact Hs1]; set_solver).
    split_and!; try done; [by etrans| |].
    2: { eapply drags_trans; [done..|]. destruct Hdr2 as [A B]. split; [|done].
         intros _. by apply A. }
    intros S HS HSj. etrans; [by apply Hsp1|].
    apply (keeps_mono S (λ k, k ≠ j)); [by intros k HSk ->|]. apply Hsp2; [|by intros []].
    intros _ d l o Hd _ _ _ Ho. destruct Hw1 as [_ Hl1].
    destruct (link_lists _ Hl1 d l Hd) as [_ (ds & Hds & Hin)].
    rewrite Ho in Hds. unfold objects_of in Hds. rewrite HJ1 in Hds.
    injection Hds as <-. rewrite HE1' in Hin. by apply elem_of_nil in Hin.
Qed.

(** Links run between jobs of the transaction only. *)
Definition inside m : Prop := ∀ d l, dep_heap m !! d = Some l →
  object l ∈ all_jobs m ∧ ∀ s, subject l = Some s → s ∈ all_jobs m.
Lemma inside_drags X dd m m' : shrinks X m m' → drags dd [] m m' → inside m → inside m'.
Proof.
  intros Hs [_ B] Hin d l Hd. pose proof (lookup_weaken _ _ _ _ Hd (sh_deps _ _ _ Hs)) as Hd0.
  destruct (Hin d l Hd0) as [Ho Hsub]. split.
  - destruct (decide (object l ∈ all_jobs m')) as [|Hn]; [done|].
    by destruct (B _ Ho Hn (not_elem_of_nil _) d l Hd).
  - intros s Es. destruct (decide (s ∈ all_jobs m')) as [|Hn]; [done|].
    by destruct (B _ (Hsub s Es) Hn (not_elem_of_nil _) d l Hd).
Qed.

(** The function returns, whatever links the transaction has, and leaves the
    invariant intact. *)
Lemma transaction_delete_job_wp m j dd :
  wf [] m → is_Some (job_heap m !! j) →
  wp (transaction_delete_job j dd) m (λ _ m', deleted [] dd j m m').
Proof.
  intros Hwf Hj. unfold transaction_delete_job, delete_fuel. wp_step. wp_step.
  apply delete_job_rec_spec; [done|done|by intros ?%elem_of_nil|by intros ? ?%elem_of_nil|lia].
Qed.

(** ** The core of a state

    What the invariant looks at: everything but the jobs' types, states,
    marks and colours.  States with the same core are equivalent for it. *)

Definition core_of (J : Job) : Job :=
  J <| marker := None |> <| generation := 0%Z |> <| j_type := JOB_START |>
    <| j_state := JOB_WAITING |> <| timer_watch := false |> <| j_result := JOB_DONE |>
    <| matters_to_anchor := false |> <| override := false |> <| ignore_order := false |>.
Definition same_core m m' : Prop :=
  with_heap (job_heap m) m' = m ∧ core_of <$> job_heap m' = core_of <$> job_heap m.

#[global] Instance same_core_equiv : Equivalence same_core.
Proof.
  split.
  - intros m. split; [by destruct m|done].
  - intros m m' [E1 E2]. split; [|done]. rewrite <- E1. by destruct m'.
  - intros m1 m2 m3 [E1 E2] [E3 E4]. split; [|congruence].
    transitivity (with_heap (job_heap m1) m2); [|done]. rewrite <- E3. by destruct m3.
Qed.

Lemma same_core_job m m' j J :
  same_core m m' → job_heap m !! j = Some J →
  ∃ J', job_heap m' !! j = Some J' ∧ core_of J' = core_of J.
Proof.
  intros [_ E] HJ. pose proof (f_equal (lookup j) E) as Ej. rewrite !lookup_fmap, HJ in Ej.
  apply fmap_Some in Ej as (J' & ? & ?). eauto.
Qed.
Lemma same_core_fields m m' :
  same_core m m' → dep_heap m' = dep_heap m ∧ transaction_anchor m' = transaction_anchor m ∧
    transaction_jobs m' = transaction_jobs m ∧ units m' = units m ∧ jobs m' = jobs m ∧
    run_queue m' = run_queue m ∧ dbus_job_queue m' = dbus_job_queue m ∧ next_ptr m' = next_ptr m.
Proof. intros [<- _]. done. Qed.

Lemma same_core_subjects m m' s : same_core m m' → subjects_of m' s = subjects_of m s.
Proof.
  intros Hs. destruct s as [j|]; simpl; [|by destruct (same_core_fields _ _ Hs) as (_ & -> & _)].
  destruct Hs as [_ E]. pose proof (f_equal (lookup j) E) as Ej. rewrite !lookup_fmap in Ej.
  destruct (job_heap m !! j), (job_heap m' !! j); try done.
  apply (f_equal (fmap (λ J, (subject_list J, object_list J)))) in Ej. simpl in *. congruence.
Qed.
Lemma same_core_objects m m' j : same_core m m' → objects_of m' j = objects_of m j.
Proof.
  intros [_ E]. unfold objects_of. pose proof (f_equal (lookup j) E) as Ej. rewrite !lookup_fmap in Ej.
  destruct (job_heap m !! j), (job_heap m' !! j); try done.
  apply (f_equal (fmap (λ J, (subject_list J, object_list J)))) in Ej. simpl in *. congruence.
Qed.

(** The core of the invariant does not look at the links either. *)
Record same_frame m m' : Prop := {
  sf_units : units m' = units m;
  sf_jobs : jobs m' = jobs m;
  sf_tj : transaction_jobs m' = transaction_jobs m;
  sf_runq : run_queue m' = run_queue m;
  sf_dbusq : dbus_job_queue m' = dbus_job_queue m;
  sf_next : next_ptr m ≤ next_ptr m';
  sf_deps : ∀ d, is_Some (dep_heap m' !! d) → is_Some (dep_heap m !! d) ∨ d < next_ptr m';
  sf_eheap : core_of <$> eheap m' = core_of <$> eheap m }.

Lemma same_frame_job m m' j J :
  core_of <$> eheap m' = core_of <$> eheap m → eheap m !! j = Some J → ∃ J', eheap m' !! j = Some J' ∧
    j_unit J' = j_unit J ∧ j_id J' = j_id J ∧ installed J' = installed J ∧
    in_run_queue J' = in_run_queue J ∧ in_dbus_queue J' = in_dbus_queue J.
Proof.
  intros Hs HJ. pose proof (f_equal (lookup j) Hs) as Ej.
  rewrite !lookup_fmap, HJ in Ej. apply fmap_Some in Ej as (J' & HJ' & E). exists J'. split; [done|].
  pose proof (f_equal j_unit E). pose proof (f_equal j_id E). pose proof (f_equal installed E).
  pose proof (f_equal in_run_queue E). pose proof (f_equal in_dbus_queue E). done.
Qed.

Lemma wf_core_frame X m m' : same_frame m m' → wf_core X m → wf_core X m'.
Proof.
  intros Hm Hc. pose proof (λ j J, same_frame_job m m' j J (sf_eheap _ _ Hm)) as Hfwd.
  pose proof (λ j J, same_frame_job m' m j J (eq_sym (sf_eheap _ _ Hm))) as Hback.
  destruct Hm as [Eu Ej Et Er Eb En Ed _].
  split.
  - rewrite Eu. intros u U HU. destruct (wc_unit _ _ Hc u U HU) as (? & ? & Hk).
    split_and!; [done..|]. intros j Hj. destruct (Hk j Hj) as (J & HJ & ? & ?).
    destruct (Hfwd j J HJ) as (J' & ? & ? & ? & ? & _). exists J'. split_and!; congruence.
  - intros j J' HJ'. destruct (Hback j J' HJ') as (J & HJ & <- & <- & <- & <- & <-).
    rewrite Eu, Ej. unfold chain_of. rewrite Et. by apply (wc_job _ _ Hc j J).
  - rewrite Ej. destruct (wc_jobs _ _ Hc) as [? Hk]. split; [done|]. intros id j Hin.
    destruct (Hk id j Hin) as (J & HJ & ? & ?).
    destruct (Hfwd j J HJ) as (J' & ? & ? & ? & ? & _). exists J'. split_and!; congruence.
  - rewrite Et. destruct (wc_tj _ _ Hc) as [? Hk]. split; [done|]. intros u l Hin.
    destruct (Hk u l Hin) as (? & ? & Hlive). split_and!; [done..|]. intros j Hj.
    destruct (Hlive j Hj) as (J & HJ & ?).
    destruct (Hfwd j J HJ) as (J' & ? & ? & _). exists J'. split; congruence.
  - rewrite Er. destruct (wc_runq _ _ Hc) as [? Hk]. split; [done|]. intros j. rewrite Hk.
    split; intros (J & HJ & ?); [destruct (Hfwd j J HJ) as (J' & ? & _ & _ & _ & ? & _)
      |destruct (Hback j J HJ) as (J' & ? & _ & _ & _ & ? & _)]; exists J'; (split; congruence).
  - rewrite Eb. destruct (wc_dbusq _ _ Hc) as [? Hk]. split; [done|]. intros j. rewrite Hk.
    split; intros (J & HJ & ?); [destruct (Hfwd j J HJ) as (J' & ? & _ & _ & _ & _ & ?)
      |destruct (Hback j J HJ) as (J' & ? & _ & _ & _ & _ & ?)]; exists J'; (split; congruence).
  - destruct (wc_ptr _ _ Hc) as [Hp Hq]. split.
    + intros j [J' HJ']. destruct (Hback j J' HJ') as (J & HJ & _).
      assert (j < next_ptr m) by (apply Hp; by exists J). lia.
    + intros d Hd. destruct (Ed d Hd) as [Hd'|?]; [|done].
      assert (d < next_ptr m) by (by apply Hq). lia.
Qed.

Lemma same_core_frame m m' : same_core m m' → same_frame m m'.
Proof.
  intros Hm. destruct (same_core_fields _ _ Hm) as (Ed & Ea & Et & Eu & Ej & Er & Eb & En).
  split; try done; [by rewrite En|intros d; rewrite Ed; auto|]. destruct Hm as [_ E]. unfold eheap.
  assert (∀ h : gmap JobPtr Job, core_of <$> (erase_lists <$> h) = erase_lists <$> (core_of <$> h)) as Hc.
  { intros h. rewrite <- !map_fmap_compose. by apply map_fmap_ext. }
  by rewrite !Hc, E.
Qed.
Lemma wf_core_same X m m' : same_core m m' → wf_core X m → wf_core X m'.
Proof. intros Hm. by apply wf_core_frame, same_core_frame. Qed.

#[global] Instance wf_same_core X : Proper (same_core ==> iff) (wf X).
Proof.
  assert (∀ m m', same_core m m' → wf X m → wf X m') as Hw.
  { intros m m' Hm [Hc [H1 H2 H3]]. split; [by eapply wf_core_same|].
    destruct (same_core_fields _ _ Hm) as (Ed & _). split; rewrite Ed.
    - intros d l Hd. rewrite (same_core_subjects _ _ _ Hm), (same_core_objects _ _ _ Hm). eauto.
    - intros s ds. rewrite (same_core_subjects _ _ _ Hm). eauto.
    - intros j ds. rewrite (same_core_objects _ _ _ Hm). eauto. }
  intros m m' Hm. split; apply Hw; [done|by symmetry].
Qed.

Lemma same_core_update m j f :
  (∀ J, job_heap m !! j = Some J → core_of (f J) = core_of J) →
  same_core m (m <| job_heap ::= alter f j |>).
Proof.
  intros Hf. split; [by destruct m|]. simpl. apply map_eq. intros k.
  rewrite !lookup_fmap, lookup_alter_if. destruct (job_heap m !! k) as [K|] eqn:HK; [|done].
  simpl. case_decide; [subst; f_equal; auto|done].
Qed.

(** ** What the passes over a transaction leave alone *)

Definition ident (J : Job) : UnitPtr * Z * bool := (j_unit J, j_id J, installed J).

(** No job comes or changes its identity, installed jobs stay and keep type and
    state, links stay inside the transaction. *)
Record persists m m' : Prop := {
  ps_rest : rest m' = rest m;
  ps_job : ∀ k K', job_heap m' !! k = Some K' → ∃ K, job_heap m !! k = Some K ∧ ident K' = ident K;
  ps_installed : ∀ k K, job_heap m !! k = Some K → installed K = true →
    ∃ K', job_heap m' !! k = Some K' ∧ j_type K' = j_type K ∧ j_state K' = j_state K;
  ps_inside : inside m → inside m' }.

#[global] Instance persists_preorder : PreOrder persists.
Proof.
  split.
  - intros m. split; eauto.
  - intros m1 m2 m3 [R1 J1 L1 I1] [R2 J2 L2 I2]. split; [congruence| | |auto].
    + intros k K3 HK3. destruct (J2 k K3 HK3) as (K2 & HK2 & E2). destruct (J1 k K2 HK2) as (K1 & HK1 & E1).
      exists K1. split; [done|congruence].
    + intros k K1 HK1 Hi. destruct (L1 k K1 HK1 Hi) as (K2 & HK2 & T2 & S2).
      destruct (J1 k K2 HK2) as (K1' & HK1' & E). rewrite HK1 in HK1'. injection HK1' as <-.
      destruct (L2 k K2 HK2) as (K3 & HK3 & T3 & S3); [by injection E as _ _ ->|].
      exists K3. split_and!; [done|congruence..].
Qed.

Lemma shrinks_ident X m m' k K' : shrinks X m m' → job_heap m' !! k = Some K' →
  ∃ K, job_heap m !! k = Some K ∧ ident K' = ident K ∧ j_type K' = j_type K ∧ j_state K' = j_state K.
Proof.
  intros Hs HK'. destruct (sh_heap _ _ _ Hs k K' HK') as (K & HK & E & _). exists K.
  pose proof (f_equal ident E). pose proof (f_equal j_type E). pose proof (f_equal j_state E). done.
Qed.
Lemma persists_shrinks m m' : shrinks [] m m' → (inside m → inside m') → persists m m'.
Proof.
  intros Hs Hi. split; [apply Hs| | |done].
  - intros k K' HK'. destruct (shrinks_ident _ m m' k K' Hs HK') as (K & ? & ? & _). eauto.
  - intros k K HK Hk. destruct (sh_live _ _ _ Hs k K HK (or_introl Hk)) as [K' HK'].
    destruct (shrinks_ident _ m m' k K' Hs HK') as (K0 & HK0 & _ & ?). rewrite HK in HK0. injection HK0 as <-.
    eauto.
Qed.

(** The same for a change of the marks and colours of jobs. *)
Definition colourless (J : Job) : Job :=
  J <| marker := None |> <| generation := 0%Z |> <| matters_to_anchor := false |>.
Lemma persists_colours m m' :
  with_heap (job_heap m) m' = m → colourless <$> job_heap m' = colourless <$> job_heap m → persists m m'.
Proof.
  intros E Ec.
  assert (∀ m1 m2 k K, colourless <$> job_heap m1 = colourless <$> job_heap m2 → job_heap m1 !! k = Some K →
    ∃ K', job_heap m2 !! k = Some K' ∧ colourless K' = colourless K) as Hk.
  { intros m1 m2 k K Hm HK. pose proof (f_equal (lookup k) Hm) as Ek. rewrite !lookup_fmap, HK in Ek.
    symmetry in Ek. apply fmap_Some in Ek as (K' & ? & ?). eauto. }
  assert (all_jobs m' = all_jobs m ∧ dep_heap m' = dep_heap m) as [Ea Ed] by (by rewrite <- E).
  split.
  - rewrite <- E. by destruct m'.
  - intros k K' HK'. destruct (Hk m' m k K' Ec HK') as (K & HK & EK). exists K. split; [done|].
    exact (eq_sym (f_equal ident EK)).
  - intros k K HK _. destruct (Hk m m' k K (eq_sym Ec) HK) as (K' & HK' & EK). exists K'.
    pose proof (f_equal j_type EK). pose proof (f_equal j_state EK). done.
  - unfold inside. by rewrite Ea, Ed.
Qed.
End wf.
