(* ===== verification/WfCheck.v ===== *)
(** * Deciding the invariant, and a small system to try things on

    [wf_check] computes the invariant of Wf.v on a concrete state;
    [wf_check_sound] says that it may be trusted.  [Demo] has the units and
    states that the examples and the witnesses of the development run on. *)

From stdpp Require Import base gmap strings list fin_maps.
From Stdlib Require Import ZArith Lia.
From S2P Require Import Prelude CString JobType OrderedMap Engine Transaction Links Wf.

Definition map_all {A} (f : nat → A → bool) (h : gmap nat A) : bool :=
  forallb (λ e, f e.1 e.2) (map_to_list h).

Lemma map_all_true {A} (f : nat → A → bool) (h : gmap nat A) :
  map_all f h = true → ∀ i x, h !! i = Some x → f i x = true.
Proof.
  unfold map_all. rewrite forallb_forall. intros Hf i x Hi.
  apply (Hf (i, x)). by apply list_elem_of_In, elem_of_map_to_list.
Qed.

Lemma forallb_elem {A} (f : A → bool) l : forallb f l = true → ∀ x, x ∈ l → f x = true.
Proof. rewrite forallb_forall. intros Hf x Hx. by apply Hf, list_elem_of_In. Qed.

Definition all_dependencies : list UnitDependency :=
  [UNIT_REQUIRES; UNIT_REQUIRES_OVERRIDABLE; UNIT_REQUISITE; UNIT_REQUISITE_OVERRIDABLE;
   UNIT_WANTS; UNIT_BIND_TO; UNIT_REQUIRED_BY; UNIT_REQUIRED_BY_OVERRIDABLE; UNIT_WANTED_BY;
   UNIT_BOUND_BY; UNIT_CONFLICTS; UNIT_CONFLICTED_BY; UNIT_BEFORE; UNIT_AFTER;
   UNIT_ON_FAILURE; UNIT_REFERENCES; UNIT_REFERENCED_BY].

Lemma elem_of_all_dependencies d : d ∈ all_dependencies.
Proof. destruct d; unfold all_dependencies; rewrite !elem_of_cons; tauto. Qed.

Section check.
Context {P : Type} `{UnitVTable P}.
Implicit Types m : Manager P.

(** [f] holds of the job behind a pointer that is not dangling. *)
Definition job_ok m (j : JobPtr) (f : Job → bool) : bool :=
  match job_heap m !! j with Some J => f J | None => false end.
Definition dep_ok m (d : DepPtr) (f : JobDependency → bool) : bool :=
  match dep_heap m !! d with Some l => f l | None => false end.

Definition check_unit m (u : UnitPtr) (U : Unit P) : bool :=
  forallb (λ d, forallb (λ v, bool_decide (is_Some (units m !! v))) (dependencies U d))
    all_dependencies &&
  bool_decide (is_Some (active_state_in (units m) u)) &&
  match u_job U with
  | Some j => job_ok m j (λ J, bool_decide (j_unit J = u) && installed J)
  | None => true
  end.
Definition check_job m (j : JobPtr) (J : Job) : bool :=
  match units m !! j_unit J with
  | Some U =>
      if installed J then bool_decide (u_job U = Some j) && bool_decide ((j_id J, j) ∈ jobs m)
      else bool_decide (j ∈ chain_of (j_unit J) m) && negb (in_run_queue J)
           && negb (in_dbus_queue J)
  | None => false
  end.
Definition check_queue m (q : list JobPtr) (f : Job → bool) : bool :=
  bool_decide (NoDup q) && forallb (λ j, job_ok m j f) q &&
  map_all (λ j J, negb (f J) || bool_decide (j ∈ q)) (job_heap m).
Definition wf_core_check m : bool :=
  map_all (check_unit m) (units m) && map_all (check_job m) (job_heap m) &&
  (bool_decide (NoDup (om_keys (jobs m))) &&
   forallb (λ e, job_ok m e.2 (λ J, bool_decide (j_id J = e.1) && installed J)) (jobs m)) &&
  (bool_decide (NoDup (om_keys (transaction_jobs m))) &&
   forallb (λ e, bool_decide (e.2 ≠ []) && bool_decide (NoDup e.2) &&
                 forallb (λ j, job_ok m j (λ J, bool_decide (j_unit J = e.1))) e.2)
     (transaction_jobs m)) &&
  check_queue m (run_queue m) in_run_queue && check_queue m (dbus_job_queue m) in_dbus_queue &&
  (map_all (λ j _, bool_decide (j < next_ptr m)) (job_heap m) &&
   map_all (λ d _, bool_decide (d < next_ptr m)) (dep_heap m)).

Definition check_list m (ds : list DepPtr) (f : JobDependency → bool) : bool :=
  bool_decide (NoDup ds) && forallb (λ d, dep_ok m d f) ds.
Definition wf_links_check m : bool :=
  map_all (λ d l,
    match subjects_of m (subject l) with Some ds => bool_decide (d ∈ ds) | None => false end &&
    match objects_of m (object l) with Some ds => bool_decide (d ∈ ds) | None => false end)
    (dep_heap m) &&
  check_list m (transaction_anchor m) (λ l, bool_decide (subject l = None)) &&
  map_all (λ j J,
    check_list m (subject_list J) (λ l, bool_decide (subject l = Some j)) &&
    check_list m (object_list J) (λ l, bool_decide (object l = j))) (job_heap m).

Definition wf_check m : bool := wf_core_check m && wf_links_check m.

Lemma job_ok_true m j f : job_ok m j f = true → ∃ J, job_heap m !! j = Some J ∧ f J = true.
Proof. unfold job_ok. destruct (job_heap m !! j); [eauto|done]. Qed.
Lemma dep_ok_true m d f : dep_ok m d f = true → ∃ l, dep_heap m !! d = Some l ∧ f l = true.
Proof. unfold dep_ok. destruct (dep_heap m !! d); [eauto|done]. Qed.

Lemma check_queue_sound m q f :
  (∀ J, f (erase_lists J) = f J) → check_queue m q f = true →
  NoDup q ∧ ∀ j, j ∈ q ↔ ∃ J, eheap m !! j = Some J ∧ f J = true.
Proof.
  intros Hf. unfold check_queue. rewrite !andb_true_iff, bool_decide_eq_true.
  intros [[Hnd Hall] Hmap]. split; [done|]. intros j. split.
  - intros Hj. destruct (job_ok_true _ _ _ (forallb_elem _ _ Hall j Hj)) as (J & HJ & E).
    exists (erase_lists J). rewrite Hf. split; [apply eheap_Some; eauto|done].
  - intros (J & (J0 & HJ & ->)%eheap_Some & E). rewrite Hf in E.
    pose proof (map_all_true _ _ Hmap j J0 HJ) as Hj. simpl in Hj. rewrite E in Hj.
    by apply bool_decide_eq_true in Hj.
Qed.
Lemma check_list_sound m ds f :
  check_list m ds f = true → NoDup ds ∧ ∀ d, d ∈ ds → ∃ l, dep_heap m !! d = Some l ∧ f l = true.
Proof.
  unfold check_list. rewrite andb_true_iff, bool_decide_eq_true. intros [Hnd Hall].
  split; [done|]. intros d Hd. by apply dep_ok_true, (forallb_elem _ _ Hall).
Qed.

Lemma wf_links_check_sound m : wf_links_check m = true → wf_links m.
Proof.
  unfold wf_links_check. rewrite !andb_true_iff. intros [[Hd Ha] Hj]. split.
  - intros d l Hl. pose proof (map_all_true _ _ Hd d l Hl) as E. simpl in E.
    apply andb_true_iff in E as [E1 E2].
    destruct (subjects_of m (subject l)) as [ds1|]; [|done].
    destruct (objects_of m (object l)) as [ds2|]; [|done].
    apply bool_decide_eq_true in E1, E2. split; by eexists.
  - intros [j|] ds.
    + simpl. intros (J & HJ & ->)%fmap_Some.
      pose proof (map_all_true _ _ Hj j J HJ) as E. simpl in E.
      apply andb_true_iff in E as [[? E]%check_list_sound _].
      split; [done|]. intros d Hin. destruct (E d Hin) as (l & ? & ?%bool_decide_eq_true). eauto.
    + simpl. intros [= <-]. apply check_list_sound in Ha as [? E].
      split; [done|]. intros d Hin. destruct (E d Hin) as (l & ? & ?%bool_decide_eq_true). eauto.
  - unfold objects_of. intros j ds (J & HJ & ->)%fmap_Some.
    pose proof (map_all_true _ _ Hj j J HJ) as E. simpl in E.
    apply andb_true_iff in E as [_ [? E]%check_list_sound].
    split; [done|]. intros d Hin. destruct (E d Hin) as (l & ? & ?%bool_decide_eq_true). eauto.
Qed.

Lemma check_unit_sound m u U :
  check_unit m u U = true →
  (∀ d v, v ∈ dependencies U d → is_Some (units m !! v)) ∧
  is_Some (active_state_in (units m) u) ∧
  (∀ j, u_job U = Some j → ∃ J, eheap m !! j = Some J ∧ j_unit J = u ∧ installed J = true).
Proof.
  unfold check_unit. rewrite !andb_true_iff, bool_decide_eq_true. intros [[Hd Ha] Hj].
  split_and!; [|done|].
  - intros d v Hv. pose proof (forallb_elem _ _ Hd d (elem_of_all_dependencies d)) as E.
    apply (forallb_elem _ _ E), bool_decide_eq_true in Hv. done.
  - intros j Ej. rewrite Ej in Hj. apply job_ok_true in Hj as (J & HJ & E).
    apply andb_true_iff in E as [?%bool_decide_eq_true ?].
    exists (erase_lists J). split; [apply eheap_Some; eauto|done].
Qed.
Lemma check_job_sound m j J :
  check_job m j J = true →
  ∃ U, units m !! j_unit J = Some U ∧
    (if installed J then u_job U = Some j ∧ (j_id J, j) ∈ jobs m
     else (j ∈ chain_of (j_unit J) m ∨ j ∈ []) ∧ in_run_queue J = false
          ∧ in_dbus_queue J = false).
Proof.
  unfold check_job. destruct (units m !! j_unit J) as [U|]; [|done]. intros E. exists U.
  split; [done|]. destruct (installed J).
  - by apply andb_true_iff in E as [?%bool_decide_eq_true ?%bool_decide_eq_true].
  - apply andb_true_iff in E as [[?%bool_decide_eq_true ?%negb_true_iff]%andb_true_iff
      ?%negb_true_iff]. auto.
Qed.

Lemma wf_check_sound m : wf_check m = true → wf [] m.
Proof.
  unfold wf_check, wf_core_check. rewrite !andb_true_iff, !bool_decide_eq_true.
  intros [[[[[[[Hu Hj] [Hj1 Hj2]] [Ht1 Ht2]] Hr] Hd] [Hp1 Hp2]] Hl].
  split; [|by apply wf_links_check_sound]. split.
  - intros u U HU. by apply check_unit_sound, (map_all_true _ _ Hu).
  - intros j J (J0 & HJ & ->)%eheap_Some. apply (check_job_sound m j J0).
    by apply (map_all_true _ _ Hj).
  - split; [done|]. intros id j Hin. pose proof (forallb_elem _ _ Hj2 _ Hin) as E.
    apply job_ok_true in E as (J & HJ & [?%bool_decide_eq_true ?]%andb_true_iff).
    exists (erase_lists J). split; [apply eheap_Some; eauto|done].
  - split; [done|]. intros u l Hin. pose proof (forallb_elem _ _ Ht2 _ Hin) as E. simpl in E.
    apply andb_true_iff in E as [[?%bool_decide_eq_true ?%bool_decide_eq_true]%andb_true_iff E].
    split_and!; [done..|]. intros j Hjl. pose proof (forallb_elem _ _ E j Hjl) as Ej.
    apply job_ok_true in Ej as (J & HJ & ?%bool_decide_eq_true).
    exists (erase_lists J). split; [apply eheap_Some; eauto|done].
  - by apply check_queue_sound in Hr.
  - by apply check_queue_sound in Hd.
  - split.
    + intros j [J (J0 & HJ & _)%eheap_Some].
      by apply (map_all_true _ _ Hp1), bool_decide_eq_true in HJ.
    + intros d [l Hdl]. by apply (map_all_true _ _ Hp2), bool_decide_eq_true in Hdl.
Qed.
End check.

(** ** A unit type for examples: its state is the private data, and start and
    stop jump to it *)
Module Demo.
#[export] Instance demo_vtable : UnitVTable UnitActiveState := {|
  vt_active_state U := priv U;
  vt_has_start _ := true;
  vt_start u := update_unit u (λ U, U <| priv := UNIT_ACTIVE |>);; mret 1%Z;
  vt_has_stop _ := true;
  vt_stop u := update_unit u (λ U, U <| priv := UNIT_INACTIVE |>);; mret 1%Z;
  vt_has_reload _ := false;
  vt_reload _ := mret (- EBADR)%Z;
  vt_can_reload _ := false;
  vt_no_gc _ := false;
  vt_check_gc _ := false;
  vt_following _ _ := None;
  vt_following_set _ _ := [];
  vt_state_changed _ _ := mret tt;
  vt_conditions_hold _ _ := true |}.

(** No dependencies. *)
Definition nodeps : UnitDependency → list UnitPtr := λ _, [].
Definition dep (d : UnitDependency) (l : list UnitPtr) (f : UnitDependency → list UnitPtr)
    : UnitDependency → list UnitPtr := λ d', if decide (d' = d) then l else f d'.

Definition unit {P} (id : string) (deps : UnitDependency → list UnitPtr) (j : option JobPtr)
    (s : P) : Unit P := {|
  u_type := Some UNIT_TARGET; load_state := UNIT_LOADED; merged_into := None; u_id := id;
  u_instance := None; names := [id]; dependencies := deps; u_job := j; job_timeout := 0;
  condition_result := true; condition_timestamp := no_timestamp; inactive_exit_timestamp := no_timestamp;
  active_enter_timestamp := no_timestamp; active_exit_timestamp := no_timestamp;
  inactive_enter_timestamp := no_timestamp; deserialized_job := None; gc_marker := 0; load_error := 0;
  stop_when_unneeded := false; default_dependencies := true; allow_isolate := true;
  on_failure_isolate := false; ignore_on_isolate := false; in_load_queue := false;
  u_in_dbus_queue := false; in_cleanup_queue := false; in_gc_queue := false;
  sent_dbus_new_signal := false; u_no_gc := false; in_audit := false;
  description := None; fragment_path := None; priv := s |}.

Definition job (u : UnitPtr) (t : JobType) (subj obj : list DepPtr) (id : Z) : Job := {|
  j_unit := u; subject_list := subj; object_list := obj; marker := None; generation := 0;
  j_id := id; j_type := t; j_state := JOB_WAITING; timer_watch := false; j_result := JOB_DONE;
  installed := false; in_run_queue := false; matters_to_anchor := false; override := false;
  in_dbus_queue := false; ignore_order := false |}.

Definition manager {P} (us : list (UnitPtr * Unit P)) (js : list (JobPtr * Job))
    (ds : list (DepPtr * JobDependency)) (ijs : list (Z * JobPtr))
    (tj : list (UnitPtr * list JobPtr)) (anchor : list DepPtr) : Manager P := {|
  units := list_to_map us; unit_names := (λ e, (u_id e.2, e.1)) <$> us;
  job_heap := list_to_map js; dep_heap := list_to_map ds; jobs := ijs;
  transaction_jobs := tj; transaction_anchor := anchor; load_queue := []; run_queue := [];
  dbus_unit_queue := []; dbus_job_queue := []; cleanup_queue := []; gc_queue := [];
  n_in_gc_queue := 0; gc_queue_timestamp := 0; m_gc_marker := 1; current_job_id := 100;
  n_installed_jobs := 0; n_failed_jobs := 0; n_reloading := 0; taint_usr := false;
  initrd_timestamp := no_timestamp; startup_timestamp := no_timestamp; finish_timestamp := no_timestamp;
  dispatching_run_queue := false; dispatching_load_queue := false; has_subscriber := false; next_ptr := 100; watch_pids := [];
  asked := 0; oom := [];
  wall_clock := 5000; clock := 1000 |}.

(** "a" is to start and wants "b" to stop, which is running; "c" is to start
    although it runs. *)
Definition m0 : Manager UnitActiveState :=
  manager
    [(1, unit "a.target" nodeps None UNIT_INACTIVE); (2, unit "b.target" nodeps None UNIT_ACTIVE);
     (3, unit "c.target" nodeps None UNIT_ACTIVE)]
    [(11, job 1 JOB_START [22; 23] [21] 1); (12, job 2 JOB_STOP [] [22] 2);
     (13, job 3 JOB_START [] [23] 3)]
    [(21, mkJobDependency None 11 true false); (22, mkJobDependency (Some 11) 12 false true);
     (23, mkJobDependency (Some 11) 13 true false)]
    [] [(1, [11]); (2, [12]); (3, [13])] [21].

Lemma m0_wf : wf [] m0.
Proof. apply wf_check_sound. vm_compute. reflexivity. Qed.
End Demo.
