(* ===== verification/Passes.v ===== *)
(** * The passes that drop jobs from a transaction (src/manager.c)

    [transaction_minimize_impact], [transaction_drop_redundant] and
    [transaction_collect_garbage] share one shape, [delete_while]: they
    terminate, keep the invariant, remove nothing but what a deletion may
    remove, and leave no job that their test would still select. *)

From stdpp Require Import base gmap strings list fin_maps.
From Stdlib Require Import ZArith Lia.
From S2P Require Import Prelude CString JobType OrderedMap Engine Transaction Links Wf WfCheck.

Section passes.
Context {P : Type} `{UnitVTable P}.
Abbreviation MM := (M (Manager P)).
Implicit Types m : Manager P.

(** [c] only reads, and yields [a]. *)
Definition reads {A} (c : MM A) m (a : A) : Prop := c m = Ret a m.

Lemma reads_bind {A B} (c : MM A) (f : A → MM B) m a b :
  reads c m a → reads (f a) m b → reads (c ≫= f) m b.
Proof. unfold reads, mbind, M_bind. by intros ->. Qed.
Lemma reads_ret {A} (a : A) m : reads (mret a) m a.
Proof. done. Qed.
Lemma reads_job j m J : job_heap m !! j = Some J → reads (job_at j) m J.
Proof. unfold reads, job_at. by intros ->. Qed.
Lemma reads_unit u m U : units m !! u = Some U → reads (unit_at u) m U.
Proof. unfold reads, unit_at. by intros ->. Qed.
Lemma reads_dep d m l : dep_heap m !! d = Some l → reads (dep_at d) m l.
Proof. unfold reads, dep_at. by intros ->. Qed.
Lemma reads_state u m s : active_state_in (units m) u = Some s → reads (unit_active_state u) m s.
Proof. unfold reads, unit_active_state. by intros ->. Qed.
Lemma reads_gets {A} (f : Manager P → A) m : reads (gets f) m (f m).
Proof. done. Qed.
Lemma reads_wp {A} (c : MM A) m a (Q : A → Manager P → Prop) :
  reads c m a → Q a m → wp c m Q.
Proof. apply wp_intro. Qed.

Lemma reads_any {A} (l : list A) (test : A → MM bool) m (f : A → bool) :
  (∀ x, x ∈ l → reads (test x) m (f x)) → reads (any l test) m (existsb f l).
Proof.
  induction l as [|x l IH]; intros Ht; simpl; [done|].
  eapply reads_bind; [apply Ht; left|]. destruct (f x); simpl; [done|].
  apply IH. intros y Hy. apply Ht. by right.
Qed.

Lemma find_job_spec l (test : JobPtr → MM bool) m :
  (∀ j, j ∈ l → ∃ b, reads (test j) m b) →
  ∃ o, reads (find_job l test) m o ∧
    match o with
    | None => ∀ j, j ∈ l → reads (test j) m false
    | Some j => j ∈ l ∧ reads (test j) m true
    end.
Proof.
  induction l as [|x l IH]; intros Ht; simpl.
  { exists None. split; [done|]. by intros ? ?%elem_of_nil. }
  destruct (Ht x) as [b Hb]; [left|]. destruct b.
  { exists (Some x). split; [by eapply reads_bind|]. split; [left|done]. }
  destruct IH as (o & Ho & Hres); [intros; apply Ht; by right|].
  exists o. split; [by eapply reads_bind|]. destruct o as [j|].
  - destruct Hres. split; [by right|done].
  - intros j [->|?]%elem_of_cons; auto.
Qed.

Lemma job_live m j : wf [] m → j ∈ all_jobs m → ∃ J, job_heap m !! j = Some J.
Proof.
  intros [Hc _] (J & HJ & _)%(elem_of_all_jobs [] m j Hc).
  apply eheap_Some in HJ as (J' & ? & _). eauto.
Qed.

Lemma head_jobs_all m j : j ∈ head_jobs m → j ∈ all_jobs m.
Proof.
  unfold head_jobs, all_jobs. rewrite list_elem_of_omap, elem_of_concat.
  intros ([u l] & Hin & Hl). simpl in Hl. exists l. split; [|by apply list_head_elem].
  apply list_elem_of_fmap. by exists (u, l).
Qed.

(** Every round deletes one job of the transaction. *)
Lemma delete_while_spec (jobs_of : Manager P → list JobPtr) (test : JobPtr → MM bool) dd m :
  (∀ m j, j ∈ jobs_of m → j ∈ all_jobs m) →
  (∀ m j, wf [] m → j ∈ jobs_of m → ∃ b, reads (test j) m b) →
  wf [] m →
  wp (delete_while jobs_of test dd) m (λ _ m',
    wf [] m' ∧ shrinks [] m m' ∧ (inside m → inside m') ∧
    (∀ j, j ∈ jobs_of m' → reads (test j) m' false) ∧
    ∀ S, (dd = true → closed S m) →
      (∀ m1 j, wf [] m1 → shrinks [] m m1 → keeps S m m1 → S j → j ∈ all_jobs m →
         j ∈ jobs_of m1 → ¬ reads (test j) m1 true) → keeps S m m').
Proof.
  intros Hall Htest Hwf. unfold delete_while. wp_step. wp_step.
  apply (wp_repeat_while _ (λ m1, wf [] m1 ∧ shrinks [] m m1 ∧ (inside m → inside m1) ∧
      ∀ S, (dd = true → closed S m) →
        (∀ m1 j, wf [] m1 → shrinks [] m m1 → keeps S m m1 → S j → j ∈ all_jobs m →
           j ∈ jobs_of m1 → ¬ reads (test j) m1 true) → keeps S m m1)
    (λ m1, length (all_jobs m1)) (λ m', _)); [| |lia].
  2: { split_and!; [done..|]. by intros. }
  intros m1 (Hw1 & Hs1 & Hi1 & Hk1). wp_step. wp_step. wp_step.
  destruct (find_job_spec (jobs_of m1) test m1) as (o & Ho & Hres); [auto|].
  eapply reads_wp; [exact Ho|]. destruct o as [j|]; [|by wp_step].
  destruct Hres as [Hj Hsel]. wp_step.
  eapply wp_mono; [apply transaction_delete_job_wp; [done|]|].
  { destruct (job_live m1 j Hw1); eauto. }
  intros [] m2 (Hw2 & Hs2 & Hj2 & _ & Hsp & Hdr). wp_step. split.
  { split_and!; [done|by etrans|intros Hi; eapply inside_drags; eauto|]. intros S HS Hns. pose proof (Hk1 S HS Hns) as Hk.
    etrans; [exact Hk|]. apply Hsp; [intros Hdd; by eapply closed_shrinks, HS|].
    intros HSj. apply (Hns m1 j); try done.
    eapply sublist_elem; [by apply (sh_all _ _ _ Hs1)|by apply Hall]. }
  eapply sublist_lost; [by apply (sh_all _ _ _ Hs2)|by apply Hall|done].
Qed.

(** Deleting a unit's jobs takes the whole chain. *)
Lemma chain_length m u : wf [] m → length (chain_of u m) ≤ size (job_heap m).
Proof.
  intros [Hc _]. pose proof (chain_NoDup [] m u Hc) as Hnd.
  rewrite <- size_dom, <- (size_list_to_set (C := gset nat) (chain_of u m)) by done.
  apply subseteq_size. intros j. rewrite elem_of_list_to_set, elem_of_dom.
  intros Hj. apply eheap_live. destruct (chain_live [] m u j Hc Hj) as (J & ? & _). eauto.
Qed.
Lemma transaction_delete_unit_spec m u :
  wf [] m → wp (transaction_delete_unit u) m (λ _ m',
    wf [] m' ∧ shrinks [] m m' ∧ chain_of u m' = [] ∧ (inside m → inside m') ∧
    ∀ S, closed S m → (∀ k, k ∈ chain_of u m → ¬ S k) → keeps S m m').
Proof.
  intros Hwf. unfold transaction_delete_unit. wp_step. wp_step. set (I := λ m1, wf [] m1 ∧ shrinks [] m m1 ∧
    (inside m → inside m1) ∧ ∀ S, closed S m → (∀ k, k ∈ chain_of u m → ¬ S k) → keeps S m m1).
  apply (wp_while_some _ _ I (λ m1, length (chain_of u m1)) (λ m', _));
    [|by unfold I|by apply Nat.lt_succ_r, chain_length].
  intros m1 (Hw1 & Hs1 & Hi1 & Hk1). wp_step. unfold transaction_job_of.
  destruct (list_head (chain_of u m1)) as [j|] eqn:Ej; [|apply list_head_None in Ej; by split_and!].
  apply list_head_elem in Ej. destruct (chain_live [] m1 u j (proj1 Hw1) Ej) as (J & HJ & Hu).
  eapply wp_mono; [apply transaction_delete_job_wp; [done|by apply eheap_live]|].
  intros [] m2 (Hw2 & Hs2 & Hj2 & _ & Hsp & Hdr). split.
  { split_and!; [done|by etrans|intros Hi; eapply inside_drags; eauto|]. intros S HS Hn.
    etrans; [by apply Hk1|]. apply Hsp; [intros _; by eapply closed_shrinks|]. apply Hn.
    by apply (sublist_elem _ _ _ (sh_chain _ _ _ Hs1 u)). }
  eapply sublist_lost; [apply (sh_chain _ _ _ Hs2)|done|]. intros Hin. apply Hj2.
  destruct (chain_live [] m2 u j (proj1 Hw2) Hin) as (J2 & HJ2 & Hu2).
  apply (elem_of_all_jobs [] m2 j (proj1 Hw2)). exists J2. by rewrite Hu2.
Qed.

(** ** What the tests read *)

Lemma wf_job m j J :
  wf [] m → job_heap m !! j = Some J → ∃ U, units m !! j_unit J = Some U ∧
    is_Some (active_state_in (units m) (j_unit J)) ∧
    ∀ k, u_job U = Some k → ∃ K, job_heap m !! k = Some K ∧ j_unit K = j_unit J ∧ installed K = true.
Proof.
  intros [Hc _] HJ. destruct (wc_job _ _ Hc j (erase_lists J)) as (U & HU & _);
    [apply eheap_Some; eauto|]. exists U. split; [done|].
  destruct (wc_unit _ _ Hc _ U HU) as (_ & Has & Hjob). split; [done|].
  intros k Hk. destruct (Hjob k Hk) as (K & (K' & HK' & ->)%eheap_Some & ? & ?). eauto.
Qed.

(** What the job installed for the unit of [J] is, if there is one. *)
Definition installed_type m (J : Job) : option JobType :=
  U ← units m !! j_unit J; k ← u_job U; K ← job_heap m !! k; Some (j_type K).
Definition state_of m (J : Job) : option UnitActiveState := active_state_in (units m) (j_unit J).

Definition impact m (J : Job) : bool :=
  negb (matters_to_anchor J) &&
  ((bool_decide (j_type J = JOB_STOP) &&
    match state_of m J with Some s => UNIT_IS_ACTIVE_OR_ACTIVATING s | None => false end)
   || match installed_type m J with
      | Some t => job_type_is_conflicting (j_type J) t
      | None => false
      end).

Lemma has_impact_reads m j J :
  wf [] m → job_heap m !! j = Some J → reads (has_impact j) m (impact m J).
Proof.
  intros Hwf HJ. destruct (wf_job m j J Hwf HJ) as (U & HU & [s Hs] & Hk).
  unfold has_impact, impact. eapply reads_bind; [by apply reads_job|].
  destruct (matters_to_anchor J); simpl; [done|].
  unfold state_of, installed_type. rewrite Hs, HU; simpl.
  eapply (reads_bind _ _ _ (bool_decide (j_type J = JOB_STOP) && UNIT_IS_ACTIVE_OR_ACTIVATING s)).
  { case_bool_decide; [|done]. eapply reads_bind; [by apply reads_state|done]. }
  eapply reads_bind; [by apply reads_unit|].
  destruct (u_job U) as [k|]; simpl; [|done].
  destruct (Hk k eq_refl) as (K & HK & _). rewrite HK. simpl.
  eapply reads_bind; [eapply reads_bind; [by apply reads_job|done]|]. done.
Qed.

(** A job nobody asked for directly, installed or without effect on the
    unit as it is, that would not reverse the installed job. *)
Definition anchored m (J : Job) : bool :=
  existsb (λ d, match dep_heap m !! d with
                | Some l => bool_decide (subject l = None)
                | None => false
                end) (object_list J).
Definition noop m (J : Job) : bool :=
  negb (anchored m J) &&
  (installed J || match state_of m J with
                  | Some s => job_type_is_redundant (j_type J) s
                  | None => false
                  end) &&
  match installed_type m J with
  | Some t => negb (job_type_is_conflicting (j_type J) t)
  | None => true
  end.

Lemma job_is_anchor_reads m j J :
  wf [] m → job_heap m !! j = Some J → reads (job_is_anchor j) m (anchored m J).
Proof.
  intros Hwf HJ. unfold job_is_anchor. eapply reads_bind; [by apply reads_job|].
  apply reads_any. intros d Hd. destruct (object_link [] m j J d Hwf HJ Hd) as (l & Hl & _).
  eapply reads_bind; [by apply reads_dep|]. by rewrite Hl.
Qed.

Lemma job_is_noop_reads m j J :
  wf [] m → job_heap m !! j = Some J → reads (job_is_noop j) m (noop m J).
Proof.
  intros Hwf HJ. destruct (wf_job m j J Hwf HJ) as (U & HU & [s Hs] & Hk).
  unfold job_is_noop, noop. eapply reads_bind; [by apply reads_job|].
  eapply reads_bind; [by apply job_is_anchor_reads|].
  destruct (anchored m J); simpl; [done|].
  unfold state_of, installed_type. rewrite Hs, HU; simpl.
  eapply (reads_bind _ _ _ (installed J || job_type_is_redundant (j_type J) s)).
  { destruct (installed J); [done|]. eapply reads_bind; [by apply reads_state|done]. }
  destruct (installed J || _); simpl; [|done].
  eapply reads_bind; [by apply reads_unit|].
  destruct (u_job U) as [k|]; simpl; [|done].
  destruct (Hk k eq_refl) as (K & HK & _). rewrite HK. simpl.
  eapply reads_bind; [by apply reads_job|]. done.
Qed.

Definition noop_at m (k : JobPtr) : bool :=
  match job_heap m !! k with Some K => noop m K | None => false end.

Lemma changes_something_reads m j J :
  wf [] m → job_heap m !! j = Some J →
  reads (changes_something j) m (existsb (λ k, negb (noop_at m k)) (chain_of (j_unit J) m)).
Proof.
  intros Hwf HJ. unfold changes_something. eapply reads_bind; [by apply reads_job|].
  eapply reads_bind; [apply reads_gets|]. apply reads_any. intros k Hk.
  destruct (chain_live [] m _ k (proj1 Hwf) Hk) as (K & (K' & HK' & _)%eheap_Some & _).
  unfold noop_at. rewrite HK'. eapply reads_bind; [by apply job_is_noop_reads|done].
Qed.

(** ** The tests are stable *)

Lemma shrinks_job m m' j J' :
  shrinks [] m m' → job_heap m' !! j = Some J' →
  ∃ J, job_heap m !! j = Some J ∧ erase_lists J' = erase_lists J ∧
    object_list J' ⊆ object_list J.
Proof.
  intros Hs HJ'. destruct (sh_heap _ _ _ Hs j J' HJ') as (J & ? & ? & _ & ?). eauto.
Qed.

(** A unit's job and state are what they were. *)
Lemma facts_shrinks m m' j J J' :
  wf [] m → wf [] m' → shrinks [] m m' → job_heap m !! j = Some J →
  erase_lists J' = erase_lists J →
  installed_type m' J' = installed_type m J ∧ state_of m' J' = state_of m J.
Proof.
  intros Hwf Hwf' Hs HJ HE. pose proof (f_equal j_unit HE) as Hu. simpl in Hu.
  unfold installed_type, state_of. rewrite Hu, (shrinks_units _ _ _ Hs). split; [|done].
  destruct (wf_job m j J Hwf HJ) as (U & HU & _ & Hk). rewrite HU. simpl.
  destruct (u_job U) as [k|]; [|done]. simpl.
  destruct (Hk k eq_refl) as (K & HK & _ & Hi). rewrite HK. simpl.
  destruct (sh_live _ _ _ Hs k K HK (or_introl Hi)) as [K' HK']. rewrite HK'. simpl.
  destruct (shrinks_job m m' k K' Hs HK') as (K0 & HK0 & HEK & _).
  rewrite HK in HK0. injection HK0 as <-. f_equal. exact (f_equal j_type HEK).
Qed.

Lemma impact_shrinks m m' j J J' :
  wf [] m → wf [] m' → shrinks [] m m' → job_heap m !! j = Some J →
  erase_lists J' = erase_lists J → impact m' J' = impact m J.
Proof.
  intros Hwf Hwf' Hs HJ HE. unfold impact.
  destruct (facts_shrinks m m' j J J' Hwf Hwf' Hs HJ HE) as [-> ->].
  pose proof (f_equal matters_to_anchor HE) as E1. pose proof (f_equal j_type HE) as E2.
  simpl in *. by rewrite E1, E2.
Qed.

Lemma anchored_iff m j J :
  wf [] m → job_heap m !! j = Some J →
  anchored m J = true ↔ ∃ d l, dep_heap m !! d = Some l ∧ object l = j ∧ subject l = None.
Proof.
  intros Hwf HJ. unfold anchored. rewrite existsb_exists. split.
  - intros (d & Hd%list_elem_of_In & Hl).
    destruct (object_link [] m j J d Hwf HJ Hd) as (l & E & ?). rewrite E in Hl.
    exists d, l. split_and!; [done..|]. by apply bool_decide_eq_true in Hl.
  - intros (d & l & E & Ho & Hs). exists d. rewrite E. split; [|by apply bool_decide_eq_true].
    apply list_elem_of_In. destruct (link_lists _ (proj2 Hwf) d l E) as [_ (ds & Hds & Hin)].
    unfold objects_of in Hds. rewrite Ho, HJ in Hds. by injection Hds as <-.
Qed.

Lemma noop_shrinks m m' j J J' :
  wf [] m → wf [] m' → shrinks [] m m' → job_heap m !! j = Some J →
  job_heap m' !! j = Some J' → erase_lists J' = erase_lists J →
  (anchored m J = true → anchored m' J' = true) → noop m' J' = noop m J.
Proof.
  intros Hwf Hwf' Hs HJ HJ' HE Ha. unfold noop.
  destruct (facts_shrinks m m' j J J' Hwf Hwf' Hs HJ HE) as [-> ->].
  assert (anchored m' J' = anchored m J) as ->.
  { destruct (anchored m J) eqn:E; [by apply Ha|].
    destruct (anchored m' J') eqn:E'; [|done].
    apply (anchored_iff m' j J' Hwf' HJ') in E' as (d & l & Hd & ? & ?).
    rewrite <- E. symmetry. apply (anchored_iff m j J Hwf HJ). exists d, l.
    split_and!; [|done..]. by eapply lookup_weaken; [|apply (sh_deps _ _ _ Hs)]. }
  pose proof (f_equal installed HE) as E1. pose proof (f_equal j_type HE) as E2.
  simpl in *. by rewrite E1, E2.
Qed.

(** ** The three passes *)

Lemma transaction_minimize_impact_spec m :
  wf [] m →
  wp transaction_minimize_impact m (λ _ m', wf [] m' ∧ shrinks [] m m' ∧ (inside m → inside m') ∧
    (∀ j J, j ∈ all_jobs m' → job_heap m' !! j = Some J → impact m' J = false) ∧
    ∀ S, closed S m → (∀ j J, S j → job_heap m !! j = Some J → impact m J = false) →
      keeps S m m').
Proof.
  intros Hwf. eapply wp_mono; [apply delete_while_spec; [done| |done]|].
  - intros m1 j Hw1 Hj. destruct (job_live m1 j Hw1 Hj) as [J HJ].
    eexists. by apply has_impact_reads.
  - intros [] m' (Hw' & Hs' & Hi' & Hno & Hk). split_and!; [done..| |].
    + intros j J Hj HJ. specialize (Hno j Hj).
      pose proof (has_impact_reads m' j J Hw' HJ) as Hr.
      unfold reads in *. rewrite Hr in Hno. by injection Hno.
    + intros S HS Hi. apply Hk; [done|]. intros m1 j Hw1 Hs1 _ HSj _ Hj Hr.
      destruct (job_live m1 j Hw1 Hj) as [J1 HJ1].
      destruct (shrinks_job m m1 j J1 Hs1 HJ1) as (J & HJ & HE & _).
      pose proof (has_impact_reads m1 j J1 Hw1 HJ1) as Hr1.
      rewrite (impact_shrinks m m1 j J J1), (Hi j J) in Hr1 by done.
      unfold reads in *. rewrite Hr1 in Hr. discriminate.
Qed.

(** C8. Minimising the impact of a transaction terminates, keeps the engine
    consistent and only drops jobs; afterwards no job that does not matter to
    the anchor would stop a running service or reverse a job already
    installed.  A set of jobs that is closed under what its members need and
    has no such job is not touched. *)
Theorem transaction_minimize_impact_correct m :
  wf [] m →
  wp transaction_minimize_impact m (λ _ m', wf [] m' ∧ shrinks [] m m' ∧
    (∀ j J, j ∈ all_jobs m' → job_heap m' !! j = Some J → impact m' J = false) ∧
    ∀ S, closed S m → (∀ j J, S j → job_heap m !! j = Some J → impact m J = false) →
      keeps S m m').
Proof.
  intros Hwf. eapply wp_mono; [by apply transaction_minimize_impact_spec|].
  intros [] m' (? & ? & _ & ? & ?). done.
Qed.

(** The units where the transaction changes something. *)
Definition changes m (u : UnitPtr) : bool :=
  existsb (λ k, negb (noop_at m k)) (chain_of u m).

Lemma noop_at_shrinks m m' k :
  wf [] m → wf [] m' → shrinks [] m m' → is_Some (job_heap m' !! k) →
  (∀ J J', job_heap m !! k = Some J → job_heap m' !! k = Some J' →
     anchored m J = true → anchored m' J' = true) →
  noop_at m' k = noop_at m k.
Proof.
  intros Hwf Hwf' Hs [J' HJ'] Ha. destruct (shrinks_job m m' k J' Hs HJ') as (J & HJ & HE & _).
  unfold noop_at. rewrite HJ', HJ. by eapply noop_shrinks; eauto.
Qed.

Lemma keeps_anchored S m m' k J J' :
  wf [] m → wf [] m' → keeps S m m' → S k →
  job_heap m !! k = Some J → job_heap m' !! k = Some J' →
  anchored m J = true → anchored m' J' = true.
Proof.
  intros Hwf Hwf' [_ Hk] HSk HJ HJ' (d & l & Hd & Ho & Hn)%(anchored_iff m k J Hwf HJ).
  apply (anchored_iff m' k J' Hwf' HJ'). exists d, l. split_and!; [|done..].
  apply Hk; [done|by rewrite Ho|]. by rewrite Hn.
Qed.

Lemma chain_jobs m u k :
  wf [] m → k ∈ chain_of u m →
  k ∈ all_jobs m ∧ ∃ K, job_heap m !! k = Some K ∧ j_unit K = u.
Proof.
  intros Hwf Hk. destruct (chain_live [] m u k (proj1 Hwf) Hk) as (K & HK & Hu).
  split; [apply (elem_of_all_jobs [] m k (proj1 Hwf)); exists K; by rewrite Hu|].
  apply eheap_Some in HK as (K' & HK' & ->). eauto.
Qed.

(** The chains that change something survive a pass that drops the chains
    that do not. *)
Lemma keeps_chain S m m' u :
  wf [] m → shrinks [] m m' → keeps S m m' → (∀ k, k ∈ chain_of u m → S k) →
  wf [] m' → chain_of u m' = chain_of u m.
Proof.
  intros Hwf Hs [Hk _] HS Hwf'. apply sublist_same_length; [apply (sh_chain _ _ _ Hs)|].
  apply submseteq_length, NoDup_submseteq; [by eapply chain_NoDup, Hwf|].
  intros k Hin. destruct (chain_jobs m u k Hwf Hin) as (Ha & K & HK & Hu).
  apply (Hk k (HS k Hin)), (elem_of_all_jobs [] m' k (proj1 Hwf')) in Ha as (K' & HK' & Hc).
  apply eheap_Some in HK' as (K0 & HK0 & ->).
  destruct (shrinks_job m m' k K0 Hs HK0) as (K1 & HK1 & HE & _).
  rewrite HK in HK1. injection HK1 as <-. pose proof (f_equal j_unit HE) as E.
  simpl in *. by rewrite <- Hu, <- E.
Qed.

Lemma head_jobs_chain m j J :
  wf [] m → j ∈ head_jobs m → job_heap m !! j = Some J →
  list_head (chain_of (j_unit J) m) = Some j.
Proof.
  intros [Hc _] Hj HJ. unfold head_jobs in Hj. rewrite list_elem_of_omap in Hj.
  destruct Hj as ([u l] & Hin & Hl). simpl in Hl. destruct (wc_tj _ _ Hc) as [Ho Ht].
  destruct (Ht u l Hin) as (_ & _ & Hlive).
  destruct (Hlive j (list_head_elem l j Hl)) as (J' & (K & HK & ->)%eheap_Some & Hu).
  rewrite HJ in HK. injection HK as <-. simpl in Hu. unfold chain_of.
  by rewrite Hu, (om_elem_get _ _ _ Ho Hin).
Qed.
Lemma chain_head_jobs m u j : list_head (chain_of u m) = Some j → j ∈ head_jobs m.
Proof.
  unfold chain_of. destruct (om_get _ u) as [l|] eqn:El; [simpl|done]. intros Hl.
  apply list_elem_of_omap. exists (u, l). split; [by apply om_get_Some_elem|done].
Qed.

Lemma unchanging_reads m j J :
  wf [] m → job_heap m !! j = Some J →
  reads (b ← changes_something j; mret (negb b)) m (negb (changes m (j_unit J))).
Proof. intros. eapply reads_bind; [by apply changes_something_reads|done]. Qed.

Lemma changes_true m u : changes m u = true ↔ ∃ k, k ∈ chain_of u m ∧ noop_at m k = false.
Proof.
  unfold changes. rewrite existsb_exists. setoid_rewrite <- list_elem_of_In.
  by setoid_rewrite negb_true_iff.
Qed.

(** A chain that is still there changes something as long as it did. *)
Lemma changes_kept m m' u :
  wf [] m → wf [] m' → shrinks [] m m' → keeps (λ k, k ∈ chain_of u m) m m' →
  changes m u = true → changes m' u = true.
Proof.
  intros Hwf Hwf' Hs Hk (k & Hin & Hn)%changes_true. apply changes_true. exists k.
  rewrite (keeps_chain (λ k, k ∈ chain_of u m) m m' u) by done. split; [done|].
  rewrite (noop_at_shrinks m m' k); [done..| |].
  - destruct (chain_jobs m' u k Hwf') as (_ & K & ? & _); [|by eauto].
    by rewrite (keeps_chain (λ k, k ∈ chain_of u m) m m' u).
  - intros K K' HK HK'. by apply (keeps_anchored (λ k, k ∈ chain_of u m) m m' k).
Qed.
(** What has no effect does not gain one. *)
Lemma changes_back m m' u :
  wf [] m → wf [] m' → shrinks [] m m' → changes m' u = true → changes m u = true.
Proof.
  intros Hwf Hwf' Hs (k & Hin & Hn)%changes_true. apply changes_true. exists k.
  pose proof (sublist_elem _ _ _ (sh_chain _ _ _ Hs u) Hin) as Hin0. split; [done|].
  destruct (chain_jobs m' u k Hwf' Hin) as (_ & K' & HK' & _).
  destruct (chain_jobs m u k Hwf Hin0) as (_ & K & HK & _).
  destruct (noop_at m k) eqn:En; [|done].
  rewrite (noop_at_shrinks m m' k) in Hn; [congruence|done..|by eauto|].
  intros K0 K0' HK0 _ Ha. rewrite HK in HK0. injection HK0 as <-.
  unfold noop_at in En. rewrite HK in En. unfold noop in En. by rewrite Ha in En.
Qed.

Lemma transaction_drop_redundant_spec m :
  wf [] m →
  wp transaction_drop_redundant m (λ _ m', wf [] m' ∧ shrinks [] m m' ∧ (inside m → inside m') ∧
    (∀ u, changes m u = true → keeps (λ k, k ∈ chain_of u m) m m') ∧
    (∀ u, changes m u = false → chain_of u m' = [])).
Proof.
  intros Hwf. eapply wp_mono; [apply delete_while_spec; [exact head_jobs_all| |done]|].
  { intros m1 j Hw1 Hj. destruct (job_live m1 j Hw1 (head_jobs_all _ _ Hj)) as [J HJ].
    eexists. by apply unchanging_reads. }
  intros [] m' (Hw' & Hs' & Hi' & Hno & Hk). split_and!; [done..| |]; intros u Hch.
  - apply Hk; [done|]. intros m1 j Hw1 Hs1 Hk1 HSj _ Hj Hr.
    destruct (job_live m1 j Hw1 (head_jobs_all _ _ Hj)) as [J1 HJ1].
    rewrite <- (keeps_chain (λ k, k ∈ chain_of u m) m m1 u) in HSj by done.
    destruct (chain_jobs m1 u j Hw1 HSj) as (_ & J & HJ & Hu).
    pose proof (unchanging_reads m1 j J Hw1 HJ) as Hr1.
    rewrite Hu, (changes_kept m m1 u) in Hr1 by done.
    unfold reads in *. rewrite Hr1 in Hr. discriminate.
  - destruct (chain_of u m') as [|j l] eqn:Ec; [done|exfalso].
    assert (list_head (chain_of u m') = Some j) as Hhd by (by rewrite Ec).
    apply chain_head_jobs in Hhd. pose proof (Hno j Hhd) as Hr.
    destruct (chain_jobs m' u j Hw') as (_ & J & HJ & Hu); [rewrite Ec; left|].
    pose proof (unchanging_reads m' j J Hw' HJ) as Hr1. rewrite Hu in Hr1.
    destruct (changes m' u) eqn:Hc'; [by rewrite (changes_back m m' u) in Hch|].
    unfold reads in *. rewrite Hr1 in Hr. discriminate.
Qed.

(** C7. Dropping redundant jobs terminates, keeps the engine consistent, and
    does exactly this: the jobs of a unit all stay when one of them is asked
    for directly or would change something, and all go when none of them
    does. *)
Theorem transaction_drop_redundant_correct m :
  wf [] m →
  wp transaction_drop_redundant m (λ _ m', wf [] m' ∧ shrinks [] m m' ∧
    ∀ u, chain_of u m' = if changes m u then chain_of u m else []).
Proof.
  intros Hwf. eapply wp_mono; [by apply transaction_drop_redundant_spec|].
  intros [] m' (Hw' & Hs' & _ & Hk & Hd). split_and!; [done..|]. intros u.
  destruct (changes m u) eqn:E; [|auto]. apply (keeps_chain (λ k, k ∈ chain_of u m)); auto.
Qed.

Lemma transaction_collect_garbage_spec m :
  wf [] m →
  wp transaction_collect_garbage m (λ _ m', wf [] m' ∧ shrinks [] m m' ∧ (inside m → inside m') ∧
    (∀ j, j ∈ head_jobs m' → ∃ d l, dep_heap m' !! d = Some l ∧ object l = j) ∧
    ∀ S, closed S m →
      (∀ k, S k → k ∈ all_jobs m → ∃ d l, dep_heap m !! d = Some l ∧ object l = k ∧
         ∀ o, subject l = Some o → S o) →
      keeps S m m').
Proof.
  intros Hwf.
  assert (∀ m1 j J, job_heap m1 !! j = Some J →
    reads (J ← job_at j; mret (bool_decide (object_list J = []))) m1
      (bool_decide (object_list J = []))) as Hreads.
  { intros m1 j J HJ. eapply reads_bind; [by apply reads_job|done]. }
  eapply wp_mono; [apply delete_while_spec; [exact head_jobs_all| |done]|].
  { intros m1 j Hw1 Hj. destruct (job_live m1 j Hw1 (head_jobs_all _ _ Hj)) as [J HJ]. eauto. }
  intros [] m' (Hw' & Hs' & Hi' & Hno & Hk). split_and!; [done..| |].
  - intros j Hj. destruct (job_live m' j Hw' (head_jobs_all _ _ Hj)) as [J HJ].
    pose proof (Hno j Hj) as Hr. unfold reads in *. rewrite (Hreads m' j J HJ) in Hr.
    injection Hr as Hr. apply bool_decide_eq_false in Hr.
    destruct (object_list J) as [|d ds] eqn:Ed; [done|].
    destruct (object_link [] m' j J d Hw' HJ) as (l & ? & ?); [rewrite Ed; left|]. eauto.
  - intros S HS Hwant. apply Hk; [done|]. intros m1 j Hw1 Hs1 [_ Hk1] HSj Hin Hj Hr.
    destruct (job_live m1 j Hw1 (head_jobs_all _ _ Hj)) as [J HJ].
    unfold reads in *. rewrite (Hreads m1 j J HJ) in Hr. injection Hr as Hr.
    apply bool_decide_eq_true in Hr. destruct (Hwant j HSj Hin) as (d & l & Hd & Ho & Hsub).
    apply Hk1 in Hd; [|by rewrite Ho|done].
    destruct (link_lists _ (proj2 Hw1) d l Hd) as [_ (ds & Hds & Hdin)].
    unfold objects_of in Hds. rewrite Ho, HJ in Hds. injection Hds as <-.
    rewrite Hr in Hdin. by apply elem_of_nil in Hdin.
Qed.

(** C9. Garbage collection terminates, keeps the engine consistent, and the
    first job of every unit is the object of a link afterwards.  A set of
    jobs of the transaction that is closed under what its members need, and
    where each is wanted by the anchor or by another one of them, is not
    touched. *)
Theorem transaction_collect_garbage_correct m :
  wf [] m →
  wp transaction_collect_garbage m (λ _ m', wf [] m' ∧ shrinks [] m m' ∧
    (∀ j, j ∈ head_jobs m' → ∃ d l, dep_heap m' !! d = Some l ∧ object l = j) ∧
    ∀ S, closed S m →
      (∀ k, S k → k ∈ all_jobs m → ∃ d l, dep_heap m !! d = Some l ∧ object l = k ∧
         ∀ o, subject l = Some o → S o) →
      keeps S m m').
Proof.
  intros Hwf. eapply wp_mono; [by apply transaction_collect_garbage_spec|].
  intros [] m' (? & ? & _ & ? & ?). done.
Qed.
End passes.

(** ** Examples *)
Section examples.
Import Demo.

(** The state after a run, where there is one. *)
Definition after {S A B} (c : M S A) (s : S) (f : S → B) (b : B) : B :=
  match c s with Ret _ s' => f s' | _ => b end.

Lemma transaction_minimize_impact_correct_witness :
  ∃ m', transaction_minimize_impact m0 = Ret tt m' ∧ wf [] m' ∧ all_jobs m' = [11; 13].
Proof.
  destruct (wp_elim _ _ _ (transaction_minimize_impact_correct m0 m0_wf)) as ([] & m' & E & Hw & _).
  exists m'. split_and!; [exact E|exact Hw|].
  assert (after transaction_minimize_impact m0 all_jobs [] = [11; 13]) as C
    by (vm_compute; reflexivity).
  unfold after in C. by rewrite E in C.
Defined.

Lemma transaction_drop_redundant_correct_witness :
  ∃ m', transaction_drop_redundant m0 = Ret tt m' ∧ wf [] m' ∧
    transaction_jobs m' = [(1, [11]); (2, [12])].
Proof.
  destruct (wp_elim _ _ _ (transaction_drop_redundant_correct m0 m0_wf)) as ([] & m' & E & Hw & _).
  exists m'. split_and!; [exact E|exact Hw|].
  assert (after transaction_drop_redundant m0 transaction_jobs [] = [(1, [11]); (2, [12])]) as C
    by (vm_compute; reflexivity).
  unfold after in C. by rewrite E in C.
Defined.

(** Without the anchor's link, nothing is wanted any more. *)
Definition m0_unwanted : Manager UnitActiveState := free_dep 21 m0.

Lemma transaction_collect_garbage_correct_witness :
  ∃ m', transaction_collect_garbage m0_unwanted = Ret tt m' ∧ wf [] m' ∧ all_jobs m' = [].
Proof.
  assert (wf [] m0_unwanted) as Hwf by (apply wf_check_sound; vm_compute; reflexivity).
  destruct (wp_elim _ _ _ (transaction_collect_garbage_correct m0_unwanted Hwf))
    as ([] & m' & E & Hw & _).
  exists m'. split_and!; [exact E|exact Hw|].
  assert (after transaction_collect_garbage m0_unwanted all_jobs [11] = []) as C
    by (vm_compute; reflexivity).
  unfold after in C. by rewrite E in C.
Defined.
End examples.
