(* ===== verification/Installed.v ===== *)
(** * Installed jobs come and go

    What the bookkeeping on units (queues, the pointer to the unit's job) leaves
    alone, and the two steps on installed jobs with their effect on the
    invariant: [job_free] of an installed job that the transaction does not
    touch, and the installation of a job. *)

From stdpp Require Import base gmap strings list fin_maps.
From Stdlib Require Import ZArith Lia.
From S2P Require Import Prelude CString JobType OrderedMap Engine Transaction Links Wf WfCheck Passes.

(** What the engine relies on in a unit type. *)
Class UnitVTableLaws P `{UnitVTable P} : Prop := {
  active_state_priv : ∀ U V : Unit P, priv U = priv V → vt_active_state U = vt_active_state V;
  following_set_live : ∀ (m : Manager P) u v,
    v ∈ vt_following_set m u → is_Some (units m !! v);
  following_set_units : ∀ (m m' : Manager P) u,
    units m = units m' → vt_following_set m u = vt_following_set m' u }.

Section installed.
Context {P : Type} `{UnitVTableLaws P}.
Abbreviation MM := (M (Manager P)).
Implicit Types m : Manager P.

(** ** Bookkeeping on units *)

(** A unit without its job and its places in the queues. *)
Definition bare (U : Unit P) : Unit P :=
  U <| u_job := None |> <| in_load_queue := false |> <| u_in_dbus_queue := false |>
    <| in_cleanup_queue := false |> <| in_gc_queue := false |> <| sent_dbus_new_signal := false |>
    <| gc_marker := 0%Z |>.

Lemma bare_lookup (us us' : gmap UnitPtr (Unit P)) u U :
  bare <$> us' = bare <$> us → us !! u = Some U → ∃ U', us' !! u = Some U' ∧ bare U' = bare U.
Proof.
  intros E HU. pose proof (f_equal (lookup u) E) as Eu. rewrite !lookup_fmap, HU in Eu.
  apply fmap_Some in Eu as (U' & ? & ?). eauto.
Qed.
Lemma bare_fields (U U' : Unit P) : bare U' = bare U →
  dependencies U' = dependencies U ∧ load_state U' = load_state U ∧ merged_into U' = merged_into U ∧
  priv U' = priv U.
Proof.
  intros E. pose proof (f_equal dependencies E). pose proof (f_equal load_state E).
  pose proof (f_equal merged_into E). pose proof (f_equal priv E). done.
Qed.

Lemma follow_merge_bare (us us' : gmap UnitPtr (Unit P)) n : bare <$> us' = bare <$> us → ∀ u,
  follow_merge us' n u = follow_merge us n u.
Proof.
  intros E. induction n as [|n IH]; intros u; simpl; [done|].
  destruct (us !! u) as [U|] eqn:HU; simpl.
  - destruct (bare_lookup us us' u U E HU) as (U' & -> & (_ & El & Em & _)%bare_fields). simpl.
    rewrite El, Em. case_bool_decide; [|done]. destruct (merged_into U); [apply IH|done].
  - destruct (us' !! u) as [U'|] eqn:HU'; [|done].
    destruct (bare_lookup us' us u U' (eq_sym E) HU') as (? & ? & _). congruence.
Qed.

Lemma bare_size (us us' : gmap UnitPtr (Unit P)) : bare <$> us' = bare <$> us → size us' = size us.
Proof. intros E. rewrite <- (map_size_fmap bare us'), E. apply map_size_fmap. Qed.

Lemma active_state_bare (us us' : gmap UnitPtr (Unit P)) u :
  bare <$> us' = bare <$> us → active_state_in us' u = active_state_in us u.
Proof.
  intros E. unfold active_state_in. rewrite (bare_size us us' E), (follow_merge_bare us us' _ E).
  destruct (follow_merge us (S (size us)) u) as [v|]; [simpl|done].
  destruct (us !! v) as [V|] eqn:HV; simpl.
  - destruct (bare_lookup us us' v V E HV) as (V' & -> & (_ & _ & _ & Ep)%bare_fields). simpl.
    f_equal. by apply active_state_priv.
  - destruct (us' !! v) as [V'|] eqn:HV'; [|done].
    destruct (bare_lookup us' us v V' (eq_sym E) HV') as (? & ? & _). congruence.
Qed.

Lemma bare_insert (us : gmap UnitPtr (Unit P)) u U U' :
  us !! u = Some U → bare U' = bare U → bare <$> <[u := U']> us = bare <$> us.
Proof.
  intros HU E. rewrite fmap_insert, E. apply insert_id. by rewrite lookup_fmap, HU.
Qed.

(** The part of [wc_unit] that bookkeeping keeps. *)
Lemma wc_unit_bare X m (us' : gmap UnitPtr (Unit P)) u U' :
  wf_core X m → bare <$> us' = bare <$> units m → us' !! u = Some U' →
  (∀ d v, v ∈ dependencies U' d → is_Some (us' !! v)) ∧ is_Some (active_state_in us' u).
Proof.
  intros Hc E HU'. destruct (bare_lookup us' (units m) u U' (eq_sym E) HU') as (U & HU & Eb).
  destruct (wc_unit _ _ Hc u U HU) as (Hd & Ha & _).
  rewrite (active_state_bare _ _ _ E). split; [|done]. intros d v Hv.
  apply bare_fields in Eb as (Ed & _). destruct (Hd d v) as [V HV]; [by rewrite Ed|].
  destruct (bare_lookup _ us' v V E HV) as (? & ? & _). eauto.
Qed.

(** The state but for the queues that units are put in. *)
Definition unqueue m : Manager P :=
  m <| units := ∅ |> <| gc_queue := [] |> <| n_in_gc_queue := 0%Z |> <| gc_queue_timestamp := 0%Z |>
    <| dbus_unit_queue := [] |> <| cleanup_queue := [] |> <| load_queue := [] |>.

(** [m'] is [m] with some units put into queues. *)
Record queued m m' : Prop := {
  qu_rest : unqueue m' = unqueue m;
  qu_units : bare <$> units m' = bare <$> units m;
  qu_job : u_job <$> units m' = u_job <$> units m }.

#[global] Instance queued_preorder : PreOrder queued.
Proof. split; [done|]. intros m1 m2 m3 [] []. split; congruence. Qed.

Lemma queued_units m m' u U' : queued m m' → units m' !! u = Some U' →
  ∃ U, units m !! u = Some U ∧ bare U' = bare U ∧ u_job U' = u_job U.
Proof.
  intros [_ Eb Ej] HU'. destruct (bare_lookup _ _ u U' (eq_sym Eb) HU') as (U & HU & E).
  exists U. split_and!; [done|done|]. pose proof (f_equal (lookup u) Ej) as Eu.
  rewrite !lookup_fmap, HU, HU' in Eu. by injection Eu.
Qed.
Lemma queued_units' m m' u U : queued m m' → units m !! u = Some U →
  ∃ U', units m' !! u = Some U' ∧ bare U' = bare U ∧ u_job U' = u_job U.
Proof.
  intros [_ Eb Ej] HU. destruct (bare_lookup _ _ u U Eb HU) as (U' & HU' & E).
  exists U'. split_and!; [done|done|]. pose proof (f_equal (lookup u) Ej) as Eu.
  rewrite !lookup_fmap, HU, HU' in Eu. by injection Eu.
Qed.
Lemma queued_fields m m' : queued m m' →
  job_heap m' = job_heap m ∧ dep_heap m' = dep_heap m ∧ jobs m' = jobs m ∧
  transaction_jobs m' = transaction_jobs m ∧ transaction_anchor m' = transaction_anchor m ∧
  run_queue m' = run_queue m ∧ dbus_job_queue m' = dbus_job_queue m ∧ next_ptr m' = next_ptr m ∧
  oom m' = oom m ∧ current_job_id m' = current_job_id m.
Proof.
  intros [E _ _]. split_and!;
    [exact (f_equal job_heap E)|exact (f_equal dep_heap E)|exact (f_equal jobs E)|
     exact (f_equal transaction_jobs E)|exact (f_equal transaction_anchor E)|exact (f_equal run_queue E)|
     exact (f_equal dbus_job_queue E)|exact (f_equal next_ptr E)|exact (f_equal oom E)|
     exact (f_equal current_job_id E)].
Qed.

Lemma update_unit_eq u (f : Unit P → Unit P) m U :
  units m !! u = Some U → update_unit u f m = Ret tt (m <| units ::= <[u := f U]> |>).
Proof. intros HU. unfold update_unit, unit_at, mbind, M_bind. by rewrite HU. Qed.

Lemma queued_update u (f : Unit P → Unit P) m U :
  units m !! u = Some U → bare (f U) = bare U → u_job (f U) = u_job U →
  queued m (m <| units ::= <[u := f U]> |>).
Proof.
  intros HU Eb Ej. split; [done|by apply (bare_insert _ u U)|]. simpl. rewrite fmap_insert, Ej.
  apply insert_id. by rewrite lookup_fmap, HU.
Qed.

(** What [unit_check_gc] answers for a unit in state [s]. *)
Definition needs (U : Unit P) (s : UnitActiveState) : bool :=
  if bool_decide (load_state U = UNIT_STUB) then true else if vt_no_gc U then true
  else if u_no_gc U then true else if bool_decide (u_job U ≠ None) then true
  else if bool_decide (s ≠ UNIT_INACTIVE) then true else vt_check_gc U.
Lemma unit_check_gc_reads m u U s :
  units m !! u = Some U → active_state_in (units m) u = Some s → reads (unit_check_gc u) m (needs U s).
Proof.
  intros HU Hs. unfold unit_check_gc, needs. eapply reads_bind; [by apply reads_unit|].
  destruct (bool_decide (load_state U = UNIT_STUB)), (vt_no_gc U), (u_no_gc U), (bool_decide (u_job U ≠ None));
    try done.
  eapply reads_bind; [by apply reads_state|]. by case_bool_decide.
Qed.

(** Putting a unit into the queue of the garbage collector. *)
Lemma unit_add_to_gc_queue_spec m u U s :
  units m !! u = Some U → active_state_in (units m) u = Some s →
  wp (unit_add_to_gc_queue u) m (λ _ m', queued m m').
Proof.
  intros HU Hs. unfold unit_add_to_gc_queue. wp_step. eapply wp_unit_at; [done|].
  destruct (in_gc_queue U || in_cleanup_queue U); [by wp_step|].
  wp_step. eapply reads_wp; [by apply (unit_check_gc_reads m u U s)|].
  destruct (needs U s); [by wp_step|]. wp_step. wp_step. wp_step.
  eapply wp_intro; [by apply (update_unit_eq u _ _ U)|]. wp_step. wp_step. wp_step. wp_step.
  match goal with |- wp _ ?s _ => assert (queued m s) as Hq end.
  { etrans; [by apply (queued_update u (λ U, U <| in_gc_queue := true |>) m U)|]. by split. }
  unfold when. case_bool_decide; [|by wp_step]. wp_step. unfold now. wp_step. wp_step.
  etrans; [exact Hq|]. by split.
Qed.

(** ** The two steps on the core of the invariant *)

(** The unit's own job changes, the rest of it only in its bookkeeping. *)
Record rejob (u : UnitPtr) (o : option JobPtr) m m' : Prop := {
  rj_units : bare <$> units m' = bare <$> units m;
  rj_job : ∃ U', units m' !! u = Some U' ∧ u_job U' = o;
  rj_others : ∀ v V', v ≠ u → units m' !! v = Some V' → ∃ V, units m !! v = Some V ∧ u_job V' = u_job V }.

(** An installed job that is not in the transaction goes. *)
Lemma wf_core_drop X m m' k K :
  wf_core X m → eheap m !! k = Some K → installed K = true → rejob (j_unit K) None m m' →
  (k ∉ chain_of (j_unit K) m) →
  eheap m' = delete k (eheap m) →
  om_wf (jobs m') → (∀ e, e ∈ jobs m' ↔ e ∈ jobs m ∧ e.1 ≠ j_id K) →
  transaction_jobs m' = transaction_jobs m →
  run_queue m' = list_remove k (run_queue m) → dbus_job_queue m' = list_remove k (dbus_job_queue m) →
  next_ptr m' = next_ptr m → dep_heap m' = dep_heap m → wf_core X m'.
Proof.
  intros Hc HK Hi [Eb (U' & HU' & Ej) Hoth] Hk Eh Ho' Ejobs Et Er Ed En Edep.
  destruct (wc_job _ _ Hc k K HK) as (U & HU & Hjob). rewrite Hi in Hjob. destruct Hjob as [Hjob Hin].
  assert (∀ j J, j ≠ k → eheap m !! j = Some J → eheap m' !! j = Some J) as Hold.
  { intros j J Hne HJ. rewrite Eh. by rewrite lookup_delete_ne. }
  assert (∀ j J, eheap m' !! j = Some J → j ≠ k ∧ eheap m !! j = Some J) as Hback.
  { intros j J. rewrite Eh. intros [??]%lookup_delete_Some. auto. }
  split.
  - intros v V' HV'. destruct (wc_unit_bare X m _ v V' Hc Eb HV') as [? ?]. split_and!; [done..|].
    intros j Hj. destruct (decide (v = j_unit K)) as [->|Hv]; [congruence|].
    destruct (Hoth v V' Hv HV') as (V & HV & E). rewrite E in Hj.
    destruct (wc_unit _ _ Hc v V HV) as (_ & _ & Hjv). destruct (Hjv j Hj) as (J & HJ & Hu & ?).
    exists J. split_and!; [|done..]. apply Hold; [|done]. intros ->. congruence.
  - intros j J [Hne HJ]%Hback. destruct (wc_job _ _ Hc j J HJ) as (V & HV & Hk').
    destruct (bare_lookup _ (units m') _ V Eb HV) as (V' & HV' & _). exists V'. split; [done|].
    unfold chain_of. rewrite Et. destruct (installed J); [|done]. destruct Hk' as [Hj Hin']. split.
    + destruct (decide (j_unit J = j_unit K)) as [Eu|Hu].
      * rewrite Eu, HU in HV. injection HV as <-. congruence.
      * destruct (Hoth _ V' Hu HV') as (V0 & HV0 & ->). congruence.
    + apply Ejobs. split; [done|]. simpl. intros E.
      destruct (wc_jobs _ _ Hc) as [Ho _]. rewrite E in Hin'. apply om_elem_get in Hin, Hin'; congruence.
  - destruct (wc_jobs _ _ Hc) as [Ho Hl]. split; [done|].
    intros id j [Hin' Hid]%Ejobs. simpl in Hid. destruct (Hl id j Hin') as (J & HJ & <- & ?).
    exists J. split; [|done]. apply Hold; [|done]. intros ->. congruence.
  - rewrite Et. destruct (wc_tj _ _ Hc) as [Ho Hl]. split; [done|]. intros u l Hul.
    destruct (Hl u l Hul) as (? & ? & Hlive). split_and!; [done..|]. intros j Hj.
    destruct (Hlive j Hj) as (J & HJ & Hu). exists J. split; [|done]. apply Hold; [|done]. intros ->.
    apply Hk. unfold chain_of. rewrite HK in HJ. injection HJ as <-. by rewrite Hu, (om_elem_get _ u l Ho Hul).
  - destruct (wc_runq _ _ Hc) as [Hnd Hq]. rewrite Er. split; [by apply NoDup_list_remove|].
    intros j. rewrite elem_of_list_remove, Hq. split.
    + intros [(J & HJ & ?) ?]. eauto.
    + intros (J & [? HJ]%Hback & ?). eauto.
  - destruct (wc_dbusq _ _ Hc) as [Hnd Hq]. rewrite Ed. split; [by apply NoDup_list_remove|].
    intros j. rewrite elem_of_list_remove, Hq. split.
    + intros [(J & HJ & ?) ?]. eauto.
    + intros (J & [? HJ]%Hback & ?). eauto.
  - destruct (wc_ptr _ _ Hc) as [Hp Hq]. rewrite En, Edep. split; [|done].
    intros j [J [_ HJ]%Hback]. apply Hp. eauto.
Qed.

Lemma core_of_job (h h' : gmap JobPtr Job) k K :
  core_of <$> h' = core_of <$> h → h !! k = Some K → ∃ K', h' !! k = Some K' ∧
    j_unit K' = j_unit K ∧ j_id K' = j_id K ∧ installed K' = installed K ∧
    in_run_queue K' = in_run_queue K ∧ in_dbus_queue K' = in_dbus_queue K.
Proof.
  intros E HK. pose proof (f_equal (lookup k) E) as Ek. rewrite !lookup_fmap, HK in Ek.
  apply fmap_Some in Ek as (K' & HK' & Ec). exists K'. split; [done|].
  pose proof (f_equal j_unit Ec). pose proof (f_equal j_id Ec). pose proof (f_equal installed Ec).
  pose proof (f_equal in_run_queue Ec). pose proof (f_equal in_dbus_queue Ec). done.
Qed.

Definition unit_job_free m (u : UnitPtr) : Prop := ∀ U, units m !! u = Some U → u_job U = None.

(** What installing does to the job. *)
Definition install (J : Job) : Job :=
  J <| installed := true |> <| in_run_queue := true |> <| in_dbus_queue := true |>.

(** A job outside the transaction becomes the job of its unit. *)
Lemma wf_core_install X m m' j J :
  wf_core (j :: X) m → eheap m !! j = Some J → installed J = false → j ∉ X →
  unit_job_free m (j_unit J) → rejob (j_unit J) (Some j) m m' →
  (∀ u, j ∉ chain_of u m) →
  core_of <$> eheap m' = core_of <$> <[j := install J]> (eheap m) →
  om_wf (jobs m') → (∀ e, e ∈ jobs m' ↔ e ∈ jobs m ∨ e = (j_id J, j)) →
  transaction_jobs m' = transaction_jobs m →
  run_queue m' = j :: run_queue m → dbus_job_queue m' = j :: dbus_job_queue m →
  next_ptr m' = next_ptr m → dep_heap m' = dep_heap m → wf_core X m'.
Proof.
  intros Hc HJ Hi HX Hfree [Eb (U' & HU' & Ej) Hoth] Hch Eh Ho Hjobs Et Er Ed En Edep.
  set (h := <[j := install J]> (eheap m)) in *.
  assert (∀ k K, h !! k = Some K → ∃ K', eheap m' !! k = Some K' ∧ j_unit K' = j_unit K ∧
    j_id K' = j_id K ∧ installed K' = installed K ∧ in_run_queue K' = in_run_queue K ∧
    in_dbus_queue K' = in_dbus_queue K) as Hfwd by (intros; by eapply core_of_job).
  assert (∀ k K', eheap m' !! k = Some K' → ∃ K, h !! k = Some K ∧ j_unit K = j_unit K' ∧
    j_id K = j_id K' ∧ installed K = installed K' ∧ in_run_queue K = in_run_queue K' ∧
    in_dbus_queue K = in_dbus_queue K') as Hback by (intros; by eapply core_of_job).
  assert (∀ k K, k ≠ j → eheap m !! k = Some K → h !! k = Some K) as Hold
    by (intros; unfold h; by rewrite lookup_insert_ne).
  assert (h !! j = Some (install J)) as Hj by (unfold h; apply lookup_insert_eq).
  assert (∀ k K, h !! k = Some K → (k = j ∧ K = install J) ∨ (k ≠ j ∧ eheap m !! k = Some K)) as Hh.
  { intros k K. unfold h. intros [[-> ->]|[? ?]]%lookup_insert_Some; auto. }
  assert (∀ k K, eheap m !! k = Some K → in_run_queue K = true ∨ in_dbus_queue K = true → k ≠ j) as Hq.
  { intros k K HK Hor ->. rewrite HJ in HK. injection HK as <-.
    destruct (wc_job _ _ Hc j J HJ) as (U & _ & Hk). rewrite Hi in Hk. destruct Hk as (_ & E1 & E2).
    rewrite E1, E2 in Hor. by destruct Hor. }
  assert (∀ v V', units m' !! v = Some V' → ∃ V, units m !! v = Some V ∧
    ((v = j_unit J ∧ u_job V' = Some j) ∨ (v ≠ j_unit J ∧ u_job V' = u_job V))) as Hunits.
  { intros v V' HV'. destruct (decide (v = j_unit J)) as [->|Hv].
    - destruct (bare_lookup _ (units m) _ V' (eq_sym Eb) HV') as (V & HV & _). exists V.
      split; [done|left]. split; [done|congruence].
    - destruct (Hoth v V' Hv HV') as (V & HV & ?). eauto. }
  split.
  - intros v V' HV'. destruct (wc_unit_bare _ m _ v V' Hc Eb HV') as [? ?]. split_and!; [done..|].
    intros k Hk. destruct (Hunits v V' HV') as (V & HV & [[-> E]|[Hv E]]).
    + assert (k = j) as -> by congruence. destruct (Hfwd j _ Hj) as (J' & ? & ? & _ & ? & _). exists J'. done.
    + rewrite E in Hk. destruct (wc_unit _ _ Hc v V HV) as (_ & _ & Hjv).
      destruct (Hjv k Hk) as (K & HK & Hu & HiK). destruct (Hfwd k K) as (K' & ? & ? & _ & ? & _).
      { apply Hold; [|done]. intros ->. congruence. }
      exists K'. split_and!; congruence.
  - intros k K' HK'. destruct (Hback k K' HK') as (K & HK & <- & <- & <- & <- & <-).
    destruct (Hh k K HK) as [[-> ->]|[Hne HK0]]; simpl.
    + exists U'. split; [done|]. split; [congruence|]. apply Hjobs. by right.
    + destruct (wc_job _ _ Hc k K HK0) as (V & HV & Hk).
      destruct (bare_lookup _ (units m') _ V Eb HV) as (V' & HV' & _). exists V'. split; [done|].
      destruct (installed K) eqn:HiK.
      * destruct Hk as [Hk Hin]. split; [|apply Hjobs; by left].
        destruct (Hunits _ V' HV') as (V0 & HV0 & [[Eu E]|[_ E]]); rewrite HV in HV0; injection HV0 as <-; [|congruence].
        rewrite Eu in HV. rewrite (Hfree V HV) in Hk. done.
      * unfold chain_of in *. rewrite Et. destruct Hk as ([?|[?|?]%elem_of_cons] & ? & ?); [|done|]; auto.
  - split; [done|]. intros id k [Hin|[= -> ->]]%Hjobs.
    + destruct (wc_jobs _ _ Hc) as [_ Hl]. destruct (Hl id k Hin) as (K & HK & ? & HiK).
      destruct (Hfwd k K) as (K' & ? & _ & ? & ? & _); [apply Hold; [|done]; intros ->; congruence|].
      exists K'. split_and!; congruence.
    + destruct (Hfwd j _ Hj) as (J' & ? & _ & ? & ? & _). exists J'. done.
  - rewrite Et. destruct (wc_tj _ _ Hc) as [Hot Hl]. split; [done|]. intros u l Hul.
    destruct (Hl u l Hul) as (? & ? & Hlive). split_and!; [done..|]. intros k Hk.
    destruct (Hlive k Hk) as (K & HK & Hu). destruct (Hfwd k K) as (K' & ? & ? & _).
    + apply Hold; [|done]. intros ->. apply (Hch u). unfold chain_of. by rewrite (om_elem_get _ u l Hot Hul).
    + exists K'. split; congruence.
  - destruct (wc_runq _ _ Hc) as [Hnd Hr]. rewrite Er. split.
    + constructor; [|done]. intros (K & HK & ?)%Hr. by apply (Hq j K HK); [left|].
    + intros k. rewrite elem_of_cons, Hr. split.
      * intros [->|(K & HK & Hb)].
        -- destruct (Hfwd j _ Hj) as (J' & ? & _ & _ & _ & ? & _). by exists J'.
        -- destruct (Hfwd k K) as (K' & ? & _ & _ & _ & ? & _); [apply Hold; [eapply Hq; eauto|done]|].
           exists K'. split; congruence.
      * intros (K' & HK' & Hb). destruct (Hback k K' HK') as (K & HK & _ & _ & _ & E & _).
        destruct (Hh k K HK) as [[-> _]|[? ?]]; [by left|right]. exists K. split; congruence.
  - destruct (wc_dbusq _ _ Hc) as [Hnd Hr]. rewrite Ed. split.
    + constructor; [|done]. intros (K & HK & ?)%Hr. by apply (Hq j K HK); [right|].
    + intros k. rewrite elem_of_cons, Hr. split.
      * intros [->|(K & HK & Hb)].
        -- destruct (Hfwd j _ Hj) as (J' & ? & _ & _ & _ & _ & ?). by exists J'.
        -- destruct (Hfwd k K) as (K' & ? & _ & _ & _ & _ & ?); [apply Hold; [eapply Hq; eauto|done]|].
           exists K'. split; congruence.
      * intros (K' & HK' & Hb). destruct (Hback k K' HK') as (K & HK & _ & _ & _ & _ & E).
        destruct (Hh k K HK) as [[-> _]|[? ?]]; [by left|right]. exists K. split; congruence.
  - destruct (wc_ptr _ _ Hc) as [Hp Hpd]. rewrite En, Edep. split; [|done].
    intros k [K' HK']. destruct (Hback k K' HK') as (K & HK & _). apply Hp.
    destruct (Hh k K HK) as [[-> _]|[_ ?]]; eauto.
Qed.
End installed.
