(* ===== verification/Matter.v ===== *)
(** * What matters to the anchor (src/manager.c:
      transaction_find_jobs_that_matter_to_anchor)

    The sweep marks exactly the jobs that the anchor reaches over links that
    matter, and nothing else of the state changes.  Together with Passes.v:
    no job that the anchor needs is dropped to minimise impact. *)

From stdpp Require Import base gmap strings list fin_maps.
From Stdlib Require Import ZArith Lia.
From S2P Require Import Prelude CString JobType OrderedMap Engine Transaction Links Wf WfCheck Passes.

Section matter.
Context {P : Type} `{UnitVTable P}.
Abbreviation MM := (M (Manager P)).
Implicit Types m : Manager P.

(** ** The specification *)

(** [s] (the anchor, when it is [None]) needs [o] directly. *)
Definition needs m (s : option JobPtr) (o : JobPtr) : Prop :=
  ∃ d l, dep_heap m !! d = Some l ∧ subject l = s ∧ matters l = true ∧ object l = o.

Inductive reaches m (s : option JobPtr) : JobPtr → Prop :=
  | reaches_needs o : needs m s o → reaches m s o
  | reaches_step j o : reaches m s j → needs m (Some j) o → reaches m s o.

Definition mark_job (g : Z) (J : Job) : Job :=
  J <| matters_to_anchor := true |> <| generation := g |>.

(** [m'] is [m] with some of its unmarked jobs marked. *)
Record marks g m m' : Prop := {
  mk_rest : with_heap (job_heap m) m' = m;
  mk_job : ∀ j, job_heap m' !! j = job_heap m !! j ∨
    ∃ J, job_heap m !! j = Some J ∧ generation J ≠ g ∧ job_heap m' !! j = Some (mark_job g J) }.

Definition marked g m (j : JobPtr) : Prop :=
  ∃ J, job_heap m !! j = Some J ∧ generation J = g.
Definition unmarked g m : nat :=
  size (filter (λ e : JobPtr * Job, generation e.2 ≠ g) (job_heap m)).

(** ** Lemmas *)

#[local] Instance marks_refl g : Reflexive (marks g).
Proof. intros m. split; [by destruct m|auto]. Qed.
Lemma marks_same_core g m m' : marks g m m' → same_core m m'.
Proof.
  intros [E Hj]. split; [done|]. apply map_eq. intros j. rewrite !lookup_fmap.
  destruct (Hj j) as [->|(J & -> & _ & ->)]; done.
Qed.
#[local] Instance marks_trans g : Transitive (marks g).
Proof.
  intros m1 m2 m3 [E1 J1] [E2 J2]. split.
  - rewrite <- E1, <- E2. by destruct m3.
  - intros j. destruct (J2 j) as [->|(J & HJ & Hg & ->)]; [done|].
    destruct (J1 j) as [E|(J' & HJ' & _ & E)]; rewrite E in HJ; [right; eauto|].
    injection HJ as <-. by destruct Hg.
Qed.

Lemma marks_live g m m' j J' :
  marks g m m' → job_heap m' !! j = Some J' → ∃ J, job_heap m !! j = Some J ∧
    (J' = J ∨ J' = mark_job g J).
Proof. intros [_ Hj] HJ. destruct (Hj j) as [E|(J & ? & _ & E)]; rewrite E in HJ; naive_solver. Qed.
Lemma marks_fwd g m m' j J :
  marks g m m' → job_heap m !! j = Some J → ∃ J', job_heap m' !! j = Some J' ∧
    (J' = J ∨ J' = mark_job g J).
Proof. intros [_ Hj] HJ. destruct (Hj j) as [E|(J0 & ? & _ & E)]; rewrite E; naive_solver. Qed.
Lemma marked_mono g m m' j : marks g m m' → marked g m j → marked g m' j.
Proof.
  intros Hm (J & HJ & Hg). destruct (marks_fwd g m m' j J Hm HJ) as (J' & HJ' & [->| ->]);
    eexists; eauto.
Qed.

Lemma needs_marks g m m' s o : marks g m m' → needs m' s o ↔ needs m s o.
Proof. intros Hm. unfold needs. by destruct (same_core_fields _ _ (marks_same_core _ _ _ Hm)) as (-> & _). Qed.
Lemma reaches_marks g m m' s o : marks g m m' → reaches m' s o ↔ reaches m s o.
Proof.
  intros Hm. split.
  - induction 1; [apply reaches_needs|eapply reaches_step; [done|]]; by apply (needs_marks g m m' _ _ Hm).
  - induction 1; [apply reaches_needs|eapply reaches_step; [done|]]; by apply (needs_marks g m m' _ _ Hm).
Qed.

Lemma marks_job g m j J :
  job_heap m !! j = Some J → generation J ≠ g →
  marks g m (m <| job_heap ::= alter (mark_job g) j |>).
Proof.
  intros HJ Hg. split; [by destruct m|]. intros k. simpl. rewrite lookup_alter_if.
  destruct (job_heap m !! k) as [K|] eqn:HK; [|by left]. simpl. case_decide; [|by left].
  subst. right. exists K. split_and!; [done| |done]. congruence.
Qed.

Lemma unmarked_mono g m m' : marks g m m' → unmarked g m' ≤ unmarked g m.
Proof.
  intros Hm. unfold unmarked. rewrite <- !size_dom. apply subseteq_size.
  intros k. rewrite !elem_of_dom.
  intros [K [HK Hg]%map_lookup_filter_Some]. simpl in Hg.
  destruct (marks_live g m m' k K Hm HK) as (K0 & HK0 & [->| ->]); [|by destruct Hg].
  exists K0. by apply map_lookup_filter_Some.
Qed.
Lemma unmarked_lt g m m' j J :
  marks g m m' → job_heap m !! j = Some J → generation J ≠ g → marked g m' j →
  unmarked g m' < unmarked g m.
Proof.
  intros Hm HJ Hg (J' & HJ' & Hg'). unfold unmarked. rewrite <- !size_dom.
  apply subset_size. split.
  - intros k. rewrite !elem_of_dom. intros [K [HK Hgk]%map_lookup_filter_Some]. simpl in Hgk.
    destruct (marks_live g m m' k K Hm HK) as (K0 & HK0 & [->| ->]); [|by destruct Hgk].
    exists K0. by apply map_lookup_filter_Some.
  - intros Hsub. specialize (Hsub j). rewrite !elem_of_dom in Hsub.
    destruct Hsub as [K [HK HgK]%map_lookup_filter_Some]; [exists J; by apply map_lookup_filter_Some|].
    simpl in HgK. congruence.
Qed.


(** ** The sweep *)

(** What a sweep from [s] does: it marks what [s] needs, marks only what [s]
    reaches, and what it marked anew needs only marked jobs. *)
Record swept g s m m' : Prop := {
  sw_marks : marks g m m';
  sw_new : ∀ j J, job_heap m !! j = Some J → generation J ≠ g → marked g m' j →
    reaches m s j ∧ ∀ o, needs m (Some j) o → marked g m' o }.

Definition links_of m (s : option JobPtr) : list DepPtr := default [] (subjects_of m s).

Lemma elem_of_links_of m s d l :
  wf [] m → dep_heap m !! d = Some l → subject l = s → d ∈ links_of m s.
Proof.
  intros [_ Hl] Hd <-. unfold links_of.
  destruct (link_lists _ Hl d l Hd) as [(ds & -> & ?) _]. done.
Qed.
Lemma links_of_elem m s d :
  wf [] m → d ∈ links_of m s → ∃ l, dep_heap m !! d = Some l ∧ subject l = s ∧
    ∃ O, job_heap m !! object l = Some O.
Proof.
  intros [_ Hl]. unfold links_of. destruct (subjects_of m s) as [ds|] eqn:E; [|by intros ?%elem_of_nil].
  intros Hd. destruct (subject_links _ Hl s ds E) as [_ Hds]. destruct (Hds d Hd) as (l & Hdl & <-).
  exists l. split_and!; [done..|]. destruct (link_lists _ Hl d l Hdl) as [_ (os & Ho & _)].
  unfold objects_of in Ho. apply fmap_Some in Ho as (O & ? & _). eauto.
Qed.

Definition visit (n : nat) g (d : DepPtr) : MM () :=
  L ← dep_at d;
  if negb (matters L) then mret tt else
  O ← job_at (object L);
  if bool_decide (generation O = g) then mret tt else
  update_job (object L) (λ O, O <| matters_to_anchor := true |> <| generation := g |>);;
  find_jobs_that_matter_rec n (Some (object L)) g.

Lemma swept_after g s m m1 m2 :
  swept g s m m1 → swept g s m1 m2 → swept g s m m2.
Proof.
  intros [M1 N1] [M2 N2]. split; [by etrans|]. intros j J HJ Hg Hm2.
  destruct (marks_fwd g m m1 j J M1 HJ) as (J1 & HJ1 & [->| ->]).
  - destruct (N2 j J HJ1 Hg Hm2) as [Hr Hn]. split; [by apply (reaches_marks g m m1)|].
    intros o Ho. by apply Hn, (needs_marks g m m1).
  - destruct (N1 j J HJ Hg) as [Hr Hn]; [by exists (mark_job g J)|]. split; [done|].
    intros o Ho. eapply marked_mono; [done|auto].
Qed.

Lemma reaches_into m s j o : needs m s j → reaches m (Some j) o → reaches m s o.
Proof.
  intros Hs. induction 1; [|by eapply reaches_step].
  eapply reaches_step; [by apply reaches_needs|done].
Qed.

Lemma find_rec_spec n g : ∀ s m,
  wf [] m → is_Some (subjects_of m s) → unmarked g m < n →
  wp (find_jobs_that_matter_rec n s g) m
    (λ _ m', swept g s m m' ∧ ∀ o, needs m s o → marked g m' o).
Proof.
  induction n as [|n IH]; intros s m Hwf [ds Hds] Hn; [lia|].
  assert (wp (for_each ds (visit n g)) m
    (λ _ m', swept g s m m' ∧ ∀ o, needs m s o → marked g m' o)) as Hloop.
  2: { simpl. wp_step. destruct s as [j|]; simpl in Hds.
       - apply fmap_Some in Hds as (J & HJ & ->). wp_step. eapply wp_job_at; [done|]. by wp_step.
       - injection Hds as <-. by wp_step. }
  eapply wp_mono; [apply (wp_for_each ds (visit n g) (λ l' m1, swept g s m m1 ∧
    (∀ d, d ∈ l' → d ∈ ds) ∧
    ∀ d l, d ∈ ds → d ∉ l' → dep_heap m !! d = Some l → matters l = true → marked g m1 (object l)))|].
  2: { split_and!; [split; [done|]|done|by intros].
       intros j J HJ Hg (J' & HJ' & ?). congruence. }
  2: { intros [] m' (Hs & _ & Hall). split; [done|]. intros o (d & l & Hd & Hsub & Hm & <-).
       apply (Hall d l); [|by intros ?%elem_of_nil|done..].
       pose proof (elem_of_links_of m s d l Hwf Hd Hsub) as Hin. unfold links_of in Hin.
       by rewrite Hds in Hin. }
  intros d l' m1 (Hs1 & Hsub & Hdone). pose proof (sw_marks _ _ _ _ Hs1) as Hm1.
  pose proof (marks_same_core _ _ _ Hm1) as Hc1.
  destruct (links_of_elem m s d Hwf) as (l & Hd & Hsl & O0 & HO0).
  { unfold links_of. rewrite Hds. apply Hsub. left. }
  assert (∀ m2, swept g s m1 m2 → (matters l = true → marked g m2 (object l)) →
    swept g s m m2 ∧ (∀ d', d' ∈ l' → d' ∈ ds) ∧
    ∀ d' l2, d' ∈ ds → d' ∉ l' → dep_heap m !! d' = Some l2 → matters l2 = true →
      marked g m2 (object l2)) as Hnext.
  { intros m2 Hs2 Ho. split_and!; [by eapply swept_after|intros; apply Hsub; by right|].
    intros d' l2 Hin Hnin Hd' Hm2. destruct (decide (d' = d)) as [->|Hne].
    - rewrite Hd in Hd'. injection Hd' as <-. auto.
    - eapply marked_mono; [apply Hs2|]. apply (Hdone d' l2); try done.
      by rewrite not_elem_of_cons. }
  assert (swept g s m1 m1) as Hrefl.
  { split; [done|]. intros j J HJ Hg (J' & HJ' & ?). congruence. }
  unfold visit. wp_step. eapply wp_dep_at; [by rewrite (proj1 (same_core_fields _ _ Hc1))|].
  destruct (matters l) eqn:Hml; cbn [negb]; [|by apply wp_ret, Hnext].
  destruct (marks_fwd g m m1 _ _ Hm1 HO0) as (O & HO & HOO).
  wp_step. eapply wp_job_at; [done|]. case_bool_decide as HgO.
  { apply wp_ret, Hnext; [done|]. intros _. by exists O. }
  wp_step. eapply wp_intro; [by apply (update_job_eq _ _ _ O)|].
  set (m2 := m1 <| job_heap ::= alter (mark_job g) (object l) |>).
  assert (marks g m1 m2) as Hm2 by (by apply (marks_job g m1 (object l) O)).
  assert (job_heap m2 !! object l = Some (mark_job g O)) as HO2.
  { simpl. by rewrite lookup_alter_eq, HO. }
  assert (marked g m2 (object l)) as Hmk by (by exists (mark_job g O)).
  assert (wf [] m2) as Hw2.
  { by rewrite <- (marks_same_core _ _ _ Hm2), <- Hc1. }
  assert (is_Some (subjects_of m2 (Some (object l)))) as Hsub2.
  { unfold subjects_of. by rewrite HO2. }
  eapply wp_mono; [apply (IH _ _ Hw2 Hsub2)|].
  { pose proof (unmarked_mono g m m1 Hm1).
    pose proof (unmarked_lt g m1 m2 (object l) O Hm2 HO HgO Hmk). lia. }
  intros [] m3 [Hs3 Hn3]. pose proof (sw_marks _ _ _ _ Hs3) as Hm3.
  assert (needs m1 s (object l)) as Hneed.
  { apply (needs_marks g m m1 s _ Hm1). by exists d, l. }
  apply Hnext; [|intros _; by eapply marked_mono].
  split; [by etrans|]. intros j J HJ Hg Hmj. destruct (decide (j = object l)) as [->|Hne].
  - split; [by apply reaches_needs|]. intros o Ho. by apply Hn3, (needs_marks g m1 m2).
  - assert (job_heap m2 !! j = Some J) as HJ2 by (simpl; by rewrite lookup_alter_ne).
    destruct (sw_new _ _ _ _ Hs3 j J HJ2 Hg Hmj) as [Hr Hn'].
    split; [apply (reaches_into m1 s (object l)); [done|by apply (reaches_marks g m1 m2)]|].
    intros o Ho. by apply Hn', (needs_marks g m1 m2).
Qed.

(** ** The theorems *)

(** No job that a link leads to has been visited in generation [g]. *)
Definition fresh_generation g m : Prop :=
  ∀ d l J, dep_heap m !! d = Some l → job_heap m !! object l = Some J → generation J ≠ g.

Lemma reached_object m s j :
  wf [] m → reaches m s j → ∃ d l J, dep_heap m !! d = Some l ∧ object l = j ∧ job_heap m !! j = Some J.
Proof.
  intros [_ Hl] Hr. assert (∃ s', needs m s' j) as (s' & d & l & Hd & _ & _ & <-).
  { destruct Hr; eauto. }
  destruct (link_lists _ Hl d l Hd) as [_ (os & Ho & _)].
  unfold objects_of in Ho. apply fmap_Some in Ho as (O & ? & _). eauto 6.
Qed.

Lemma transaction_find_jobs_that_matter_spec m g :
  wf [] m → fresh_generation g m →
  wp (transaction_find_jobs_that_matter_to_anchor None g) m (λ _ m',
    wf [] m' ∧ with_heap (job_heap m) m' = m ∧
    (∀ j, job_heap m !! j = None → job_heap m' !! j = None) ∧
    ∀ j J, job_heap m !! j = Some J →
      (reaches m None j ∧ job_heap m' !! j = Some (mark_job g J)) ∨
      (¬ reaches m None j ∧ job_heap m' !! j = Some J)).
Proof.
  intros Hwf Hfresh. unfold transaction_find_jobs_that_matter_to_anchor. wp_step. wp_step.
  eapply wp_mono; [apply find_rec_spec; [done|by eexists|]|].
  { unfold unmarked. apply Nat.lt_succ_r, map_size_filter. }
  intros [] m' [Hs Hn]. pose proof (sw_marks _ _ _ _ Hs) as Hm.
  assert (∀ j, reaches m None j → marked g m' j) as Hr.
  { induction 1 as [o Ho|j o Hj IH Ho]; [auto|].
    destruct (reached_object m None j Hwf Hj) as (d & l & J & Hd & Hl & HJ).
    eapply (sw_new _ _ _ _ Hs j J HJ); [|done..]. apply (Hfresh d l J Hd). by rewrite Hl. }
  split_and!; [|apply Hm| |].
  { by rewrite <- (marks_same_core _ _ _ Hm). }
  { intros j HJ. destruct (mk_job _ _ _ Hm j) as [E|(J' & HJ' & _)]; congruence. }
  intros j J HJ. destruct (mk_job _ _ _ Hm j) as [E|(J' & HJ' & Hg & E)].
  - right. rewrite E. split; [|done]. intros Hj.
    destruct (reached_object m None j Hwf Hj) as (d & l & J0 & Hd & Hl & HJ0).
    destruct (Hr j Hj) as (J1 & HJ1 & Hg1). rewrite E in HJ1.
    apply (Hfresh d l J1 Hd); [by rewrite Hl|done].
  - rewrite HJ in HJ'. injection HJ' as <-. left. split; [|done].
    apply (sw_new _ _ _ _ Hs j J HJ Hg). by exists (mark_job g J).
Qed.

(** C4. The sweep from the anchor terminates and marks a job exactly when the
    anchor reaches it over links that all matter; every other job, and the
    rest of the state, is as it was. *)
Theorem transaction_find_jobs_that_matter_correct m g :
  wf [] m → fresh_generation g m →
  wp (transaction_find_jobs_that_matter_to_anchor None g) m (λ _ m',
    wf [] m' ∧ with_heap (job_heap m) m' = m ∧
    (∀ j, job_heap m !! j = None → job_heap m' !! j = None) ∧
    ∀ j J, job_heap m !! j = Some J →
      (reaches m None j ∧ job_heap m' !! j = Some (mark_job g J)) ∨
      (¬ reaches m None j ∧ job_heap m' !! j = Some J)).
Proof. apply transaction_find_jobs_that_matter_spec. Qed.

(** C5. No job that the anchor needs is dropped to minimise the impact of the
    transaction: what is reached over links that matter, and is in the
    transaction, stays there. *)
Theorem needed_jobs_survive m g :
  wf [] m → fresh_generation g m →
  wp (transaction_find_jobs_that_matter_to_anchor None g;; transaction_minimize_impact) m
    (λ _ m', wf [] m' ∧ ∀ j, reaches m None j → j ∈ all_jobs m → j ∈ all_jobs m').
Proof.
  intros Hwf Hfresh. wp_step.
  eapply wp_mono; [by apply transaction_find_jobs_that_matter_spec|].
  intros [] m1 (Hw1 & E1 & _ & Hm1).
  assert (dep_heap m1 = dep_heap m ∧ all_jobs m1 = all_jobs m) as [Ed Ea] by (by rewrite <- E1).
  eapply wp_mono; [by apply transaction_minimize_impact_spec|].
  intros [] m2 (Hw2 & _ & _ & _ & Hk). split; [done|]. intros j Hj Hin.
  rewrite <- Ea in Hin. revert j Hj Hin. apply (Hk (reaches m None)).
  - intros d l o Hd Hml Hsub Ho. rewrite Ed in Hd. eapply reaches_step; [done|]. by exists d, l.
  - intros j J Hj HJ. destruct (reached_object m None j Hwf Hj) as (_ & _ & J0 & _ & _ & HJ0).
    destruct (Hm1 j J0 HJ0) as [[_ E]|[? _]]; [|done]. rewrite HJ in E. injection E as ->. done.
Qed.
End matter.

(** ** Examples *)
Section examples.
Import Demo.

Lemma m0_fresh : fresh_generation 1 m0.
Proof.
  intros d l J _ HJ Hg. assert (map_all (λ _ J, negb (generation J =? 1)%Z) (job_heap m0) = true) as C
    by (vm_compute; reflexivity).
  pose proof (map_all_true _ _ C _ _ HJ) as E. simpl in E. by rewrite Hg in E.
Qed.

Lemma transaction_find_jobs_that_matter_correct_witness :
  ∃ m', transaction_find_jobs_that_matter_to_anchor None 1 m0 = Ret tt m' ∧ wf [] m' ∧
    matters_to_anchor <$> job_heap m' !! 13 = Some true ∧
    matters_to_anchor <$> job_heap m' !! 12 = Some false.
Proof.
  destruct (wp_elim _ _ _ (transaction_find_jobs_that_matter_correct m0 1 m0_wf m0_fresh))
    as ([] & m' & E & Hw & _).
  exists m'. split; [exact E|]. split; [exact Hw|].
  assert (after (transaction_find_jobs_that_matter_to_anchor None 1) m0 (λ m,
    (matters_to_anchor <$> job_heap m !! 13, matters_to_anchor <$> job_heap m !! 12)) (None, None)
    = (Some true, Some false)) as C by (vm_compute; reflexivity).
  unfold after in C. rewrite E in C. injection C. auto.
Defined.

Lemma needed_jobs_survive_witness :
  ∃ m', (transaction_find_jobs_that_matter_to_anchor None 1;; transaction_minimize_impact) m0
    = Ret tt m' ∧ wf [] m' ∧ all_jobs m' = [11; 13].
Proof.
  destruct (wp_elim _ _ _ (needed_jobs_survive m0 1 m0_wf m0_fresh)) as ([] & m' & E & Hw & _).
  exists m'. split; [exact E|]. split; [exact Hw|].
  assert (after (transaction_find_jobs_that_matter_to_anchor None 1;; transaction_minimize_impact)
    m0 all_jobs [] = [11; 13]) as C by (vm_compute; reflexivity).
  unfold after in C. by rewrite E in C.
Defined.
End examples.
