(* ===== verification/OrderSpec.v ===== *)
(** * Ordering cycles are found and broken (Order.v)

    [edge m j o]: the ordering makes the search go on from [j] to [o].
    [transaction_verify_order] returns 0 exactly when no cycle is reachable
    from the transaction; on a cycle it either drops a unit of the cycle that
    does not matter, or reports that the cycle cannot be broken.  This needs
    that no job carries the generation of the search already, which
    [stale_generation_hides_cycle] shows to be no idle condition. *)

From stdpp Require Import base gmap strings list fin_maps.
From Stdlib Require Import ZArith Lia.
From S2P Require Import Prelude CString JobType OrderedMap Engine Transaction Order Links Wf WfCheck Passes.

Section order_spec.
Context {P : Type} `{UnitVTable P}.
Abbreviation MM := (M (Manager P)).
Implicit Types m : Manager P.

(** ** The ordering graph *)

(** The job that the search looks at for a unit. *)
Definition job_for m (u : UnitPtr) : option JobPtr :=
  match transaction_job_of u m with
  | Some o => Some o
  | None => U ← units m !! u; u_job U
  end.
Definition edge m (j o : JobPtr) : Prop :=
  ∃ J U u, job_heap m !! j = Some J ∧ units m !! j_unit J = Some U ∧
    u ∈ dependencies U UNIT_BEFORE ∧ job_for m u = Some o.

(** A way back: every job on it was reached from the next one. *)
Fixpoint back_path m (c : list JobPtr) : Prop :=
  match c with
  | a :: (b :: _) as c' => edge m b a ∧ back_path m c'
  | _ => True
  end.
Definition cycle m (c : list JobPtr) : Prop :=
  back_path m c ∧ ∃ a z, head c = Some a ∧ last c = Some z ∧ edge m a z.

Section stale.
(** The jobs that look visited from the start: the search does not go on from them. *)
Context (old : JobPtr → Prop).
Definition onward m (j o : JobPtr) : Prop := edge m j o ∧ ¬ old j.
(** No infinite way from [j] on, hence no cycle either. *)
Definition loop_free m (j : JobPtr) : Prop := Acc (flip (onward m)) j.

(** A job that may be dropped to break a cycle. *)
Definition unimportant m (k : JobPtr) (K : Job) : bool :=
  if decide (k ∈ chain_of (j_unit K) m) then
    forallb (λ k', match job_heap m !! k' with
                   | Some K' => negb (matters_to_anchor K')
                   | None => false
                   end) (chain_of (j_unit K) m)
  else negb (matters_to_anchor K).
Definition droppable m (k : JobPtr) : bool :=
  match job_heap m !! k with
  | Some K => negb (installed K) && unimportant m k K
  | None => false
  end.

(** ** States that differ in the colours only *)

Definition blank (J : Job) : Job := J <| marker := None |> <| generation := 0%Z |>.
Definition same_graph m m' : Prop :=
  with_heap (job_heap m) m' = m ∧ blank <$> job_heap m' = blank <$> job_heap m.

#[global] Instance same_graph_equiv : Equivalence same_graph.
Proof.
  split.
  - intros m. split; [by destruct m|done].
  - intros m m' [E1 E2]. split; [|done]. rewrite <- E1. by destruct m'.
  - intros m1 m2 m3 [E1 E2] [E3 E4]. split; [|congruence].
    transitivity (with_heap (job_heap m1) m2); [|done]. rewrite <- E3. by destruct m3.
Qed.

Lemma core_of_blank J : core_of (blank J) = core_of J.
Proof. done. Qed.
Lemma same_graph_core m m' : same_graph m m' → same_core m m'.
Proof.
  intros [E1 E2]. split; [done|].
  assert (∀ h, core_of <$> h = core_of <$> (blank <$> h : gmap JobPtr Job)) as Hh.
  { intros h. rewrite <- map_fmap_compose. by apply map_fmap_ext. }
  by rewrite Hh, E2, <- Hh.
Qed.

Lemma same_graph_job m m' j J :
  same_graph m m' → job_heap m !! j = Some J → ∃ J', job_heap m' !! j = Some J' ∧
    blank J' = blank J.
Proof.
  intros [_ E] HJ. pose proof (f_equal (lookup j) E) as Ej. rewrite !lookup_fmap, HJ in Ej.
  apply fmap_Some in Ej as (J' & ? & ?). eauto.
Qed.

Lemma same_graph_job_for m m' u : same_graph m m' → job_for m' u = job_for m u.
Proof.
  intros Hs. destruct (same_core_fields _ _ (same_graph_core _ _ Hs)) as (_ & _ & Et & Eu & _).
  unfold job_for, transaction_job_of, chain_of. by rewrite Et, Eu.
Qed.

Lemma edge_mono m m' j o : same_graph m m' → edge m j o → edge m' j o.
Proof.
  intros Hs (J & U & u & HJ & HU & Hu & Ho).
  destruct (same_graph_job m m' j J Hs HJ) as (J' & HJ' & E). exists J', U, u.
  destruct (same_core_fields _ _ (same_graph_core _ _ Hs)) as (_ & _ & _ & Eu & _).
  pose proof (f_equal j_unit E) as Ej. simpl in Ej.
  rewrite Eu, Ej, (same_graph_job_for _ _ _ Hs). done.
Qed.
#[global] Instance edge_proper : Proper (same_graph ==> eq ==> eq ==> iff) edge.
Proof.
  intros m m' Hs j ? <- o ? <-. split; apply edge_mono; [done|by symmetry].
Qed.
#[global] Instance back_path_proper : Proper (same_graph ==> eq ==> iff) back_path.
Proof.
  intros m m' Hs c ? <-. induction c as [|a [|b c] IH]; [done..|].
  change (edge m b a ∧ back_path m (b :: c) ↔ edge m' b a ∧ back_path m' (b :: c)).
  by rewrite IH, Hs.
Qed.
#[global] Instance cycle_proper : Proper (same_graph ==> eq ==> iff) cycle.
Proof. intros m m' Hs c ? <-. unfold cycle. rewrite Hs. by setoid_rewrite Hs. Qed.
Lemma loop_free_mono m m' j : same_graph m m' → loop_free m j → loop_free m' j.
Proof.
  intros Hs. induction 1 as [j _ IH]. constructor. intros o [Ho Hn]. apply IH.
  split; [by rewrite Hs|done].
Qed.
Lemma droppable_proper m m' k : same_graph m m' → droppable m' k = droppable m k.
Proof.
  intros Hs. unfold droppable.
  assert (∀ k, (λ K, (j_unit K, installed K, matters_to_anchor K)) <$> job_heap m' !! k =
    (λ K, (j_unit K, installed K, matters_to_anchor K)) <$> job_heap m !! k) as Hk.
  { intros k'. destruct Hs as [_ E]. pose proof (f_equal (lookup k') E) as Ek.
    rewrite !lookup_fmap in Ek.
    destruct (job_heap m !! k') as [K|], (job_heap m' !! k') as [K'|]; try done. simpl in *.
    injection Ek. intros. congruence. }
  destruct (same_core_fields _ _ (same_graph_core _ _ Hs)) as (_ & _ & Et & _).
  assert (∀ u, chain_of u m' = chain_of u m) as Hc by (intros; unfold chain_of; by rewrite Et).
  pose proof (Hk k) as Ek.
  destruct (job_heap m !! k) as [K|], (job_heap m' !! k) as [K'|]; try done. simpl in Ek.
  injection Ek as E1 E2 E3. unfold unimportant. rewrite Hc, E1, E2, E3. f_equal.
  case_decide; [|done]. apply forallb_pointwise. intros x. pose proof (Hk x) as Ex.
  destruct (job_heap m !! x), (job_heap m' !! x); try done. simpl in Ex. congruence.
Qed.

(** ** The walk back *)

(** [j] may be asked about: it is live, and the head of its chain or off it. *)
Definition first_ok m (j : JobPtr) : Prop :=
  ∃ J, job_heap m !! j = Some J ∧
    (list_head (chain_of (j_unit J) m) = Some j ∨ j ∉ chain_of (j_unit J) m).

Lemma first_ok_mono m m' j : same_graph m m' → first_ok m j → first_ok m' j.
Proof.
  intros Hs (J & HJ & Hf). destruct (same_graph_job m m' j J Hs HJ) as (J' & HJ' & E).
  exists J'. split; [done|]. pose proof (f_equal j_unit E) as Eu. simpl in Eu. rewrite Eu.
  destruct (same_core_fields _ _ (same_graph_core _ _ Hs)) as (_ & _ & Et & _).
  unfold chain_of in *. by rewrite Et.
Qed.

Lemma assert_first_reads m j : first_ok m j → reads (assert_first j) m ().
Proof.
  intros (J & HJ & Hf). eapply reads_bind; [by apply reads_job|].
  eapply reads_bind; [apply reads_gets|]. unfold assert_. by rewrite bool_decide_true.
Qed.

Lemma unit_matters_reads m k K :
  wf [] m → job_heap m !! k = Some K → first_ok m k →
  reads (unit_matters_to_anchor (j_unit K) k) m (negb (unimportant m k K)).
Proof.
  intros Hwf HK Hf. eapply reads_bind; [by apply assert_first_reads|].
  eapply reads_bind; [apply reads_gets|]. unfold unimportant. case_decide.
  - rewrite forallb_negb_existsb. apply reads_any. intros k' Hk'.
    destruct (chain_live [] m _ k' (proj1 Hwf) Hk') as (K' & (K0 & HK0 & _)%eheap_Some & _).
    rewrite HK0, negb_involutive. eapply reads_bind; [by apply reads_job|done].
  - rewrite negb_involutive. unfold any.
    eapply reads_bind; [eapply reads_bind; [by apply reads_job|done]|].
    by destruct (matters_to_anchor K).
Qed.

(** The way back as the markers record it. *)
Fixpoint marker_path m g (c : list JobPtr) : Prop :=
  match c with
  | [] => True
  | a :: c' => (∃ A, job_heap m !! a = Some A ∧ generation A = g ∧
      marker A = Some (default a (head c'))) ∧ marker_path m g c'
  end.

Definition pick m (del : option JobPtr) (l : list JobPtr) : option JobPtr :=
  match del with Some d => Some d | None => find (droppable m) l end.

Lemma walk_step_reads m k K del :
  wf [] m → job_heap m !! k = Some K → first_ok m k →
  reads (if bool_decide (del ≠ None) || installed K then mret del else
           b ← unit_matters_to_anchor (j_unit K) k;
           mret (if b : bool then del else Some k)) m (pick m del [k]).
Proof.
  intros Hwf HK Hf. destruct del as [d|]; [done|]. simpl. unfold droppable. rewrite HK.
  destruct (installed K); [done|]. simpl.
  eapply reads_bind; [by apply unit_matters_reads|]. by destruct (unimportant m k K).
Qed.

Lemma pick_app m del l1 l2 : pick m (pick m del l1) l2 = pick m del (l1 ++ l2).
Proof.
  destruct del as [d|]; [done|]. simpl. induction l1 as [|x l1 IH]; [done|]. simpl.
  by destruct (droppable m x).
Qed.

Lemma walk_back_reads m g j c c' : ∀ n del,
  wf [] m → j ∉ c → NoDup (c ++ j :: c') → marker_path m g (c ++ j :: c') →
  Forall (first_ok m) (c ++ [j]) → length c < n →
  reads (walk_back n g j (head (c ++ j :: c')) del) m (pick m del (c ++ [j])).
Proof.
  induction c as [|k c IH]; intros n del Hwf Hj Hnd Hmp Hf Hn;
    (destruct n as [|n]; [simpl in Hn; lia|]); simpl.
  - destruct Hmp as [(K & HK & _) _]. eapply reads_bind; [by apply reads_job|].
    eapply reads_bind; [apply walk_step_reads; [done..|]|by rewrite bool_decide_true].
    by apply Forall_cons in Hf as [? _].
  - destruct Hmp as [(K & HK & Hg & Hmk) Hmp]. eapply reads_bind; [by apply reads_job|].
    apply Forall_cons in Hf as [Hfk Hf].
    eapply reads_bind; [by apply walk_step_reads|].
    apply not_elem_of_cons in Hj as [Hjk Hj]. rewrite bool_decide_false by congruence.
    apply NoDup_cons in Hnd as [Hk Hnd].
    assert (∃ x, head (c ++ j :: c') = Some x ∧ x ∈ c ++ j :: c') as (x & Hx & Hxin).
    { destruct c as [|x c]; simpl; eexists; (split; [done|left]). }
    rewrite Hx in Hmk. simpl in Hmk. rewrite bool_decide_true.
    2: { split; [done|]. rewrite Hmk. intros [= ->]. done. }
    rewrite Hmk, <- Hx. change (k :: c ++ [j]) with ([k] ++ (c ++ [j])). rewrite <- pick_app.
    apply IH; try done. simpl in Hn. lia.
Qed.

(** ** The search *)

(** The state of the search with the path [pi] from the root: the grey jobs are
    those of the path, and nothing black leads into a cycle. *)
Record dfs g m (pi : list JobPtr) : Prop := {
  dfs_nodup : NoDup pi;
  dfs_markers : marker_path m g pi;
  dfs_edges : back_path m pi;
  dfs_first : Forall (first_ok m) pi;
  dfs_grey : ∀ k K, job_heap m !! k = Some K → generation K = g → marker K ≠ None → k ∈ pi;
  dfs_black : ∀ k K, job_heap m !! k = Some K → generation K = g → marker K = None →
    loop_free m k }.

Definition white g m : gmap JobPtr Job :=
  filter (λ e : JobPtr * Job, generation e.2 ≠ g) (job_heap m).

(** A unit on a cycle was dropped. *)
Definition cycle_broken m m' : Prop :=
  ∃ m1 c d D, same_graph m m1 ∧ cycle m c ∧ d ∈ c ∧ droppable m d = true ∧
    job_heap m !! d = Some D ∧ wf [] m' ∧ shrinks [] m1 m' ∧ chain_of (j_unit D) m' = [] ∧
    (inside m1 → inside m') ∧
    ∀ S, closed S m1 → (∀ k, k ∈ chain_of (j_unit D) m1 → ¬ S k) → keeps S m1 m'.
(** There is a cycle without a job that may be dropped. *)
Definition cycle_stuck m m' : Prop :=
  same_graph m m' ∧ ∃ c, cycle m c ∧ ∀ k, k ∈ c → droppable m k = false.

Definition verdict g pi j m (r : Z) m' : Prop :=
  (r = 0%Z ∧ same_graph m m' ∧ dfs g m' pi ∧ loop_free m j ∧ white g m' ⊆ white g m) ∨
  (r = (- EAGAIN)%Z ∧ cycle_broken m m') ∨
  (r = (- ENOEXEC)%Z ∧ cycle_stuck m m').

Lemma cycle_broken_mono m1 m m' : same_graph m1 m → cycle_broken m m' → cycle_broken m1 m'.
Proof.
  clear old. intros Hs (m2 & c & d & D & Hs2 & Hc & Hd & Hdr & HD & ?).
  assert (same_graph m m1) as Hs' by done.
  destruct (same_graph_job m m1 d D Hs' HD) as (D1 & HD1 & E).
  exists m2, c, d, D1. pose proof (f_equal j_unit E) as Eu. simpl in Eu. rewrite Eu.
  split_and!; try done; [by etrans|by rewrite Hs|by rewrite <- (droppable_proper m1 m)|tauto..].
Qed.
Lemma cycle_stuck_mono m1 m m' : same_graph m1 m → cycle_stuck m m' → cycle_stuck m1 m'.
Proof.
  intros Hs (Hs2 & c & Hc & Hd). split; [by etrans|]. exists c. split; [by rewrite Hs|].
  intros k Hk. rewrite <- (droppable_proper m1 m) by done. auto.
Qed.

(** The job for a unit is there, and first in its chain. *)
Lemma job_for_first m u o :
  wf [] m → job_for m u = Some o → first_ok m o ∧ ∃ O, job_heap m !! o = Some O ∧ j_unit O = u.
Proof.
  intros [Hc _]. unfold job_for, transaction_job_of.
  destruct (list_head (chain_of u m)) as [o'|] eqn:Eo.
  - intros [= ->]. pose proof (list_head_elem _ _ Eo) as Hin.
    destruct (chain_live [] m u o Hc Hin) as (J & (O & HO & ->)%eheap_Some & Hu). simpl in Hu.
    split; [|by eauto]. exists O. rewrite Hu. auto.
  - destruct (units m !! u) as [U|] eqn:HU; [simpl|done]. intros Hj.
    destruct (wc_unit _ _ Hc u U HU) as (_ & _ & Hjob).
    destruct (Hjob o Hj) as (J & (O & HO & ->)%eheap_Some & Hu & _). simpl in Hu.
    split; [|by eauto]. exists O. split; [done|]. right. rewrite Hu.
    apply list_head_None in Eo. rewrite Eo. apply not_elem_of_nil.
Qed.

(** *** Colouring *)

Definition paint g (mk : option JobPtr) (J : Job) : Job :=
  J <| marker := mk |> <| generation := g |>.
Definition painted g j mk m : Manager P := m <| job_heap ::= alter (paint g mk) j |>.

Lemma painted_graph g j mk m : same_graph m (painted g j mk m).
Proof.
  split; [by destruct m|]. simpl. apply map_eq. intros k.
  rewrite !lookup_fmap, lookup_alter_if. destruct (job_heap m !! k); [|done]. simpl.
  by case_decide.
Qed.
Lemma painted_lookup g j mk m k :
  job_heap (painted g j mk m) !! k =
    (λ K, if decide (j = k) then paint g mk K else K) <$> job_heap m !! k.
Proof. simpl. apply lookup_alter_if. Qed.

Lemma white_painted g j mk m : white g (painted g j mk m) ⊆ white g m.
Proof.
  apply map_subseteq_spec. intros k K. unfold white. rewrite !map_lookup_filter_Some, painted_lookup.
  destruct (job_heap m !! k) as [K0|]; simpl; [|naive_solver]. case_decide; naive_solver.
Qed.
Lemma white_painted_lt g j mk m J :
  job_heap m !! j = Some J → generation J ≠ g →
  size (white g (painted g j mk m)) < size (white g m).
Proof.
  intros HJ Hg. apply map_subset_size. split; [apply white_painted|]. intros Hsub.
  rewrite map_subseteq_spec in Hsub.
  assert (white g (painted g j mk m) !! j = Some J) as E.
  { apply Hsub. by apply map_lookup_filter_Some. }
  apply map_lookup_filter_Some in E as [E _]. rewrite painted_lookup, HJ in E. simpl in E.
  rewrite decide_True in E by done. injection E as E. apply Hg. by rewrite <- E.
Qed.

Lemma marker_path_painted g j mk m c :
  j ∉ c → marker_path m g c → marker_path (painted g j mk m) g c.
Proof.
  induction c as [|a c IH]; [done|]. intros [Ha Hc]%not_elem_of_cons [(A & HA & ?) Hm].
  split; [|by apply IH]. exists A. split; [|done]. rewrite painted_lookup, HA. simpl.
  by rewrite decide_False.
Qed.
Lemma first_ok_painted g j mk m c :
  Forall (first_ok m) c → Forall (first_ok (painted g j mk m)) c.
Proof.
  intros Hf. eapply Forall_impl; [exact Hf|]. intros k. apply first_ok_mono, painted_graph.
Qed.

(** Onto the path ... *)
Lemma dfs_push g m pi j J :
  dfs g m pi → job_heap m !! j = Some J → generation J ≠ g → first_ok m j →
  (∀ f, head pi = Some f → edge m f j) →
  dfs g (painted g j (Some (default j (head pi))) m) (j :: pi).
Proof.
  intros [Hnd Hmp Hbp Hf Hgr Hbl] HJ Hg Hfj Hedge. set (mk := Some (default j (head pi))).
  pose proof (painted_graph g j mk m) as Hs.
  assert (j ∉ pi) as Hj.
  { intros Hin. clear -Hmp HJ Hg Hin. induction pi as [|a pi IH]; [by apply elem_of_nil in Hin|].
    destruct Hmp as [(A & HA & ? & _) Hmp]. apply elem_of_cons in Hin as [->|?]; [congruence|auto]. }
  split.
  - by constructor.
  - split; [|by apply marker_path_painted]. exists (paint g mk J).
    rewrite painted_lookup, HJ. simpl. by rewrite decide_True.
  - rewrite <- Hs. destruct pi as [|f pi]; [done|]. split; [by apply Hedge|done].
  - constructor; [by eapply first_ok_mono|by apply first_ok_painted].
  - intros k K HK. rewrite painted_lookup in HK. apply fmap_Some in HK as (K0 & HK0 & ->).
    case_decide; [subst; intros; left|intros; right; eauto].
  - intros k K HK. rewrite painted_lookup in HK. apply fmap_Some in HK as (K0 & HK0 & ->).
    case_decide; [done|]. intros. eapply loop_free_mono; eauto.
Qed.
(** ... and off it. *)
Lemma dfs_pop g m pi j :
  dfs g m (j :: pi) → loop_free m j → dfs g (painted g j None m) pi.
Proof.
  intros [Hnd Hmp Hbp Hf Hgr Hbl] Hlf. pose proof (painted_graph g j None m) as Hs.
  apply NoDup_cons in Hnd as [Hj Hnd]. apply Forall_cons in Hf as [_ Hf]. split.
  - done.
  - by apply marker_path_painted, Hmp.
  - rewrite <- Hs. destruct pi; [done|]. apply Hbp.
  - by apply first_ok_painted.
  - intros k K HK. rewrite painted_lookup in HK. apply fmap_Some in HK as (K0 & HK0 & ->).
    case_decide; [done|]. intros Hg Hm. by apply (Hgr k K0 HK0 Hg), elem_of_cons in Hm as [->|].
  - intros k K HK. rewrite painted_lookup in HK. apply fmap_Some in HK as (K0 & HK0 & ->).
    case_decide; intros; (eapply loop_free_mono; [done|]); [by subst|eauto].
Qed.

(** *** A grey job closes a cycle *)

Lemma back_path_prefix m c c' : back_path m (c ++ c') → back_path m c.
Proof.
  induction c as [|a [|b c] IH]; [done..|]. intros [? ?]. split; [done|]. by apply IH.
Qed.

Lemma break_cycle_spec g m pi j J :
  wf [] m → dfs g m pi → j ∈ pi → job_heap m !! j = Some J →
  (∀ f, head pi = Some f → edge m f j) →
  wp (w ← gets (λ m, S (S (size (job_heap m))));
      delete ← walk_back w g j (head pi) None;
      match delete with
      | Some d => D ← job_at d; transaction_delete_unit (j_unit D);; mret (- EAGAIN)%Z
      | None => mret (- ENOEXEC)%Z
      end) m (λ r m', verdict g pi j m r m').
Proof.
  intros Hwf Hdfs Hin HJ Hedge.
  apply list_elem_of_split_l in Hin as (c & c' & -> & Hj).
  destruct Hdfs as [Hnd Hmp Hbp Hf _ _].
  assert (cycle m (c ++ [j])) as Hcyc.
  { split; [by apply (back_path_prefix m _ c'); rewrite <- app_assoc|].
    destruct (head (c ++ j :: c')) as [a|] eqn:Ea; [|by destruct c].
    exists a, j. rewrite last_snoc. split_and!; [by destruct c|done|by apply Hedge]. }
  assert (length c < S (S (size (job_heap m)))) as Hlen.
  { assert (length c ≤ size (job_heap m)); [|lia]. rewrite <- size_dom.
    rewrite <- (size_list_to_set (C := gset nat) c).
    2: { apply NoDup_app in Hnd. apply Hnd. }
    apply subseteq_size. intros k. rewrite elem_of_list_to_set, elem_of_dom. intros Hk.
    rewrite Forall_forall in Hf. destruct (Hf k) as (K & ? & _); [|by eauto].
    apply elem_of_app. by left. }
  wp_step. wp_step. wp_step. eapply reads_wp.
  { apply (walk_back_reads m g j c c' _ None Hwf Hj Hnd Hmp); [|exact Hlen].
    rewrite Forall_forall in *. intros k Hk. apply Hf. set_solver. }
  simpl. destruct (find (droppable m) (c ++ [j])) as [d|] eqn:Ed.
  - apply find_some in Ed as [Hd%list_elem_of_In Hdr].
    destruct (job_heap m !! d) as [D|] eqn:HD; [|by unfold droppable in Hdr; rewrite HD in Hdr].
    wp_step. eapply wp_job_at; [done|]. wp_step.
    eapply wp_mono; [by apply transaction_delete_unit_spec|].
    intros [] m' (Hw' & Hs' & Hch & Hin & Hk). wp_step. right; left. split; [done|].
    exists m, (c ++ [j]), d, D. by split_and!.
  - wp_step. right; right. split; [done|]. split; [done|]. exists (c ++ [j]). split; [done|].
    intros k Hk. apply (find_none _ _ Ed). by apply list_elem_of_In.
Qed.

(** *** The recursion *)

Lemma verify_rec_spec g n : ∀ pi j m,
  wf [] m → dfs g m pi → first_ok m j → (∀ f, head pi = Some f → edge m f j) →
  size (white g m) < n →
  wp (verify_order_one_rec n j (head pi) g) m (λ r m', verdict g pi j m r m').
Proof.
  induction n as [|n IH]; intros pi j m Hwf Hdfs Hfj Hedge Hn; [lia|]. simpl.
  wp_step. eapply reads_wp; [by apply assert_first_reads|].
  pose proof Hfj as (J & HJ & _). wp_step. eapply wp_job_at; [done|].
  case_bool_decide as Hg.
  { destruct (marker J) as [mk|] eqn:Hmk.
    - eapply break_cycle_spec; [done..| |done|done].
      eapply (dfs_grey _ _ _ Hdfs); [done|done|by rewrite Hmk].
    - wp_step. left. split_and!; [done..| |done]. by eapply (dfs_black _ _ _ Hdfs). }
  set (m1 := painted g j (Some (default j (head pi))) m).
  wp_step. eapply wp_intro; [by apply (update_job_eq _ _ _ J)|].
  change (wp (U ← unit_at (j_unit J);
    r ← for_each_r (dependencies U UNIT_BEFORE) (λ u,
      t ← gets (transaction_job_of u);
      V ← unit_at u;
      match (match t with Some o => Some o | None => u_job V end) with
      | None => mret 0%Z
      | Some o => verify_order_one_rec n o (Some j) g
      end);
    if bool_decide (r < 0)%Z then mret r else
    update_job j (λ J, J <| marker := None |>);; mret 0%Z) m1 (verdict g pi j m)).
  pose proof (painted_graph g j (Some (default j (head pi))) m : same_graph m m1) as Hs1.
  pose proof (dfs_push g m pi j J Hdfs HJ Hg Hfj Hedge : dfs g m1 (j :: pi)) as Hdfs1.
  pose proof (white_painted_lt g j (Some (default j (head pi))) m J HJ Hg
    : size (white g m1) < size (white g m)) as Hlt.
  assert (wf [] m1) as Hw1 by (by rewrite <- (same_graph_core _ _ Hs1)).
  destruct (wf_job m j J Hwf HJ) as (U & HU & _).
  wp_step. eapply wp_unit_at; [exact HU|]. wp_step.
  eapply (wp_for_each_r _ _ (λ l' m2, same_graph m1 m2 ∧ dfs g m2 (j :: pi) ∧
    white g m2 ⊆ white g m1 ∧
    ∀ u o, u ∈ dependencies U UNIT_BEFORE → u ∉ l' → job_for m u = Some o → loop_free m o)).
  3: { split_and!; [done..|]. intros u o Hu []. done. }
  - intros u l' m2 (Hs2 & Hdfs2 & Hwh2 & Hdone) Hu.
    assert (same_graph m m2) as Hsm2 by (by etrans).
    assert (wf [] m2) as Hw2 by (by rewrite <- (same_graph_core _ _ Hsm2)).
    destruct (wc_unit _ _ (proj1 Hwf) (j_unit J) U HU) as (HUdeps & _).
    destruct (HUdeps _ _ Hu) as [V HV].
    assert (units m2 = units m) as Eu.
    { destruct (same_core_fields _ _ (same_graph_core _ _ Hsm2)) as (_ & _ & _ & E & _). done. }
    wp_step. wp_step. wp_step. eapply wp_unit_at; [by rewrite Eu|].
    assert (match transaction_job_of u m2 with Some o => Some o | None => u_job V end = job_for m u) as ->.
    { rewrite <- (same_graph_job_for m m2 u Hsm2). unfold job_for. rewrite Eu, HV. done. }
    destruct (job_for m u) as [o|] eqn:Ho.
    2: { wp_step. rewrite bool_decide_false by lia. split_and!; [done..|].
         intros u' o Hu' Hnin Ho'. destruct (decide (u' = u)) as [->|]; [congruence|].
         apply (Hdone u' o); [done| |done]. by rewrite not_elem_of_cons. }
    assert (edge m j o) as Hjo by (by exists J, U, u).
    eapply wp_mono; [apply (IH (j :: pi) o m2 Hw2 Hdfs2)|].
    + apply (first_ok_mono m m2); [done|]. by apply (job_for_first m u o Hwf).
    + intros f [= <-]. by apply (edge_mono m m2).
    + apply map_subseteq_size in Hwh2. lia.
    + intros r m3 [(-> & Hs3 & Hdfs3 & Hlf & Hwh3)|[(-> & Hb)|(-> & Hst)]].
      * rewrite bool_decide_false by lia. split_and!; [by etrans|done|by etrans|].
        intros u' o' Hu' Hnin Ho'. destruct (decide (u' = u)) as [->|Hne].
        -- rewrite Ho in Ho'. injection Ho' as <-. by apply (loop_free_mono m2 m).
        -- apply (Hdone u' o'); [done| |done]. by rewrite not_elem_of_cons.
      * rewrite bool_decide_true by (unfold EAGAIN; lia).
        wp_step. right; left. split; [done|]. by eapply cycle_broken_mono.
      * rewrite bool_decide_true by (unfold ENOEXEC; lia).
        wp_step. right; right. split; [done|]. by eapply cycle_stuck_mono.
  - intros m2 (Hs2 & Hdfs2 & Hwh2 & Hdone). rewrite bool_decide_false by lia.
    assert (same_graph m m2) as Hsm2 by (by etrans).
    destruct (same_graph_job m m2 j J Hsm2 HJ) as (J2 & HJ2 & _).
    wp_step. eapply wp_intro; [by apply (update_job_eq _ _ _ J2)|]. wp_step.
    assert (loop_free m j) as Hlf.
    { constructor. intros o [(J' & U' & u & HJ' & HU' & Hu & Ho) _]. rewrite HJ in HJ'.
      injection HJ' as <-. rewrite HU in HU'. injection HU' as <-.
      apply (Hdone u o); [done|by intros ?%elem_of_nil|done]. }
    assert (upd job_heap (alter (λ J, J <| marker := None |>) j) m2 = painted g j None m2) as ->.
    { destruct (dfs_markers _ _ _ Hdfs2) as [(A & HA & Hga & _) _]. unfold painted, upd. f_equal.
      apply map_eq. intros k. rewrite !lookup_alter_if. destruct (job_heap m2 !! k) as [K|] eqn:HK; [|done].
      simpl. case_decide as Hk; [|done]. subst k. rewrite HK in HA. injection HA as ->.
      f_equal. unfold paint, upd. destruct A; simpl in *. by subst. }
    left. split_and!; [done| | |done|].
    + etrans; [done|]. apply painted_graph.
    + apply dfs_pop; [done|]. by apply (loop_free_mono m m2).
    + etrans; [apply white_painted|]. etrans; [done|]. apply white_painted.
Qed.

(** ** The theorems *)

Lemma back_path_succ m c a k :
  back_path m (a :: c) → k ∈ c → ∃ k', k' ∈ a :: c ∧ edge m k k'.
Proof.
  revert a. induction c as [|b c IH]; intros a Hbp Hk; [by apply elem_of_nil in Hk|].
  destruct Hbp as [Hab Hbp]. apply elem_of_cons in Hk as [->|Hk].
  - exists a. split; [left|done].
  - destruct (IH b Hbp Hk) as (k' & ? & ?). exists k'. split; [by right|done].
Qed.
(** Whoever is on a cycle can go on for ever. *)
Lemma cycle_not_loop_free m c k : cycle m c → (∀ x, x ∈ c → ¬ old x) → k ∈ c → ¬ loop_free m k.
Proof.
  intros Hc Hold. revert Hc. intros (Hbp & a & z & Ha & Hz & Haz) Hk Hlf. revert Hk.
  induction Hlf as [k _ IH]. intros Hk. destruct c as [|a' c]; [done|]. injection Ha as ->.
  apply elem_of_cons in Hk as [->|Hk].
  - apply (IH z); [split; [done|apply Hold; left]|]. rewrite last_Some in Hz. destruct Hz as [c0 ->]. set_solver.
  - destruct (back_path_succ m c a k Hbp Hk) as (k' & Hk' & He). apply (IH k'); [|done]. split; [done|]. apply Hold. by right.
Qed.
Lemma loop_free_rtc m j k : rtc (onward m) j k → loop_free m j → loop_free m k.
Proof. induction 1 as [|j k l He _ IH]; [done|]. intros [Hj]. by apply IH, Hj. Qed.

End stale.

(** A broken cycle costs the transaction a job. *)
Lemma cycle_broken_fewer m m' :
  wf [] m → cycle_broken m m' → length (all_jobs m') < length (all_jobs m).
Proof.
  intros Hwf (m1 & c & d & D & Hs & _ & _ & Hdr & HD & Hw' & Hs' & Hch & _).
  destruct (same_core_fields _ _ (same_graph_core _ _ Hs)) as (_ & _ & Et & _).
  assert (all_jobs m1 = all_jobs m) as Ea by (unfold all_jobs; by rewrite Et).
  rewrite <- Ea. unfold droppable in Hdr. rewrite HD in Hdr.
  apply andb_true_iff in Hdr as [Hi%negb_true_iff _].
  apply (sublist_lost _ _ d); [apply (sh_all _ _ _ Hs')| |].
  - rewrite Ea. apply (elem_of_all_jobs [] m d (proj1 Hwf)). exists (erase_lists D).
    assert (eheap m !! d = Some (erase_lists D)) as HeD by (apply eheap_Some; eauto).
    split; [done|]. destruct (wc_job _ _ (proj1 Hwf) d _ HeD) as (U & _ & Hk).
    simpl in Hk. rewrite Hi in Hk. by destruct Hk as ([?|[]%elem_of_nil] & _).
  - intros Hin. apply (elem_of_all_jobs [] m' d (proj1 Hw')) in Hin as (D' & HD' & Hin).
    apply eheap_Some in HD' as (D0 & HD0 & ->).
    destruct (shrinks_job m1 m' d D0 Hs' HD0) as (D1 & HD1 & E1 & _).
    destruct (same_graph_job m m1 d D Hs HD) as (D2 & HD2 & E2). rewrite HD1 in HD2.
    injection HD2 as <-. pose proof (f_equal j_unit E1) as U1. pose proof (f_equal j_unit E2) as U2.
    simpl in *. rewrite U1, U2, Hch in Hin. by apply elem_of_nil in Hin.
Qed.

(** Coloured in generation [g] by an earlier search. *)
Definition stale g m (j : JobPtr) : Prop := ∃ J, job_heap m !! j = Some J ∧ generation J = g.
(** The searches that left this colour were finished with the job. *)
Definition settled g m : Prop := ∀ j J, job_heap m !! j = Some J → generation J = g → marker J = None.

Lemma transaction_verify_order_spec m g :
  wf [] m → settled g m →
  wp (transaction_verify_order g) m (λ '(r, g') m', g' = u32 (g + 1) ∧
    ((r = 0%Z ∧ same_graph m m' ∧ wf [] m' ∧
      ∀ j k c, j ∈ head_jobs m → rtc (onward (stale g m) m) j k → k ∈ c → (∀ x, x ∈ c → ¬ stale g m x) →
        ¬ cycle m c) ∨
     (r = (- EAGAIN)%Z ∧ cycle_broken m m') ∨
     (r = (- ENOEXEC)%Z ∧ cycle_stuck m m'))).
Proof.
  intros Hwf Hun. unfold transaction_verify_order. do 3 wp_step.
  apply (wp_for_each_r _ _ (λ l' m1, same_graph m m1 ∧ dfs (stale g m) g m1 [] ∧
    ∀ j, j ∈ head_jobs m → j ∉ l' → loop_free (stale g m) m j)).
  3: { split_and!; [done| |by intros]. split; [constructor|done|done|constructor| |].
       - intros k K HK Hg []. by apply (Hun k K).
       - intros k K HK Hg _. constructor. intros o [_ []]. by exists K. }
  - intros j l' m1 (Hs1 & Hdfs1 & Hdone) Hj. unfold transaction_verify_order_one. wp_step. wp_step.
    assert (wf [] m1) as Hw1 by (by rewrite <- (same_graph_core _ _ Hs1)).
    destruct (job_live m j Hwf (head_jobs_all _ _ Hj)) as [J HJ].
    eapply wp_mono; [apply (verify_rec_spec (stale g m) g _ [] j m1 Hw1 Hdfs1)|].
    + apply (first_ok_mono m m1 j Hs1). exists J. split; [done|]. left. by apply head_jobs_chain.
    + by intros ? [=].
    + unfold white. pose proof (map_size_filter (λ e : JobPtr * Job, generation e.2 ≠ g) (job_heap m1)).
      lia.
    + intros r m2 [(-> & Hs2 & Hdfs2 & Hlf & _)|[(-> & Hb)|(-> & Hst)]].
      * rewrite bool_decide_false by lia. split_and!; [by etrans|done|].
        intros j' Hj' Hnin. destruct (decide (j' = j)) as [->|Hne].
        -- by apply (loop_free_mono _ m1 m).
        -- apply Hdone; [done|]. by rewrite not_elem_of_cons.
      * rewrite bool_decide_true by (unfold EAGAIN; lia). wp_step. split; [done|].
        right; left. split; [done|]. by eapply cycle_broken_mono.
      * rewrite bool_decide_true by (unfold ENOEXEC; lia). wp_step. split; [done|].
        right; right. split; [done|]. by eapply cycle_stuck_mono.
  - intros m1 (Hs1 & _ & Hdone). wp_step. split; [done|]. left. split_and!; [done..| |].
    + by rewrite <- (same_graph_core _ _ Hs1).
    + intros j k c Hj Hr Hk Hold Hc. apply (cycle_not_loop_free _ m c k Hc Hold Hk).
      eapply loop_free_rtc; [done|]. apply Hdone; [done|by intros ?%elem_of_nil].
Qed.

(** C2. The check of the ordering terminates, if an earlier search that left the generation [g] on
    a job was finished with it ([settled]).  It returns 0 only when no cycle
    can be reached from the transaction without going through such a stale job, and then has changed nothing but the
    colours; so when no job carries [g] yet, there is no reachable cycle at all
    ([stale_generation_hides_cycle] has a cycle through a stale one).  It returns [-EAGAIN] only when there was a cycle, and has then
    removed from the transaction all jobs of a unit on that cycle, whose job
    on the cycle was not installed and did not matter to the anchor; a set of
    jobs closed under what its members need that has no job of this unit is
    not touched.  It returns [-ENOEXEC] only when there is a cycle on which
    every job is installed or matters. *)
Theorem transaction_verify_order_correct m g :
  wf [] m → settled g m →
  wp (transaction_verify_order g) m (λ '(r, g') m', g' = u32 (g + 1) ∧
    ((r = 0%Z ∧ same_graph m m' ∧ wf [] m' ∧
      ∀ j k c, j ∈ head_jobs m → rtc (onward (stale g m) m) j k → k ∈ c → (∀ x, x ∈ c → ¬ stale g m x) →
        ¬ cycle m c) ∨
     (r = (- EAGAIN)%Z ∧ cycle_broken m m') ∨
     (r = (- ENOEXEC)%Z ∧ cycle_stuck m m'))).
Proof. apply transaction_verify_order_spec. Qed.

(** *** The colours the search leaves *)

(** The generations from [b] on, if they were used before, are done with. *)

Definition clean_from (b : Z) m : Prop :=
  ∀ j J, job_heap m !! j = Some J → (b ≤ generation J)%Z → marker J = None.
Lemma clean_settled g m : clean_from g m → settled g m.
Proof. intros Hc j J HJ E. apply (Hc j J HJ). lia. Qed.

Lemma clean_shrinks X b m m' : shrinks X m m' → clean_from b m → clean_from b m'.
Proof.
  intros Hs Hb j J HJ. destruct (sh_heap _ _ _ Hs j J HJ) as (J0 & HJ0 & E & _).
  pose proof (f_equal generation E) as Eg. pose proof (f_equal marker E) as Em. simpl in *. rewrite Eg, Em. by apply (Hb j).
Qed.

Lemma wlp_reads_only {A} (c : MM A) m (Q : A → Manager P → Prop) :
  (∀ a m', c m = Ret a m' → m' = m) → (∀ a, Q a m) → wlp c m Q.
Proof. intros Hc HQ. unfold wlp. destruct (c m) as [a m'| |] eqn:E; [|done..]. by rewrite (Hc a m' eq_refl). Qed.

Lemma walk_back_pure n : ∀ g j k d m a m', walk_back n g j k d m = Ret a m' → m' = m.
Proof.
  assert (∀ l (test : JobPtr → MM bool) m a m', (∀ x a m', test x m = Ret a m' → m' = m) →
    any l test m = Ret a m' → m' = m) as Hany.
  { induction l as [|x l IH]; intros test m a m' Ht; simpl; [by intros [= _ <-]|].
    unfold mbind, M_bind. destruct (test x m) as [b m1| |] eqn:E; [|done..]. apply Ht in E as ->.
    destruct b; [by intros [= _ <-]|]. by apply IH. }
  assert (∀ u k m a m', unit_matters_to_anchor u k m = Ret a m' → m' = m) as Huma.
  { intros u k m a m'. unfold unit_matters_to_anchor, assert_first, assert_, job_at, gets, deref.
    unfold mbind, M_bind. destruct (job_heap m !! k) as [K|]; [simpl|done].
    case_bool_decide; [simpl|done]. apply Hany. intros x b m2. destruct (job_heap m !! x); [|done].
    simpl. by intros [= _ <-]. }
  induction n as [|n IH]; intros g j k d m a m'; simpl; [done|]. destruct k as [k|]; [|by intros [= _ <-]].
  unfold mbind, M_bind, job_at, deref. destruct (job_heap m !! k) as [K|]; [simpl|done].
  destruct (_ || installed K); simpl.
  - case_bool_decide; [by intros [= _ <-]|by apply IH].
  - destruct (unit_matters_to_anchor (j_unit K) k m) as [b m1| |] eqn:E; [|done..].
    apply Huma in E as ->. simpl. case_bool_decide; [by intros [= _ <-]|by apply IH].
Qed.

Lemma wlp_update_job j f m (Q : unit → Manager P → Prop) :
  Q tt (m <| job_heap ::= alter f j |>) → wlp (update_job j f) m Q.
Proof.
  intros HQ. unfold wlp. destruct (job_heap m !! j) as [J|] eqn:HJ; [by rewrite (update_job_eq j f m J HJ)|].
  unfold update_job, job_at, mbind, M_bind. by rewrite HJ.
Qed.

(** Recolouring a job. *)
Lemma recolour b j (f : Job → Job) m :
  (∀ J, core_of (f J) = core_of J ∧
    (((b ≤ generation J)%Z → marker J = None) → (b ≤ generation (f J))%Z → marker (f J) = None)) →
  wf [] m ∧ clean_from b m →
  wf [] (m <| job_heap ::= alter f j |>) ∧ clean_from b (m <| job_heap ::= alter f j |>).
Proof.
  intros Hf [Hw Hb]. split.
  - assert (same_core m (m <| job_heap ::= alter f j |>)) as Hc by (apply same_core_update; intros; by apply Hf).
    by rewrite <- Hc.
  - intros k K. simpl. rewrite lookup_alter_if. intros (K0 & HK0 & ->)%fmap_Some.
    case_decide; [apply Hf|]; by apply (Hb k).
Qed.

Lemma verify_rec_coloured b g n : (g < b)%Z → ∀ j from m, wf [] m → clean_from b m →
  wlp (verify_order_one_rec n j from g) m (λ _ m', wf [] m' ∧ clean_from b m').
Proof.
  intros Hg. set (I := λ m, wf [] m ∧ clean_from b m).
  induction n as [|n IH]; intros j from m Hw Hb; simpl; [done|].
  apply wlp_bind, wlp_reads_only.
  { intros [] m'. unfold assert_first, assert_, job_at, gets, deref, mbind, M_bind.
    destruct (job_heap m !! j); [simpl|done]. by case_bool_decide; intros [= <-]. }
  intros _. apply wlp_bind, wlp_deref. intros J HJ. destruct (bool_decide (generation J = g)).
  - destruct (marker J) as [mk|]; [|by wlp_step].
    wlp_step. wlp_step. wlp_step. apply wlp_reads_only; [intros a m'; apply walk_back_pure|].
    intros [d|]; [|by wlp_step]. wlp_step. apply wlp_deref. intros D HD. wlp_step.
    eapply wlp_mono; [apply wp_wlp; by apply transaction_delete_unit_spec|].
    intros [] m' (Hw' & Hs' & _). wlp_step. split; [done|by apply (clean_shrinks [] b m)].
  - wlp_step. apply wlp_update_job.
    match goal with |- wlp _ ?s _ => assert (I s) as H1 by (apply recolour; [intros J'; split; [done|simpl; lia]|by split]); revert H1; generalize s end.
    clear Hw Hb. intros m1 H1.
    wlp_step. apply wlp_deref. intros U _. wlp_step.
    apply (wlp_for_each_r _ _ I); [| |done].
    + intros u m2 [Hw2 Hb2]. wlp_step. wlp_step. wlp_step. apply wlp_deref. intros V _.
      destruct (match transaction_job_of u m2 with Some o => Some o | None => u_job V end);
        [by apply IH|by wlp_step].
    + intros r m2 H2. case_bool_decide; [by wlp_step|]. wlp_step. apply wlp_update_job. wlp_step.
      by apply recolour.
Qed.

Lemma transaction_verify_order_coloured b g m :
  (g < b)%Z → wf [] m → clean_from b m →
  wlp (transaction_verify_order g) m (λ _ m', wf [] m' ∧ clean_from b m').
Proof.
  intros Hg Hw Hb. unfold transaction_verify_order. do 3 wlp_step.
  apply (wlp_for_each_r _ _ (λ m, wf [] m ∧ clean_from b m)); [|by intros; wlp_step|done].
  intros j m1 [? ?]. unfold transaction_verify_order_one. wlp_step. wlp_step. by apply verify_rec_coloured.
Qed.
End order_spec.

(** ** Examples *)
Section examples.
Import Demo.

(** "a" before "b" before "a"; "a" was asked for, "b" is only wanted. *)
Definition m_cycle (ja jb : Job) (anchor : list DepPtr) (tj : list (UnitPtr * list JobPtr))
    (ijs : list (Z * JobPtr)) (oa : option JobPtr) : Manager UnitActiveState :=
  manager
    [(1, unit "a.target" (dep UNIT_BEFORE [2] nodeps) oa UNIT_INACTIVE);
     (2, unit "b.target" (dep UNIT_BEFORE [1] nodeps) None UNIT_INACTIVE)]
    [(11, ja); (12, jb)]
    [(21, mkJobDependency None 11 true false); (22, mkJobDependency (Some 11) 12 false false)]
    ijs tj anchor.
Definition m1 : Manager UnitActiveState :=
  m_cycle ((job 1 JOB_START [22] [21] 1) <| matters_to_anchor := true |>)
    (job 2 JOB_START [] [22] 2) [21] [(1, [11]); (2, [12])] [] None.

Lemma m1_wf : wf [] m1.
Proof. apply wf_check_sound. vm_compute. reflexivity. Qed.

Lemma transaction_verify_order_correct_witness :
  wf [] m1 ∧ settled 2 m1 ∧
  ∃ m', transaction_verify_order 2 m1 = Ret ((- EAGAIN)%Z, 3%Z) m' ∧ cycle_broken m1 m'.
Proof.
  assert (settled 2 m1) as Hun.
  { intros j J HJ Hg. assert (map_all (λ _ J, bool_decide (marker J = None)) (job_heap m1) = true) as C
      by (vm_compute; reflexivity).
    pose proof (map_all_true _ _ C _ _ HJ) as E. by apply bool_decide_eq_true in E. }
  split; [exact m1_wf|]. split; [exact Hun|].
  destruct (wp_elim _ _ _ (transaction_verify_order_correct m1 2 m1_wf Hun))
    as ([r g] & m' & E & Hg & Hr).
  assert (match transaction_verify_order 2 m1 with Ret (r, _) _ => r | _ => 0%Z end = (- EAGAIN)%Z) as C
    by (vm_compute; reflexivity).
  rewrite E in C. subst r g. exists m'. split; [exact E|].
  destruct Hr as [[? _]|[[_ ?]|[? _]]]; [discriminate|assumption|discriminate].
Defined.

(** The job for "a" was installed by an earlier transaction, whose check of the
    ordering left the generation 2 on it. *)
Definition m_stale : Manager UnitActiveState :=
  manager
    [(1, unit "a.target" (dep UNIT_BEFORE [2] nodeps) (Some 11) UNIT_INACTIVE);
     (2, unit "b.target" (dep UNIT_BEFORE [1] nodeps) None UNIT_INACTIVE)]
    [(11, (job 1 JOB_START [] [] 1) <| generation := 2%Z |> <| installed := true |>);
     (12, job 2 JOB_START [] [21] 2)]
    [(21, mkJobDependency None 12 true false)] [(1%Z, 11)] [(2, [12])] [21].

(** C11. A job that looks visited hides a cycle, and the program lets that happen: each transaction counts its generations from 1 again while the
    installed jobs keep the one they have.  Here the ordering of the new job
    and the installed one is a cycle, and the check returns 0. *)
Theorem stale_generation_hides_cycle :
  wf [] m_stale ∧ cycle m_stale [12; 11] ∧ 12 ∈ head_jobs m_stale ∧
  ∃ m', transaction_verify_order 2 m_stale = Ret (0%Z, 3%Z) m'.
Proof.
  split_and!.
  - apply wf_check_sound. vm_compute. reflexivity.
  - assert (edge m_stale 11 12) as E1.
    { eexists _, _, 2. split; [vm_compute; reflexivity|]. split; [vm_compute; reflexivity|].
      split; [left|vm_compute; reflexivity]. }
    assert (edge m_stale 12 11) as E2.
    { eexists _, _, 1. split; [vm_compute; reflexivity|]. split; [vm_compute; reflexivity|].
      split; [left|vm_compute; reflexivity]. }
    split; [done|]. by exists 12, 11.
  - left.
  - eexists. vm_compute. reflexivity.
Qed.
End examples.
