(* ===== verification/Merge.v ===== *)
(** * Merging the jobs of a unit (src/manager.c: transaction_merge_jobs)

    [transaction_merge_and_delete_job] moves the links of one job to another
    and drops the first; [transaction_merge_jobs] brings every unit down to a
    single job whose type is the merge of all of them, or drops a job of a
    pair that does not merge. *)

From stdpp Require Import base gmap strings list fin_maps.
From Stdlib Require Import ZArith Lia.
From S2P Require Import Prelude CString JobType OrderedMap Engine Transaction Links Wf WfCheck Passes.

Section merge.
Context {P : Type} `{UnitVTable P}.
Abbreviation MM := (M (Manager P)).
Implicit Types m : Manager P.

(** ** Links change hands *)

Definition redirect_subject (a b : JobPtr) (l : JobDependency) : JobDependency :=
  if decide (subject l = Some a) then mkJobDependency (Some b) (object l) (matters l) (conflicts l)
  else l.
Definition redirect_object (a b : JobPtr) (l : JobDependency) : JobDependency :=
  if decide (object l = a) then mkJobDependency (subject l) b (matters l) (conflicts l) else l.
Definition redirect (a b : JobPtr) (l : JobDependency) : JobDependency :=
  redirect_object a b (redirect_subject a b l).

Lemma redirect_ends a b l :
  a ≠ b → subject (redirect a b l) ≠ Some a ∧ object (redirect a b l) ≠ a.
Proof.
  intros Hab. unfold redirect, redirect_object, redirect_subject.
  repeat (case_decide; simpl in *); split; congruence.
Qed.

(** A pass over a list of links that changes each by [g]: as a whole it
    applies [f], which agrees with [g] on the listed links and is the identity
    on the others. *)
Definition patch_links (test : JobDependency → bool) (g : JobDependency → JobDependency)
    (ds : list DepPtr) : MM () :=
  for_each ds (λ d, l ← dep_at d; assert_ (test l);;
    modify (λ m, m <| dep_heap ::= <[d := g l]> |>)).

Lemma patch_links_eq test g (f : JobDependency → JobDependency) ds m :
  (∀ l, test l = true → g l = f l) → (∀ l, f (f l) = f l) → NoDup ds →
  (∀ d, d ∈ ds → ∃ l, dep_heap m !! d = Some l ∧ test l = true) →
  (∀ d l, dep_heap m !! d = Some l → d ∉ ds → f l = l) →
  patch_links test g ds m = Ret tt (m <| dep_heap ::= fmap f |>).
Proof.
  intros Hg Hff. revert m. induction ds as [|d ds IH]; intros m Hnd Hds Hf.
  - unfold patch_links; simpl. unfold mret, M_ret. f_equal. destruct m; unfold upd; simpl in *.
    f_equal. apply map_eq. intros d. rewrite lookup_fmap. destruct (_ !! d) as [l|] eqn:E; [|done].
    simpl. f_equal. symmetry. apply (Hf d); [done|]. by intros ?%elem_of_nil.
  - apply NoDup_cons in Hnd as [Hd Hnd]. destruct (Hds d) as (l & Hl & Ht); [left|].
    transitivity (patch_links test g ds (m <| dep_heap ::= <[d := f l]> |>)).
    { unfold patch_links; simpl. unfold mbind, M_bind, dep_at. rewrite Hl. simpl.
      unfold assert_. rewrite Ht. simpl. by rewrite (Hg l Ht). }
    rewrite IH.
    + f_equal. unfold upd; destruct m; simpl in *. f_equal. rewrite fmap_insert, Hff.
      apply map_eq. intros d'. destruct (decide (d' = d)) as [->|].
      * by rewrite lookup_insert_eq, lookup_fmap, Hl.
      * by rewrite lookup_insert_ne.
    + done.
    + intros d' Hd'. simpl. rewrite lookup_insert_ne by (by intros <-).
      apply Hds. by right.
    + intros d' l'. simpl. rewrite lookup_insert_Some. intros [[<- <-]|[Hne Hl']] Hn; [done|].
      apply (Hf d' l' Hl'). by rewrite not_elem_of_cons.
Qed.

(** ** The whole function up to the deletion *)

Definition take_over (J O : Job) (t : JobType) : Job :=
  J <| j_type := t |> <| j_state := JOB_WAITING |> <| override := override J || override O |>
    <| matters_to_anchor := matters_to_anchor J || matters_to_anchor O |>
    <| subject_list ::= app (subject_list O) |> <| object_list ::= app (object_list O) |>.
Definition strip (J : Job) : Job := J <| subject_list := [] |> <| object_list := [] |>.

Definition moved (j other : JobPtr) (J O : Job) (t : JobType) m : Manager P :=
  m <| dep_heap ::= fmap (redirect other j) |>
    <| job_heap ::= λ h, <[other := strip O]> (<[j := take_over J O t]> h) |>.

Lemma update_job_insert j f m J :
  job_heap m !! j = Some J → update_job j f m = Ret tt (m <| job_heap ::= <[j := f J]> |>).
Proof. intros HJ. unfold update_job, job_at, mbind, M_bind. by rewrite HJ. Qed.

Lemma heaps_ext m m' :
  job_heap m = job_heap m' → dep_heap m = dep_heap m' →
  m <| job_heap := ∅ |> <| dep_heap := ∅ |> = m' <| job_heap := ∅ |> <| dep_heap := ∅ |> → m = m'.
Proof. destruct m, m'; unfold upd; simpl. intros -> -> [=]; by subst. Qed.
Lemma merge_and_delete_eq m j other J O t :
  wf [] m → job_heap m !! j = Some J → job_heap m !! other = Some O → j ≠ other →
  j_unit J = j_unit O → installed J = false →
  transaction_merge_and_delete_job j other t m = transaction_delete_job other true (moved j other J O t m).
Proof.
  intros Hwf HJ HO Hne Hu Hi. pose proof Hwf as [_ [H1 H2 H3]].
  destruct (H2 (Some other) (subject_list O)) as [Hnd1 Hs1]; [by simpl; rewrite HO|].
  destruct (H3 other (object_list O)) as [Hnd2 Hs2]; [by unfold objects_of; rewrite HO|].
  unfold transaction_merge_and_delete_job.
  rewrite (bind_ret _ _ m J m) by by apply reads_job.
  rewrite (bind_ret _ _ m O m) by by apply reads_job.
  rewrite (bind_ret _ _ m () m) by (unfold assert_; by rewrite bool_decide_true).
  rewrite (bind_ret _ _ m () m) by (unfold assert_; by rewrite Hi).
  erewrite bind_ret by by apply update_job_insert.
  set (J1 := J <| j_type := t |> <| j_state := JOB_WAITING |> <| override := override J || override O |>
    <| matters_to_anchor := matters_to_anchor J || matters_to_anchor O |>).
  set (m1 := m <| job_heap ::= <[j := J1]> |>).
  rewrite (bind_ret _ _ m1 () (m1 <| dep_heap ::= fmap (redirect_subject other j) |>)).
  2: { apply (patch_links_eq _ (λ l, mkJobDependency (Some j) (object l) (matters l) (conflicts l))).
       - intros l Hl%bool_decide_eq_true. unfold redirect_subject. by rewrite decide_True.
       - intros l. unfold redirect_subject. repeat (case_decide; simpl in *); congruence.
       - done.
       - intros d Hd. destruct (Hs1 d Hd) as (l & ? & ?). exists l.
         split; [done|]. by apply bool_decide_eq_true.
       - intros d l Hl Hd. unfold redirect_subject. case_decide as Hl'; [|done].
         destruct (H1 d l Hl) as [(ds & Hds & Hin) _]. rewrite Hl' in Hds. simpl in Hds.
         rewrite HO in Hds. injection Hds as <-. done. }
  set (m2 := m1 <| dep_heap ::= fmap (redirect_subject other j) |>).
  rewrite (bind_ret _ _ m2 () (m2 <| job_heap ::= <[j := J1 <| subject_list ::= app (subject_list O) |>]> |>)).
  2: { apply update_job_insert. simpl. by rewrite lookup_insert_eq. }
  set (J3 := J1 <| subject_list ::= app (subject_list O) |>).
  set (m3 := m2 <| job_heap ::= <[j := J3]> |>).
  rewrite (bind_ret _ _ m3 () (m3 <| dep_heap ::= fmap (redirect_object other j) |>)).
  2: { apply (patch_links_eq _ (λ l, mkJobDependency (subject l) j (matters l) (conflicts l))).
       - intros l Hl%bool_decide_eq_true. unfold redirect_object. by rewrite decide_True.
       - intros l. unfold redirect_object. repeat (case_decide; simpl in *); congruence.
       - done.
       - intros d Hd. destruct (Hs2 d Hd) as (l & Hl & Hol). exists (redirect_subject other j l).
         split; [simpl; by rewrite lookup_fmap, Hl|]. apply bool_decide_eq_true.
         unfold redirect_subject. by case_decide.
       - intros d l'. simpl. rewrite lookup_fmap. intros (l & Hl & ->)%fmap_Some Hd.
         unfold redirect_object. case_decide as Hl'; [|done].
         assert (object l = other) as Hol by (revert Hl'; unfold redirect_subject; by case_decide).
         destruct (H1 d l Hl) as [_ (ds & Hds & Hin)]. rewrite Hol in Hds. unfold objects_of in Hds.
         rewrite HO in Hds. injection Hds as <-. done. }
  set (m4 := m3 <| dep_heap ::= fmap (redirect_object other j) |>).
  rewrite (bind_ret _ _ m4 () (m4 <| job_heap ::= <[j := take_over J O t]> |>)).
  2: { apply (update_job_insert j _ m4 J3). simpl. by rewrite lookup_insert_eq. }
  rewrite (bind_ret _ _ _ () (moved j other J O t m)); [done|].
  rewrite (update_job_insert other _ _ O).
  2: { simpl. by rewrite !lookup_insert_ne by congruence. }
  f_equal. apply heaps_ext.
  - transitivity (<[other := strip O]> (<[j := take_over J O t]> (<[j := J3]> (<[j := J1]> (job_heap m)))));
      [reflexivity|]. by rewrite !insert_insert_eq.
  - transitivity (redirect_object other j <$> (redirect_subject other j <$> dep_heap m)); [reflexivity|].
    by rewrite <- map_fmap_compose.
  - reflexivity.
Qed.

Section moved.
Context (j other : JobPtr) (J O : Job) (t : JobType) (m : Manager P).
Hypothesis Hwf : wf [] m.
Hypothesis HJ : job_heap m !! j = Some J.
Hypothesis HO : job_heap m !! other = Some O.
Hypothesis Hne : j ≠ other.
Let m1 := moved j other J O t m.

Lemma moved_lookup k :
  job_heap m1 !! k = if decide (k = other) then Some (strip O)
                   else if decide (k = j) then Some (take_over J O t) else job_heap m !! k.
Proof.
  unfold m1, moved; simpl. repeat case_decide; subst;
  rewrite ?lookup_insert_eq, ?lookup_insert_ne, ?lookup_insert_eq, ?lookup_insert_ne by congruence; done.
Qed.
Lemma moved_subjects s :
  subjects_of m1 s = if decide (s = Some other) then Some []
                   else if decide (s = Some j) then Some (subject_list O ++ subject_list J)
                   else subjects_of m s.
Proof.
  destruct s as [k|]; [|done]. unfold subjects_of. rewrite moved_lookup.
  repeat (case_decide; simplify_eq); done.
Qed.
Lemma moved_objects k :
  objects_of m1 k = if decide (k = other) then Some []
                  else if decide (k = j) then Some (object_list O ++ object_list J)
                  else objects_of m k.
Proof. unfold objects_of. rewrite moved_lookup. by repeat case_decide. Qed.

Lemma redirect_subject_of l :
  subject (redirect other j l) = if decide (subject l = Some other) then Some j else subject l.
Proof. unfold redirect, redirect_object, redirect_subject. by repeat (case_decide; simpl in * ). Qed.
Lemma redirect_object_of l :
  object (redirect other j l) = if decide (object l = other) then j else object l.
Proof. unfold redirect, redirect_object, redirect_subject. by repeat (case_decide; simpl in * ). Qed.

Lemma moved_wf_links : wf_links m1.
Proof.
  destruct Hwf as [_ [H1 H2 H3]].
  assert (subjects_of m (Some j) = Some (subject_list J)) as SJ by (simpl; by rewrite HJ).
  assert (subjects_of m (Some other) = Some (subject_list O)) as SO by (simpl; by rewrite HO).
  assert (objects_of m j = Some (object_list J)) as OJ by (unfold objects_of; by rewrite HJ).
  assert (objects_of m other = Some (object_list O)) as OO by (unfold objects_of; by rewrite HO).
  destruct (H2 _ _ SJ) as [NSJ LSJ]. destruct (H2 _ _ SO) as [NSO LSO].
  destruct (H3 _ _ OJ) as [NOJ LOJ]. destruct (H3 _ _ OO) as [NOO LOO].
  split.
  - intros d l'. unfold m1; simpl. rewrite lookup_fmap. intros (l & Hl & ->)%fmap_Some.
  rewrite moved_subjects, moved_objects, redirect_subject_of, redirect_object_of.
  destruct (H1 d l Hl) as [(ds & Hs & Hds) (os & Ho & Hos)]. split.
  + destruct (decide (subject l = Some other)) as [E|E].
    * rewrite decide_False, decide_True by congruence. eexists; split; [done|].
      rewrite E, SO in Hs. injection Hs as <-. apply elem_of_app. by left.
    * rewrite decide_False by done. case_decide as E'; [|by eauto]. eexists; split; [done|].
      rewrite E', SJ in Hs. injection Hs as <-. apply elem_of_app. by right.
  + destruct (decide (object l = other)) as [E|E].
    * rewrite decide_False, decide_True by congruence. eexists; split; [done|].
      rewrite E, OO in Ho. injection Ho as <-. apply elem_of_app. by left.
    * rewrite decide_False by done. case_decide as E'; [|by eauto]. eexists; split; [done|].
      rewrite E', OJ in Ho. injection Ho as <-. apply elem_of_app. by right.
  - intros s ds. rewrite moved_subjects. unfold m1; simpl. setoid_rewrite lookup_fmap.
  case_decide as E; [intros [= <-]; split; [constructor|by intros ? ?%elem_of_nil]|].
  case_decide as E'; [intros [= <-]|].
  + split.
    * apply NoDup_app. split_and!; [done| |done]. intros d Hd1 Hd2.
      destruct (LSO d Hd1) as (l & ? & ?). destruct (LSJ d Hd2) as (l2 & ? & ?). congruence.
    * intros d [Hd|Hd]%elem_of_app;
        [destruct (LSO d Hd) as (l & Hl & Hs)|destruct (LSJ d Hd) as (l & Hl & Hs)];
        exists (redirect other j l); rewrite Hl, redirect_subject_of; (split; [done|]);
        case_decide; congruence.
  + intros Hs. destruct (H2 s ds Hs) as [? Hds]. split; [done|]. intros d Hd.
    destruct (Hds d Hd) as (l & Hl & Hsl). exists (redirect other j l).
    rewrite Hl, redirect_subject_of. split; [done|]. case_decide; congruence.
  - intros k ds. rewrite moved_objects. unfold m1; simpl. setoid_rewrite lookup_fmap.
  case_decide as E; [intros [= <-]; split; [constructor|by intros ? ?%elem_of_nil]|].
  case_decide as E'; [intros [= <-]|].
  + split.
    * apply NoDup_app. split_and!; [done| |done]. intros d Hd1 Hd2.
      destruct (LOO d Hd1) as (l & ? & ?). destruct (LOJ d Hd2) as (l2 & ? & ?). congruence.
    * intros d [Hd|Hd]%elem_of_app;
        [destruct (LOO d Hd) as (l & Hl & Hs)|destruct (LOJ d Hd) as (l & Hl & Hs)];
        exists (redirect other j l); rewrite Hl, redirect_object_of; (split; [done|]);
        case_decide; congruence.
  + intros Hs. destruct (H3 k ds Hs) as [? Hds]. split; [done|]. intros d Hd.
    destruct (Hds d Hd) as (l & Hl & Hsl). exists (redirect other j l).
    rewrite Hl, redirect_object_of. split; [done|]. case_decide; congruence.
Qed.

Lemma moved_frame : same_frame m m1.
Proof.
  split; try done.
  - intros d. unfold m1; simpl. rewrite lookup_fmap, fmap_is_Some. auto.
  - apply map_eq. intros k. unfold eheap. rewrite !lookup_fmap, moved_lookup.
  case_decide; [subst; by rewrite HO|]. case_decide; [subst; by rewrite HJ|done].
Qed.
Lemma moved_wf : wf [] m1.
Proof. split; [apply (wf_core_frame [] m m1 moved_frame), Hwf|apply moved_wf_links]. Qed.
End moved.

(** ** The specification *)

(** [other] has gone from the transaction and [j] stands for both. *)
Record merged (t : JobType) (j other : JobPtr) m m' : Prop := {
  mg_wf : wf [] m';
  mg_rest : rest m' = rest m;
  mg_chain : ∀ u, chain_of u m' = list_remove other (chain_of u m);
  mg_links : dep_heap m' = redirect other j <$> dep_heap m;
  mg_job : ∀ k K, k ≠ other → job_heap m !! k = Some K → ∃ K', job_heap m' !! k = Some K' ∧
    j_unit K' = j_unit K ∧ installed K' = installed K ∧
    j_type K' = if decide (k = j) then t else j_type K;
  mg_other : ∀ K, job_heap m !! other = Some K → installed K = true →
    ∃ K', job_heap m' !! other = Some K' ∧ j_unit K' = j_unit K ∧ installed K' = true ∧
      j_type K' = j_type K;
  mg_persists : persists m m' }.

(** Deleting a job that no link touches only takes it out of the transaction. *)
Lemma delete_unlinked_spec m j J :
  wf [] m → job_heap m !! j = Some J → subject_list J = [] → object_list J = [] →
  wp (transaction_delete_job j true) m (λ _ m', wf [] m' ∧ shrinks [] m m' ∧
    dep_heap m' = dep_heap m ∧ (∀ u, chain_of u m' = list_remove j (chain_of u m)) ∧
    (∀ k K, k ≠ j → job_heap m !! k = Some K → is_Some (job_heap m' !! k))).
Proof.
  intros Hwf HJ Hs Ho.
  assert (∀ d l, dep_heap m !! d = Some l → subject l ≠ Some j ∧ object l ≠ j) as Hfree.
  { intros d l Hl. destruct (link_lists _ (proj2 Hwf) d l Hl) as [(ds & Hds & Hin) (os & Hos & Hin')].
    split; intros E.
    - rewrite E in Hds. simpl in Hds. rewrite HJ in Hds. injection Hds as <-. rewrite Hs in Hin.
      by apply elem_of_nil in Hin.
    - rewrite E in Hos. unfold objects_of in Hos. rewrite HJ in Hos. injection Hos as <-.
      rewrite Ho in Hin'. by apply elem_of_nil in Hin'. }
  eapply wp_mono; [apply transaction_delete_job_wp; [done|by eexists]|].
  intros [] m' (Hw' & Hs' & Hj' & _ & Hsp & _).
  destruct (Hsp (λ k, k ≠ j)) as [Hk Hl].
  { intros _ d l o Hd _ _ _. by eapply Hfree. }
  { by intros []. }
  assert (∀ u, chain_of u m' = list_remove j (chain_of u m)) as Hchain.
  { intros u. apply sublist_same_length.
    - assert (j ∉ chain_of u m') as Hn.
      { intros Hin. apply Hj'. by apply (chain_jobs m' u j Hw'). }
      rewrite <- (list_remove_id j (chain_of u m')) by done.
      apply sublist_filter_mono, (sh_chain _ _ _ Hs').
    - apply submseteq_length, NoDup_submseteq; [by apply NoDup_list_remove, (chain_NoDup []), Hwf|].
      intros k [Hin Hkj]%elem_of_list_remove. destruct (chain_jobs m u k Hwf Hin) as (Ha & K & HK & Hu).
      pose proof (Hk k Hkj Ha) as Ha'.
      apply (elem_of_all_jobs [] m' k (proj1 Hw')) in Ha' as (K' & (K0 & HK0 & ->)%eheap_Some & Hin').
      destruct (shrinks_job m m' k K0 Hs' HK0) as (K1 & HK1 & E & _). rewrite HK in HK1.
      injection HK1 as <-. pose proof (f_equal j_unit E) as Eu. simpl in *. by rewrite <- Hu, <- Eu. }
  split_and!; [done..| |done|].
  - apply map_eq. intros d. destruct (dep_heap m !! d) as [l|] eqn:El.
    + destruct (Hfree d l El). apply Hl; [done..|]. intros o Eo ->; congruence.
    + apply not_elem_of_dom. intros Hd. apply not_elem_of_dom in El.
      by apply El, (subseteq_dom _ _ (sh_deps _ _ _ Hs')).
  - intros k K Hne HK. destruct (installed K) eqn:Hi; [apply (sh_live _ _ _ Hs' k K HK); by left|].
    destruct (wc_job _ _ (proj1 Hwf) k (erase_lists K)) as (U & _ & Hin); [apply eheap_Some; eauto|].
    simpl in Hin. rewrite Hi in Hin. destruct Hin as ([Hin|[]%elem_of_nil] & _).
    assert (k ∈ chain_of (j_unit K) m') as Hin'.
    { rewrite Hchain. by apply elem_of_list_remove. }
    destruct (chain_jobs m' _ k Hw' Hin') as (_ & K' & ? & _). eauto.
Qed.

Lemma merged_persists m m' j other J O t :
  wf [] m → wf [] m' → job_heap m !! j = Some J → job_heap m !! other = Some O → j ≠ other →
  j_unit J = j_unit O → installed J = false →
  shrinks [] (moved j other J O t m) m' → dep_heap m' = dep_heap (moved j other J O t m) →
  (∀ u, chain_of u m' = list_remove other (chain_of u m)) → persists m m'.
Proof.
  intros Hwf Hwf' HJ HO Hne Hu Hi Hs Hd Hch. set (m1 := moved j other J O t m) in *.
  assert (∀ k K1, job_heap m1 !! k = Some K1 → ∃ K, job_heap m !! k = Some K ∧ ident K1 = ident K ∧
    (installed K = true → j_type K1 = j_type K ∧ j_state K1 = j_state K)) as Hm1.
  { intros k K1. unfold m1. rewrite moved_lookup by done.
    repeat case_decide; [subst; intros [= <-]; eauto|subst; intros [= <-]|eauto].
    exists J. split_and!; [done|done|congruence]. }
  assert (∀ k, k ∈ all_jobs m → k ≠ other → k ∈ all_jobs m') as Hstay.
  { intros k (K & (K0 & HK & ->)%eheap_Some & Hk)%(elem_of_all_jobs [] m k (proj1 Hwf)) Hko. simpl in Hk.
    assert (k ∈ chain_of (j_unit K0) m') as Hk' by (rewrite Hch; by apply elem_of_list_remove).
    by apply (chain_jobs m' _ k Hwf' Hk'). }
  assert (j ∈ all_jobs m') as Hj.
  { destruct (wc_job _ _ (proj1 Hwf) j (erase_lists J)) as (U & _ & Hk); [apply eheap_Some; eauto|].
    simpl in Hk. rewrite Hi in Hk. destruct Hk as ([Hk|[]%elem_of_nil] & _).
    apply Hstay; [by apply (chain_jobs m _ j Hwf Hk)|done]. }
  split.
  - by rewrite (sh_rest _ _ _ Hs).
  - intros k K' HK'. destruct (shrinks_ident _ m1 m' k K' Hs HK') as (K1 & HK1 & E1 & _).
    destruct (Hm1 k K1 HK1) as (K & HK & E & _). exists K. split; [done|congruence].
  - intros k K HK HiK. assert (∃ K1, job_heap m1 !! k = Some K1 ∧ installed K1 = true) as (K1 & HK1 & Hi1).
    { unfold m1. rewrite moved_lookup by done. repeat case_decide; subst; [|congruence|eauto].
      exists (strip O). split; [done|]. rewrite HO in HK. by injection HK as <-. }
    destruct (sh_live _ _ _ Hs k K1 HK1) as [K' HK']; [by left|]. exists K'. split; [done|].
    destruct (shrinks_ident _ m1 m' k K' Hs HK') as (K1' & HK1' & _ & Et & Es).
    destruct (Hm1 k K1' HK1') as (K0 & HK0 & _ & E). rewrite HK in HK0. injection HK0 as <-.
    destruct (E HiK). split; congruence.
  - intros Hin d l. rewrite Hd. simpl. rewrite lookup_fmap. intros (l0 & Hl0 & ->)%fmap_Some.
    destruct (Hin d l0 Hl0) as [Ho Hsub]. rewrite redirect_object_of, redirect_subject_of by done. split.
    + case_decide; auto.
    + intros s. case_decide; [intros [= <-]; done|]. intros Es. apply Hstay; [auto|congruence].
Qed.

Lemma merge_and_delete_spec m j other J O t :
  wf [] m → job_heap m !! j = Some J → job_heap m !! other = Some O → j ≠ other →
  j_unit J = j_unit O → installed J = false →
  wp (transaction_merge_and_delete_job j other t) m (λ _ m', merged t j other m m').
Proof.
  intros Hwf HJ HO Hne Hu Hi.
  assert (wp (transaction_delete_job other true) (moved j other J O t m)
    (λ _ m', merged t j other m m')) as Hw.
  2: { unfold wp. by rewrite (merge_and_delete_eq m j other J O t). }
  set (m1 := moved j other J O t m).
  assert (wf [] m1) as Hw1 by by apply moved_wf.
  assert (job_heap m1 !! other = Some (strip O)) as HO1.
  { unfold m1. rewrite moved_lookup by done. by rewrite decide_True. }
  eapply wp_mono; [by eapply (delete_unlinked_spec m1 other (strip O))|].
  intros [] m' (Hw' & Hs' & Ed & Hch & Hlive). split.
  - done.
  - by rewrite (sh_rest _ _ _ Hs').
  - intros u. by rewrite Hch.
  - by rewrite Ed.
  - intros k K Hk HK.
    assert (∃ K1, job_heap m1 !! k = Some K1 ∧ j_unit K1 = j_unit K ∧ installed K1 = installed K ∧
      j_type K1 = if decide (k = j) then t else j_type K) as (K1 & HK1 & E1 & E2 & E3).
    { unfold m1. rewrite moved_lookup by done. rewrite decide_False by done.
      case_decide; [subst; rewrite HJ in HK; injection HK as <-|]; eauto. }
    destruct (Hlive k K1 Hk HK1) as [K' HK']. exists K'. split; [done|].
    destruct (shrinks_job m1 m' k K' Hs' HK') as (K2 & HK2 & E & _). rewrite HK1 in HK2.
    injection HK2 as <-. rewrite <- E1, <- E2, <- E3.
    pose proof (f_equal j_unit E). pose proof (f_equal installed E). pose proof (f_equal j_type E). done.
  - intros K HK HiK. rewrite HO in HK. injection HK as <-.
    destruct (sh_live _ _ _ Hs' other (strip O) HO1) as [K' HK']; [by left|]. exists K'.
    split; [done|]. destruct (shrinks_job m1 m' other K' Hs' HK') as (K2 & HK2 & E & _).
    rewrite HO1 in HK2. injection HK2 as <-.
    pose proof (f_equal j_unit E) as E1. pose proof (f_equal installed E) as E2.
    pose proof (f_equal j_type E) as E3. simpl in *. rewrite <- HiK. done.
  - by apply (merged_persists m m' j other J O t).
Qed.

(** ** One unit *)

Definition unit_of m (j : JobPtr) : option UnitPtr := j_unit <$> job_heap m !! j.
(** The units that a link connects. *)
Definition link_units m (d : DepPtr) :=
  (λ l, (unit_of m <$> subject l, unit_of m (object l), matters l, conflicts l)) <$> dep_heap m !! d.

(** What merging inside the unit [u] leaves alone. *)
Record fused (u : UnitPtr) m m' : Prop := {
  fu_wf : wf [] m';
  fu_rest : rest m' = rest m;
  fu_chain : ∀ v, v ≠ u → chain_of v m' = chain_of v m;
  fu_links : ∀ d, link_units m' d = link_units m d;
  fu_job : ∀ k K, job_heap m !! k = Some K → j_unit K ≠ u ∨ installed K = true →
    ∃ K', job_heap m' !! k = Some K' ∧ j_unit K' = j_unit K ∧ installed K' = installed K ∧
      j_type K' = j_type K;
  fu_persists : persists m m' }.

Lemma fused_refl u m : wf [] m → fused u m m.
Proof. intros. split; [done..| |done]. eauto. Qed.
Lemma fused_trans u m1 m2 m3 : fused u m1 m2 → fused u m2 m3 → fused u m1 m3.
Proof.
  intros [W1 R1 C1 L1 J1 P1] [W2 R2 C2 L2 J2 P2]. split.
  - done.
  - congruence.
  - intros v Hv. by rewrite C2, C1.
  - intros d. by rewrite L2.
  - intros k K HK Hk. destruct (J1 k K HK Hk) as (K2 & HK2 & E1 & E2 & E3).
    destruct (J2 k K2 HK2) as (K3 & HK3 & E4 & E5 & E6); [by rewrite E1, E2|].
    exists K3. split; [done|]. split_and!; congruence.
  - by etrans.
Qed.

Lemma link_ends_live m d l :
  wf [] m → dep_heap m !! d = Some l →
  is_Some (job_heap m !! object l) ∧ ∀ o, subject l = Some o → is_Some (job_heap m !! o).
Proof.
  intros [_ Hl] Hd. destruct (link_lists _ Hl d l Hd) as [(ds & Hs & _) (os & Ho & _)]. split.
  - unfold objects_of in Ho. apply fmap_Some in Ho as (O & ? & _). eauto.
  - intros o Eo. rewrite Eo in Hs. simpl in Hs. apply fmap_Some in Hs as (O & ? & _). eauto.
Qed.

Lemma merged_fused m m' t j other J O :
  wf [] m → merged t j other m m' → job_heap m !! j = Some J → job_heap m !! other = Some O →
  j ≠ other → j_unit J = j_unit O → installed J = false → fused (j_unit J) m m'.
Proof.
  intros Hwf Hm HJ HO Hne Hu Hi.
  assert (∀ k, is_Some (job_heap m !! k) → unit_of m' (if decide (k = other) then j else k) = unit_of m k) as Hunit.
  { intros k [K HK]. unfold unit_of. case_decide as Hk.
    - subst k. rewrite HO in HK. injection HK as <-. rewrite HO.
      destruct (mg_job _ _ _ _ _ Hm j J Hne HJ) as (J' & -> & E & _). simpl. congruence.
    - destruct (mg_job _ _ _ _ _ Hm k K Hk HK) as (K' & -> & E & _). rewrite HK. simpl. congruence. }
  split.
  - apply Hm.
  - apply Hm.
  - intros v Hv. rewrite (mg_chain _ _ _ _ _ Hm). apply list_remove_id. intros Hin.
    destruct (chain_jobs m v other Hwf Hin) as (_ & K & HK & HuK). congruence.
  - intros d. unfold link_units. rewrite (mg_links _ _ _ _ _ Hm), lookup_fmap.
    destruct (dep_heap m !! d) as [l|] eqn:Hd; [|done]. simpl. f_equal.
    destruct (link_ends_live m d l Hwf Hd) as [Hlo Hls].
    rewrite redirect_subject_of, redirect_object_of by done. rewrite Hunit by done.
    assert (matters (redirect other j l) = matters l ∧ conflicts (redirect other j l) = conflicts l)
      as [-> ->] by (unfold redirect, redirect_object, redirect_subject; by repeat (case_decide; simpl in * )).
    f_equal. f_equal. f_equal. destruct (subject l) as [o|]; [|by rewrite decide_False].
    pose proof (Hunit o (Hls o eq_refl)) as E. destruct (decide (o = other)) as [->|Ho].
    + rewrite decide_True by done. simpl. by rewrite E.
    + rewrite decide_False by congruence. simpl. by rewrite E.
  - intros k K HK Hk. destruct (decide (k = other)) as [->|Hko].
    + rewrite HO in HK. injection HK as <-. destruct Hk as [Hk|Hk]; [congruence|].
      destruct (mg_other _ _ _ _ _ Hm O HO Hk) as (K' & HK' & ? & ? & ?).
      exists K'. rewrite Hk. done.
    + destruct (mg_job _ _ _ _ _ Hm k K Hko HK) as (K' & HK' & ? & ? & E). exists K'.
      split_and!; [done..|]. rewrite E, decide_False; [done|]. intros ->. rewrite HJ in HK.
      injection HK as <-. destruct Hk; congruence.
  - apply Hm.
Qed.

Lemma installed_unique m a b A B :
  wf [] m → job_heap m !! a = Some A → job_heap m !! b = Some B → j_unit A = j_unit B →
  installed A = true → installed B = true → a = b.
Proof.
  intros [Hc _] HA HB Hu HiA HiB.
  destruct (wc_job _ _ Hc a (erase_lists A)) as (U & HU & Ha); [apply eheap_Some; eauto|].
  destruct (wc_job _ _ Hc b (erase_lists B)) as (U' & HU' & Hb); [apply eheap_Some; eauto|].
  simpl in *. rewrite HiA in Ha. rewrite HiB in Hb. destruct Ha as [Ha _], Hb as [Hb _]. congruence.
Qed.

Lemma merge_chain_spec u t ks : ∀ j m,
  wf [] m → chain_of u m = j :: ks →
  wp (merge_chain j ks t) m (λ j' m', fused u m m' ∧ chain_of u m' = [j'] ∧
    ∃ J' J, job_heap m' !! j' = Some J' ∧ job_heap m !! j = Some J ∧
      ((ks = [] ∧ m' = m ∧ j' = j ∧ J' = J) ∨ (ks ≠ [] ∧ installed J' = false ∧ j_type J' = t))).
Proof.
  induction ks as [|k ks IH]; intros j m Hwf Hch; simpl.
  - destruct (chain_jobs m u j Hwf) as (_ & J & HJ & _); [rewrite Hch; left|].
    wp_step. split; [by apply fused_refl|]. split; [done|]. exists J, J. split_and!; [done..|]. by left.
  - destruct (chain_jobs m u j Hwf) as (_ & J & HJ & HuJ); [rewrite Hch; left|].
    destruct (chain_jobs m u k Hwf) as (_ & K & HK & HuK); [rewrite Hch; right; left|].
    pose proof (chain_NoDup [] m u (proj1 Hwf)) as Hnd. rewrite Hch in Hnd.
    assert (j ≠ k ∧ (j ∉ ks) ∧ (k ∉ ks)) as (Hjk & Hj & Hk).
    { rewrite !NoDup_cons, not_elem_of_cons in Hnd. tauto. }
    wp_step. eapply wp_job_at; [done|]. destruct (installed J) eqn:HiJ.
    + assert (installed K = false) as HiK.
      { destruct (installed K) eqn:E; [|done]. destruct Hjk.
        apply (installed_unique m j k J K Hwf HJ HK); congruence. }
      wp_step. eapply wp_mono; [apply (merge_and_delete_spec m k j K J t); [done..|by apply not_eq_sym|congruence|done]|].
      intros [] m1 Hm. assert (fused u m m1) as Hf
        by (rewrite <- HuK; apply (merged_fused m m1 t k j K J); try done; congruence).
      assert (chain_of u m1 = k :: ks) as Hch1.
      { rewrite (mg_chain _ _ _ _ _ Hm), Hch, list_remove_eq. apply list_remove_id.
        by rewrite not_elem_of_cons. }
      destruct (mg_job _ _ _ _ _ Hm k K) as (K1 & HK1 & _ & HiK1 & HtK1); [done..|].
      rewrite decide_True in HtK1 by done.
      eapply wp_mono; [apply (IH k m1 (mg_wf _ _ _ _ _ Hm) Hch1)|].
      intros j' m2 (Hf2 & Hch2 & J' & K1' & HJ' & HK1' & Hor). split; [by eapply fused_trans|].
      split; [done|]. exists J', J. split_and!; [done..|]. right. split; [done|].
      rewrite HK1 in HK1'. injection HK1' as <-.
      destruct Hor as [(_ & _ & _ & ->)|(_ & ? & ?)]; [by rewrite HiK1|done].
    + wp_step. eapply wp_mono; [apply (merge_and_delete_spec m j k J K t); [done..|congruence|done]|].
      intros [] m1 Hm. assert (fused u m m1) as Hf
        by (rewrite <- HuJ; apply (merged_fused m m1 t j k J K); try done; congruence).
      assert (chain_of u m1 = j :: ks) as Hch1.
      { rewrite (mg_chain _ _ _ _ _ Hm), Hch, list_remove_ne, list_remove_eq by done.
        f_equal. by apply list_remove_id. }
      destruct (mg_job _ _ _ _ _ Hm j J) as (J1 & HJ1 & _ & HiJ1 & HtJ1); [done..|].
      rewrite decide_True in HtJ1 by done.
      eapply wp_mono; [apply (IH j m1 (mg_wf _ _ _ _ _ Hm) Hch1)|].
      intros j' m2 (Hf2 & Hch2 & J' & J1' & HJ' & HJ1' & Hor). split; [by eapply fused_trans|].
      split; [done|]. exists J', J. split_and!; [done..|]. right. split; [done|].
      rewrite HJ1 in HJ1'. injection HJ1' as <-.
      destruct Hor as [(_ & _ & _ & ->)|(_ & ? & ?)]; [by rewrite HiJ1|done].
Qed.

Definition type_of m (j : JobPtr) : option JobType := j_type <$> job_heap m !! j.
Definition chain_types m (u : UnitPtr) : list JobType := omap (type_of m) (chain_of u m).
(** The type of the unit's installed job. *)
Definition unit_job_type m (u : UnitPtr) : option JobType :=
  U ← units m !! u; k ← u_job U; type_of m k.

(** What the jobs of a unit come to: the merge of their types, and of the
    installed job's type too where that is possible. *)
Definition target_type m (u : UnitPtr) : option JobType :=
  match chain_types m u with
  | [] => None
  | t :: ts =>
      match merge_types t ts with
      | inl _ => None
      | inr t' =>
          Some (match unit_job_type m u with
                | Some e => match job_type_merge t' e with inr t'' => t'' | inl _ => t' end
                | None => t'
                end)
      end
  end.

Lemma chain_types_cons m u j ks J :
  chain_of u m = j :: ks → job_heap m !! j = Some J →
  chain_types m u = j_type J :: omap (type_of m) ks.
Proof. intros Hc HJ. unfold chain_types, type_of. rewrite Hc. simpl. by rewrite HJ. Qed.

Lemma merged_type_reads m ks t t' :
  (∀ k, k ∈ ks → is_Some (job_heap m !! k)) → merge_types t (omap (type_of m) ks) = inr t' →
  reads (merged_type t ks) m t'.
Proof.
  revert t. induction ks as [|k ks IH]; intros t Hl; simpl; [by intros [= ->]|].
  destruct (Hl k) as [K HK]; [left|]. unfold type_of at 1. rewrite HK. simpl.
  destruct (job_type_merge t (j_type K)) as [|t1] eqn:E; [done|]. intros Hm.
  eapply reads_bind; [by apply reads_job|]. rewrite E. apply IH; [|done].
  intros k' Hk'. apply Hl. by right.
Qed.

(** [u] has one job, of type [t]. *)
Definition single m (u : UnitPtr) (t : JobType) : Prop :=
  ∃ j J, chain_of u m = [j] ∧ job_heap m !! j = Some J ∧ j_type J = t.

Lemma unit_job_reads m u U :
  wf [] m → units m !! u = Some U →
  match u_job U with
  | None => unit_job_type m u = None
  | Some e => ∃ E, job_heap m !! e = Some E ∧ j_unit E = u ∧ installed E = true ∧
      unit_job_type m u = Some (j_type E)
  end.
Proof.
  intros [Hc _] HU. unfold unit_job_type. rewrite HU. simpl.
  destruct (u_job U) as [e|] eqn:He; [|done]. simpl.
  destruct (wc_unit _ _ Hc u U HU) as (_ & _ & Hj). destruct (Hj e He) as (E' & HE & ? & ?).
  apply eheap_Some in HE as (E & HE & ->). exists E. unfold type_of. by rewrite HE.
Qed.

(** The last step for a unit whose chain is down to [j]. *)
Lemma merge_installed_spec m u j J t :
  wf [] m → chain_of u m = [j] → job_heap m !! j = Some J →
  (installed J = false → unit_job_type m u = None → j_type J = t) →
  (installed J = true → j_type J = t) →
  wp (J ← job_at j;
      U ← unit_at u;
      match u_job U with
      | Some e => when (negb (installed J)) (transaction_merge_and_delete_job j e t)
      | None => mret tt
      end;;
      chain ← gets (chain_of u);
      assert_ (bool_decide (chain = [j]))) m (λ _ m', fused u m m' ∧ single m' u t).
Proof.
  intros Hwf Hch HJ Hn Hi.
  destruct (chain_jobs m u j Hwf) as (_ & J0 & HJ0 & HuJ); [rewrite Hch; left|].
  rewrite HJ in HJ0. injection HJ0 as <-.
  assert (∀ m', chain_of u m' = [j] → fused u m m' → single m' u t →
    wp (chain ← gets (chain_of u); assert_ (bool_decide (chain = [j]))) m'
      (λ _ m', fused u m m' ∧ single m' u t)) as Hend.
  { intros m' Hc Hf Hs. wp_step. wp_step. rewrite Hc. unfold assert_. by rewrite bool_decide_true. }
  wp_step. eapply wp_job_at; [done|]. destruct (wf_job m j J Hwf HJ) as (U & HU & _).
  rewrite HuJ in HU. wp_step. eapply wp_unit_at; [done|].
  pose proof (unit_job_reads m u U Hwf HU) as He. wp_step.
  destruct (u_job U) as [e|].
  2: { wp_step. apply Hend; [done|by apply fused_refl|]. exists j, J. split_and!; [done..|].
       destruct (installed J); auto. }
  destruct He as (E & HE & HuE & HiE & _). destruct (installed J) eqn:HiJ; cbn [negb]; wp_step.
  { wp_step. apply Hend; [done|by apply fused_refl|]. exists j, J. auto. }
  assert (j ≠ e) as Hje by (intros ->; congruence).
  eapply wp_mono; [apply (merge_and_delete_spec m j e J E t); try done; congruence|].
  intros [] m' Hm.
  assert (chain_of u m' = [j]) as Hch'.
  { rewrite (mg_chain _ _ _ _ _ Hm), Hch. by rewrite list_remove_ne. }
  apply Hend; [done| |].
  - rewrite <- HuJ. apply (merged_fused m m' t j e J E); try done. congruence.
  - destruct (mg_job _ _ _ _ _ Hm j J) as (J' & HJ' & _ & _ & Ht); [done..|].
    rewrite decide_True in Ht by done. by exists j, J'.
Qed.

Lemma merge_unit_spec m u t :
  wf [] m → target_type m u = Some t →
  wp (merge_unit u) m (λ _ m', fused u m m' ∧ single m' u t).
Proof.
  intros Hwf Ht. unfold merge_unit. wp_step. wp_step.
  destruct (chain_of u m) as [|j ks] eqn:Hch.
  { unfold target_type, chain_types in Ht. by rewrite Hch in Ht. }
  destruct (chain_jobs m u j Hwf) as (_ & J & HJ & HuJ); [rewrite Hch; left|].
  destruct (wf_job m j J Hwf HJ) as (U & HU & _). rewrite HuJ in HU.
  unfold target_type in Ht. rewrite (chain_types_cons m u j ks J Hch HJ) in Ht.
  destruct (merge_types (j_type J) (omap (type_of m) ks)) as [|t1] eqn:Et1; [done|].
  wp_step. eapply wp_job_at; [done|]. wp_step. eapply reads_wp.
  { apply merged_type_reads; [|exact Et1]. intros k Hk.
    destruct (chain_jobs m u k Hwf) as (_ & K & ? & _); [rewrite Hch; by right|eauto]. }
  wp_step. eapply wp_unit_at; [done|]. pose proof (unit_job_reads m u U Hwf HU) as Hjob.
  wp_step. eapply (reads_wp _ _ t).
  { destruct (u_job U) as [e|].
    - destruct Hjob as (E & HE & _ & _ & Eu). rewrite Eu in Ht. injection Ht as Ht.
      eapply reads_bind; [by apply reads_job|]. by rewrite <- Ht.
    - rewrite Hjob in Ht. injection Ht as ->. done. }
  wp_step. eapply wp_mono; [by eapply (merge_chain_spec u t ks j m)|].
  intros j' m1 (Hf & Hch1 & J' & J0 & HJ' & HJ0 & Hor). rewrite HJ in HJ0. injection HJ0 as <-.
  assert (units m1 = units m) as Eu by exact (f_equal units (fu_rest _ _ _ Hf)).
  eapply wp_mono; [apply (merge_installed_spec m1 u j' J' t)|].
  - apply Hf.
  - done.
  - done.
  - intros _ Hno. destruct Hor as [(-> & -> & -> & ->)|(_ & _ & ?)]; [|done].
    rewrite Hno in Ht. injection Ht as <-. simpl in Et1. by injection Et1.
  - intros Hi. destruct Hor as [(-> & -> & -> & ->)|(_ & ? & _)]; [|congruence].
    simpl in Et1. injection Et1 as <-.
    destruct (wc_job _ _ (proj1 Hwf) j (erase_lists J)) as (U' & HU' & Hk); [apply eheap_Some; eauto|].
    simpl in *. rewrite HuJ, HU in HU'. injection HU' as <-. rewrite Hi in Hk. destruct Hk as [Hk _].
    rewrite Hk in Hjob. destruct Hjob as (E & HE & _ & _ & Eu'). rewrite HJ in HE. injection HE as <-.
    rewrite Eu' in Ht. rewrite job_type_merge_idemp in Ht. by injection Ht.
  - intros [] m2 [Hf2 Hs]. split; [by eapply fused_trans|done].
Qed.

(** ** The units one after the other *)

Lemma type_of_fused u m m' v k :
  wf [] m → fused u m m' → v ≠ u → k ∈ chain_of v m → type_of m' k = type_of m k.
Proof.
  intros Hwf Hf Hv Hk. destruct (chain_jobs m v k Hwf Hk) as (_ & K & HK & Hu).
  destruct (fu_job _ _ _ Hf k K HK) as (K' & HK' & _ & _ & E); [left; congruence|].
  unfold type_of. rewrite HK, HK'. simpl. by rewrite E.
Qed.
Lemma unit_job_type_fused u m m' v : wf [] m → fused u m m' → unit_job_type m' v = unit_job_type m v.
Proof.
  intros Hwf Hf. assert (units m' = units m) as Eu by exact (f_equal units (fu_rest _ _ _ Hf)).
  unfold unit_job_type. rewrite Eu. destruct (units m !! v) as [V|] eqn:HV; [|done]. simpl.
  pose proof (unit_job_reads m v V Hwf HV) as He. destruct (u_job V) as [e|]; [|done]. simpl.
  destruct He as (E & HE & _ & HiE & _).
  destruct (fu_job _ _ _ Hf e E HE) as (E' & HE' & _ & _ & Et); [by right|].
  unfold type_of. rewrite HE, HE'. simpl. by rewrite Et.
Qed.
Lemma target_type_fused u m m' v :
  wf [] m → fused u m m' → v ≠ u → target_type m' v = target_type m v.
Proof.
  intros Hwf Hf Hv. unfold target_type. rewrite (unit_job_type_fused u m m' v Hwf Hf).
  assert (chain_types m' v = chain_types m v) as ->; [|done]. unfold chain_types.
  rewrite (fu_chain _ _ _ Hf v Hv).
  apply omap_elem_ext. intros k Hk. by apply (type_of_fused u m m' v).
Qed.
Lemma single_fused u m m' v t :
  wf [] m → fused u m m' → v ≠ u → single m v t → single m' v t.
Proof.
  intros Hwf Hf Hv (j & J & Hc & HJ & Ht).
  destruct (chain_jobs m v j Hwf) as (_ & J0 & HJ0 & Hu); [rewrite Hc; left|].
  rewrite HJ in HJ0. injection HJ0 as <-.
  destruct (fu_job _ _ _ Hf j J HJ) as (J' & HJ' & _ & _ & E); [left; congruence|].
  exists j, J'. rewrite (fu_chain _ _ _ Hf v Hv), E. done.
Qed.

(** Every unit of the transaction has come down to one job. *)
Definition all_merged m m' : Prop :=
  wf [] m' ∧ persists m m' ∧ (∀ d, link_units m' d = link_units m d) ∧
  ∀ u, match chain_of u m with
       | [] => chain_of u m' = []
       | _ => ∃ t, target_type m u = Some t ∧ single m' u t
       end.

Lemma chain_keys m u : wf [] m → chain_of u m ≠ [] ↔ u ∈ om_keys (transaction_jobs m).
Proof.
  intros [Hc _]. destruct (wc_tj _ _ Hc) as [_ Ht]. unfold chain_of.
  destruct (om_get (transaction_jobs m) u) as [l|] eqn:E; simpl.
  - apply om_get_Some_elem in E. destruct (Ht u l E) as (? & _). split; [|done].
    intros _. apply list_elem_of_fmap. by exists (u, l).
  - apply om_get_None in E. split; [done|]. by intros.
Qed.

Lemma merge_units_spec m :
  wf [] m → (∀ u, chain_of u m ≠ [] → is_Some (target_type m u)) →
  wp (for_each (om_keys (transaction_jobs m)) merge_unit) m (λ _ m', all_merged m m').
Proof.
  intros Hwf Hok. destruct (wc_tj _ _ (proj1 Hwf)) as [Hnd _]. unfold om_wf in Hnd.
  set (ks := om_keys (transaction_jobs m)) in *.
  eapply wp_mono; [apply (wp_for_each ks merge_unit (λ l' m1, NoDup l' ∧ l' ⊆ ks ∧ wf [] m1 ∧
    persists m m1 ∧ (∀ d, link_units m1 d = link_units m d) ∧
    (∀ u, u ∈ l' ∨ (u ∉ ks) → chain_of u m1 = chain_of u m ∧ target_type m1 u = target_type m u) ∧
    (∀ u, u ∈ ks → u ∉ l' → ∃ t, target_type m u = Some t ∧ single m1 u t)))|].
  - intros x l' m1 (Hnd' & Hsub & Hw1 & Hr1 & Hl1 & Hun & Hd1).
    apply NoDup_cons in Hnd' as [Hx Hnd'].
    destruct (Hok x) as [t Ht]; [apply (chain_keys m x Hwf), Hsub; left|].
    eapply wp_mono; [apply (merge_unit_spec m1 x t Hw1)|].
    { rewrite <- Ht. apply Hun. left; left. }
    intros [] m2 [Hf Hs]. split_and!; [done|by intros u ?; apply Hsub; right|apply Hf| | | |].
    + etrans; [exact Hr1|apply Hf].
    + intros d. by rewrite (fu_links _ _ _ Hf).
    + intros u Hu. assert (u ≠ x) as Hux.
      { intros ->. destruct Hu as [?|Hu]; [done|]. apply Hu, Hsub. left. }
      rewrite (fu_chain _ _ _ Hf u Hux), (target_type_fused x m1 m2 u Hw1 Hf Hux).
      apply Hun. destruct Hu; [left; by right|by right].
    + intros u Hu Hnin. destruct (decide (u = x)) as [->|Hux]; [by exists t|].
      destruct (Hd1 u Hu) as (t' & ? & ?); [by rewrite not_elem_of_cons|]. exists t'.
      split; [done|]. by apply (single_fused x m1 m2).
  - split_and!; [done..|by intros|by intros].
  - intros [] m' (_ & _ & Hw' & Hr' & Hl' & Hun & Hd'). split_and!; [done..|]. intros u.
    destruct (chain_of u m) as [|j l] eqn:E.
    + rewrite <- E. apply Hun. right. intros Hin. by apply (chain_keys m u Hwf) in Hin.
    + apply Hd'; [|by intros ?%elem_of_nil]. apply (chain_keys m u Hwf). by rewrite E.
Qed.

(** ** Dropping a job that does not merge *)

(** One job of the unit that does not matter was deleted, with those that need
    it. *)
Definition dropped_one m m' : Prop :=
  wf [] m' ∧ shrinks [] m m' ∧ persists m m' ∧ ∃ d D, d ∈ all_jobs m ∧ job_heap m !! d = Some D ∧
    matters_to_anchor D = false ∧ (d ∉ all_jobs m') ∧ ∀ S, closed S m → ¬ S d → keeps S m m'.
(** Two jobs for one unit that matter both and do not merge. *)
Definition contradiction m : Prop :=
  ∃ u a b A B, a ∈ chain_of u m ∧ b ∈ chain_of u m ∧ job_heap m !! a = Some A ∧
    job_heap m !! b = Some B ∧ matters_to_anchor A = true ∧ matters_to_anchor B = true ∧
    job_type_is_mergeable (j_type A) (j_type B) = false.

Lemma job_is_conflicted_by_reads m j J :
  wf [] m → job_heap m !! j = Some J → ∃ b, reads (job_is_conflicted_by j) m b.
Proof.
  intros Hwf HJ. eexists. eapply reads_bind; [by apply reads_job|].
  apply (reads_any _ _ _ (λ d, match dep_heap m !! d with Some l => conflicts l | None => false end)).
  intros d Hd. destruct (object_link [] m j J d Hwf HJ Hd) as (l & Hl & _). rewrite Hl.
  eapply reads_bind; [by apply reads_dep|done].
Qed.

Lemma choose_victim_reads m j k J K :
  wf [] m → job_heap m !! j = Some J → job_heap m !! k = Some K →
  ∃ o, reads (choose_victim j k) m o ∧
    match o with
    | Some d => (d = j ∧ matters_to_anchor J = false) ∨ (d = k ∧ matters_to_anchor K = false)
    | None => matters_to_anchor J = true ∧ matters_to_anchor K = true
    end.
Proof.
  intros Hwf HJ HK. destruct (job_is_conflicted_by_reads m j J Hwf HJ) as [bj Hbj].
  destruct (job_is_conflicted_by_reads m k K Hwf HK) as [bk Hbk].
  unfold choose_victim.
  destruct (matters_to_anchor J) eqn:HmJ, (matters_to_anchor K) eqn:HmK.
  - exists None. split; [|done]. do 2 (eapply reads_bind; [by apply reads_job|]). by rewrite HmJ, HmK.
  - exists (Some k). split; [|by right]. do 2 (eapply reads_bind; [by apply reads_job|]). by rewrite HmJ, HmK.
  - exists (Some j). split; [|by left]. do 2 (eapply reads_bind; [by apply reads_job|]). by rewrite HmJ, HmK.
  - destruct (bool_decide (j_type J = JOB_STOP)) eqn:EJ; [|destruct (bool_decide (j_type K = JOB_STOP)) eqn:EK].
    + exists (Some (if bj then k else j)). split; [|destruct bj; auto].
      do 2 (eapply reads_bind; [by apply reads_job|]). rewrite HmJ, HmK, EJ. simpl.
      by eapply reads_bind.
    + exists (Some (if bk then j else k)). split; [|destruct bk; auto].
      do 2 (eapply reads_bind; [by apply reads_job|]). rewrite HmJ, HmK, EJ, EK. simpl.
      by eapply reads_bind.
    + exists (Some j). split; [|by left].
      do 2 (eapply reads_bind; [by apply reads_job|]). by rewrite HmJ, HmK, EJ, EK.
Qed.

Lemma delete_one_against_spec m u j J ks :
  wf [] m → j ∈ chain_of u m → job_heap m !! j = Some J → ks ⊆ chain_of u m →
  wp (delete_one_against j ks) m (λ r m', match r with
    | None => m' = m ∧ ∀ k K, k ∈ ks → job_heap m !! k = Some K →
        job_type_is_mergeable (j_type J) (j_type K) = true
    | Some r => (r = 0%Z ∧ dropped_one m m') ∨ (r = (- ENOEXEC)%Z ∧ m' = m ∧ contradiction m)
    end).
Proof.
  intros Hwf Hj HJ. induction ks as [|k ks IH]; intros Hks; simpl.
  { wp_step. split; [done|]. by intros ? ? ?%elem_of_nil. }
  assert (k ∈ chain_of u m) as Hk by (apply Hks; left).
  destruct (chain_jobs m u k Hwf Hk) as (Hka & K & HK & HuK).
  destruct (chain_jobs m u j Hwf Hj) as (Hja & _).
  wp_step. eapply wp_job_at; [done|]. wp_step. eapply wp_job_at; [done|].
  destruct (job_type_is_mergeable (j_type J) (j_type K)) eqn:Hm.
  { eapply wp_mono; [apply IH; intros x ?; apply Hks; by right|].
    intros [r|] m'; [done|]. intros [-> Hall]. split; [done|]. intros k' K' [->|Hin]%elem_of_cons HK'.
    - rewrite HK in HK'. by injection HK' as <-.
    - by eapply Hall. }
  destruct (choose_victim_reads m j k J K Hwf HJ HK) as (o & Ho & Hres).
  wp_step. eapply reads_wp; [exact Ho|]. destruct o as [d|].
  - assert (∃ D, job_heap m !! d = Some D ∧ d ∈ all_jobs m ∧ matters_to_anchor D = false)
      as (D & HD & Hd & HmD) by (destruct Hres as [[-> ?]|[-> ?]]; eauto).
    wp_step. eapply wp_mono; [apply transaction_delete_job_wp; [done|by eexists]|].
    intros [] m' (Hw' & Hs' & Hj' & _ & Hsp & Hdr). wp_step. left. split; [done|]. split_and!; [done..| |].
    { apply persists_shrinks; [done|]. by apply (inside_drags [] true). }
    exists d, D. split_and!; [done..|]. intros S HS. by apply Hsp.
  - wp_step. right. split_and!; [done..|]. exists u, j, k, J, K. tauto.
Qed.

Lemma delete_one_unmergeable_job_spec m u j J ks :
  wf [] m → job_heap m !! j = Some J → (j :: ks) ⊆ chain_of u m →
  wp (delete_one_unmergeable_job (j :: ks)) m (λ r m',
    (r = 0%Z ∧ dropped_one m m') ∨ (r = (- ENOEXEC)%Z ∧ m' = m ∧ contradiction m) ∨
    (r = (- EINVAL)%Z ∧ m' = m ∧ ∀ k K, k ∈ ks → job_heap m !! k = Some K →
        job_type_is_mergeable (j_type J) (j_type K) = true)).
Proof.
  intros Hwf. revert j J. induction ks as [|k ks IH]; intros j J HJ Hks.
  { change (wp (r ← delete_one_against j []; match r with Some r => mret r
      | None => delete_one_unmergeable_job [] end) m (λ r m',
      (r = 0%Z ∧ dropped_one m m') ∨ (r = (- ENOEXEC)%Z ∧ m' = m ∧ contradiction m) ∨
      (r = (- EINVAL)%Z ∧ m' = m ∧ ∀ k K, k ∈ [] → job_heap m !! k = Some K →
        job_type_is_mergeable (j_type J) (j_type K) = true))).
    wp_step. apply wp_ret. apply wp_ret. right; right. split_and!; [done..|].
    by intros ? ? ?%elem_of_nil. }
  change (wp (r ← delete_one_against j (k :: ks); match r with Some r => mret r
    | None => delete_one_unmergeable_job (k :: ks) end) m (λ r m',
    (r = 0%Z ∧ dropped_one m m') ∨ (r = (- ENOEXEC)%Z ∧ m' = m ∧ contradiction m) ∨
    (r = (- EINVAL)%Z ∧ m' = m ∧ ∀ k' K, k' ∈ k :: ks → job_heap m !! k' = Some K →
      job_type_is_mergeable (j_type J) (j_type K) = true))).
  wp_step. eapply wp_mono; [apply (delete_one_against_spec m u j J (k :: ks)); try done|].
  { apply Hks. left. }
  { intros x ?. apply Hks. by right. }
  intros [r|] m'; [intros Hr; wp_step; naive_solver|]. intros [-> Hall].
  destruct (chain_jobs m u k Hwf) as (_ & K & HK & _); [apply Hks; right; left|].
  eapply wp_mono; [apply (IH k K HK); intros x ?; apply Hks; by right|].
  intros r m' [?|[?|(? & ? & _)]]; [by left|by right; left|right; right]. done.
Qed.

Lemma check_chain_from_eq chain m l t :
  (∀ k, k ∈ l → is_Some (job_heap m !! k)) →
  check_chain_from chain t l m =
    match merge_types t (omap (type_of m) l) with
    | inr _ => Ret None m
    | inl _ => (r ← delete_one_unmergeable_job chain;
                mret (Some (if bool_decide (0 ≤ r) then - EAGAIN else r)%Z)) m
    end.
Proof.
  revert t. induction l as [|k l IH]; intros t Hl; [done|].
  destruct (Hl k) as [K HK]; [left|]. simpl. unfold type_of at 1. rewrite HK. simpl.
  unfold mbind at 1, M_bind at 1, job_at. rewrite HK. simpl.
  destruct (job_type_merge t (j_type K)); [done|]. apply IH. intros k' ?. apply Hl. by right.
Qed.

(** The first step for one unit: its types merge, or the function ends. *)
Lemma check_chain_spec m u chain :
  wf [] m → chain = chain_of u m →
  wp (check_chain chain) m (λ r m', match r with
    | None => m' = m ∧ (chain = [] ∨ is_Some (target_type m u))
    | Some r => (r = (- EAGAIN)%Z ∧ dropped_one m m') ∨
                (r = (- ENOEXEC)%Z ∧ m' = m ∧ contradiction m)
    end).
Proof.
  intros Hwf Hch. destruct chain as [|j ks]; [by apply wp_ret; split; [|left]|].
  assert (∀ k, k ∈ j :: ks → ∃ K, job_heap m !! k = Some K) as Hlive.
  { intros k. rewrite Hch. intros Hk. destruct (chain_jobs m u k Hwf Hk) as (_ & K & ? & _). eauto. }
  destruct (Hlive j) as [J HJ]; [left|]. simpl. wp_step. eapply wp_job_at; [done|].
  unfold wp. rewrite check_chain_from_eq.
  2: { intros k Hk. destruct (Hlive k); [by right|eauto]. }
  destruct (merge_types (j_type J) (omap (type_of m) ks)) as [e|t] eqn:E.
  2: { split; [done|]. right. unfold target_type.
       rewrite (chain_types_cons m u j ks J (eq_sym Hch) HJ), E. eauto. }
  change (wp (r ← delete_one_unmergeable_job (j :: ks);
    mret (Some (if bool_decide (0 ≤ r) then - EAGAIN else r)%Z)) m (λ r m', match r with
    | None => m' = m ∧ (j :: ks = [] ∨ is_Some (target_type m u))
    | Some r => (r = (- EAGAIN)%Z ∧ dropped_one m m') ∨
                (r = (- ENOEXEC)%Z ∧ m' = m ∧ contradiction m)
    end)).
  wp_step. eapply wp_mono; [apply (delete_one_unmergeable_job_spec m u j J ks Hwf HJ)|].
  { by rewrite Hch. }
  intros r m' [[-> Hd]|[(-> & -> & Hc)|(_ & _ & Hall)]]; wp_step; [by left|by right|exfalso].
  assert (Exists (λ k, job_type_is_conflicting (j_type J) k = true) (omap (type_of m) ks)) as Hex
    by (apply merge_types_conflict; eauto).
  apply Exists_exists in Hex as (k & Hk & Hconf). apply list_elem_of_omap in Hk as (x & Hx & Htx).
  unfold type_of in Htx. destruct (job_heap m !! x) as [X|] eqn:HX; [|done]. injection Htx as <-.
  pose proof (Hall x X Hx HX) as Hm. rewrite job_type_mergeable_iff, Hconf in Hm. done.
Qed.

Lemma check_chains_spec m tj :
  wf [] m → tj ⊆ transaction_jobs m →
  wp (check_chains tj) m (λ r m', match r with
    | None => m' = m ∧ ∀ u l, (u, l) ∈ tj → l ≠ [] → is_Some (target_type m u)
    | Some r => (r = (- EAGAIN)%Z ∧ dropped_one m m') ∨
                (r = (- ENOEXEC)%Z ∧ m' = m ∧ contradiction m)
    end).
Proof.
  intros Hwf. induction tj as [|[u l] tj IH]; intros Hsub; simpl.
  { wp_step. split; [done|]. by intros ? ? ?%elem_of_nil. }
  wp_step. eapply wp_mono; [apply (check_chain_spec m u l Hwf)|].
  { unfold chain_of. destruct (wc_tj _ _ (proj1 Hwf)) as [Ho _].
    rewrite (om_elem_get _ u l Ho) by (apply Hsub; left). done. }
  intros [r|] m'; [intros Hr; by wp_step|]. intros [-> Hok].
  eapply wp_mono; [apply IH; intros x ?; apply Hsub; by right|].
  intros [r|] m'; [done|]. intros [-> Hall]. split; [done|].
  intros v lv [[= -> ->]|Hin]%elem_of_cons Hne; [by destruct Hok|by eapply Hall].
Qed.

Lemma transaction_merge_jobs_spec m :
  wf [] m →
  wp transaction_merge_jobs m (λ r m',
    (r = 0%Z ∧ all_merged m m') ∨ (r = (- EAGAIN)%Z ∧ dropped_one m m') ∨
    (r = (- ENOEXEC)%Z ∧ m' = m ∧ contradiction m)).
Proof.
  intros Hwf. unfold transaction_merge_jobs. do 3 wp_step.
  eapply wp_mono; [by apply check_chains_spec|].
  intros [r|] m'; [intros Hr; wp_step; by right|]. intros [-> Hall]. wp_step.
  eapply wp_mono; [apply merge_units_spec; [done|]|].
  - intros u Hu. destruct (om_get (transaction_jobs m) u) as [l|] eqn:E.
    + apply (Hall u l); [by apply om_get_Some_elem|]. unfold chain_of in Hu. by rewrite E in Hu.
    + unfold chain_of in Hu. by rewrite E in Hu.
  - intros [] m' Hm. wp_step. by left.
Qed.

(** C3. Merging the transaction terminates with one of three results.  0: every
    unit of the transaction has exactly one job left, its type is the merge of
    the types of all its jobs (and of the installed job's type, where that can
    be merged), no link is lost, each still connects the same units.
    [-EAGAIN]: one job that does not matter to the anchor was deleted, with
    the jobs that need it.  [-ENOEXEC]: nothing was changed, and some unit has
    two jobs that both matter and contradict each other.  Installed jobs stay,
    with their types. *)
Theorem transaction_merge_jobs_correct m :
  wf [] m →
  wp transaction_merge_jobs m (λ r m',
    (r = 0%Z ∧ all_merged m m') ∨ (r = (- EAGAIN)%Z ∧ dropped_one m m') ∨
    (r = (- ENOEXEC)%Z ∧ m' = m ∧ contradiction m)).
Proof. apply transaction_merge_jobs_spec. Qed.

(** ** The last check: nothing that is installed is overruled *)

Lemma transaction_is_destructive_spec m :
  wf [] m → (∀ u, chain_of u m = [] ∨ ∃ j, chain_of u m = [j]) →
  ∃ r, reads transaction_is_destructive m r ∧
    ((r = 0%Z ∧ ∀ u t e, single m u t → unit_job_type m u = Some e → job_type_is_superset t e = true) ∨
     (r = (- EEXIST)%Z ∧ ∃ u t e, single m u t ∧ unit_job_type m u = Some e ∧
        job_type_is_superset t e = false)).
Proof.
  intros Hwf Hone. destruct (wc_tj _ _ (proj1 Hwf)) as [Ho Ht].
  assert (∀ tj, tj ⊆ transaction_jobs m → ∃ r, reads (is_destructive tj) m r ∧
    ((r = 0%Z ∧ ∀ u l t e, (u, l) ∈ tj → single m u t → unit_job_type m u = Some e →
        job_type_is_superset t e = true) ∨
     (r = (- EEXIST)%Z ∧ ∃ u t e, single m u t ∧ unit_job_type m u = Some e ∧
        job_type_is_superset t e = false))) as Hind.
  - induction tj as [|[u l] tj IH]; intros Hsub.
    { exists 0%Z. split; [done|]. left. split; [done|]. by intros ? ? ? ? ?%elem_of_nil. }
    destruct IH as (r & Hr & Hres); [intros x ?; apply Hsub; by right|].
    assert ((u, l) ∈ transaction_jobs m) as Hin by (apply Hsub; left).
    assert (chain_of u m = l) as Hch by (unfold chain_of; by rewrite (om_elem_get _ u l Ho Hin)).
    destruct (Hone u) as [E|[j E]]; [by destruct (Ht u l Hin) as (? & _); congruence|].
    assert (l = [j]) as -> by congruence.
    destruct (chain_jobs m u j Hwf) as (_ & J & HJ & HuJ); [rewrite E; left|].
    destruct (wf_job m j J Hwf HJ) as (U & HU & _). rewrite HuJ in HU.
    pose proof (unit_job_reads m u U Hwf HU) as He.
    assert (single m u (j_type J)) as Hs by (by exists j, J).
    assert (∀ t, single m u t → t = j_type J) as Hst.
    { intros t (j' & J' & E' & HJ' & <-). rewrite E in E'. injection E' as <-. congruence. }
    set (bad := match unit_job_type m u with
                | Some e => negb (job_type_is_superset (j_type J) e)
                | None => false end).
    assert (reads (match u_job U with
                   | None => mret false
                   | Some e => if bool_decide (e = j) then mret false else
                       E ← job_at e; mret (negb (job_type_is_superset (j_type J) (j_type E)))
                   end) m bad) as Hbad.
    { unfold bad. destruct (u_job U) as [e|]; [|by rewrite He].
      destruct He as (E' & HE & _ & _ & ->). case_bool_decide as Hej.
      - subst e. rewrite HJ in HE. injection HE as <-. by rewrite superset_refl.
      - eapply reads_bind; [by apply reads_job|done]. }
    exists (if bad then (- EEXIST)%Z else r). split.
    + simpl. eapply reads_bind; [by apply reads_job|]. rewrite HuJ.
      eapply reads_bind; [by apply reads_unit|]. eapply reads_bind; [exact Hbad|]. by destruct bad.
    + unfold bad. destruct (unit_job_type m u) as [e|] eqn:Ee.
      * destruct (job_type_is_superset (j_type J) e) eqn:Esup; simpl.
        -- destruct Hres as [[-> Hall]|?]; [left|by right]. split; [done|].
           intros v lv t e' [[= -> ->]|Hv]%elem_of_cons Hsv Hev; [|by eapply Hall].
           rewrite Ee in Hev. injection Hev as <-. by rewrite (Hst t Hsv).
        -- right. split; [done|]. by exists u, (j_type J), e.
      * destruct Hres as [[-> Hall]|?]; [left|by right]. split; [done|].
        intros v lv t e' [[= -> ->]|Hv]%elem_of_cons Hsv Hev; [congruence|by eapply Hall].
  - destruct (Hind (transaction_jobs m)) as (r & Hr & Hres); [done|]. exists r. split.
    + eapply reads_bind; [apply reads_gets|done].
    + destruct Hres as [[-> Hall]|?]; [left|by right]. split; [done|].
      intros u t e Hs He. destruct Hs as (j & J & Hch & HJ & Htj).
      unfold chain_of in Hch. destruct (om_get (transaction_jobs m) u) as [l|] eqn:E; [|done].
      apply (Hall u l t e); [by apply om_get_Some_elem|by exists j, J; unfold chain_of; rewrite E|done].
Qed.

(** C10. On a merged transaction [transaction_is_destructive] only reads, and
    returns 0 exactly when every unit's new job does at least what its
    installed job does; otherwise it returns [-EEXIST]. *)
Theorem transaction_is_destructive_correct m :
  wf [] m → (∀ u, chain_of u m = [] ∨ ∃ j, chain_of u m = [j]) →
  ∃ r, reads transaction_is_destructive m r ∧
    ((r = 0%Z ∧ ∀ u t e, single m u t → unit_job_type m u = Some e → job_type_is_superset t e = true) ∨
     (r = (- EEXIST)%Z ∧ ∃ u t e, single m u t ∧ unit_job_type m u = Some e ∧
        job_type_is_superset t e = false)).
Proof. apply transaction_is_destructive_spec. Qed.
End merge.

(** ** Examples *)
Section examples.
Import Demo.

(** A unit whose reload is under way is to start and to be verified; another
    one is to start and to stop. *)
Definition m_merge (chain2 : list JobPtr) (jobs2 : list (JobPtr * Job)) : Manager UnitActiveState :=
  manager
    [(1, unit "a.service" nodeps (Some 10) UNIT_ACTIVE); (2, unit "b.service" nodeps None UNIT_INACTIVE)]
    ([(10, (job 1 JOB_RELOAD [] [] 7) <| installed := true |>);
      (11, job 1 JOB_START [] [21] 8); (12, job 1 JOB_VERIFY_ACTIVE [] [22] 9)] ++ jobs2)
    [(21, mkJobDependency None 11 true false); (22, mkJobDependency None 12 true false)]
    [(7%Z, 10)] ([(1, [11; 12])] ++ match chain2 with [] => [] | _ => [(2, chain2)] end) [21; 22].

Lemma transaction_merge_jobs_correct_witness :
  ∃ m', transaction_merge_jobs (m_merge [] []) = Ret 0%Z m' ∧ wf [] m' ∧
    target_type (m_merge [] []) 1 = Some JOB_RELOAD_OR_START ∧
    single m' 1 JOB_RELOAD_OR_START.
Proof.
  assert (wf [] (m_merge [] [])) as Hwf by (apply wf_check_sound; vm_compute; reflexivity).
  destruct (wp_elim _ _ _ (transaction_merge_jobs_correct _ Hwf)) as (r & m' & E & Hr).
  assert (match transaction_merge_jobs (m_merge [] []) with Ret r _ => r | _ => 1%Z end = 0%Z) as C
    by (vm_compute; reflexivity).
  rewrite E in C. subst r. exists m'. split; [exact E|].
  destruct Hr as [[_ (Hw & _ & _ & Hs)]|[[? _]|[? _]]]; [|discriminate|discriminate].
  split; [exact Hw|]. split; [vm_compute; reflexivity|]. specialize (Hs 1).
  assert (chain_of 1 (m_merge [] []) = [11; 12]) as Hc by (vm_compute; reflexivity).
  rewrite Hc in Hs. destruct Hs as (t & Ht & Hs).
  assert (target_type (m_merge [] []) 1 = Some JOB_RELOAD_OR_START) as Ht' by (vm_compute; reflexivity).
  rewrite Ht in Ht'. injection Ht' as ->. exact Hs.
Defined.

(** A start and a stop of one unit that do not matter: the stop goes. *)
Example merge_drops_one :
  after transaction_merge_jobs (m_merge [13; 14]
    [(13, job 2 JOB_START [] [] 10); (14, job 2 JOB_STOP [] [] 11)]) (chain_of 2) [] = [13].
Proof. vm_compute. reflexivity. Qed.

(** A start against an installed stop. *)
Definition m_destructive : Manager UnitActiveState :=
  manager [(1, unit "a.service" nodeps (Some 10) UNIT_ACTIVE)]
    [(10, (job 1 JOB_STOP [] [] 7) <| installed := true |>); (11, job 1 JOB_START [] [21] 8)]
    [(21, mkJobDependency None 11 true false)] [(7%Z, 10)] [(1, [11])] [21].

Lemma transaction_is_destructive_correct_witness :
  wf [] m_destructive ∧ transaction_is_destructive m_destructive = Ret (- EEXIST)%Z m_destructive ∧
  ∃ u t e, single m_destructive u t ∧ unit_job_type m_destructive u = Some e ∧
    job_type_is_superset t e = false.
Proof.
  assert (wf [] m_destructive) as Hwf by (apply wf_check_sound; vm_compute; reflexivity).
  assert (∀ u, chain_of u m_destructive = [] ∨ ∃ j, chain_of u m_destructive = [j]) as Hone.
  { intros u. unfold chain_of; simpl. case_decide; [right; by exists 11|by left]. }
  destruct (transaction_is_destructive_correct m_destructive Hwf Hone) as (r & Hr & Hres).
  unfold reads in Hr.
  assert (match transaction_is_destructive m_destructive with Ret r _ => r | _ => 0%Z end
    = (- EEXIST)%Z) as C by (vm_compute; reflexivity).
  rewrite Hr in C. subst r. split; [exact Hwf|]. split; [exact Hr|].
  destruct Hres as [[? _]|[_ ?]]; [discriminate|assumption].
Defined.
End examples.
