(* ===== verification/Asked.v ===== *)
(** * What was asked for survives the passes

    The job that the request of [manager_add_job] put into the transaction has
    a link from the anchor.  No pass takes it out unless it fails: what the
    anchor needs is marked, marked jobs are never dropped, and merging only
    widens the type. *)

From stdpp Require Import base gmap strings list fin_maps.
From Stdlib Require Import ZArith Lia.
From S2P Require Import Prelude CString JobType OrderedMap Engine Transaction Order Links Wf WfCheck Passes Installed Matter OrderSpec Merge.

Section asked.
Context {P : Type} `{UnitVTable P}.
Abbreviation MM := (M (Manager P)).
Implicit Types m : Manager P.

(** What the anchor needs is marked. *)
Definition mark_ok m : Prop :=
  ∀ j J, reaches m None j → job_heap m !! j = Some J → matters_to_anchor J = true.

(** The anchor wants a job of the unit [u] that does what [t] does. *)
Definition wanted (t : JobType) (u : UnitPtr) m : Prop :=
  ∃ d l K, dep_heap m !! d = Some l ∧ subject l = None ∧ matters l = true ∧
    object l ∈ chain_of u m ∧ job_heap m !! object l = Some K ∧ job_type_is_superset (j_type K) t = true.

Lemma reaches_mono m m' s j : dep_heap m' ⊆ dep_heap m → reaches m' s j → reaches m s j.
Proof.
  intros Hd. assert (∀ s o, needs m' s o → needs m s o) as Hn.
  { intros x o (d & l & Hl & ?). exists d, l. split; [by eapply lookup_weaken|done]. }
  induction 1; [apply reaches_needs|eapply reaches_step]; eauto.
Qed.

Lemma closed_reaches m : closed (reaches m None) m.
Proof. intros d l o Hd Hm Hs Ho. eapply reaches_step; [done|]. by exists d, l. Qed.

Lemma wanted_reaches m d l :
  dep_heap m !! d = Some l → subject l = None → matters l = true → reaches m None (object l).
Proof. intros. apply reaches_needs. by exists d, l. Qed.

Lemma mark_ok_shrinks X m m' : shrinks X m m' → mark_ok m → mark_ok m'.
Proof.
  intros Hs Hm j J' Hr HJ'. destruct (sh_heap _ _ _ Hs j J' HJ') as (J & HJ & E & _).
  pose proof (f_equal matters_to_anchor E) as Em. simpl in Em. rewrite Em.
  apply (Hm j J); [|done]. eapply reaches_mono; [apply Hs|done].
Qed.

Lemma wanted_keeps S t u m m' :
  wf [] m → wf [] m' → shrinks [] m m' → keeps S m m' →
  (∀ d l, dep_heap m !! d = Some l → subject l = None → matters l = true → object l ∈ chain_of u m → S (object l)) →
  wanted t u m → wanted t u m'.
Proof.
  intros Hw Hw' Hs [Hk1 Hk2] HS (d & l & K & Hd & Hsub & Hm & Hc & HK & Ht).
  pose proof (HS d l Hd Hsub Hm Hc) as Hin.
  assert (j_unit K = u) as Hu.
  { destruct (chain_jobs m u _ Hw Hc) as (_ & K0 & HK0 & ?). congruence. }
  assert (object l ∈ all_jobs m') as Ha.
  { apply Hk1; [done|]. apply (elem_of_all_jobs [] m _ (proj1 Hw)). exists (erase_lists K).
    split; [apply eheap_Some; by exists K|]. simpl. by rewrite Hu. }
  apply (elem_of_all_jobs [] m' _ (proj1 Hw')) in Ha as (K0 & (K' & HK' & ->)%eheap_Some & Hc').
  destruct (shrinks_ident _ _ _ _ K' Hs HK') as (K1 & HK1 & E & Et & _).
  assert (K1 = K) as -> by congruence. unfold ident in E. simpl in Hc'.
  exists d, l, K'. split_and!; [|done|done| |done|by rewrite Et].
  - apply Hk2; [done|done|]. intros o Eo. congruence.
  - assert (j_unit K' = u) as <- by congruence. done.
Qed.

Lemma wanted_reached t u m m' :
  wf [] m → wf [] m' → shrinks [] m m' → keeps (reaches m None) m m' → wanted t u m → wanted t u m'.
Proof. intros ???? . apply (wanted_keeps (reaches m None)); [done..|]. intros. by eapply wanted_reaches. Qed.

(** ** The passes *)

Lemma minimize_keeps_asked m :
  wf [] m → mark_ok m →
  wp transaction_minimize_impact m (λ _ m', wf [] m' ∧ shrinks [] m m' ∧ (inside m → inside m') ∧
    ∀ t u, wanted t u m → wanted t u m').
Proof.
  intros Hwf Hm. eapply wp_mono; [by apply transaction_minimize_impact_spec|].
  intros [] m' (Hw' & Hs & Hi & _ & Hk). split_and!; [done..|]. intros t u. apply wanted_reached; [done..|].
  apply Hk; [apply closed_reaches|]. intros j J Hr HJ. unfold impact. by rewrite (Hm j J Hr HJ).
Qed.

Lemma gc_keeps_asked m :
  wf [] m →
  wp transaction_collect_garbage m (λ _ m', wf [] m' ∧ shrinks [] m m' ∧ (inside m → inside m') ∧
    ∀ t u, wanted t u m → wanted t u m').
Proof.
  intros Hwf. eapply wp_mono; [by apply transaction_collect_garbage_spec|].
  intros [] m' (Hw' & Hs & Hi & _ & Hk). split_and!; [done..|]. intros t u. apply wanted_reached; [done..|].
  apply Hk; [apply closed_reaches|]. intros k Hr _. inversion Hr as [o (d & l & Hd & Es & _ & Eo)|j o Hj (d & l & Hd & Es & _ & Eo)]; subst.
  - exists d, l. split_and!; [done..|]. congruence.
  - exists d, l. split_and!; [done..|]. intros x Ex. assert (x = j) as -> by congruence. done.
Qed.

Lemma anchored_link m d l K :
  wf [] m → dep_heap m !! d = Some l → subject l = None → job_heap m !! object l = Some K →
  anchored m K = true.
Proof.
  intros [_ Hl] Hd Hs HK. destruct (link_lists _ Hl d l Hd) as [_ (ds & Ho & Hin)].
  unfold objects_of in Ho. rewrite HK in Ho. simpl in Ho. injection Ho as <-.
  unfold anchored. apply existsb_exists. exists d. split; [by apply list_elem_of_In|].
  rewrite Hd. by apply bool_decide_eq_true.
Qed.

Lemma wanted_changes t u m : wf [] m → wanted t u m → changes m u = true.
Proof.
  intros Hwf (d & l & K & Hd & Hsub & _ & Hc & HK & _). unfold changes. apply existsb_exists.
  exists (object l). split; [by apply list_elem_of_In|]. unfold noop_at. rewrite HK. unfold noop.
  by rewrite (anchored_link m d l K).
Qed.

Lemma redundant_keeps_asked m :
  wf [] m →
  wp transaction_drop_redundant m (λ _ m', wf [] m' ∧ shrinks [] m m' ∧ (inside m → inside m') ∧
    ∀ t u, wanted t u m → wanted t u m').
Proof.
  intros Hwf. eapply wp_mono; [by apply transaction_drop_redundant_spec|].
  intros [] m' (Hw' & Hs & Hi & Hk & _). split_and!; [done..|]. intros t u Hwt.
  apply (wanted_keeps (λ k, k ∈ chain_of u m) t u m m'); [done..| |done|done]. by apply Hk, (wanted_changes t).
Qed.

(** Recolouring changes neither. *)
Lemma same_graph_asked m m' t u :
  same_graph m m' → (mark_ok m → mark_ok m') ∧ (wanted t u m → wanted t u m').
Proof.
  intros Hsg. pose proof Hsg as [E Hb].
  assert (dep_heap m' = dep_heap m ∧ (∀ v, chain_of v m' = chain_of v m)) as [Ed Ec] by (by rewrite <- E).
  split.
  - intros Hm j J' Hr HJ'. pose proof (f_equal (lookup j) Hb) as Hj. rewrite !lookup_fmap, HJ' in Hj.
    symmetry in Hj. apply fmap_Some in Hj as (J & HJ & EJ). pose proof (f_equal matters_to_anchor EJ) as Em.
    simpl in Em. rewrite Em. apply (Hm j J); [|done]. eapply reaches_mono; [|done]. by rewrite Ed.
  - intros (d & l & K & Hd & Hs & Hm & Hc & HK & Ht).
    destruct (same_graph_job m m' (object l) K Hsg HK) as (K' & HK' & EK).
    pose proof (f_equal j_type EK) as Et. simpl in Et.
    exists d, l, K'. rewrite Ed, Ec. split_and!; try done. by rewrite Et.
Qed.

(** A job that may be dropped to break a cycle is not marked, nor is any other
    of its unit. *)
Lemma cycle_broken_asked m m' t u :
  wf [] m → mark_ok m → cycle_broken m m' → mark_ok m' ∧ (wanted t u m → wanted t u m').
Proof.
  intros Hwf Hm (m1 & c & d & D & Hsg & _ & _ & Hdr & HD & Hw' & Hs & _ & _ & Hk).
  destruct (same_graph_asked m m1 t u Hsg) as [Hm1 Hwt]. specialize (Hm1 Hm).
  assert (wf [] m1) as Hw1 by (by rewrite <- (same_graph_core _ _ Hsg)).
  split; [by eapply mark_ok_shrinks|]. intros Hw. apply (wanted_reached t u m1); try done; [|by apply Hwt].
  apply Hk; [apply closed_reaches|]. intros k Hkc Hr.
  assert (chain_of (j_unit D) m1 = chain_of (j_unit D) m) as Ec by (by destruct Hsg as [<- _]).
  rewrite Ec in Hkc. destruct (chain_jobs m _ k Hwf Hkc) as (_ & K & HK & HuK).
  assert (matters_to_anchor K = true) as Hmk.
  { apply (Hm k K); [|done]. eapply reaches_mono; [|exact Hr]. by destruct Hsg as [<- _]. }
  unfold droppable in Hdr. rewrite HD in Hdr. apply andb_true_iff in Hdr as [Hi Hun].
  unfold unimportant in Hun. case_decide as Hd.
  - rewrite forallb_forall in Hun. specialize (Hun k (proj1 (list_elem_of_In _ _) Hkc)). simpl in Hun.
    rewrite HK, Hmk in Hun. done.
  - destruct (wc_job _ _ (proj1 Hwf) d (erase_lists D)) as (U & _ & Hdj); [apply eheap_Some; by exists D|].
    apply negb_true_iff in Hi. simpl in Hdj. rewrite Hi in Hdj. by destruct Hdj as ([?|?%elem_of_nil] & _).
Qed.

Lemma dropped_one_asked m m' t u :
  wf [] m → mark_ok m → dropped_one m m' → mark_ok m' ∧ (wanted t u m → wanted t u m').
Proof.
  intros Hwf Hm (Hw' & Hs & _ & d & D & _ & HD & HmD & _ & Hk). split; [by eapply mark_ok_shrinks|].
  intros Hwt. apply (wanted_reached t u m); try done. apply Hk; [apply closed_reaches|].
  intros Hr. pose proof (Hm d D Hr HD). congruence.
Qed.

Lemma target_type_above m u a t' :
  target_type m u = Some t' → a ∈ chain_types m u → job_type_is_superset t' a = true.
Proof.
  unfold target_type. destruct (chain_types m u) as [|t ts]; [done|].
  destruct (merge_types t ts) as [|r] eqn:E; [done|]. intros [= <-] Ha.
  pose proof (merge_types_above t ts r a E Ha) as Hr. destruct (unit_job_type m u) as [e|]; [|done].
  destruct (job_type_merge r e) as [|t''] eqn:Em; [done|]. eapply superset_trans; [|exact Hr].
  pose proof (job_type_merge_sup r e t'' t'' Em) as Hs. rewrite superset_refl in Hs.
  symmetry in Hs. by apply andb_true_iff in Hs as [? _].
Qed.

Lemma all_merged_wanted m m' t u :
  wf [] m → inside m → all_merged m m' → wanted t u m → wanted t u m'.
Proof.
  intros Hwf Hin (Hw' & Hp & Hlinks & Hall) (d & l & K & Hd & Hs & Hm & Hc & HK & Ht).
  destruct (chain_jobs m u _ Hwf Hc) as (_ & K0 & HK0 & Hu). assert (K0 = K) as -> by congruence.
  specialize (Hall u). destruct (chain_of u m) as [|j0 js] eqn:Hch; [by apply elem_of_nil in Hc|].
  destruct Hall as (t' & Htt & j & J & Hch' & HJ & Etj).
  assert (job_type_is_superset t' t = true) as Hsup.
  { eapply superset_trans; [|exact Ht]. apply (target_type_above m u _ t' Htt). unfold chain_types, type_of.
    apply list_elem_of_omap. exists (object l). rewrite Hch, HK. done. }
  pose proof (Hlinks d) as El. unfold link_units in El. rewrite Hd in El.
  destruct (dep_heap m' !! d) as [l'|] eqn:Hd'; [|done]. simpl in El. injection El as Es Eo Em _.
  assert (subject l' = None) as Hs' by (rewrite Hs in Es; by destruct (subject l')).
  assert (unit_of m' (object l') = Some u) as Eu by (rewrite Eo; unfold unit_of; rewrite HK; simpl; by rewrite Hu).
  destruct (ps_inside _ _ Hp Hin d l' Hd') as [Ha _].
  apply (elem_of_all_jobs [] m' _ (proj1 Hw')) in Ha as (X0 & (X & HX & ->)%eheap_Some & HcX). simpl in HcX.
  unfold unit_of in Eu. rewrite HX in Eu. simpl in Eu. injection Eu as Eu. rewrite Eu, Hch' in HcX.
  apply list_elem_of_singleton in HcX as Ej. exists d, l', J. rewrite Ej.
  split_and!; [done|done|congruence|rewrite Hch'; left|done|by rewrite Etj].
Qed.
End asked.
