(* ===== verification/Rollback.v ===== *)
(** * Rolling a transaction back (src/manager.c: transaction_abort)

    Whatever the transaction looks like, [transaction_abort] empties it: no job
    that is not installed is left, and no link. *)

From stdpp Require Import base gmap strings list fin_maps.
From Stdlib Require Import ZArith Lia.
From S2P Require Import Prelude CString JobType OrderedMap Engine Transaction Links Wf WfCheck Passes.

Section rollback.
Context {P : Type} `{UnitVTable P}.
Abbreviation MM := (M (Manager P)).
Implicit Types m : Manager P.

(** ** The loops of [transaction_clean_dependencies] *)

(** Links go, and nothing else. *)
Lemma free_objects_spec n X j m :
  wf X m → is_Some (job_heap m !! j) → size (dep_heap m) < n →
  wp (while_some n (J ← job_at j; mret (list_head (object_list J))) job_dependency_free) m
    (λ _ m', only_links X m m' ∧ ∃ J', job_heap m' !! j = Some J' ∧ object_list J' = []).
Proof.
  intros Hwf Hj Hn.
  apply (wp_while_some _ _ (λ m1, only_links X m m1 ∧ is_Some (job_heap m1 !! j))
           (λ m1, size (dep_heap m1)) (λ m', only_links X m m' ∧ ∃ J', _));
    [|by split; [apply only_links_refl|]|done].
  intros m1 [Hol [J HJ]]. wp_step. eapply wp_job_at; [done|]. wp_step.
  destruct (list_head (object_list J)) as [d|] eqn:Hd; [|by apply list_head_None in Hd; eauto].
  apply list_head_elem in Hd.
  destruct (object_link _ _ _ _ _ (proj1 Hol) HJ Hd) as (l & Hl & _).
  eapply wp_intro; [apply (job_dependency_free_eq d m1 l); [apply Hol|done]|].
  split; [|by apply size_free_dep]. split; [by apply only_links_free|].
  simpl. by rewrite lookup_fmap, HJ.
Qed.

Lemma only_links_trans X m1 m2 m3 : only_links X m1 m2 → only_links X m2 m3 → only_links X m1 m3.
Proof.
  intros (W1 & S1 & E1 & T1) (W2 & S2 & E2 & T2). split_and!; [done| |congruence|congruence].
  intros Y. etrans; [apply S1|apply S2].
Qed.
Lemma only_links_live X m m' j : only_links X m m' → is_Some (job_heap m !! j) → is_Some (job_heap m' !! j).
Proof. intros (_ & _ & E & _) Hj. apply eheap_live. rewrite E. by apply eheap_live. Qed.
Lemma only_links_unlinked X m m' j J :
  only_links X m m' → job_heap m !! j = Some J → ∃ J', job_heap m' !! j = Some J' ∧
    subject_list J' ⊆ subject_list J ∧ object_list J' ⊆ object_list J.
Proof.
  intros Ho HJ. destruct (only_links_live X m m' j Ho) as [J' HJ']; [by eexists|].
  exists J'. split; [done|]. destruct Ho as (_ & Hs & _).
  destruct (sh_heap _ _ _ (Hs X) j J' HJ') as (J0 & HJ0 & _ & ? & ?). by simplify_eq.
Qed.

Lemma subset_nil (l : list nat) : l ⊆ [] → l = [].
Proof. destruct l as [|x l]; [done|]. intros Hl. destruct (not_elem_of_nil x). apply Hl. left. Qed.

(** A job without links. *)
Definition linkless m (j : JobPtr) : Prop :=
  ∃ J, job_heap m !! j = Some J ∧ subject_list J = [] ∧ object_list J = [].
Lemma linkless_mono X m m' j : only_links X m m' → linkless m j → linkless m' j.
Proof.
  intros Ho (J & HJ & Es & Eo). destruct (only_links_unlinked X m m' j J Ho HJ) as (J' & HJ' & Ss & So).
  exists J'. rewrite Es in Ss. rewrite Eo in So. auto using subset_nil.
Qed.

Lemma clean_one_spec X j m :
  wf X m → is_Some (job_heap m !! j) →
  wp (n ← delete_fuel;
      while_some n (J ← job_at j; mret (list_head (subject_list J))) job_dependency_free;;
      while_some n (J ← job_at j; mret (list_head (object_list J))) job_dependency_free) m
    (λ _ m', only_links X m m' ∧ linkless m' j).
Proof.
  intros Hwf Hj. unfold delete_fuel. wp_step. wp_step. wp_step.
  eapply wp_mono; [apply (free_subjects_spec _ X j m); [done..|lia]|].
  intros [] m1 ((Ho1 & _) & J1 & HJ1 & Es1).
  eapply wp_mono; [apply (free_objects_spec _ X j m1)|].
  - apply Ho1.
  - by eexists.
  - destruct Ho1 as (_ & Hs & _). specialize (Hs X). apply shrinks_size in Hs. lia.
  - intros [] m2 (Ho2 & J2 & HJ2 & Eo2). split; [by eapply only_links_trans|].
    exists J2. split_and!; [done| |done].
    destruct (only_links_unlinked X m1 m2 j J1 Ho2 HJ1) as (J2' & HJ2' & Ss & _).
    simplify_eq. rewrite Es1 in Ss. by apply subset_nil.
Qed.

(** With only installed jobs left, no link survives. *)
Lemma transaction_clean_dependencies_spec m :
  wf [] m → transaction_jobs m = [] →
  wp transaction_clean_dependencies m (λ _ m',
    only_links [] m m' ∧ dep_heap m' = ∅ ∧ transaction_anchor m' = []).
Proof.
  intros Hwf Htj. unfold transaction_clean_dependencies. wp_step. wp_step. wp_step.
  destruct (wc_jobs _ _ (proj1 Hwf)) as [_ Hjobs].
  set (body := λ e : Z * JobPtr, _ : MM ()).
  eapply wp_mono; [apply (wp_for_each (jobs m) body (λ l' m1, only_links [] m m1 ∧
    l' ⊆ jobs m ∧ ∀ e, e ∈ jobs m → e ∉ l' → linkless m1 e.2))|].
  - intros e l' m1 (Ho & Hsub & Hdone). unfold body.
    destruct (Hjobs e.1 e.2) as (J & HJ & _); [rewrite <- surjective_pairing; apply Hsub; left|].
    eapply wp_mono; [apply (clean_one_spec [] e.2 m1)|].
    + apply Ho.
    + apply (only_links_live [] m m1); [done|]. apply eheap_live. by eexists.
    + intros [] m2 [Ho2 Hl]. split_and!; [by eapply only_links_trans|intros x ?; apply Hsub; by right|].
      intros e' He' Hn. destruct (decide (e' = e)) as [->|]; [done|].
      eapply linkless_mono; [done|]. apply Hdone; [done|]. by rewrite not_elem_of_cons.
  - split_and!; [by apply only_links_refl|done|by intros].
  - intros [] m' (Ho & _ & Hdone). pose proof Ho as (Hw' & _ & E & _).
    assert (dep_heap m' = ∅) as Hd.
    { apply map_empty. intros d. destruct (dep_heap m' !! d) as [l|] eqn:Hl; [|done]. exfalso.
      destruct (link_lists _ (proj2 Hw') d l Hl) as [_ (ds & Hds & Hin)].
      unfold objects_of in Hds. apply fmap_Some in Hds as (J' & HJ' & ->).
      assert (eheap m !! object l = Some (erase_lists J')) as HeJ by (rewrite <- E; apply eheap_Some; eauto).
      destruct (wc_job _ _ (proj1 Hwf) _ _ HeJ) as (U & _ & Hk).
      destruct (installed (erase_lists J')).
      - destruct Hk as [_ Hk]. destruct (Hdone _ Hk) as (J'' & HJ'' & _ & Eo); [by intros ?%elem_of_nil|].
        simpl in HJ''. rewrite HJ' in HJ''. injection HJ'' as <-. rewrite Eo in Hin.
        by apply elem_of_nil in Hin.
      - destruct Hk as ([Hk|[]%elem_of_nil] & _). unfold chain_of in Hk. rewrite Htj in Hk.
        by apply elem_of_nil in Hk. }
    assert (transaction_anchor m' = []) as Ha.
    { destruct (transaction_anchor m') as [|d ds] eqn:Ea; [done|].
      destruct (subject_links _ (proj2 Hw') None (d :: ds)) as [_ Hds]; [simpl; by rewrite Ea|].
      destruct (Hds d) as (l & Hl & _); [left|]. by rewrite Hd in Hl. }
    wp_step. wp_step. rewrite Ha. unfold assert_. simpl. by wp_step.
Qed.

(** ** The rollback *)

Lemma first_job_in m j : first_transaction_job m = Some j → j ∈ all_jobs m.
Proof.
  unfold first_transaction_job, all_jobs. destruct (transaction_jobs m) as [|[u l] tj]; simpl; [done|].
  intros Hj%list_head_elem. apply elem_of_app. by left.
Qed.
Lemma first_job_none m : wf [] m → first_transaction_job m = None → transaction_jobs m = [].
Proof.
  intros [Hc _]. destruct (wc_tj _ _ Hc) as [_ Ht]. unfold first_transaction_job.
  destruct (transaction_jobs m) as [|[u l] tj]; simpl; [done|].
  intros Hl%list_head_None. destruct (Ht u l) as (? & _); [left|done].
Qed.

Lemma drop_first_spec m j :
  wf [] m → j ∈ all_jobs m →
  wp (J ← job_at j; if installed J then transaction_delete_job j true else job_free j) m
    (λ _ m', (wf [] m' ∧ shrinks [] m m') ∧ length (all_jobs m') < length (all_jobs m)).
Proof.
  intros Hwf Hj. destruct (job_live m j Hwf Hj) as [J HJ]. wp_step. eapply wp_job_at; [done|].
  assert (∀ m', shrinks [] m m' → (j ∉ all_jobs m') → length (all_jobs m') < length (all_jobs m)) as Hlt.
  { intros m' Hs Hn. eapply sublist_lost; [apply (sh_all _ _ _ Hs)|done|done]. }
  destruct (installed J) eqn:Hi.
  - eapply wp_mono; [apply transaction_delete_job_wp; [done|by eexists]|].
    intros [] m' (Hw' & Hs' & Hj' & _). auto.
  - unfold job_free, delete_fuel. wp_step. wp_step.
    eapply wp_mono; [apply (job_free_uninstalled_spec _ _ [] m j J) with (Y := [])|].
    + apply delete_job_rec_spec.
    + done.
    + done.
    + done.
    + by intros ? ?%elem_of_nil.
    + lia.
    + done.
    + apply not_elem_of_nil.
    + done.
    + intros [] m' (Hw' & Hs' & Hj' & _). auto.
Qed.

Lemma transaction_abort_spec m :
  wf [] m →
  wp transaction_abort m (λ _ m', wf [] m' ∧ rest m' = rest m ∧
    transaction_jobs m' = [] ∧ transaction_anchor m' = [] ∧ dep_heap m' = ∅ ∧
    ∀ j J', eheap m' !! j = Some J' ↔ eheap m !! j = Some J' ∧ installed J' = true).
Proof.
  intros Hwf. unfold transaction_abort. wp_step. wp_step. wp_step.
  eapply wp_mono; [apply (wp_while_some _ _ (λ m1, wf [] m1 ∧ shrinks [] m m1)
    (λ m1, length (all_jobs m1)) (λ m1, wf [] m1 ∧ shrinks [] m m1 ∧ transaction_jobs m1 = []));
    [|done|unfold all_jobs; lia]|].
  { intros m1 [Hw1 Hs1]. wp_step. destruct (first_transaction_job m1) as [j|] eqn:Ej.
    - eapply wp_mono; [apply drop_first_spec; [done|by apply first_job_in]|].
      intros [] m2 [[Hw2 Hs2] Hlt]. split; [split; [done|by etrans]|done].
    - auto using first_job_none. }
  intros [] m1 (Hw1 & Hs1 & Et). wp_step. wp_step. wp_step. rewrite Et. unfold assert_; simpl. wp_step.
  eapply wp_mono; [by apply transaction_clean_dependencies_spec|].
  intros [] m' (Ho & Hd & Ha). pose proof Ho as (Hw' & Hs' & E & Et').
  assert (shrinks [] m m') as Hs by (by etrans). split_and!; [done|apply Hs|congruence|done|done|].
  intros j J'. rewrite E. split.
  - intros HJ'. pose proof HJ' as (J1 & HJ1 & ->)%eheap_Some.
    destruct (sh_heap _ _ _ Hs1 j J1 HJ1) as (J & HJ & HE & _).
    split; [apply eheap_Some; exists J; by rewrite HE|].
    destruct (wc_job _ _ (proj1 Hw1) j _ HJ') as (U & _ & Hk).
    destruct (installed (erase_lists J1)); [done|]. destruct Hk as ([Hk|[]%elem_of_nil] & _).
    unfold chain_of in Hk. rewrite Et in Hk. by apply elem_of_nil in Hk.
  - intros [HJ Hi]. apply (shrinks_eheap [] m m1); [done..|].
    apply eheap_Some in HJ as (J & HJ & ->). apply (sh_live _ _ _ Hs1 j J HJ). by left.
Qed.

(** C6. Rolling back terminates, whatever the transaction holds, and leaves the
    engine as if there had been none: the transaction and the anchor are
    empty, no link is left, every job that is left is installed, and no
    installed job was lost or changed. *)
Theorem transaction_abort_correct m :
  wf [] m →
  wp transaction_abort m (λ _ m', wf [] m' ∧ rest m' = rest m ∧
    transaction_jobs m' = [] ∧ transaction_anchor m' = [] ∧ dep_heap m' = ∅ ∧
    ∀ j J', eheap m' !! j = Some J' ↔ eheap m !! j = Some J' ∧ installed J' = true).
Proof. apply transaction_abort_spec. Qed.
End rollback.

(** ** Examples *)
Section examples.
Import Demo.

Lemma transaction_abort_correct_witness :
  ∃ m', transaction_abort m0 = Ret tt m' ∧ wf [] m' ∧ job_heap m' = ∅.
Proof.
  destruct (wp_elim _ _ _ (transaction_abort_correct m0 m0_wf)) as ([] & m' & E & Hw & _).
  exists m'. split; [exact E|]. split; [exact Hw|].
  assert (after transaction_abort m0 job_heap (job_heap m0) = ∅) as C by (vm_compute; reflexivity).
  unfold after in C. by rewrite E in C.
Defined.
End examples.
