(* ===== verification/Delete.v ===== *)
(** * What a deletion takes along (src/manager.c: transaction_delete_job)

    [transaction_delete_job], [manager_transaction_unlink_job] and [job_free]
    call each other; the recursion ends whatever the links look like, and the
    jobs that leave the transaction are exactly those that need the deleted
    job. *)

From stdpp Require Import base gmap strings list fin_maps.
From Stdlib Require Import ZArith Lia.
From S2P Require Import Prelude CString JobType OrderedMap Engine Transaction Links Wf WfCheck Passes Matter.

Section delete.
Context {P : Type} `{UnitVTable P}.
Implicit Types m : Manager P.

(** Links lead to jobs of the transaction only. *)
Definition links_inside m : Prop := ∀ d l, dep_heap m !! d = Some l → object l ∈ all_jobs m.

(** The jobs that the deletion of [j] takes along. *)
Definition doomed (dd : bool) m (j k : JobPtr) : Prop :=
  if dd then rtc (λ a b, needs m (Some a) b) k j else k = j.

Lemma drags_doomed dd m m' j k :
  links_inside m → shrinks [] m m' → drags dd [] m m' → (j ∉ all_jobs m') → k ∈ all_jobs m →
  doomed dd m j k → k ∉ all_jobs m'.
Proof.
  intros Hin Hsh [A B] Hj. destruct dd; simpl; [|by intros _ ->]. intros Hk Hr. revert Hk.
  induction Hr as [k|k y j (d & l & Hd & Hs & Hm & Ho) _ IH]; [done|].
  intros Hk. assert (y ∈ all_jobs m) as Hy by (rewrite <- Ho; by eapply Hin).
  apply (A eq_refl d l k Hd Hm Hs). destruct (dep_heap m' !! d) as [l'|] eqn:Hd'; [|done].
  exfalso. apply (proj1 (B y Hy (IH Hj Hy) (not_elem_of_nil y) d l' Hd')).
  pose proof (lookup_weaken _ _ _ _ Hd' (sh_deps _ _ _ Hsh)). congruence.
Qed.

Lemma spares_undoomed dd m m' j k :
  spares dd j m m' → k ∈ all_jobs m → ¬ doomed dd m j k → k ∈ all_jobs m'.
Proof.
  intros Hsp Hk Hn. destruct (Hsp (λ x, ¬ doomed dd m j x)) as [Hkeep _]; [| |by apply Hkeep].
  - intros -> d l o Hd Hm Hs Ho Hdo. apply Ho. simpl in *. eapply rtc_l; [|exact Hdo].
    by exists d, l.
  - intros Hj. apply Hj. by destruct dd; simpl.
Qed.

(** C1. Deleting a job of the transaction terminates and keeps the engine
    consistent.  With [delete_dependencies], the jobs that leave the
    transaction are exactly those that need the deleted one over links that
    matter, directly or through others; without, it is the job alone.  A job
    that was not installed is freed, an installed one stays, and no link to a
    job that has left remains. *)
Theorem transaction_delete_job_correct m j dd :
  wf [] m → links_inside m → j ∈ all_jobs m →
  wp (transaction_delete_job j dd) m (λ _ m', wf [] m' ∧ links_inside m' ∧ shrinks [] m m' ∧
    (∀ k, k ∈ all_jobs m' ↔ k ∈ all_jobs m ∧ ¬ doomed dd m j k) ∧
    (∀ J, eheap m !! j = Some J → installed J = false → job_heap m' !! j = None) ∧
    (∀ k J, eheap m !! k = Some J → installed J = true → eheap m' !! k = Some J)).
Proof.
  intros Hwf Hin Hj. destruct (job_live m j Hwf Hj) as [J HJ].
  eapply wp_mono; [apply transaction_delete_job_wp; [done|by eexists]|].
  intros [] m' (Hw' & Hs' & Hj' & Hfree & Hsp & Hdr). split_and!; [done| |done| |done|].
  - intros d l Hd. pose proof (lookup_weaken _ _ _ _ Hd (sh_deps _ _ _ Hs')) as Hd0.
    destruct (decide (object l ∈ all_jobs m')) as [|Hn]; [done|].
    destruct Hdr as [_ B]. by destruct (B (object l) (Hin d l Hd0) Hn (not_elem_of_nil _) d l Hd).
  - intros k. split.
    + intros Hk. assert (k ∈ all_jobs m) as Hk0 by (by apply (sublist_elem _ _ _ (sh_all _ _ _ Hs'))).
      split; [done|]. intros Hd. by apply (drags_doomed dd m m' j k).
    + intros [Hk Hd]. by apply (spares_undoomed dd m m' j k).
  - intros k K HK Hi. apply (shrinks_eheap [] m m'); [done..|].
    apply eheap_Some in HK as (K0 & HK0 & ->). apply (sh_live _ _ _ Hs' k K0 HK0). by left.
Qed.
End delete.

(** ** Examples *)
Section examples.
Import Demo.

(** "a" needs "c"; without "c", "a" goes too, and "b", which "a" merely wants
    to stop, stays. *)
Lemma transaction_delete_job_correct_witness :
  wf [] m0 ∧ links_inside m0 ∧
  ∃ m', transaction_delete_job 13 true m0 = Ret tt m' ∧ wf [] m' ∧ all_jobs m' = [12].
Proof.
  assert (links_inside m0) as Hin.
  { intros d l Hd. assert (map_all (λ _ l, bool_decide (object l ∈ all_jobs m0)) (dep_heap m0) = true) as C
      by (vm_compute; reflexivity).
    pose proof (map_all_true _ _ C _ _ Hd) as E. by apply bool_decide_eq_true in E. }
  assert (13 ∈ all_jobs m0) as Hj by (right; right; left).
  split; [exact m0_wf|]. split; [exact Hin|].
  destruct (wp_elim _ _ _ (transaction_delete_job_correct m0 13 true m0_wf Hin Hj))
    as ([] & m' & E & Hw & _).
  exists m'. split; [exact E|]. split; [exact Hw|].
  assert (after (transaction_delete_job 13 true) m0 all_jobs [] = [12]) as C
    by (vm_compute; reflexivity).
  unfold after in C. by rewrite E in C.
Defined.
End examples.
