(* ===== verification/AddSpec.v ===== *)
(** * What a filled transaction holds (TransactionAdd.v)

    With enough memory, [transaction_add_job_and_dependencies] returns for
    every system of units, cyclic dependencies included, keeps the engine
    consistent and only adds.  When all units are loaded, every job it added
    is complete: for each of its pulls, the units in question have a job of
    the type the pull asks for, linked to it. *)

From stdpp Require Import base gmap strings list fin_maps.
From Stdlib Require Import ZArith Lia.
From S2P Require Import Prelude CString JobType OrderedMap Engine Transaction TransactionAdd Links Wf WfCheck Passes Installed.

Section add_spec.
Context {P : Type} `{UnitVTableLaws P}.
Abbreviation MM := (M (Manager P)).
Implicit Types m : Manager P.

(** ** The invariant while something is added *)

Definition new_job (u : UnitPtr) (t : JobType) (id : Z) : Job := {|
  j_unit := u; subject_list := []; object_list := []; marker := None; generation := 0;
  j_id := id; j_type := t; j_state := JOB_WAITING; timer_watch := false;
  j_result := JOB_DONE; installed := false; in_run_queue := false;
  matters_to_anchor := false; override := false; in_dbus_queue := false;
  ignore_order := false |}.
Definition with_new_job (u : UnitPtr) (t : JobType) m : Manager P :=
  m <| current_job_id := u32 (current_job_id m + 1) |> <| next_ptr ::= S |>
    <| job_heap ::= <[next_ptr m := new_job u t (current_job_id m)]> |>.

Lemma fresh_job m : wf [] m → job_heap m !! next_ptr m = None.
Proof.
  intros [Hc _]. destruct (wc_ptr _ _ Hc) as [Hp _].
  destruct (job_heap m !! next_ptr m) as [J|] eqn:E; [|done].
  assert (is_Some (eheap m !! next_ptr m)) as Hs by (apply eheap_live; eauto).
  apply Hp in Hs. lia.
Qed.
Lemma fresh_dep m : wf [] m → dep_heap m !! next_ptr m = None.
Proof.
  intros [Hc _]. destruct (wc_ptr _ _ Hc) as [_ Hp].
  destruct (dep_heap m !! next_ptr m) as [J|] eqn:E; [|done].
  assert (next_ptr m < next_ptr m) by (apply Hp; eauto). lia.
Qed.

Lemma eheap_new_job u t m :
  eheap (with_new_job u t m) = <[next_ptr m := new_job u t (current_job_id m)]> (eheap m).
Proof. unfold eheap; simpl. by rewrite fmap_insert. Qed.

Lemma wf_new_job m u t : wf [] m → is_Some (units m !! u) → wf [next_ptr m] (with_new_job u t m).
Proof.
  intros Hwf [U HU]. pose proof (fresh_job m Hwf) as Hf. destruct Hwf as [[Cu Cj Cjs Ct Cr Cd Cp] Hl].
  assert (eheap m !! next_ptr m = None) as Hfe by (unfold eheap; by rewrite lookup_fmap, Hf).
  assert (∀ j J, eheap m !! j = Some J → eheap (with_new_job u t m) !! j = Some J) as Hold.
  { intros j J HJ. rewrite eheap_new_job, lookup_insert_ne; [done|]. intros <-. congruence. }
  split; [split|].
  - intros v V HV. destruct (Cu v V HV) as (? & ? & Hj). split_and!; [done..|].
    intros j Ej. destruct (Hj j Ej) as (J & HJ & ?). exists J. auto.
  - intros j J. rewrite eheap_new_job. intros [[<- <-]|[_ HJ]]%lookup_insert_Some.
    + exists U. split; [done|]. simpl. split_and!; [right; left|done..].
    + destruct (Cj j J HJ) as (V & HV & Hk). exists V. split; [done|].
      destruct (installed J); [done|]. destruct Hk as ([?|[]%elem_of_nil] & ? & ?). auto.
  - destruct Cjs as [? Hk]. split; [done|]. intros id j Hin.
    destruct (Hk id j Hin) as (J & HJ & ?). exists J. auto.
  - destruct Ct as [? Hk]. split; [done|]. intros v l Hin. destruct (Hk v l Hin) as (? & ? & Hj).
    split_and!; [done..|]. intros j Hjl. destruct (Hj j Hjl) as (J & HJ & ?). exists J. auto.
  - destruct Cr as [? Hk]. split; [done|]. intros j. rewrite Hk, eheap_new_job. split.
    + intros (J & HJ & ?). exists J. rewrite <- eheap_new_job. auto.
    + intros (J & [[_ <-]|[_ HJ]]%lookup_insert_Some & Hr); [done|eauto].
  - destruct Cd as [? Hk]. split; [done|]. intros j. rewrite Hk, eheap_new_job. split.
    + intros (J & HJ & ?). exists J. rewrite <- eheap_new_job. auto.
    + intros (J & [[_ <-]|[_ HJ]]%lookup_insert_Some & Hr); [done|eauto].
  - destruct Cp as [Hp Hq]. split.
    + intros j [J HJ]. rewrite eheap_new_job in HJ. simpl.
      apply lookup_insert_Some in HJ as [[<- _]|[_ HJ]]; [lia|].
      assert (j < next_ptr m) by (apply Hp; eauto). lia.
    + intros d Hd. simpl. assert (d < next_ptr m) by (by apply Hq). lia.
  - destruct Hl as [H1 H2 H3].
    assert (∀ s ds, subjects_of m s = Some ds → subjects_of (with_new_job u t m) s = Some ds) as Es.
    { intros [j|] ds; simpl; [|done]. intros E. rewrite lookup_insert_ne; [done|].
      intros <-. by rewrite Hf in E. }
    assert (∀ j ds, objects_of m j = Some ds → objects_of (with_new_job u t m) j = Some ds) as Eo.
    { intros j ds. unfold objects_of; simpl. intros E. rewrite lookup_insert_ne; [done|].
      intros <-. by rewrite Hf in E. }
    split.
    + intros d l Hd. destruct (H1 d l Hd) as [(ds & ? & ?) (os & ? & ?)]. split; eauto.
    + intros [j|] ds; simpl; [|by apply (H2 None)].
      destruct (decide (j = next_ptr m)) as [->|Hne].
      * rewrite lookup_insert_eq. intros [= <-]. split; [constructor|by intros ? ?%elem_of_nil].
      * rewrite lookup_insert_ne by done. apply (H2 (Some j)).
    + intros j ds. unfold objects_of; simpl. destruct (decide (j = next_ptr m)) as [->|Hne].
      * rewrite lookup_insert_eq. intros [= <-]. split; [constructor|by intros ? ?%elem_of_nil].
      * rewrite lookup_insert_ne by done. apply (H3 j).
Qed.

(** A job at the head of its unit's chain. *)
Definition with_head (u : UnitPtr) (j : JobPtr) m : Manager P :=
  m <| transaction_jobs ::= λ tj, om_replace tj u (j :: chain_of u m) |>.

Lemma chain_with_head u j m v :
  chain_of v (with_head u j m) = if decide (u = v) then j :: chain_of u m else chain_of v m.
Proof.
  unfold chain_of at 1; simpl. rewrite om_get_replace. by case_decide.
Qed.

Lemma wf_with_head X m u j J :
  wf X m → eheap m !! j = Some J → j_unit J = u → j ∉ chain_of u m → X ⊆ [j] →
  wf [] (with_head u j m).
Proof.
  intros [Hc Hl] HJ Hu Hj HX. pose proof (chain_NoDup X m u Hc) as Hnd.
  pose proof (λ k, chain_live X m u k Hc) as Hlive.
  destruct Hc as [Cu Cj Cjs [Ct1 Ct2] Cr Cd Cp]. split; [split; try done|by destruct Hl; split].
  - intros k K HK. change (eheap m !! k = Some K) in HK.
    destruct (Cj k K HK) as (V & HV & Hk). exists V. split; [done|].
    destruct (installed K); [done|]. destruct Hk as (Hin & ?). split; [left|done].
    rewrite chain_with_head. destruct Hin as [Hin|Hin].
    + case_decide as E; [|done]. right. by rewrite E.
    + apply HX, list_elem_of_singleton in Hin as ->. rewrite HJ in HK. injection HK as <-.
      rewrite decide_True by done. left.
  - split; [by apply om_wf_replace|]. intros v l Hin. simpl in Hin.
    apply om_elem_get in Hin; [|by apply om_wf_replace]. rewrite om_get_replace in Hin.
    case_decide as E.
    + injection Hin as <-. subst v. split_and!; [done|by constructor|].
      intros k [->|Hk]%elem_of_cons; [by exists J|by apply Hlive].
    + by apply Ct2, om_get_Some_elem.
Qed.

(** A link from [s] to [o]. *)
Definition link_heap (d : DepPtr) (s : option JobPtr) (o : JobPtr) (h : gmap JobPtr Job) : gmap JobPtr Job :=
  alter (λ J, J <| object_list ::= cons d |>) o
    (match s with Some k => alter (λ J, J <| subject_list ::= cons d |>) k h | None => h end).
Definition with_link (s : option JobPtr) (o : JobPtr) (mt cf : bool) m : Manager P :=
  m <| job_heap ::= link_heap (next_ptr m) s o |>
    <| transaction_anchor ::= λ a, match s with Some _ => a | None => next_ptr m :: a end |>
    <| dep_heap ::= <[next_ptr m := mkJobDependency s o mt cf]> |> <| next_ptr ::= S |>.

Lemma link_heap_lookup d s o h j :
  link_heap d s o h !! j = (λ J, mkJob (j_unit J)
    (if decide (s = Some j) then d :: subject_list J else subject_list J)
    (if decide (o = j) then d :: object_list J else object_list J)
    (marker J) (generation J) (j_id J) (j_type J) (j_state J) (timer_watch J) (j_result J)
    (installed J) (in_run_queue J) (matters_to_anchor J) (override J) (in_dbus_queue J)
    (ignore_order J)) <$> h !! j.
Proof.
  unfold link_heap. rewrite lookup_alter_if. destruct s as [k|].
  - rewrite lookup_alter_if. destruct (h !! j) as [J|]; [|done]. simpl. f_equal.
    destruct J; unfold upd; simpl.
    repeat case_decide; simplify_eq; simpl; congruence || done.
  - destruct (h !! j) as [J|]; [|done]. simpl. f_equal. destruct J; unfold upd; simpl.
    by case_decide.
Qed.

Lemma job_dependency_new_eq m s o mt cf :
  wf [] m → oom m = [] → is_Some (job_heap m !! o) →
  (∀ k, s = Some k → is_Some (job_heap m !! k)) →
  job_dependency_new s o mt cf m = Ret (Some (next_ptr m)) (with_link s o mt cf m).
Proof.
  intros Hwf Hoom [O HO] Hs. unfold job_dependency_new.
  rewrite (bind_ret _ _ m true m) by (unfold alloc; by rewrite Hoom). cbn [negb].
  erewrite bind_ret by reflexivity. erewrite bind_ret by reflexivity.
  set (m1 := m <| next_ptr ::= S |> <| dep_heap ::= <[next_ptr m := mkJobDependency s o mt cf]> |>).
  destruct s as [k|].
  - destruct (Hs k eq_refl) as [K HK].
    erewrite bind_ret by by apply (update_job_eq k _ m1 K).
    assert (is_Some (alter (λ J, J <| subject_list ::= cons (next_ptr m) |>) k (job_heap m) !! o)) as [O' HO']
      by (apply lookup_alter_is_Some; eauto).
    erewrite bind_ret by by apply (update_job_eq o _ _ O').
    reflexivity.
  - erewrite bind_ret by reflexivity.
    erewrite bind_ret by by apply (update_job_eq o _ _ O).
    reflexivity.
Qed.

Lemma subjects_with_link m s o mt cf k :
  subjects_of (with_link s o mt cf m) k =
    (λ ds, if decide (s = k) then next_ptr m :: ds else ds) <$> subjects_of m k.
Proof.
  destruct k as [k|]; simpl.
  - rewrite link_heap_lookup. destruct (job_heap m !! k); done.
  - f_equal. destruct s; [by rewrite decide_False|by rewrite decide_True].
Qed.
Lemma objects_with_link m s o mt cf k :
  objects_of (with_link s o mt cf m) k =
    (λ ds, if decide (o = k) then next_ptr m :: ds else ds) <$> objects_of m k.
Proof. unfold objects_of; simpl. rewrite link_heap_lookup. by destruct (job_heap m !! k). Qed.

Lemma wf_with_link m s o mt cf :
  wf [] m → is_Some (job_heap m !! o) → (∀ k, s = Some k → is_Some (job_heap m !! k)) →
  wf [] (with_link s o mt cf m).
Proof.
  intros Hwf [O HO] Hs. pose proof (fresh_dep m Hwf) as Hf. destruct Hwf as [Hc [H1 H2 H3]].
  set (m' := with_link s o mt cf m).
  assert (is_Some (subjects_of m s)) as [ss Hss].
  { destruct s as [k|]; [|by eexists]. destruct (Hs k eq_refl) as [K HK]. simpl. rewrite HK. by eexists. }
  assert (is_Some (objects_of m o)) as [os Hos] by (unfold objects_of; rewrite HO; by eexists).
  split.
  { apply (wf_core_frame [] m); [|done]. split; try done; simpl; [lia| |].
    - intros d. rewrite lookup_insert_is_Some. intros [<-|[_ ?]]; [right; lia|by left].
    - unfold eheap. apply map_eq. intros j. rewrite !lookup_fmap. unfold m'; simpl.
      rewrite link_heap_lookup. by destruct (job_heap m !! j). }
  split.
  - intros d l. unfold m'; simpl. intros [[<- <-]|[Hne Hd]]%lookup_insert_Some.
    + simpl. unfold m'. rewrite subjects_with_link, objects_with_link, Hss, Hos.
      split; (eexists; split; [done|]); rewrite decide_True by done; left.
    + destruct (H1 d l Hd) as [(ds & Eds & Hin) (es & Ees & Hin')].
      unfold m'. rewrite subjects_with_link, objects_with_link, Eds, Ees.
      split; (eexists; split; [done|]); case_decide; [by right|done|by right|done].
  - intros k ds. unfold m'. rewrite subjects_with_link. simpl. intros (ds0 & Eds & ->)%fmap_Some.
    destruct (H2 k ds0 Eds) as [Hnd Hds].
    assert (∀ d, d ∈ ds0 → ∃ l, <[next_ptr m := mkJobDependency s o mt cf]> (dep_heap m) !! d = Some l ∧ subject l = k) as Hds'.
    { intros d Hd. destruct (Hds d Hd) as (l & Hl & ?). exists l. split; [|done].
      rewrite lookup_insert_ne; [done|]. intros <-. congruence. }
    case_decide as Hk; [|by split]. split.
    + constructor; [|done]. intros Hin. destruct (Hds _ Hin) as (l & Hl & _). congruence.
    + intros d [->|Hd]%elem_of_cons; [|auto]. rewrite lookup_insert_eq. eauto.
  - intros k ds. unfold m'. rewrite objects_with_link. simpl. intros (ds0 & Eds & ->)%fmap_Some.
    destruct (H3 k ds0 Eds) as [Hnd Hds].
    assert (∀ d, d ∈ ds0 → ∃ l, <[next_ptr m := mkJobDependency s o mt cf]> (dep_heap m) !! d = Some l ∧ object l = k) as Hds'.
    { intros d Hd. destruct (Hds d Hd) as (l & Hl & ?). exists l. split; [|done].
      rewrite lookup_insert_ne; [done|]. intros <-. congruence. }
    case_decide as Hk; [|by split]. split.
    + constructor; [|done]. intros Hin. destruct (Hds _ Hin) as (l & Hl & _). congruence.
    + intros d [->|Hd]%elem_of_cons; [|auto]. rewrite lookup_insert_eq. eauto.
Qed.

(** ** Adding only adds *)

(** All but the jobs, the links, the transaction and the counters. *)
Definition rest_add m : Manager P :=
  m <| job_heap := ∅ |> <| dep_heap := ∅ |> <| transaction_jobs := [] |>
    <| transaction_anchor := [] |> <| next_ptr := 0 |> <| current_job_id := 0%Z |>.

Record grows m m' : Prop := {
  gr_rest : rest_add m' = rest_add m;
  gr_chain : ∀ u, ∃ l, chain_of u m' = l ++ chain_of u m;
  gr_deps : dep_heap m ⊆ dep_heap m';
  gr_job : ∀ j J, job_heap m !! j = Some J → ∃ J', job_heap m' !! j = Some J' ∧
    j_unit J' = j_unit J ∧ j_type J' = j_type J ∧ installed J' = installed J ∧
    (j ∈ chain_of (j_unit J) m → override J' = override J);
  gr_fixed : ∀ j J, job_heap m !! j = Some J → ∃ J', job_heap m' !! j = Some J' ∧
    j_id J' = j_id J ∧ j_state J' = j_state J }.

Lemma grows_in m m' u j : grows m m' → j ∈ chain_of u m → j ∈ chain_of u m'.
Proof. intros Hg Hj. destruct (gr_chain _ _ Hg u) as [l ->]. apply elem_of_app. by right. Qed.

#[global] Instance grows_preorder : PreOrder grows.
Proof.
  split.
  - intros m. split; [done|by exists []|done| |]; intros j J ?; by exists J.
  - intros m1 m2 m3 G1 G2. split.
    + by rewrite (gr_rest _ _ G2), (gr_rest _ _ G1).
    + intros u. destruct (gr_chain _ _ G1 u) as [l1 E1], (gr_chain _ _ G2 u) as [l2 E2].
      exists (l2 ++ l1). by rewrite E2, E1, app_assoc.
    + etrans; [apply G1|apply G2].
    + intros j J HJ. destruct (gr_job _ _ G1 j J HJ) as (J2 & HJ2 & U2 & T2 & I2 & O2).
      destruct (gr_job _ _ G2 j J2 HJ2) as (J3 & HJ3 & U3 & T3 & I3 & O3).
      exists J3. split_and!; [done|congruence..|]. intros Hj. rewrite O3, O2; [done..|].
      rewrite U2. by apply (grows_in m1 m2).
    + intros j J HJ. destruct (gr_fixed _ _ G1 j J HJ) as (J2 & HJ2 & I2 & S2).
      destruct (gr_fixed _ _ G2 j J2 HJ2) as (J3 & HJ3 & I3 & S3). exists J3. split_and!; congruence.
Qed.

Lemma grows_units m m' : grows m m' → units m' = units m.
Proof. intros Hg. exact (f_equal units (gr_rest _ _ Hg)). Qed.
Lemma grows_oom m m' : grows m m' → oom m' = oom m.
Proof. intros Hg. exact (f_equal oom (gr_rest _ _ Hg)). Qed.

(** *** The numbers and the colours of the jobs *)

Definition aged (K K' : Job) : Prop :=
  j_id K' = j_id K ∧ (generation K' = generation K ∧ marker K' = marker K ∨ generation K' = 0%Z).
(** [m'] has no job that [m] has not. *)
Definition same_ids m m' : Prop :=
  current_job_id m' = current_job_id m ∧
  ∀ k K', job_heap m' !! k = Some K' → ∃ K, job_heap m !! k = Some K ∧ aged K K'.
(** [m'] has one more, with the next number. *)
Definition next_id m m' : Prop :=
  current_job_id m' = u32 (current_job_id m + 1) ∧
  ∃ j, job_heap m !! j = None ∧ ∀ k K', job_heap m' !! k = Some K' →
    if decide (k = j) then j_id K' = current_job_id m ∧ generation K' = 0%Z
    else ∃ K, job_heap m !! k = Some K ∧ aged K K'.

Lemma aged_trans K1 K2 K3 : aged K1 K2 → aged K2 K3 → aged K1 K3.
Proof. intros [E1 G1] [E2 G2]. split; [congruence|]. destruct G2 as [[-> ->]| ->]; auto. Qed.
Lemma same_ids_refl m : same_ids m m.
Proof. split; [done|]. intros k K' ?. exists K'. by split; [|split; [|left]]. Qed.
Lemma same_ids_trans m1 m2 m3 : same_ids m1 m2 → same_ids m2 m3 → same_ids m1 m3.
Proof.
  intros [E1 H1] [E2 H2]. split; [congruence|]. intros k K3 HK3.
  destruct (H2 k K3 HK3) as (K2 & HK2 & ?). destruct (H1 k K2 HK2) as (K1 & HK1 & ?).
  exists K1. split; [done|by eapply aged_trans].
Qed.
Lemma next_id_trans m1 m2 m3 : next_id m1 m2 → same_ids m2 m3 → next_id m1 m3.
Proof.
  intros [E1 (j & Hj & H1)] [E2 H2]. split; [congruence|]. exists j. split; [done|]. intros k K3 HK3.
  destruct (H2 k K3 HK3) as (K2 & HK2 & Hag). specialize (H1 k K2 HK2). case_decide.
  - destruct H1 as [E G], Hag as [E' G']. split; [congruence|]. destruct G' as [[-> _]| ->]; done.
  - destruct H1 as (K1 & HK1 & ?). exists K1. split; [done|by eapply aged_trans].
Qed.
Lemma same_ids_alter m j (f : Job → Job) :
  (∀ J, aged J (f J)) → same_ids m (m <| job_heap ::= alter f j |>).
Proof.
  intros Hf. split; [done|]. intros k K'. simpl. rewrite lookup_alter_if. intros (K & HK & ->)%fmap_Some.
  exists K. split; [done|]. case_decide; [done|]. by split; [|left].
Qed.
Lemma same_ids_link m s o mt cf : same_ids m (with_link s o mt cf m).
Proof.
  split; [by destruct s|]. intros k K'. simpl. rewrite link_heap_lookup. intros (K & HK & ->)%fmap_Some.
  exists K. split; [done|]. by split; [|left].
Qed.
Lemma next_id_new m u t : wf [] m → next_id m (with_new_job u t m).
Proof.
  intros Hwf. split; [done|]. exists (next_ptr m). split; [by apply fresh_job|]. intros k K'. simpl.
  case_decide as Hk; [subst; rewrite lookup_insert_eq; by intros [= <-]|].
  rewrite lookup_insert_ne by done. intros ?. exists K'. split; [done|]. by split; [|left].
Qed.

(** ** One job *)

Definition has_type m (u : UnitPtr) (t : JobType) : bool :=
  existsb (λ j, match job_heap m !! j with
                | Some J => bool_decide (j_type J = t)
                | None => false
                end) (chain_of u m).

Lemma has_type_true m u t :
  has_type m u t = true ↔ ∃ j J, j ∈ chain_of u m ∧ job_heap m !! j = Some J ∧ j_type J = t.
Proof.
  unfold has_type. rewrite existsb_exists. split.
  - intros (j & Hj%list_elem_of_In & Hb). destruct (job_heap m !! j) as [J|] eqn:HJ; [|done].
    apply bool_decide_eq_true in Hb. eauto.
  - intros (j & J & Hj & HJ & Ht). exists j. split; [by apply list_elem_of_In|].
    rewrite HJ. by apply bool_decide_eq_true.
Qed.

(** The job [j] that stands for [t] on [u], and whether it came just now. *)
Record one_job (t : JobType) (u : UnitPtr) (ovr : bool) (j : JobPtr) (new : bool) m m' : Prop := {
  oj_wf : wf [] m';
  oj_grows : grows m m';
  oj_deps : dep_heap m' = dep_heap m;
  oj_job : ∃ J', job_heap m' !! j = Some J' ∧ j_unit J' = u ∧ j_type J' = t ∧
    (new = true → override J' = ovr);
  oj_chain : chain_of u m' = if new then j :: chain_of u m else chain_of u m;
  oj_others : ∀ v, v ≠ u → chain_of v m' = chain_of v m;
  oj_in : j ∈ chain_of u m';
  oj_new : if new then (j ∉ chain_of u m) ∧ has_type m u t = false else m' = m;
  oj_ids : if new then same_ids m m' ∨ next_id m m' else True;
  oj_entered : new = true → ∀ J', job_heap m' !! j = Some J' → generation J' = 0%Z }.

Lemma find_type_reads m u t :
  wf [] m →
  ∃ o, reads (find_job (chain_of u m) (λ j, J ← job_at j; assert_ (bool_decide (j_unit J = u));;
                       mret (bool_decide (j_type J = t)))) m o ∧
    match o with
    | Some j => j ∈ chain_of u m ∧ ∃ J, job_heap m !! j = Some J ∧ j_unit J = u ∧ j_type J = t
    | None => has_type m u t = false
    end.
Proof.
  intros Hwf. set (test := λ j, J ← job_at j; assert_ (bool_decide (j_unit J = u));;
    mret (bool_decide (j_type J = t)) : MM bool).
  assert (∀ j, j ∈ chain_of u m → ∃ J, job_heap m !! j = Some J ∧ j_unit J = u ∧
    reads (test j) m (bool_decide (j_type J = t))) as Htest.
  { intros j Hj. destruct (chain_jobs m u j Hwf Hj) as (_ & J & HJ & Hu). exists J.
    split_and!; [done..|]. eapply reads_bind; [by apply reads_job|].
    eapply reads_bind; [unfold assert_; by rewrite bool_decide_true|done]. }
  destruct (find_job_spec (chain_of u m) test m) as (o & Ho & Hres).
  { intros j Hj. destruct (Htest j Hj) as (J & _ & _ & ?). eauto. }
  exists o. split; [done|]. destruct o as [j|].
  - destruct Hres as [Hj Ht]. split; [done|]. destruct (Htest j Hj) as (J & HJ & Hu & Hr).
    exists J. split_and!; [done..|]. unfold reads in *. rewrite Hr in Ht. injection Ht as Ht.
    by apply bool_decide_eq_true in Ht.
  - apply not_true_iff_false. intros (j & J & Hj & HJ & Ht)%has_type_true.
    destruct (Htest j Hj) as (J' & HJ' & _ & Hr). rewrite HJ in HJ'. injection HJ' as <-.
    pose proof (Hres j Hj) as Hf. unfold reads in *. rewrite Hr in Hf. injection Hf as Hf.
    apply bool_decide_eq_false in Hf. done.
Qed.

(** What is done to a job that enters the transaction. *)
Definition enter (ovr : bool) (J : Job) : Job :=
  J <| generation := 0%Z |> <| marker := None |> <| matters_to_anchor := false |>
    <| override := ovr |>.

(** A job that is live, off the chain, and enters it. *)
Lemma enter_spec X m0 m u t ovr j J :
  wf X m → X ⊆ [j] → job_heap m !! j = Some J → j_unit J = u → j_type J = t →
  j ∉ chain_of u m → (∀ v, chain_of v m0 = chain_of v m) → has_type m0 u t = false →
  dep_heap m0 = dep_heap m → rest_add m = rest_add m0 →
  (∀ k K, job_heap m0 !! k = Some K → job_heap m !! k = Some K) → same_ids m0 m ∨ next_id m0 m →
  one_job t u ovr j true m0 (with_head u j (m <| job_heap ::= alter (enter ovr) j |>)).
Proof.
  intros Hwf HX HJ Hu Ht Hj Hch Hno Hd Hr Hold Hids.
  set (m1 := m <| job_heap ::= alter (enter ovr) j |>).
  assert (same_core m m1) as Hc by by apply same_core_update.
  assert (wf X m1) as Hw1 by (by rewrite <- Hc).
  assert (job_heap m1 !! j = Some (enter ovr J)) as HJ1.
  { unfold m1; simpl. by rewrite lookup_alter_eq, HJ. }
  assert (wf [] (with_head u j m1)) as Hw2.
  { apply (wf_with_head X m1 u j (erase_lists (enter ovr J))); try done.
    apply eheap_Some; eauto. }
  assert (∀ v, chain_of v (with_head u j m1) = if decide (u = v) then j :: chain_of u m0 else chain_of v m0) as Hch2.
  { intros v. rewrite chain_with_head. change (chain_of u m1) with (chain_of u m).
    change (chain_of v m1) with (chain_of v m). by rewrite !Hch. }
  split.
  - done.
  - split.
    + by rewrite <- Hr.
    + intros v. rewrite Hch2. case_decide; [subst; by exists [j]|by exists []].
    + by rewrite Hd.
    + intros k K HK. pose proof (Hold k K HK) as HK1. unfold m1; simpl. rewrite lookup_alter_if, HK1.
      simpl. eexists. split; [done|]. case_decide as Ek; [|done]. subst k.
      rewrite HJ in HK1. injection HK1 as <-. split_and!; [done..|].
      rewrite Hu, Hch. done.
    + intros k K HK. pose proof (Hold k K HK) as HK1. unfold m1; simpl. rewrite lookup_alter_if, HK1.
      simpl. eexists. split; [done|]. by case_decide.
  - by rewrite Hd.
  - exists (enter ovr J). split_and!; [done|done|done|done].
  - rewrite Hch2. by rewrite decide_True.
  - intros v Hv. rewrite Hch2. by rewrite decide_False.
  - rewrite Hch2, decide_True by done. left.
  - split; [by rewrite Hch|done].
  - assert (same_ids m (with_head u j m1)) as Hs.
    { apply (same_ids_alter m j (enter ovr)). intros K. by split; [|right]. }
    destruct Hids; [left; by eapply same_ids_trans|right; by eapply next_id_trans].
  - intros _ J' HJ'. change (job_heap m1 !! j = Some J') in HJ'. rewrite HJ1 in HJ'. by injection HJ' as <-.
Qed.

Lemma add_one_job_spec m t u ovr :
  wf [] m → oom m = [] → is_Some (units m !! u) →
  wp (transaction_add_one_job t u ovr) m (λ o m', ∃ j new, o = Some (j, new) ∧
    one_job t u ovr j new m m').
Proof.
  intros Hwf Hoom [U HU]. unfold transaction_add_one_job. wp_step. wp_step.
  destruct (find_type_reads m u t Hwf) as (o & Ho & Hres).
  wp_step. eapply reads_wp; [exact Ho|]. destruct o as [j|].
  { destruct Hres as (Hj & J & HJ & Hu & Ht). wp_step. exists j, false. split; [done|].
    split; try done. exists J. done. }
  wp_step. eapply wp_unit_at; [done|].
  assert (∀ j m1 X J, wf X m1 → X ⊆ [j] → job_heap m1 !! j = Some J → j_unit J = u → j_type J = t →
    j ∉ chain_of u m1 → (∀ v, chain_of v m = chain_of v m1) →
    dep_heap m = dep_heap m1 → rest_add m1 = rest_add m →
    (∀ k K, job_heap m !! k = Some K → job_heap m1 !! k = Some K) → same_ids m m1 ∨ next_id m m1 →
    wp (update_job j (enter ovr);;
        ok ← match chain_of u m with [] => alloc | _ => mret true end;
        if negb ok then job_free j;; mret None else
        modify (λ m0, m0 <| transaction_jobs ::= λ tj, om_replace tj u (j :: chain_of u m) |>);;
        mret (Some (j, true))) m1 (λ o m', ∃ j new, o = Some (j, new) ∧ one_job t u ovr j new m m')) as Hend.
  { intros j m1 X J Hw1 HX HJ Hu Ht Hj Hch Hd Hr Hold Hids.
    wp_step. eapply wp_intro; [by apply (update_job_eq _ _ _ J)|].
    set (m2 := m1 <| job_heap ::= alter (enter ovr) j |>).
    wp_step. eapply (wp_intro _ _ true m2).
    { destruct (chain_of u m); [|done]. unfold alloc.
      assert (oom m2 = []) as -> by (rewrite <- Hoom; exact (f_equal oom Hr)). done. }
    cbn [negb]. wp_step. wp_step. wp_step. exists j, true. split; [done|].
    rewrite (Hch u). by apply (enter_spec X m m1 u t ovr j J). }
  destruct (wc_unit _ _ (proj1 Hwf) u U HU) as (_ & _ & Hjob).
  wp_step. eapply (reads_wp _ _ (match u_job U with
    | Some k => match job_heap m !! k with
                | Some K => if bool_decide (j_type K = t) then Some k else None
                | None => None
                end
    | None => None end)).
  { destruct (u_job U) as [k|]; [|done]. destruct (Hjob k eq_refl) as (K' & HK' & _).
    apply eheap_Some in HK' as (K & HK & _). rewrite HK.
    eapply reads_bind; [by apply reads_job|done]. }
  set (reuse := match u_job U with Some k => _ | None => _ end).
  assert (∀ k, reuse = Some k → ∃ K, job_heap m !! k = Some K ∧ j_unit K = u ∧ j_type K = t) as Hreuse.
  { intros k. unfold reuse. destruct (u_job U) as [k'|]; [|done].
    destruct (Hjob k' eq_refl) as (K' & HK' & Hu & _). apply eheap_Some in HK' as (K & HK & ->).
    rewrite HK. case_bool_decide; intros [= <-]. eauto. }
  clearbody reuse. wp_step. destruct reuse as [k|].
  - destruct (Hreuse k eq_refl) as (K & HK & Hu & Ht). wp_step. apply (Hend k m [] K); try done.
    + by intros ? ?%elem_of_nil.
    + intros Hin. apply not_true_iff_false in Hres. apply Hres, has_type_true. by exists k, K.
    + left. apply same_ids_refl.
  - pose proof (fresh_job m Hwf) as Hf.
    eapply (wp_intro _ _ (Some (next_ptr m)) (with_new_job u t m)).
    { unfold job_new, alloc. rewrite (bind_ret _ _ m true m) by (by rewrite Hoom). done. }
    apply (Hend (next_ptr m) _ [next_ptr m] (new_job u t (current_job_id m))); try done.
    + by apply wf_new_job.
    + simpl. by rewrite lookup_insert_eq.
    + intros Hin. destruct (chain_jobs m u _ Hwf Hin) as (_ & J & HJ & _). congruence.
    + intros j J HJ. simpl. rewrite lookup_insert_ne; [done|]. intros <-. congruence.
    + right. by apply next_id_new.
Qed.

Lemma grows_type m m' u t : grows m m' → wf [] m → has_type m u t = true → has_type m' u t = true.
Proof.
  intros Hg Hwf (j & J & Hj & HJ & Ht)%has_type_true. apply has_type_true.
  destruct (gr_job _ _ Hg j J HJ) as (J' & HJ' & _ & Ht' & _). exists j, J'.
  split_and!; [by apply (grows_in m)|done|congruence].
Qed.

Lemma grows_job_update m j (f : Job → Job) :
  (∀ J, j_unit (f J) = j_unit J ∧ j_type (f J) = j_type J ∧ installed (f J) = installed J ∧
    override (f J) = override J ∧ j_id (f J) = j_id J ∧ j_state (f J) = j_state J) →
  grows m (m <| job_heap ::= alter f j |>).
Proof.
  intros Hf. split; [done|by exists []|done| |]; intros k K HK; simpl; rewrite lookup_alter_if, HK; simpl;
    (eexists; split; [done|]); (case_decide; [|done]); by destruct (Hf K) as (? & ? & ? & ? & ? & ?).
Qed.

Lemma grows_with_link m s o mt cf : wf [] m → grows m (with_link s o mt cf m).
Proof.
  intros Hwf. pose proof (fresh_dep m Hwf) as Hf. split; [by destruct s|by exists []| | |].
  - simpl. by apply insert_subseteq.
  - intros k K HK. simpl. rewrite link_heap_lookup, HK. simpl. by eexists.
  - intros k K HK. simpl. rewrite link_heap_lookup, HK. simpl. by eexists.
Qed.

(** ** The measure of the recursion *)

Definition all_job_types : list JobType :=
  [JOB_START; JOB_VERIFY_ACTIVE; JOB_STOP; JOB_RELOAD; JOB_RELOAD_OR_START; JOB_RESTART; JOB_TRY_RESTART].

(** The units and types that the transaction has no job for. *)
Definition missing m : nat :=
  length (filter (λ '(u, t), has_type m u t = false)
    (list_prod (map_to_list (units m)).*1 all_job_types)).

Lemma missing_bound m : missing m ≤ 7 * size (units m).
Proof.
  unfold missing. etrans; [apply length_filter|].
  rewrite length_prod, length_fmap, length_map_to_list. simpl. lia.
Qed.

Lemma filter_length_lt {A} (Q R : A → Prop) `{∀ x, Decision (Q x)} `{∀ x, Decision (R x)} (l : list A) x :
  (∀ y, y ∈ l → R y → Q y) → x ∈ l → Q x → ¬ R x → length (filter R l) < length (filter Q l).
Proof.
  intros HRQ Hx HQ HR. apply sublist_lost with x.
  - clear Hx HQ HR. induction l as [|y l IH]; [done|].
    assert (sublist (filter R l) (filter Q l)) as Hs by (apply IH; intros; apply HRQ; [by right|done]).
    rewrite !filter_cons. destruct (decide (R y)) as [Hr|]; destruct (decide (Q y)) as [|Hq].
    + by constructor.
    + destruct Hq. apply HRQ; [left|done].
    + by constructor.
    + done.
  - by apply list_elem_of_filter.
  - rewrite list_elem_of_filter. tauto.
Qed.

Lemma missing_grows m m' : wf [] m → grows m m' → missing m' ≤ missing m.
Proof.
  intros Hwf Hg. unfold missing. rewrite (grows_units _ _ Hg).
  apply sublist_length. set (l := list_prod _ _). clearbody l.
  induction l as [|[u t] l IH]; [done|]. rewrite !filter_cons.
  repeat case_decide; [by constructor| |by constructor|done].
  exfalso. destruct (has_type m u t) eqn:E; [|done].
  rewrite (grows_type m m') in *; done.
Qed.

Lemma missing_new m m' u t :
  wf [] m → grows m m' → is_Some (units m !! u) → has_type m u t = false → has_type m' u t = true →
  missing m' < missing m.
Proof.
  intros Hwf Hg [U HU] Ho Hn. unfold missing. rewrite (grows_units _ _ Hg).
  apply filter_length_lt with (u, t).
  - intros [v t'] _ Hv. destruct (has_type m v t') eqn:E; [|done].
    by rewrite (grows_type m m' v t') in Hv.
  - apply list_elem_of_In, in_prod; apply list_elem_of_In.
    + apply list_elem_of_fmap. exists (u, U). split; [done|by apply elem_of_map_to_list].
    + unfold all_job_types. rewrite !elem_of_cons. destruct t; tauto.
  - done.
  - by rewrite Hn.
Qed.

(** ** Complete jobs *)

(** ** Fresh for an activation *)

(** The links stay inside the transaction, no job of it has a colour, an installed job is not in the middle
    of a search for cycles, the jobs have different numbers and there are enough numbers for the jobs to come. *)
Record tidy m : Prop := {
  td_inside : inside m;
  td_unvisited : ∀ j J, job_heap m !! j = Some J → j ∈ all_jobs m → (generation J < 1)%Z;
  td_settled : ∀ j J, job_heap m !! j = Some J → (2 ≤ generation J)%Z → marker J = None;
  td_distinct : ∀ j k J K, job_heap m !! j = Some J → job_heap m !! k = Some K → j_id J = j_id K → j = k;
  td_ids : ∀ j J, job_heap m !! j = Some J → (0 ≤ j_id J < current_job_id m)%Z;
  td_room : (0 ≤ current_job_id m)%Z ∧ (current_job_id m + Z.of_nat (missing m) + 4 < 2 ^ 32)%Z }.

Lemma aged_unvisited K K' : aged K K' → (generation K < 1)%Z → (generation K' < 1)%Z.
Proof. intros [_ [[-> _]| ->]]; lia. Qed.
Lemma aged_settled K K' : aged K K' → ((2 ≤ generation K)%Z → marker K = None) → (2 ≤ generation K')%Z → marker K' = None.
Proof. intros [_ [[-> ->]| ->]]; [done|lia]. Qed.

Lemma tidy_step m m' :
  tidy m → inside m' →
  (∀ j J', job_heap m' !! j = Some J' → j ∈ all_jobs m' → j ∈ all_jobs m ∨ generation J' = 0%Z) →
  same_ids m m' ∧ missing m' ≤ missing m ∨ next_id m m' ∧ missing m' < missing m →
  tidy m'.
Proof.
  intros [_ Hu Hse Hd Hi [Hz Hr]] Hin Hnew [[[Ec Hs] Hm]|[[Ec (x & Hx & Hs)] Hm]].
  - split; [done| | | | |rewrite Ec; lia].
    + intros j J' HJ' Hj. destruct (Hnew j J' HJ' Hj) as [Hj'|]; [|lia].
      destruct (Hs j J' HJ') as (J & HJ & Ha). by eapply aged_unvisited; eauto.
    + intros j J' HJ'. destruct (Hs j J' HJ') as (J & HJ & Ha). by eapply aged_settled; eauto.
    + intros j k J' K' HJ' HK' E. destruct (Hs j J' HJ') as (J & HJ & [EJ _]), (Hs k K' HK') as (K & HK & [EK _]).
      apply (Hd j k J K); congruence.
    + intros j J' HJ'. destruct (Hs j J' HJ') as (J & HJ & [EJ _]). rewrite EJ, Ec. by apply (Hi j).
  - assert (current_job_id m' = current_job_id m + 1)%Z as Ec' by (rewrite Ec; unfold u32; rewrite Z.mod_small; lia).
    split; [done| | | | |rewrite Ec'; lia].
    + intros j J' HJ' Hj. destruct (Hnew j J' HJ' Hj) as [Hj'|]; [|lia].
      specialize (Hs j J' HJ'). case_decide; [lia|]. destruct Hs as (J & HJ & Ha). by eapply aged_unvisited; eauto.
    + intros j J' HJ'. specialize (Hs j J' HJ'). case_decide; [lia|]. destruct Hs as (J & HJ & Ha). by eapply aged_settled; eauto.
    + intros j k J' K' HJ' HK' E. pose proof (Hs j J' HJ') as H1. pose proof (Hs k K' HK') as H2.
      destruct (decide (j = x)) as [->|Hj], (decide (k = x)) as [->|Hk].
      * done.
      * destruct H1 as [E1 _], H2 as (K & HK & E2 & _). pose proof (Hi k K HK). lia.
      * destruct H2 as [E1 _], H1 as (K & HK & E2 & _). pose proof (Hi j K HK). lia.
      * destruct H1 as (J & HJ & E1 & _), H2 as (K & HK & E2 & _). apply (Hd j k J K); congruence.
    + intros j J' HJ'. specialize (Hs j J' HJ'). case_decide; [lia|]. destruct Hs as (J & HJ & E & _).
      pose proof (Hi j J HJ). lia.
Qed.

Lemma all_jobs_grows m m' j : wf [] m → wf [] m' → grows m m' → j ∈ all_jobs m → j ∈ all_jobs m'.
Proof.
  intros [Hc _] [Hc' _] Hg (J0 & HJ0 & Hj)%(elem_of_all_jobs [] m j Hc).
  apply eheap_Some in HJ0 as (J & HJ & ->). destruct (gr_job _ _ Hg j J HJ) as (J' & HJ' & Eu & _).
  apply (elem_of_all_jobs [] m' j Hc'). exists (erase_lists J'). split; [apply eheap_Some; by exists J'|].
  simpl in *. rewrite Eu. by apply (grows_in m).
Qed.

(** A new link between jobs of the transaction. *)
Lemma inside_link m m1 m2 s k mt cf :
  wf [] m → wf [] (with_link s k mt cf m2) → grows m (with_link s k mt cf m2) →
  dep_heap m1 = dep_heap m → dep_heap m2 = dep_heap m1 → 
  (∀ o, s = Some o → o ∈ all_jobs m) → k ∈ all_jobs (with_link s k mt cf m2) → inside m →
  inside (with_link s k mt cf m2).
Proof.
  intros Hw Hw' Hg Ed1 Ed2 Hs Hk Hin d l. simpl. rewrite Ed2, Ed1.
  intros [[<- <-]|[_ Hd]]%lookup_insert_Some; simpl.
  - split; [done|]. intros o Eo. by apply (all_jobs_grows m), Hs.
  - destruct (Hin d l Hd) as [H1 H2]. split; [by apply (all_jobs_grows m)|]. intros o Eo.
    apply (all_jobs_grows m); auto.
Qed.

(** A job of type [t] on [u], linked to the job [s] that asked for it. *)
Definition linked m (s : option JobPtr) (u : UnitPtr) (t : JobType) (mt cf : bool) : Prop :=
  ∃ d j J, dep_heap m !! d = Some (mkJobDependency s j mt cf) ∧ j ∈ chain_of u m ∧
    job_heap m !! j = Some J ∧ j_type J = t.

(** The pull [p] of the job [k] on [u] is carried out. *)
Definition pulled m (k : JobPtr) (u : UnitPtr) (p : pull) : Prop :=
  ∀ U v V, units m !! u = Some U → v ∈ dependencies U (p_dep p) → units m !! v = Some V →
    unit_job_is_applicable V (p_type p) = true →
    linked m (Some k) v (p_type p) (p_matters p) (p_conflicts p).

(** So is everything the job asks for, for the units it follows too. *)
Definition complete m (k : JobPtr) : Prop :=
  ∃ K, job_heap m !! k = Some K ∧ k ∈ chain_of (j_unit K) m ∧
    (∀ p, p ∈ pulls (j_type K) (override K) → pulled m k (j_unit K) p) ∧
    ∀ v V, v ∈ vt_following_set m (j_unit K) → units m !! v = Some V →
      unit_job_is_applicable V (j_type K) = true → linked m (Some k) v (j_type K) false false.

Definition entered m m' (k : JobPtr) : Prop := ∃ u, k ∈ chain_of u m' ∧ k ∉ chain_of u m.
Definition all_loaded m : Prop := ∀ u U, units m !! u = Some U → load_state U = UNIT_LOADED.

Lemma linked_grows m m' s u t mt cf : grows m m' → linked m s u t mt cf → linked m' s u t mt cf.
Proof.
  intros Hg (d & j & J & Hd & Hj & HJ & Ht). destruct (gr_job _ _ Hg j J HJ) as (J' & HJ' & _ & Ht' & _).
  exists d, j, J'. split_and!; [|by apply (grows_in m)|done|congruence].
  eapply lookup_weaken; [exact Hd|by apply gr_deps].
Qed.

Lemma pulled_grows m m' k u p : grows m m' → pulled m k u p → pulled m' k u p.
Proof.
  intros Hg Hp U v V HU Hv HV Ha. rewrite (grows_units _ _ Hg) in HU, HV.
  apply (linked_grows m); [done|]. by apply (Hp U v V).
Qed.

Lemma complete_grows m m' k : grows m m' → complete m k → complete m' k.
Proof.
  intros Hg (K & HK & Hk & Hp & Hf). destruct (gr_job _ _ Hg k K HK) as (K' & HK' & Hu & Ht & _ & Ho).
  pose proof (grows_units _ _ Hg) as Eu.
  exists K'. rewrite Hu, Ht, (Ho Hk). split_and!; [done|by apply (grows_in m)| |].
  - intros p Hpin. apply (pulled_grows m); auto.
  - intros v V Hv HV Ha. rewrite Eu in HV. rewrite (following_set_units m' m) in Hv by done.
    apply (linked_grows m); [done|]. by apply (Hf v V).
Qed.

Lemma chain_of_linked m s u t mt cf : linked m s u t mt cf → chain_of u m ≠ [].
Proof. intros (d & j & J & _ & Hj & _) E. rewrite E in Hj. by apply elem_of_nil in Hj. Qed.

(** The answer to a request for [t] on the unit [U]; the job enters even if what it requires is refused. *)
Record answer (s : option JobPtr) (u : UnitPtr) (U : Unit P) (t : JobType) (mt cf : bool)
    (r : Z * option JobPtr) m m' : Prop := {
  an_le : (r.1 ≤ 0)%Z;
  an_linked : r.1 = 0%Z → linked m' s u t mt cf;
  an_refused : (job_refused U t < 0)%Z → r = (job_refused U t, None) ∧ m' = m;
  an_badr : r.1 = (- EBADR)%Z → job_refused U t = (- EBADR)%Z;
  an_present : ¬ (job_refused U t < 0)%Z → chain_of u m' ≠ [];
  an_loaded : all_loaded m → r.1 = job_refused U t }.

Lemma refused_badr U t : job_refused U t = (- EBADR)%Z → unit_job_is_applicable U t = false.
Proof.
  unfold job_refused. repeat case_bool_decide; try done. by destruct (unit_job_is_applicable U t).
Qed.
Lemma refused_loaded U t :
  load_state U = UNIT_LOADED →
  job_refused U t = if unit_job_is_applicable U t then 0%Z else (- EBADR)%Z.
Proof.
  intros E. unfold job_refused. rewrite E. repeat case_bool_decide; try naive_solver.
  by destruct (unit_job_is_applicable U t).
Qed.
Lemma refused_zero U t : ¬ (job_refused U t < 0)%Z → job_refused U t = 0%Z.
Proof.
  unfold job_refused. repeat case_bool_decide; try done.
  by destruct (unit_job_is_applicable U t).
Qed.

Section closure.
(** What happens between two points of a run.  [T] are the types that can be
    asked for. *)
Context (T : JobType → Prop).
Record progress m m' : Prop := {
  pg_wf : wf [] m';
  pg_grows : grows m m';
  pg_type : ∀ k, entered m m' k → ∃ K, job_heap m' !! k = Some K ∧ T (j_type K);
  pg_complete : all_loaded m → ∀ k, entered m m' k → complete m' k;
  pg_tidy : tidy m → tidy m' }.

Lemma progress_refl m : wf [] m → progress m m.
Proof.
  intros Hwf. split; [done|done| | |done]; [intros k (u & ? & ?)|intros _ k (u & ? & ?)]; done.
Qed.

Lemma all_loaded_grows m m' : grows m m' → all_loaded m → all_loaded m'.
Proof. intros Hg Hl u U. rewrite (grows_units _ _ Hg). apply Hl. Qed.

Lemma entered_split m1 m2 m3 k : entered m1 m3 k → entered m1 m2 k ∨ entered m2 m3 k.
Proof. intros (u & H3 & H1). destruct (decide (k ∈ chain_of u m2)); [left|right]; by exists u. Qed.

Lemma progress_trans m1 m2 m3 : progress m1 m2 → progress m2 m3 → progress m1 m3.
Proof.
  intros [W2 G2 T2 C2 D2] [W3 G3 T3 C3 D3]. split; [done|by etrans| | |auto].
  { intros k [Hk|Hk]%(entered_split _ m2); [|by apply T3]. destruct (T2 k Hk) as (K & HK & Ht).
    destruct (gr_job _ _ G3 k K HK) as (K' & HK' & _ & Ht' & _). exists K'. by rewrite Ht'. }
  intros Hl k [Hk|Hk]%(entered_split _ m2).
  - apply (complete_grows m2); auto.
  - apply C3; [by apply (all_loaded_grows m1)|done].
Qed.

Lemma progress_oom m m' : progress m m' → oom m = [] → oom m' = [].
Proof. intros [_ Hg _ _ _]. by rewrite (grows_oom _ _ Hg). Qed.

(** The types asked for are closed under pulls. *)
Definition types_closed : Prop := ∀ t ovr p, T t → p ∈ pulls t ovr → T (p_type p).

(** ** The loops over the dependencies *)

Definition rec_ok (n : nat) : Prop := ∀ m t u U s mt ovr cf io,
  wf [] m → oom m = [] → units m !! u = Some U →
  (∀ k, s = Some k → is_Some (job_heap m !! k) ∧ k ∈ all_jobs m) → missing m < n → T t →
  wp (add_job_rec n t u s mt ovr cf false io) m (λ r m', progress m m' ∧ answer s u U t mt cf r m m').

(** What a loop needs of the state it starts in. *)
Record ready (n : nat) (k : JobPtr) m : Prop := {
  rd_wf : wf [] m;
  rd_oom : oom m = [];
  rd_job : is_Some (job_heap m !! k) ∧ k ∈ all_jobs m;
  rd_missing : missing m < n }.

Lemma ready_progress n k m m' : ready n k m → progress m m' → ready n k m'.
Proof.
  intros [Hw Ho [[K HK] Hk] Hm] Hp. pose proof (pg_grows _ _ Hp) as Hg. split.
  - apply Hp.
  - by apply (progress_oom m).
  - split; [destruct (gr_job _ _ Hg k K HK) as (K' & ? & _); by exists K'|].
    by apply (all_jobs_grows m); [..|apply Hp|done|].
  - pose proof (missing_grows m m' Hw Hg). lia.
Qed.

Definition served m (k : JobPtr) (l : list UnitPtr) (t : JobType) (mt cf : bool) : Prop :=
  ∀ v V, v ∈ l → units m !! v = Some V → unit_job_is_applicable V t = true →
    linked m (Some k) v t mt cf.

Lemma served_grows m m' k l t mt cf : grows m m' → served m k l t mt cf → served m' k l t mt cf.
Proof.
  intros Hg Hs v V Hv. rewrite (grows_units _ _ Hg). intros HV Ha.
  apply (linked_grows m); [done|]. by apply (Hs v V).
Qed.

Lemma served_cons m m' k v V l t mt cf :
  grows m m' → units m !! v = Some V → (unit_job_is_applicable V t = true → linked m (Some k) v t mt cf) →
  served m' k l t mt cf → served m' k (v :: l) t mt cf.
Proof.
  intros Hg HV Hv Hs w W [->|Hw]%elem_of_cons HW Ha; [|by apply (Hs w W)].
  rewrite (grows_units _ _ Hg) in HW. apply (linked_grows m); [done|]. apply Hv. congruence.
Qed.

Lemma following_loop n k t ovr io l :
  T t → rec_ok n → ∀ m, ready n k m → (∀ v, v ∈ l → is_Some (units m !! v)) →
  wp (for_each l (λ dep, _ ← add_job_rec n t dep (Some k) false ovr false false io; mret tt)) m
    (λ _ m', progress m m' ∧ (all_loaded m → served m' k l t false false)).
Proof.
  intros HT Hrec. induction l as [|v l IH]; intros m Hr Hl; simpl.
  { wp_step. split; [by apply progress_refl, Hr|]. by intros _ ? ? ?%elem_of_nil. }
  destruct (Hl v) as [V HV]; [left|]. destruct Hr as [Hw Ho Hk Hm] eqn:Er.
  repeat wp_step. eapply wp_mono.
  { apply (Hrec m t v V (Some k) false ovr false io Hw Ho HV); [by intros ? [= <-]|done|done]. }
  intros r m1 [Hp Ha]. wp_step. pose proof (pg_grows _ _ Hp) as Hg. eapply wp_mono.
  { apply (IH m1); [by apply (ready_progress n k m)|].
    intros w Hw'. rewrite (grows_units _ _ Hg). apply Hl. by right. }
  intros [] m2 [Hp2 Hs]. split; [by apply (progress_trans m m1)|].
  intros Hall. apply (served_cons m1 m2 k v V); [apply Hp2|by rewrite (grows_units _ _ Hg)| |].
  - intros Hap. apply (an_linked _ _ _ _ _ _ _ _ _ Ha).
    rewrite (an_loaded _ _ _ _ _ _ _ _ _ Ha) by done.
    rewrite refused_loaded by (by apply (Hall v)). by rewrite Hap.
  - apply Hs. by apply (all_loaded_grows m).
Qed.

(** The result of a loop over pulls. *)
Record pull_result (r : Z) m m' : Prop := {
  pr_progress : progress m m';
  pr_le : (r ≤ 0)%Z;
  pr_badr : r ≠ (- EBADR)%Z;
  pr_loaded : all_loaded m → r = 0%Z }.

Lemma pull_loop n k p io l :
  T (p_type p) → rec_ok n → ∀ m, ready n k m → (∀ v, v ∈ l → is_Some (units m !! v)) →
  wp (for_each_r l (λ dep,
        r ← add_job_rec n (p_type p) dep (Some k) (p_matters p) (p_override p) (p_conflicts p) false io;
        mret (if p_required p && bool_decide (r.1 < 0)%Z && negb (bool_decide (r.1 = - EBADR)%Z)
              then r.1 else 0%Z))) m
    (λ r m', pull_result r m m' ∧ (r = 0%Z → p_required p = true ∨ all_loaded m →
      served m' k l (p_type p) (p_matters p) (p_conflicts p))).
Proof.
  intros HT Hrec. induction l as [|v l IH]; intros m Hr Hl; simpl.
  { wp_step. split; [split; [by apply progress_refl, Hr|done..]|]. by intros _ _ ? ? ?%elem_of_nil. }
  destruct (Hl v) as [V HV]; [left|]. destruct Hr as [Hw Ho Hk Hm] eqn:Er.
  repeat wp_step. eapply wp_mono.
  { apply (Hrec m (p_type p) v V (Some k) (p_matters p) (p_override p) (p_conflicts p) io Hw Ho HV);
      [by intros ? [= <-]|done|done]. }
  intros r m1 [Hp Ha]. wp_step. pose proof (pg_grows _ _ Hp) as Hg.
  set (q := (if _ && _ && _ then r.1 else 0%Z)).
  destruct (decide (q < 0)%Z) as [Hq|Hq].
  { rewrite bool_decide_true by done. wp_step. unfold q in *.
    destruct (p_required p), (bool_decide_reflect (r.1 < 0)%Z), (bool_decide_reflect (r.1 = - EBADR)%Z);
      simpl in *; try lia. split; [split; [done|lia|done|]|lia].
    intros Hall. pose proof (an_loaded _ _ _ _ _ _ _ _ _ Ha Hall) as E.
    rewrite refused_loaded in E by (by apply (Hall v)).
    destruct (unit_job_is_applicable V (p_type p)); lia. }
  rewrite bool_decide_false by done. eapply wp_mono.
  { apply (IH m1); [by apply (ready_progress n k m)|].
    intros w Hw'. rewrite (grows_units _ _ Hg). apply Hl. by right. }
  intros r2 m2 [[Hp2 Hle Hb Hall2] Hs]. split.
  { split; [by apply (progress_trans m m1)|done..|]. intros Hall. apply Hall2.
    by apply (all_loaded_grows m). }
  intros Er2 Hreq. apply (served_cons m1 m2 k v V); [apply Hp2|by rewrite (grows_units _ _ Hg)| |].
  - intros Hap. apply (an_linked _ _ _ _ _ _ _ _ _ Ha). destruct Hreq as [Hreq|Hall].
    + unfold q in Hq. rewrite Hreq in Hq. pose proof (an_le _ _ _ _ _ _ _ _ _ Ha).
      destruct (bool_decide_reflect (r.1 < 0)%Z), (bool_decide_reflect (r.1 = - EBADR)%Z) as [Eb|];
        simpl in Hq; try lia.
      apply (an_badr _ _ _ _ _ _ _ _ _ Ha), refused_badr in Eb. congruence.
    + rewrite (an_loaded _ _ _ _ _ _ _ _ _ Ha) by done.
      rewrite refused_loaded by (by apply (Hall v)). by rewrite Hap.
  - apply Hs; [done|]. destruct Hreq as [|Hall]; [by left|right]. by apply (all_loaded_grows m).
Qed.

Lemma pulls_loop n k K io ps :
  (∀ p, p ∈ ps → T (p_type p)) → rec_ok n → ∀ m, ready n k m → (∃ J, job_heap m !! k = Some J ∧ j_unit J = j_unit K) →
  wp (for_each_r ps (λ p,
        V ← unit_at (j_unit K);
        for_each_r (dependencies V (p_dep p)) (λ dep,
          r ← add_job_rec n (p_type p) dep (Some k) (p_matters p) (p_override p) (p_conflicts p) false io;
          mret (if p_required p && bool_decide (r.1 < 0)%Z && negb (bool_decide (r.1 = - EBADR)%Z)
                then r.1 else 0%Z)))) m
    (λ r m', pull_result r m m' ∧ (r = 0%Z → ∀ p, p ∈ ps → p_required p = true ∨ all_loaded m →
      pulled m' k (j_unit K) p)).
Proof.
  intros HT Hrec. induction ps as [|p ps IH]; intros m Hr Hk; simpl.
  { wp_step. split; [split; [by apply progress_refl, Hr|done..]|]. by intros _ ? ?%elem_of_nil. }
  destruct Hk as (J & HJ & HU). destruct (wc_job _ _ (proj1 (rd_wf _ _ _ Hr)) k (erase_lists J)) as (U & HU' & _).
  { apply eheap_Some. eauto. }
  simpl in HU'. rewrite HU in HU'.
  repeat wp_step. eapply wp_unit_at; [exact HU'|]. eapply wp_mono.
  { apply pull_loop; [apply HT; left|done|exact Hr|]. intros v Hv. by eapply (wc_unit _ _ (proj1 (rd_wf _ _ _ Hr)) _ U HU'). }
  intros r m1 [[Hp Hle Hb Hall] Hs]. pose proof (pg_grows _ _ Hp) as Hg.
  destruct (decide (r < 0)%Z) as [Hq|Hq].
  { rewrite bool_decide_true by done. wp_step. split; [by split|lia]. }
  rewrite bool_decide_false by done. assert (r = 0%Z) as -> by lia. eapply wp_mono.
  { apply (IH (λ q Hq', HT q (list_elem_of_further _ _ _ Hq')) m1); [by apply (ready_progress n k m)|].
    destruct (gr_job _ _ Hg k J HJ) as (J' & ? & ? & _). exists J'. split; [done|congruence]. }
  intros r2 m2 [[Hp2 Hle2 Hb2 Hall2] Hs2]. split.
  { split; [by apply (progress_trans m m1)|done..|]. intros Hl. apply Hall2. by apply (all_loaded_grows m). }
  intros E2 q [->|Hq']%elem_of_cons Hreq.
  - pose proof (Hs eq_refl Hreq) as Hs'. apply (pulled_grows m1); [apply Hp2|].
    intros W v V HW Hv HV Ha. rewrite (grows_units _ _ Hg) in HW. rewrite HU' in HW. injection HW as <-.
    by apply (Hs' v V).
  - apply Hs2; [done..|]. destruct Hreq as [|Hl]; [by left|right]. by apply (all_loaded_grows m).
Qed.

(** ** The recursion *)

Definition add_post (s : option JobPtr) (u : UnitPtr) (U : Unit P) (t : JobType) (mt ovr cf ir : bool)
    m (r : Z * option JobPtr) m' : Prop :=
  wf [] m' ∧ grows m m' ∧ answer s u U t mt cf r m m' ∧
  (∀ k, entered m m' k → ∃ K, job_heap m' !! k = Some K ∧ T (j_type K)) ∧
  (all_loaded m → ∀ k, entered m m' k → (ir = true → r.2 ≠ Some k) → complete m' k) ∧
  (ir = false → ∀ k, r.2 = Some k → k ∉ chain_of u m →
     ∀ p, p ∈ pulls t ovr → p_required p = true → pulled m' k u p) ∧
  ((∀ k, s = Some k → k ∈ all_jobs m) → tidy m → tidy m').

(** The new job and its link, before the dependencies are looked at. *)
Definition add_head (t : JobType) (u : UnitPtr) (s : option JobPtr) (mt ovr cf io : bool)
    : MM (option (JobPtr * bool)) :=
  o ← transaction_add_one_job t u ovr;
  match o with
  | None => mret None
  | Some (ret, is_new) =>
      update_job ret (λ J, J <| ignore_order := ignore_order J || io |>);;
      l ← job_dependency_new s ret mt cf;
      match l with None => mret None | Some _ => mret (Some (ret, is_new)) end
  end.

Definition add_tail (n : nat) (t : JobType) (ovr ir io : bool) (ret : JobPtr) (is_new : bool)
    : MM (Z * option JobPtr) :=
  if negb (is_new && negb ir) then mret (0%Z, Some ret) else
  R ← job_at ret;
  following ← gets (λ m, vt_following_set m (j_unit R));
  for_each following (λ dep,
    _ ← add_job_rec n t dep (Some ret) false ovr false false io; mret tt);;
  r ← for_each_r (pulls t ovr) (λ p,
    V ← unit_at (j_unit R);
    for_each_r (dependencies V (p_dep p)) (λ dep,
      r ← add_job_rec n (p_type p) dep (Some ret) (p_matters p) (p_override p)
            (p_conflicts p) false io;
      mret (if p_required p && bool_decide (r.1 < 0)%Z
                && negb (bool_decide (r.1 = - EBADR)%Z) then r.1 else 0%Z)));
  if bool_decide (r < 0)%Z then mret (r, None) else mret (0%Z, Some ret).

Lemma add_job_rec_eq n m t u U s mt ovr cf ir io ret new m1 :
  units m !! u = Some U → ¬ (job_refused U t < 0)%Z →
  add_head t u s mt ovr cf io m = Ret (Some (ret, new)) m1 →
  add_job_rec (S n) t u s mt ovr cf ir io m = add_tail n t ovr ir io ret new m1.
Proof.
  intros HU Hr. unfold add_head. cbn [add_job_rec].
  rewrite (bind_ret (unit_at u) _ m U m) by (unfold unit_at; by rewrite HU).
  rewrite (bool_decide_false _ Hr).
  intros E. unfold mbind, M_bind in *.
  destruct (transaction_add_one_job t u ovr m) as [[[k b]|] m2| |]; try done.
  destruct (update_job k _ m2) as [[] m3| |]; try done.
  destruct (job_dependency_new s k mt cf m3) as [[d|] m4| |]; try done.
  injection E as -> -> ->. reflexivity.
Qed.

Lemma add_rec_head m t u U s ovr io mt cf :
  wf [] m → oom m = [] → units m !! u = Some U → (∀ k, s = Some k → is_Some (job_heap m !! k)) →
  wp (add_head t u s mt ovr cf io) m (λ o m', ∃ k new J, o = Some (k, new) ∧ wf [] m' ∧ grows m m' ∧
        linked m' s u t mt cf ∧ job_heap m' !! k = Some J ∧ j_unit J = u ∧ j_type J = t ∧
        (new = true → override J = ovr) ∧ k ∈ chain_of u m' ∧
        (∀ v, chain_of v m' = if new && bool_decide (v = u) then k :: chain_of v m else chain_of v m) ∧
        (new = true → missing m' < missing m) ∧ (new = false → k ∈ chain_of u m) ∧
        ((∀ k, s = Some k → k ∈ all_jobs m) → tidy m → tidy m')).
Proof.
  intros Hwf Hoom HU Hs. unfold add_head. wp_step. eapply wp_mono; [by apply add_one_job_spec; eauto|].
  intros o m1 (k & new & -> & [Hw1 Hg1 Hd1 (J & HJ & Hu & Ht & Hov) Hc1 Hoth Hin Hnew Hids Hent]).
  wp_step. eapply wp_intro; [by apply (update_job_eq k _ m1 J)|].
  set (m2 := m1 <| job_heap ::= alter _ k |>).
  assert (same_core m1 m2) as Hc2 by by apply same_core_update.
  assert (wf [] m2) as Hw2 by (by rewrite <- Hc2).
  assert (grows m1 m2) as Hg2 by by apply grows_job_update.
  set (J2 := J <| ignore_order := ignore_order J || io |>).
  assert (job_heap m2 !! k = Some J2) as HJ2 by (unfold m2; simpl; by rewrite lookup_alter_eq, HJ).
  assert (∀ k', s = Some k' → is_Some (job_heap m2 !! k')) as Hs2.
  { intros k' E. destruct (Hs k' E) as [K' HK']. assert (grows m m2) as Hg by (by etrans).
    destruct (gr_job _ _ Hg k' K' HK') as (? & ? & _). eauto. }
  wp_step. eapply wp_intro.
  { apply (job_dependency_new_eq m2 s k mt cf); [done| |by eexists|done].
    by rewrite (grows_oom _ _ Hg2), (grows_oom _ _ Hg1). }
  apply wp_ret. set (m3 := with_link s k mt cf m2).
  assert (grows m2 m3) as Hg3 by by apply grows_with_link.
  assert (grows m m3) as Hg by (etrans; [exact Hg1|by etrans]).
  destruct (gr_job _ _ Hg3 k J2 HJ2) as (J3 & HJ3 & Hu3 & Ht3 & _ & Ho3).
  assert (wf [] m3) as Hw3 by (apply wf_with_link; eauto).
  exists k, new, J3. split_and!; try done.
  - exists (next_ptr m2), k, J3. split_and!; [unfold m3; simpl; by rewrite lookup_insert_eq|done|done|].
    by rewrite Ht3.
  - by rewrite Hu3.
  - by rewrite Ht3.
  - intros E. rewrite Ho3; [by apply Hov|]. unfold J2. simpl. by rewrite Hu.
  - intros v. change (chain_of v m3) with (chain_of v m1). case_bool_decide as Ev.
    + subst v. rewrite Hc1. by destruct new.
    + rewrite andb_false_r. by apply Hoth.
  - intros ->. destruct Hnew as [_ Hno]. apply (missing_new m m3 u t); eauto.
    apply has_type_true. exists k, J3. split_and!; [done|done|by rewrite Ht3].
  - intros ->. by subst m1.
  - intros Hsin Htd. assert (same_ids m1 m3) as Hs3.
    { eapply same_ids_trans; [|apply same_ids_link]. apply same_ids_alter. intros X. by split; [|left]. }
    apply (tidy_step m m3 Htd).
    2: { intros j Jj HJj (J0 & HJ0 & Hj)%(elem_of_all_jobs [] m3 j (proj1 Hw3)).
      apply eheap_Some in HJ0 as (J1 & HJ1 & ->). assert (J1 = Jj) as -> by congruence. simpl in Hj.
      change (chain_of (j_unit Jj) m3) with (chain_of (j_unit Jj) m1) in Hj.
      assert (j ∈ chain_of (j_unit Jj) m ∨ new = true ∧ j = k) as [Hj'|[-> ->]].
      { destruct (decide (j_unit Jj = u)) as [E|E]; [|left; by rewrite Hoth in Hj].
        rewrite E, Hc1 in Hj. rewrite E. destruct new; [|by left]. apply elem_of_cons in Hj as [->|?]; auto. }
      - left. destruct (chain_jobs m _ j Hwf Hj') as (? & ?). done.
      - right. destruct Hs3 as [_ Hs3]. destruct (Hs3 k Jj HJj) as (J4 & HJ4 & [_ Hag]).
        rewrite (Hent eq_refl J4 HJ4) in Hag. destruct Hag as [[-> _]| ->]; done. }
    + apply (inside_link m m1 m2); try done; [|apply Htd].
      apply (elem_of_all_jobs [] m3 k (proj1 Hw3)).
      exists (erase_lists J3). split; [apply eheap_Some; by exists J3|]. simpl. rewrite Hu3. unfold J2. simpl. by rewrite Hu.
    + destruct new; simpl in *.
      * destruct Hnew as [_ Hno].
        assert (missing m3 < missing m) as Hlt.
        { apply (missing_new m m3 u t); eauto. apply has_type_true. exists k, J3. split_and!; [done|done|by rewrite Ht3]. }
        destruct Hids; [left; split; [by eapply same_ids_trans|lia]|right; split; [by eapply next_id_trans|done]].
      * subst m1. left. split; [done|]. by apply missing_grows.
Qed.

Lemma entered_head m m' u k (new : bool) j :
  (∀ v, chain_of v m' = if new && bool_decide (v = u) then k :: chain_of v m else chain_of v m) →
  entered m m' j → new = true ∧ j = k.
Proof.
  intros Hc (v & Hv & Hn). rewrite Hc in Hv. destruct new; [|done]. simpl in Hv.
  case_bool_decide; [|done]. by apply elem_of_cons in Hv as [->|?].
Qed.

Lemma add_post_end s u U t mt ovr cf k K r m m1 m2 m3 :
  wf [] m → grows m m1 → grows m m3 → job_refused U t = 0%Z →
  job_heap m1 !! k = Some K → j_unit K = u → j_type K = t → override K = ovr →
  k ∈ chain_of u m1 →
  (∀ v, chain_of v m1 = if true && bool_decide (v = u) then k :: chain_of v m else chain_of v m) →
  ((∀ k, s = Some k → k ∈ all_jobs m) → tidy m → tidy m1) →
  progress m1 m2 → (all_loaded m1 → served m2 k (vt_following_set m1 (j_unit K)) t false false) →
  progress m2 m3 → T t → linked m3 s u t mt cf → (r ≤ 0)%Z → r ≠ (- EBADR)%Z → (all_loaded m2 → r = 0%Z) →
  (r = 0%Z → ∀ p, p ∈ pulls t ovr → p_required p = true ∨ all_loaded m2 → pulled m3 k (j_unit K) p) →
  wp (if bool_decide (r < 0)%Z then mret (r, None) else mret (0%Z, Some k)) m3
    (add_post s u U t mt ovr cf false m).
Proof.
  intros Hwf Hg1 Hg Hr0 HK HKu HKt HKo Hin Hc1 Htd Hp2 Hs2 Hp3 HT Hl3 Hle Hb Hall Hs3.
  assert (progress m1 m3) as Hp by by apply (progress_trans m1 m2).
  assert (all_loaded m → all_loaded m1 ∧ all_loaded m2) as Hl.
  { intros Hl. assert (all_loaded m1) by by apply (all_loaded_grows m).
    split; [done|]. apply (all_loaded_grows m1); [apply Hp2|done]. }
  assert (wp (mret (if bool_decide (r < 0)%Z then (r, None) else (0%Z, Some k))) m3
    (add_post s u U t mt ovr cf false m)) as Hw; [|by case_bool_decide].
  assert (∃ K3, job_heap m3 !! k = Some K3 ∧ j_unit K3 = u ∧ j_type K3 = t ∧ override K3 = ovr)
    as (K3 & HK3 & HKu3 & HKt3 & HKo3).
  { destruct (gr_job _ _ (pg_grows _ _ Hp) k K HK) as (K3 & HK3 & HKu3 & HKt3 & _ & HKo3).
    exists K3. rewrite HKu3, HKt3, HKo3 by (by rewrite HKu). done. }
  wp_step. split_and!; [apply Hp|done| | | | |intros; by apply Hp, Htd].
  - split; try (case_bool_decide; simpl; lia || done); [intros _; by eapply chain_of_linked|].
    intros Hl'. destruct (Hl Hl') as [_ Hl2]. rewrite (Hall Hl2). by rewrite Hr0.
  - intros j Hj. destruct (entered_split m m1 m3 j Hj) as [Hj1|Hj3]; [|by apply Hp].
    apply (entered_head m m1 u k true) in Hj1 as [_ ->]; [|done]. exists K3. by rewrite HKt3.
  - intros Hl' j Hj _. destruct (Hl Hl') as [Hl1 Hl2]. destruct (entered_split m m1 m3 j Hj) as [Hj1|Hj3].
    + apply (entered_head m m1 u k true) in Hj1 as [_ ->]; [|done].
      exists K3. rewrite HKu3, HKt3, HKo3.
      split_and!; [done|by apply (grows_in m1); [apply Hp|]|..].
      * intros p Hpin. rewrite <- HKu. apply Hs3; [by apply Hall|done|by right].
      * intros v V Hv HV Ha. apply (served_grows m2 m3) in Hs2; [|apply Hp3|done].
        apply (Hs2 v V); [|done|done].
        by rewrite HKu, (following_set_units m1 m3) by (symmetry; apply (grows_units _ _), Hp).
    + by apply (pg_complete _ _ Hp).
  - intros _ j Ej Hj p Hpin Hreq. case_bool_decide; simpl in Ej; [done|]. injection Ej as <-.
    rewrite <- HKu. apply Hs3; [lia|done|by left].
Qed.

Lemma add_rec_spec n m t u U s mt ovr cf ir io :
  wf [] m → oom m = [] → units m !! u = Some U → (∀ k, s = Some k → is_Some (job_heap m !! k)) →
  missing m < n → types_closed → T t →
  wp (add_job_rec n t u s mt ovr cf ir io) m (add_post s u U t mt ovr cf ir m).
Proof.
  revert m t u U s mt ovr cf ir io. induction n as [|n IH]; intros m t u U s mt ovr cf ir io Hwf Hoom HU Hs Hm Hcl HT; [lia|].
  destruct (decide (job_refused U t < 0)%Z) as [Href|Href].
  { eapply wp_intro; [cbn [add_job_rec]; rewrite (bind_ret (unit_at u) _ m U m) by (unfold unit_at; by rewrite HU);
      by rewrite (bool_decide_true _ Href)|].
    split_and!; [done|done|split; simpl; try done; lia| | |done|done];
      [intros k (v & ? & ?)|intros _ k (v & ? & ?)]; done. }
  assert (rec_ok n) as Hrec.
  { intros m' t' u' U' s' mt' ovr' cf' io' ??? Hs' ??. eapply wp_mono; [apply IH; try done; intros; by apply Hs'|].
    intros r m'' (? & ? & ? & ? & Hc & _ & Htd). split; [|done]. split; [done..| |].
    - intros ? k ?. by apply Hc.
    - apply Htd. intros k E. by apply Hs'. }
  clear IH. pose proof (refused_zero _ _ Href) as Hr0.
  destruct (wp_elim _ _ _ (add_rec_head m t u U s ovr io mt cf Hwf Hoom HU Hs)) as (o & m1 & E & Hhd).
  destruct Hhd as (k & new & K & -> & Hw1 & Hg1 & Hl1 & HK & HKu & HKt & HKo & Hin & Hc1 & Hm1 & Hold & Htd).
  unfold wp. rewrite (add_job_rec_eq n m t u U s mt ovr cf ir io k new m1 HU Href E).
  change (wp (add_tail n t ovr ir io k new) m1 (add_post s u U t mt ovr cf ir m)).
  unfold add_tail. destruct (negb (new && negb ir)) eqn:Eb.
  - wp_step. apply negb_true_iff in Eb.
    split_and!; [done|done|split; simpl; try done; intros _; by eapply chain_of_linked|..].
    + intros j Hj. apply (entered_head m m1 u k new) in Hj as [_ ->]; [|done]. exists K. by rewrite HKt.
    + intros _ j Hj Hne. apply (entered_head m m1 u k new) in Hj as [-> ->]; [|done].
      destruct ir; [|done]. by destruct (Hne eq_refl).
    + intros -> j [= <-] Hj. destruct new; [done|]. by destruct Hj; apply Hold.
    + done.
  - apply negb_false_iff, andb_true_iff in Eb as [-> ->%negb_true_iff].
    specialize (Hm1 eq_refl). specialize (HKo eq_refl).
    assert (ready n k m1) as Hrd.
    { split; [done|by rewrite (grows_oom _ _ Hg1)| |lia]. split; [by eexists|].
      apply (elem_of_all_jobs [] m1 k (proj1 Hw1)). exists (erase_lists K).
      split; [apply eheap_Some; by exists K|]. simpl. by rewrite HKu. }
    wp_step. eapply reads_wp; [by apply reads_job|]. wp_step. wp_step. wp_step.
    eapply wp_mono; [apply following_loop; [done|done|exact Hrd|]|].
    { intros v. apply following_set_live. }
    intros [] m2 [Hp2 Hs2]. pose proof (pg_grows _ _ Hp2) as Hg2.
    destruct (gr_job _ _ Hg2 k K HK) as (K2 & HK2 & HKu2 & _).
    wp_step. eapply wp_mono.
    { apply pulls_loop; [intros p; by apply Hcl|done|by apply (ready_progress n k m1)|]. by exists K2. }
    intros r m3 [[Hp3 Hle Hb Hall] Hs3]. pose proof (pg_grows _ _ Hp3) as Hg3.
    assert (progress m1 m3) as Hp by by apply (progress_trans m1 m2).
    assert (grows m m3) as Hg by (etrans; [exact Hg1|apply Hp]).
    assert (linked m3 s u t mt cf) as Hl3 by (apply (linked_grows m1); [apply Hp|done]).
    apply (add_post_end s u U t mt ovr cf k K r m m1 m2 m3); done.
Qed.

End closure.

(** *** The same by dependency *)

(** The job that a job of type [t] calls for on the units that the dependency
    [d] lists; whether the link matters, where the request may override;
    whether the request fails without it. *)
Definition dependency_job (t : JobType) (d : UnitDependency) : option JobType :=
  match t, d with
  | (JOB_START | JOB_RELOAD_OR_START),
    (UNIT_REQUIRES | UNIT_BIND_TO | UNIT_REQUIRES_OVERRIDABLE | UNIT_WANTS) => Some JOB_START
  | (JOB_START | JOB_RELOAD_OR_START), (UNIT_REQUISITE | UNIT_REQUISITE_OVERRIDABLE) => Some JOB_VERIFY_ACTIVE
  | (JOB_START | JOB_RELOAD_OR_START), (UNIT_CONFLICTS | UNIT_CONFLICTED_BY) => Some JOB_STOP
  | (JOB_STOP | JOB_RESTART | JOB_TRY_RESTART), (UNIT_REQUIRED_BY | UNIT_BOUND_BY) => Some t
  | _, _ => None
  end.
Definition dependency_matters (ovr : bool) (d : UnitDependency) : bool :=
  match d with
  | UNIT_WANTS | UNIT_CONFLICTED_BY => false
  | UNIT_REQUIRES_OVERRIDABLE | UNIT_REQUISITE_OVERRIDABLE => negb ovr
  | _ => true
  end.
Definition dependency_required (d : UnitDependency) : bool :=
  match d with
  | UNIT_WANTS | UNIT_CONFLICTED_BY | UNIT_REQUIRES_OVERRIDABLE | UNIT_REQUISITE_OVERRIDABLE => false
  | _ => true
  end.

Lemma dependency_pull t ovr d t' :
  dependency_job t d = Some t' → ∃ p, p ∈ pulls t ovr ∧ p_dep p = d ∧ p_type p = t' ∧
    p_matters p = dependency_matters ovr d ∧ p_conflicts p = bool_decide (d = UNIT_CONFLICTS) ∧
    p_required p = dependency_required d.
Proof.
  assert (∀ (l : list pull) (Q : pull → Prop), List.Exists Q l → ∃ p, p ∈ l ∧ Q p) as Hex.
  { intros l Q (p & Hp & HQ)%List.Exists_exists. exists p. split; [by apply list_elem_of_In|done]. }
  intros E. apply Hex. destruct t, d; try discriminate E; injection E as <-; destruct ovr; simpl;
    repeat (first [by apply List.Exists_cons_hd | apply List.Exists_cons_tl]).
Qed.

(** What the dependency [d] of the unit of the job [k] calls for is there. *)
Definition answered m (k : JobPtr) (u : UnitPtr) (ovr : bool) (d : UnitDependency) (t : JobType) : Prop :=
  ∀ U v V, units m !! u = Some U → v ∈ dependencies U d → units m !! v = Some V →
    unit_job_is_applicable V t = true →
    linked m (Some k) v t (dependency_matters ovr d) (bool_decide (d = UNIT_CONFLICTS)).

Lemma pulled_answered m k u t ovr d t' :
  dependency_job t d = Some t' →
  (∀ p, p ∈ pulls t ovr → (dependency_required d = true → p_required p = true) → p_dep p = d → pulled m k u p) →
  answered m k u ovr d t'.
Proof.
  intros E Hp. destruct (dependency_pull t ovr d t' E) as (p & Hin & Ed & Et & Em & Ec & Er).
  intros U v V HU Hv HV Ha. rewrite <- Em, <- Ec, <- Et. apply (Hp p Hin) with (U := U) (V := V); try done.
  - by rewrite Er.
  - by rewrite Ed.
  - by rewrite Et.
Qed.

(** The transaction has everything that the job [k] calls for, for the units
    that its unit follows too. *)
Definition satisfied m (k : JobPtr) : Prop :=
  ∃ K, job_heap m !! k = Some K ∧ k ∈ chain_of (j_unit K) m ∧
    (∀ d t, dependency_job (j_type K) d = Some t → answered m k (j_unit K) (override K) d t) ∧
    ∀ v V, v ∈ vt_following_set m (j_unit K) → units m !! v = Some V →
      unit_job_is_applicable V (j_type K) = true → linked m (Some k) v (j_type K) false false.

Lemma complete_satisfied m k : complete m k → satisfied m k.
Proof.
  intros (K & HK & Hk & Hp & Hf). exists K. split_and!; try done. intros d t E.
  apply (pulled_answered m k _ (j_type K)); [done|]. intros p Hin _ _. by apply Hp.
Qed.

Lemma transaction_add_job_spec m t u U s mt ovr cf ir io :
  wf [] m → oom m = [] → units m !! u = Some U → (∀ k, s = Some k → is_Some (job_heap m !! k)) →
  wp (transaction_add_job_and_dependencies t u s mt ovr cf ir io) m (add_post (λ _, True) s u U t mt ovr cf ir m).
Proof.
  intros Hwf Hoom HU Hs. unfold transaction_add_job_and_dependencies, add_fuel. wp_step. wp_step.
  apply (add_rec_spec (λ _, True)); try done; pose proof (missing_bound m); lia.
Qed.

(** C15. [transaction_add_job_and_dependencies] returns for any system of
    units, whatever cycles its dependencies have, keeps the engine consistent
    and only adds jobs and links.  A refused request changes nothing.  When it
    answers 0, the unit has a job of the asked type with a link from the job
    that asked; and, if the job is new, every unit that a required dependency
    names has the job this dependency calls for, linked to it, unless that
    type of job does not apply to the unit. *)
Theorem transaction_add_job_correct m t u U s mt ovr cf ir io :
  wf [] m → oom m = [] → units m !! u = Some U → (∀ k, s = Some k → is_Some (job_heap m !! k)) →
  wp (transaction_add_job_and_dependencies t u s mt ovr cf ir io) m (λ r m',
    wf [] m' ∧ grows m m' ∧ (r.1 ≤ 0)%Z ∧
    ((job_refused U t < 0)%Z → r = (job_refused U t, None) ∧ m' = m) ∧
    (r.1 = 0%Z → linked m' s u t mt cf) ∧
    (ir = false → ∀ k, r.2 = Some k → k ∉ chain_of u m →
       ∀ d t', dependency_job t d = Some t' → dependency_required d = true → answered m' k u ovr d t')).
Proof.
  intros Hwf Hoom HU Hs. eapply wp_mono; [by apply transaction_add_job_spec|].
  intros r m' (Hw & Hg & Ha & _ & _ & Hp & _). split_and!; try done; [apply Ha..|].
  intros Hir k Hk Hn d t' E Hreq. apply (pulled_answered m' k u t); [done|]. intros p Hin Hpr _.
  apply (Hp Hir k Hk Hn p Hin). by apply Hpr.
Qed.

(** C14. When all units are loaded, the answer only depends on whether the
    type applies to the unit, and every job that entered the transaction is
    satisfied: each unit that any of its dependencies names, and each unit it
    follows, has the job that this dependency calls for with a link to it,
    unless the type does not apply.  So the transaction is closed under the dependencies. *)
Theorem transaction_add_job_complete m t u U s mt ovr cf io :
  wf [] m → oom m = [] → all_loaded m → units m !! u = Some U →
  (∀ k, s = Some k → is_Some (job_heap m !! k)) →
  wp (transaction_add_job_and_dependencies t u s mt ovr cf false io) m (λ r m',
    wf [] m' ∧ r.1 = (if unit_job_is_applicable U t then 0 else - EBADR)%Z ∧
    (r.1 = 0%Z → linked m' s u t mt cf) ∧ ∀ k, entered m m' k → satisfied m' k).
Proof.
  intros Hwf Hoom Hl HU Hs. eapply wp_mono; [by apply transaction_add_job_spec|].
  intros r m' (Hw & _ & Ha & _ & Hc & _). split; [done|]. split_and!.
  - rewrite (an_loaded _ _ _ _ _ _ _ _ _ Ha) by done. by apply refused_loaded, (Hl u).
  - apply Ha.
  - intros k Hk. apply complete_satisfied. by apply Hc.
Qed.

(** A stop request only asks for stop jobs. *)
Lemma stop_closed : types_closed (λ t, t = JOB_STOP).
Proof. intros t ovr p -> Hp. simpl in Hp. by repeat apply elem_of_cons in Hp as [->|Hp]; [..|by apply elem_of_nil in Hp]. Qed.

Lemma add_stop_spec m u U :
  wf [] m → oom m = [] → units m !! u = Some U →
  wp (transaction_add_job_and_dependencies JOB_STOP u None true false false false false) m
    (λ r m', progress (λ t, t = JOB_STOP) m m' ∧ answer None u U JOB_STOP true false r m m').
Proof.
  intros Hwf Hoom HU. unfold transaction_add_job_and_dependencies, add_fuel. wp_step. wp_step.
  eapply wp_mono; [apply (add_rec_spec (λ t, t = JOB_STOP)); try done; [pose proof (missing_bound m); lia|apply stop_closed]|].
  intros r m' (Hw & Hg & Ha & Ht & Hc & _ & Htd). split; [|done]. split; [done..| |by apply Htd].
  intros Hl k Hk. by apply Hc.
Qed.

(** The units that isolating stops unless they have a job already. *)
Definition to_isolate m (k : string) (u : UnitPtr) : Prop :=
  ∃ U st, units m !! u = Some U ∧ u_id U = k ∧ ignore_on_isolate U = false ∧
    active_state_in (units m) u = Some st ∧
    (UNIT_IS_INACTIVE_OR_FAILED st = false ∨ u_job U ≠ None).

Lemma grows_nonempty m m' u : grows m m' → chain_of u m ≠ [] → chain_of u m' ≠ [].
Proof. intros Hg Hne. destruct (gr_chain _ _ Hg u) as [l ->]. by intros [_ ?]%app_nil. Qed.

Lemma transaction_job_of_None m u : transaction_job_of u m = None → chain_of u m = [].
Proof. unfold transaction_job_of. by destruct (chain_of u m). Qed.

(** The load states in which a unit accepts a stop job. *)
Definition may_stop m (u : UnitPtr) : Prop :=
  ∃ U, units m !! u = Some U ∧ load_state U ∈ [UNIT_LOADED; UNIT_ERROR; UNIT_MASKED].
Lemma may_stop_accepted U : load_state U ∈ [UNIT_LOADED; UNIT_ERROR; UNIT_MASKED] → job_refused U JOB_STOP = 0%Z.
Proof.
  intros Hl. unfold job_refused. repeat (apply elem_of_cons in Hl as [->|Hl]; [by repeat (case_bool_decide; try naive_solver)|]).
  by apply elem_of_nil in Hl.
Qed.

(** One round of the loop. *)
Lemma isolate_round m k u :
  wf [] m → oom m = [] → is_Some (units m !! u) →
  wp (U ← unit_at u;
      if bool_decide (u_id U ≠ k) then mret tt else
      if ignore_on_isolate U then mret tt else
      s ← unit_active_state u;
      if UNIT_IS_INACTIVE_OR_FAILED s && bool_decide (u_job U = None) then mret tt else
      t ← gets (transaction_job_of u);
      match t with
      | Some _ => mret tt
      | None =>
          _ ← transaction_add_job_and_dependencies JOB_STOP u None true false false false false;
          mret tt
      end) m (λ _ m', progress (λ t, t = JOB_STOP) m m' ∧
        (may_stop m u → to_isolate m k u → chain_of u m' ≠ [])).
Proof.
  intros Hwf Hoom [U HU].
  assert (progress (λ t, t = JOB_STOP) m m) as Hid by by apply progress_refl.
  destruct (wc_unit _ _ (proj1 Hwf) u U HU) as (_ & [st Hst] & _).
  assert (∀ Q : Prop, (∀ U' st', units m !! u = Some U' → u_id U' = k → ignore_on_isolate U' = false →
    active_state_in (units m) u = Some st' → (UNIT_IS_INACTIVE_OR_FAILED st' = false ∨ u_job U' ≠ None) → Q) →
    to_isolate m k u → Q) as Hti by (intros Q HQ (? & ? & ? & ? & ? & ? & ?); eauto).
  wp_step. eapply wp_unit_at; [exact HU|].
  case_bool_decide as Hid'. { wp_step. split; [done|]. intros _. apply Hti. congruence. }
  destruct (ignore_on_isolate U) eqn:Hig. { wp_step. split; [done|]. intros _. apply Hti. congruence. }
  wp_step. eapply reads_wp; [by apply reads_state|].
  destruct (UNIT_IS_INACTIVE_OR_FAILED st && bool_decide (u_job U = None)) eqn:Hb.
  { wp_step. split; [done|]. intros _. apply Hti. intros U' st' HU' _ _ Hst' Hor.
    apply andb_true_iff in Hb as [Hb1 Hb2%bool_decide_eq_true]. destruct Hor; congruence. }
  wp_step. wp_step. destruct (transaction_job_of u m) as [j|] eqn:Hj.
  { wp_step. split; [done|]. intros _ _ E. unfold transaction_job_of in Hj. by rewrite E in Hj. }
  wp_step. eapply wp_mono; [by apply (add_stop_spec m u U)|].
  intros r m' [Hp Ha]. wp_step. split; [done|]. intros Hl _.
  destruct Hl as (V & HV & Hl). rewrite HU in HV. injection HV as <-. apply Ha. by rewrite may_stop_accepted.
Qed.

(** C16. When the memory suffices, [transaction_add_isolate_jobs] returns 0 on a consistent engine.  It
    only adds to the transaction, and all it adds are stop jobs.  Afterwards every unit that is not exempt from
    isolation, is active or has a job, and is in a load state that accepts a stop job (loaded,
    masked, or failed to load), has a job in the transaction, whatever becomes of the stop jobs for
    what depends on it.  When all units are loaded, every job that was added has all it calls for as well. *)
Theorem transaction_add_isolate_jobs_correct m :
  wf [] m → oom m = [] → (∀ k u, (k, u) ∈ unit_names m → is_Some (units m !! u)) →
  wp transaction_add_isolate_jobs m (λ r m', r = 0%Z ∧ wf [] m' ∧ grows m m' ∧
    (∀ j, entered m m' j → (all_loaded m → satisfied m' j) ∧ ∃ J, job_heap m' !! j = Some J ∧ j_type J = JOB_STOP) ∧
    ∀ k u, (k, u) ∈ unit_names m → to_isolate m k u → may_stop m u → chain_of u m' ≠ []).
Proof.
  intros Hwf Hoom Hn. unfold transaction_add_isolate_jobs. wp_step. wp_step. wp_step.
  eapply wp_mono.
  { apply (wp_for_each (unit_names m) _ (λ rest s, progress (λ t, t = JOB_STOP) m s ∧
      rest ⊆ unit_names m ∧
      ∀ k u, (k, u) ∈ unit_names m → to_isolate m k u → may_stop m u → (k, u) ∈ rest ∨ chain_of u s ≠ [])).
    - intros [k u] rest s (Hp & Hsub & Hdone). pose proof (pg_grows _ _ _ Hp) as Hg.
      eapply wp_mono.
      { apply isolate_round; [apply Hp|by rewrite (grows_oom _ _ Hg)|].
        rewrite (grows_units _ _ Hg). apply (Hn k u), Hsub. left. }
      intros [] s' [Hp' Hc]. split_and!; [by apply (progress_trans _ m s)| |].
      + intros x Hx. apply Hsub. by right.
      + intros k' u' Hin Hti Hms. destruct (Hdone k' u' Hin Hti Hms) as [Hr|Hne].
        * apply elem_of_cons in Hr as [[= -> ->]|Hr]; [right|by left].
          apply Hc; [unfold may_stop|unfold to_isolate]; by rewrite (grows_units _ _ Hg).
        * right. apply (grows_nonempty s); [apply Hp'|done].
    - split_and!; [by apply progress_refl|done|by left]. }
  intros [] m' (Hp & _ & Hdone). wp_step. split_and!; [done|apply Hp|apply Hp| |].
  - intros j Hj. split; [intros Hl; by apply complete_satisfied, Hp|]. destruct (pg_type _ _ _ Hp j Hj) as (J & ? & ?). eauto.
  - intros k u Hin Hti Hms. destruct (Hdone k u Hin Hti Hms) as [?%elem_of_nil|]; done.
Qed.
End add_spec.

Section examples.
Import Demo.

#[export] Instance demo_laws : UnitVTableLaws UnitActiveState.
Proof. split; [done|by intros ? ? ? ?%elem_of_nil|done]. Qed.

(** "web" requires "db" and wants "log"; "db" requires "disk" and conflicts
    with "dump"; "log" requires "db" as well. *)
Definition m_web : Manager UnitActiveState :=
  manager
    [(1, unit "web.target" (dep UNIT_REQUIRES [2] (dep UNIT_WANTS [3] nodeps)) None UNIT_INACTIVE);
     (2, unit "db.target" (dep UNIT_REQUIRES [4] (dep UNIT_CONFLICTS [5] nodeps)) None UNIT_INACTIVE);
     (3, unit "log.target" (dep UNIT_REQUIRES [2] nodeps) None UNIT_INACTIVE);
     (4, unit "disk.target" nodeps None UNIT_INACTIVE);
     (5, unit "dump.target" nodeps None UNIT_ACTIVE)] [] [] [] [] [].

Definition chain_types (m : Manager UnitActiveState) : list (UnitPtr * list (option JobType)) :=
  map (λ '(u, l), (u, map (λ j, j_type <$> job_heap m !! j) l)) (transaction_jobs m).

Lemma transaction_add_job_correct_witness :
  ∃ U r m', units m_web !! 1 = Some U ∧
    transaction_add_job_and_dependencies JOB_START 1 None true false false false false m_web
      = Ret r m' ∧ wf [] m' ∧ linked m' None 1 JOB_START true false.
Proof.
  assert (wf [] m_web) as Hw by (apply wf_check_sound; vm_compute; reflexivity).
  eexists. assert (units m_web !! 1 = Some (unit "web.target" (dep UNIT_REQUIRES [2] (dep UNIT_WANTS [3] nodeps)) None UNIT_INACTIVE)) as HU by reflexivity.
  destruct (wp_elim _ _ _ (transaction_add_job_correct m_web JOB_START 1 _ None true false false false false
    Hw eq_refl HU ltac:(done))) as (r & m' & E & Hw' & _ & _ & _ & Hl & _).
  exists r, m'. split; [exact HU|]. split; [exact E|]. split; [exact Hw'|]. apply Hl.
  assert (match transaction_add_job_and_dependencies JOB_START 1 None true false false false false m_web
          with Ret r _ => r.1 | _ => 1%Z end = 0%Z) as C by (vm_compute; reflexivity).
  rewrite E in C. exact C.
Defined.

Lemma all_loaded_web : all_loaded m_web.
Proof.
  assert (map_all (λ _ U, bool_decide (load_state U = UNIT_LOADED)) (units m_web) = true) as C
    by (vm_compute; reflexivity).
  intros u U HU. pose proof (map_all_true _ _ C _ _ HU) as E. by apply bool_decide_eq_true in E.
Qed.

Lemma transaction_add_job_complete_witness :
  ∃ r m', transaction_add_job_and_dependencies JOB_START 1 None true false false false false m_web
      = Ret r m' ∧ wf [] m' ∧
    chain_types m' = [(1, [Some JOB_START]); (2, [Some JOB_START]); (4, [Some JOB_START]);
                      (5, [Some JOB_STOP]); (3, [Some JOB_START])].
Proof.
  assert (wf [] m_web) as Hw by (apply wf_check_sound; vm_compute; reflexivity).
  assert (units m_web !! 1 = Some (unit "web.target" (dep UNIT_REQUIRES [2] (dep UNIT_WANTS [3] nodeps)) None UNIT_INACTIVE)) as HU by reflexivity.
  destruct (wp_elim _ _ _ (transaction_add_job_complete m_web JOB_START 1 _ None true false false false
    Hw eq_refl all_loaded_web HU ltac:(done))) as (r & m' & E & Hw' & _).
  exists r, m'. split; [exact E|]. split; [exact Hw'|].
  assert (after (transaction_add_job_and_dependencies JOB_START 1 None true false false false false)
    m_web chain_types [] = [(1, [Some JOB_START]); (2, [Some JOB_START]); (4, [Some JOB_START]);
      (5, [Some JOB_STOP]); (3, [Some JOB_START])]) as C by (vm_compute; reflexivity).
  unfold after in C. by rewrite E in C.
Defined.

Lemma transaction_add_isolate_jobs_correct_witness :
  ∃ r m', transaction_add_isolate_jobs m_web = Ret r m' ∧ wf [] m' ∧
    chain_types m' = [(5, [Some JOB_STOP])].
Proof.
  assert (wf [] m_web) as Hw by (apply wf_check_sound; vm_compute; reflexivity).
  assert (∀ k u, (k, u) ∈ unit_names m_web → is_Some (units m_web !! u)) as Hn.
  { assert (forallb (λ '(k, u), bool_decide (is_Some (units m_web !! u))) (unit_names m_web) = true)
      as C by (vm_compute; reflexivity).
    rewrite forallb_forall in C. intros k u Hin%list_elem_of_In.
    pose proof (C _ Hin) as E. by apply bool_decide_eq_true in E. }
  destruct (wp_elim _ _ _ (transaction_add_isolate_jobs_correct m_web Hw eq_refl Hn))
    as (r & m' & E & _ & Hw' & _).
  exists r, m'. split; [exact E|]. split; [exact Hw'|].
  assert (after transaction_add_isolate_jobs m_web chain_types [] = [(5, [Some JOB_STOP])]) as C
    by (vm_compute; reflexivity).
  unfold after in C. by rewrite E in C.
Defined.

(** "top" wants nothing itself; "helper", which it requires, wants "db", and
    "web", which it requires too, requires "db"; "db" requires the masked
    "disk". *)
Definition m_masked : Manager UnitActiveState :=
  manager
    [(1, unit "top.target" (dep UNIT_REQUIRES [2; 3] nodeps) None UNIT_INACTIVE);
     (2, unit "helper.target" (dep UNIT_WANTS [4] nodeps) None UNIT_INACTIVE);
     (3, unit "web.target" (dep UNIT_REQUIRES [4] nodeps) None UNIT_INACTIVE);
     (4, unit "db.target" (dep UNIT_REQUIRES [5] nodeps) None UNIT_INACTIVE);
     (5, (unit "disk.target" nodeps None UNIT_INACTIVE) <| load_state := UNIT_MASKED |>)]
    [] [] [] [] [].

(** C17. Without the units all loaded the closure fails: "web" alone is refused,
    for "db" cannot get its requirement, but as "helper" wants "db" first, the
    job of "db" stays in the transaction after its requirement failed, and the
    requirement of "web" is content with it. *)
Theorem failed_wish_satisfies_requirement :
  (∃ m', transaction_add_job_and_dependencies JOB_START 3 None true false false false false m_masked
     = Ret ((- EINVAL)%Z, None) m') ∧
  ∃ k m', transaction_add_job_and_dependencies JOB_START 1 None true false false false false m_masked
     = Ret (0%Z, Some k) m' ∧
    chain_types m' = [(1, [Some JOB_START]); (2, [Some JOB_START]); (4, [Some JOB_START]);
                      (3, [Some JOB_START])].
Proof.
  split; [eexists; vm_compute; reflexivity|]. eexists _, _. split; [vm_compute; reflexivity|].
  vm_compute. reflexivity.
Qed.
End examples.
