(* ===== verification/Activate.v ===== *)
(** * Carrying out a transaction, and the life of an installed job

    [transaction_apply], [transaction_activate] and [manager_add_job] of
    src/manager.c, [job_finish_and_invalidate] and [job_run_and_invalidate] of
    src/job.c, starting, stopping and [unit_notify] of src/unit.c.

    These call each other in a cycle: a failing job triggers the OnFailure
    jobs, adding a job that isolates cancels others, which finishes them.  The
    cycle is cut at [job_finish_and_invalidate]: what calls it takes it as
    the argument [finish], and [job_finish_rec] ties the knot, with a fuel
    for the depth.  The outermost calls take this fuel [n] as an argument. *)

From stdpp Require Import base gmap strings list fin_maps.
From Stdlib Require Import ZArith Lia.
From S2P Require Import Prelude CString JobType OrderedMap Engine Transaction TransactionAdd Order.

Section activate.
Context {P : Type} `{UnitVTable P}.
Abbreviation MM := (M (Manager P)).

(** ** Applying a transaction *)

(** [HASHMAP_FOREACH] over [m->jobs] with a body that may change the map.  The
    iterator is the key of the entry to visit next, [None] at the end; it is
    advanced before the body runs, so an entry that the body removes while the
    iterator stands on it is a dangling pointer. *)
Fixpoint next_key (k : Z) (l : list (Z * JobPtr)) : option Z :=
  match l with
  | [] => None
  | (k', _) :: l' => if decide (k' = k) then fst <$> head l' else next_key k l'
  end.
Fixpoint foreach_job (n : nat) (it : option Z) (body : JobPtr → MM unit) : MM unit :=
  match n with
  | O => nofuel
  | S n' =>
      match it with
      | None => mret tt
      | Some k =>
          l ← gets jobs;
          j ← deref (om_get l k);
          body j;;
          foreach_job n' (next_key k l) body
      end
  end.

(** [hashmap_put(m->jobs, j->id, j)] *)
Definition jobs_put (id : Z) (j : JobPtr) : MM Z :=
  l ← gets jobs;
  match om_get l id with
  | Some k => mret (if decide (k = j) then 0 else - EEXIST)%Z
  | None =>
      ok ← alloc;
      if negb ok then mret (- ENOMEM)%Z else
      modify (λ m, m <| jobs ::= λ l, l ++ [(id, j)] |>);; mret 1%Z
  end.

(** The single job of a merged chain. *)
Definition merged_job (e : UnitPtr * list JobPtr) : MM JobPtr :=
  match e.2 with [j] => mret j | _ => fault end.

Definition apply_rollback (tj : list (UnitPtr * list JobPtr)) : MM unit :=
  for_each tj (λ e,
    j ← merged_job e;
    J ← job_at j;
    if installed J then mret tt else
    modify (λ m, m <| jobs ::= λ l, om_remove l (j_id J) |>)).

Definition put_jobs (tj : list (UnitPtr * list JobPtr)) : MM Z :=
  for_each_r tj (λ e,
    j ← merged_job e;
    J ← job_at j;
    if installed J then mret 0%Z else jobs_put (j_id J) j).

Definition install_job (j : JobPtr) : MM unit :=
  J ← job_at j;
  if installed J then mret tt else
  U ← unit_at (j_unit J);
  match u_job U with Some k => job_free k | None => mret tt end;;
  update_unit (j_unit J) (λ U, U <| u_job := Some j |>);;
  update_job j (λ J, J <| installed := true |>);;
  modify (λ m, m <| n_installed_jobs ::= Z.add 1 |>);;
  job_add_to_run_queue j;;
  job_add_to_dbus_queue j;;
  job_start_timer j.

(** [hashmap_steal_first(m->transaction_jobs)] *)
Definition steal_first : MM (option JobPtr) :=
  tj ← gets transaction_jobs;
  match tj with
  | [] => mret None
  | e :: tj' => j ← merged_job e; modify (λ m, m <| transaction_jobs := tj' |>);; mret (Some j)
  end.

Definition transaction_apply_with (n : nat) (finish : JobPtr → JobResult → MM unit) (mode : JobMode)
    : MM Z :=
  when (bool_decide (mode = JOB_ISOLATE)) (
    l ← gets jobs;
    foreach_job n (fst <$> head l) (λ j,
      J ← job_at j;
      assert_ (installed J);;
      t ← gets (transaction_job_of (j_unit J));
      match t with Some _ => mret tt | None => finish j JOB_CANCELED end));;
  tj ← gets transaction_jobs;
  r ← put_jobs tj;
  if bool_decide (r < 0)%Z then apply_rollback tj;; mret r else
  while_some (S (length tj)) steal_first install_job;;
  transaction_clean_dependencies;;
  mret 0%Z.

(** ** Activating a transaction *)

(** The fourth and fifth step. *)
Fixpoint order_loop (n : nat) (mode : JobMode) (g : Z) : MM Z :=
  match n with
  | O => nofuel
  | S n' =>
      when (bool_decide (mode ≠ JOB_ISOLATE)) transaction_collect_garbage;;
      '(r, g) ← transaction_verify_order g;
      if bool_decide (0 ≤ r)%Z || bool_decide (r ≠ - EAGAIN)%Z then mret r else order_loop n' mode g
  end.
(** The sixth and seventh step. *)
Fixpoint merge_loop (n : nat) (mode : JobMode) : MM Z :=
  match n with
  | O => nofuel
  | S n' =>
      r ← transaction_merge_jobs;
      if bool_decide (0 ≤ r)%Z || bool_decide (r ≠ - EAGAIN)%Z then mret r else
      when (bool_decide (mode ≠ JOB_ISOLATE)) transaction_collect_garbage;;
      merge_loop n' mode
  end.
(** Every round but the last drops a job. *)
Definition rounds : MM nat := gets (λ m, S (length (all_jobs m))).

(** The steps up to the tenth, without the rollback. *)
Definition activate_steps (n : nat) (finish : JobPtr → JobResult → MM unit) (mode : JobMode) : MM Z :=
  transaction_find_jobs_that_matter_to_anchor None 1;;
  when (bool_decide (mode = JOB_FAIL)) transaction_minimize_impact;;
  transaction_drop_redundant;;
  k ← rounds;
  r ← order_loop k mode 2;
  if bool_decide (r < 0)%Z then mret r else
  k ← rounds;
  r ← merge_loop k mode;
  if bool_decide (r < 0)%Z then mret r else
  transaction_drop_redundant;;
  r ← (if bool_decide (mode = JOB_FAIL) then transaction_is_destructive else mret 0%Z);
  if bool_decide (r < 0)%Z then mret r else
  transaction_apply_with n finish mode.

Definition transaction_activate_with (n : nat) (finish : JobPtr → JobResult → MM unit) (mode : JobMode)
    : MM Z :=
  r ← activate_steps n finish mode;
  if bool_decide (r < 0)%Z then transaction_abort;; mret r else
  m ← get;
  assert_ (bool_decide (transaction_jobs m = []));;
  assert_ (bool_decide (transaction_anchor m = []));;
  mret 0%Z.

(** All of [manager_add_job] but its last lines, and the job that was asked
    for. *)
Definition enqueue_with (n : nat) (finish : JobPtr → JobResult → MM unit)
    (type : JobType) (unit : UnitPtr) (mode : JobMode) (ovr : bool) : MM (Z * option JobPtr) :=
  U ← unit_at unit;
  if bool_decide (mode = JOB_ISOLATE ∧ type ≠ JOB_START) then mret ((- EINVAL)%Z, None) else
  if bool_decide (mode = JOB_ISOLATE) && negb (allow_isolate U) then mret ((- EPERM)%Z, None) else
  r ← transaction_add_job_and_dependencies type unit None true ovr false
        (bool_decide (mode = JOB_IGNORE_DEPENDENCIES) || bool_decide (mode = JOB_IGNORE_REQUIREMENTS))
        (bool_decide (mode = JOB_IGNORE_DEPENDENCIES));
  if bool_decide (r.1 < 0)%Z then transaction_abort;; mret (r.1, None) else
  q ← (if bool_decide (mode = JOB_ISOLATE) then transaction_add_isolate_jobs else mret 0%Z);
  if bool_decide (q < 0)%Z then transaction_abort;; mret (q, None) else
  a ← transaction_activate_with n finish mode;
  if bool_decide (a < 0)%Z then mret (a, None) else mret (0%Z, r.2).

(** The last lines read [ret->id] for a log message. *)
Definition manager_add_job_with (n : nat) (finish : JobPtr → JobResult → MM unit)
    (type : JobType) (unit : UnitPtr) (mode : JobMode) (ovr : bool) : MM (Z * option JobPtr) :=
  r ← enqueue_with n finish type unit mode ovr;
  match r.2 with
  | Some ret => J ← job_at ret; mret r
  | None => mret r
  end.

(** ** Finishing a job *)

Definition unit_trigger_on_failure_with (n : nat) (finish : JobPtr → JobResult → MM unit) (u : UnitPtr)
    : MM unit :=
  U ← unit_at u;
  for_each (dependencies U UNIT_ON_FAILURE) (λ other,
    U ← unit_at u;
    _ ← manager_add_job_with n finish JOB_START other
          (if on_failure_isolate U then JOB_ISOLATE else JOB_REPLACE) true;
    mret tt).

Definition manager_check_finished : MM unit :=
  m ← get;
  if dual_timestamp_is_set (finish_timestamp m) then mret tt else
  if bool_decide (0 < length (jobs m)) then mret tt else
  t ← dual_timestamp_get;
  modify (λ m, m <| finish_timestamp := t |>).

Definition is_start_like (t : JobType) : bool :=
  bool_decide (t = JOB_START) || bool_decide (t = JOB_VERIFY_ACTIVE) || bool_decide (t = JOB_RELOAD_OR_START).

(** The jobs of [type] START, VERIFY_ACTIVE and RELOAD_OR_START of the units
    that the dependency [d] of [u] lists fail with it. *)
Definition fail_dependents (finish : JobPtr → JobResult → MM unit) (u : UnitPtr) (d : UnitDependency)
    (overridable : bool) : MM unit :=
  U ← unit_at u;
  for_each (dependencies U d) (λ other,
    O ← unit_at other;
    match u_job O with
    | None => mret tt
    | Some k =>
        K ← job_at k;
        when (negb (overridable && override K) && is_start_like (j_type K)) (finish k JOB_DEPENDENCY)
    end).

(** The jobs of the units that [d] lists get another chance to run. *)
Definition wake (u : UnitPtr) (d : UnitDependency) : MM unit :=
  U ← unit_at u;
  for_each (dependencies U d) (λ other,
    O ← unit_at other;
    match u_job O with None => mret tt | Some k => job_add_to_run_queue k end).

Definition finish_end (u : UnitPtr) : MM unit :=
  wake u UNIT_AFTER;; wake u UNIT_BEFORE;; manager_check_finished.

Definition finish_with (n : nat) (finish : JobPtr → JobResult → MM unit) (j : JobPtr) (result : JobResult)
    : MM unit :=
  J ← job_at j;
  assert_ (installed J);;
  job_add_to_dbus_queue j;;
  if bool_decide (result = JOB_DONE ∧ (j_type J = JOB_RESTART ∨ j_type J = JOB_TRY_RESTART)) then
    update_job j (λ J, J <| j_state := JOB_WAITING |> <| j_type := JOB_START |>);;
    job_add_to_run_queue j;;
    finish_end (j_unit J)
  else
    update_job j (λ J, J <| j_result := result |>);;
    when (bool_decide (result = JOB_FAILED)) (modify (λ m, m <| n_failed_jobs ::= Z.add 1 |>));;
    job_free j;;
    when (bool_decide (result ≠ JOB_DONE)) (
      if is_start_like (j_type J) then
        fail_dependents finish (j_unit J) UNIT_REQUIRED_BY false;;
        fail_dependents finish (j_unit J) UNIT_BOUND_BY false;;
        fail_dependents finish (j_unit J) UNIT_REQUIRED_BY_OVERRIDABLE true
      else when (bool_decide (j_type J = JOB_STOP))
        (fail_dependents finish (j_unit J) UNIT_CONFLICTED_BY false));;
    when (bool_decide (result = JOB_TIMEOUT ∨ result = JOB_DEPENDENCY))
      (unit_trigger_on_failure_with n finish (j_unit J));;
    finish_end (j_unit J).

Fixpoint job_finish_rec (n : nat) (j : JobPtr) (result : JobResult) : MM unit :=
  match n with
  | O => nofuel
  | S n' => finish_with n' (job_finish_rec n') j result
  end.

Definition job_finish_and_invalidate (n : nat) : JobPtr → JobResult → MM unit := job_finish_rec n.
Definition transaction_apply (n : nat) : JobMode → MM Z :=
  transaction_apply_with n (job_finish_and_invalidate n).
Definition transaction_activate (n : nat) : JobMode → MM Z :=
  transaction_activate_with n (job_finish_and_invalidate n).
Definition manager_add_job (n : nat) : JobType → UnitPtr → JobMode → bool → MM (Z * option JobPtr) :=
  manager_add_job_with n (job_finish_and_invalidate n).
Definition unit_trigger_on_failure (n : nat) : UnitPtr → MM unit :=
  unit_trigger_on_failure_with n (job_finish_and_invalidate n).

(** The timeout of a job, and dropping all jobs. *)
Definition job_timer_event (n : nat) (j : JobPtr) : MM unit :=
  job_finish_and_invalidate n j JOB_TIMEOUT.
Definition manager_clear_jobs (n : nat) : MM unit :=
  transaction_abort;;
  while_some n (gets (λ m, snd <$> head (jobs m))) (λ j, job_finish_and_invalidate n j JOB_CANCELED).

(** ** Starting, stopping and reloading units *)

Definition unit_condition_test (u : UnitPtr) : MM bool :=
  t ← dual_timestamp_get;
  update_unit u (λ U, U <| condition_timestamp := t |>);;
  b ← gets (λ m, vt_conditions_hold m u);
  update_unit u (λ U, U <| condition_result := b |>);;
  mret b.

(** The fuel bounds the length of a chain of units that follow each other. *)
Fixpoint unit_start_rec (n : nat) (u : UnitPtr) : MM Z :=
  match n with
  | O => nofuel
  | S n' =>
      U ← unit_at u;
      if bool_decide (load_state U ≠ UNIT_LOADED) then mret (- EINVAL)%Z else
      s ← unit_active_state u;
      if UNIT_IS_ACTIVE_OR_RELOADING s then mret (- EALREADY)%Z else
      b ← (if bool_decide (s ≠ UNIT_ACTIVATING) then unit_condition_test u else mret true);
      if negb b then mret (- EALREADY)%Z else
      f ← gets (λ m, vt_following m u);
      match f with
      | Some v => unit_start_rec n' v
      | None =>
          if negb (vt_has_start U) then mret (- EBADR)%Z else
          unit_add_to_dbus_queue u;; vt_start u
      end
  end.
Fixpoint unit_stop_rec (n : nat) (u : UnitPtr) : MM Z :=
  match n with
  | O => nofuel
  | S n' =>
      s ← unit_active_state u;
      if UNIT_IS_INACTIVE_OR_FAILED s then mret (- EALREADY)%Z else
      U ← unit_at u;
      f ← gets (λ m, vt_following m u);
      match f with
      | Some v => unit_stop_rec n' v
      | None =>
          if negb (vt_has_stop U) then mret (- EBADR)%Z else
          unit_add_to_dbus_queue u;; vt_stop u
      end
  end.
Fixpoint unit_reload_rec (n : nat) (u : UnitPtr) : MM Z :=
  match n with
  | O => nofuel
  | S n' =>
      U ← unit_at u;
      if bool_decide (load_state U ≠ UNIT_LOADED) then mret (- EINVAL)%Z else
      if negb (unit_can_reload U) then mret (- EBADR)%Z else
      s ← unit_active_state u;
      if bool_decide (s = UNIT_RELOADING) then mret (- EALREADY)%Z else
      if bool_decide (s ≠ UNIT_ACTIVE) then mret (- ENOEXEC)%Z else
      f ← gets (λ m, vt_following m u);
      match f with
      | Some v => unit_reload_rec n' v
      | None => unit_add_to_dbus_queue u;; vt_reload u
      end
  end.
Definition following_fuel : MM nat := gets (λ m, S (size (units m))).
Definition unit_start (u : UnitPtr) : MM Z := n ← following_fuel; unit_start_rec n u.
Definition unit_stop (u : UnitPtr) : MM Z := n ← following_fuel; unit_stop_rec n u.
Definition unit_reload (u : UnitPtr) : MM Z := n ← following_fuel; unit_reload_rec n u.

(** ** Running a job *)

Definition stops (t : JobType) : bool :=
  bool_decide (t = JOB_STOP) || bool_decide (t = JOB_RESTART) || bool_decide (t = JOB_TRY_RESTART).

Definition job_is_runnable (j : JobPtr) : MM bool :=
  J ← job_at j;
  assert_ (installed J);;
  if ignore_order J then mret true else
  U ← unit_at (j_unit J);
  w ← (if is_start_like (j_type J) || bool_decide (j_type J = JOB_RELOAD) then
         any (dependencies U UNIT_AFTER) (λ v, V ← unit_at v; mret (bool_decide (u_job V ≠ None)))
       else mret false);
  if w : bool then mret false else
  w ← any (dependencies U UNIT_BEFORE) (λ v, V ← unit_at v;
        match u_job V with
        | None => mret false
        | Some k => K ← job_at k; mret (stops (j_type K))
        end);
  mret (negb w).

(** [-EBADR]: nothing to do but to wait. *)
Definition ignore_badr (r : Z) : Z := if bool_decide (r = - EBADR)%Z then 0%Z else r.

(** What a running job does, by its type. *)
Definition perform (j : JobPtr) : MM Z :=
  J ← job_at j;
  let become t := update_job j (λ J, J <| j_type := t |>) in
  match j_type J with
  | JOB_START => r ← unit_start (j_unit J); mret (ignore_badr r)
  | JOB_VERIFY_ACTIVE =>
      t ← unit_active_state (j_unit J);
      mret (if UNIT_IS_ACTIVE_OR_RELOADING t then - EALREADY
            else if bool_decide (t = UNIT_ACTIVATING) then - EAGAIN else - ENOEXEC)%Z
  | JOB_STOP => r ← unit_stop (j_unit J); mret (ignore_badr r)
  | JOB_RELOAD => unit_reload (j_unit J)
  | JOB_RELOAD_OR_START =>
      t ← unit_active_state (j_unit J);
      if bool_decide (t = UNIT_ACTIVE) then become JOB_RELOAD;; unit_reload (j_unit J)
      else become JOB_START;; r ← unit_start (j_unit J); mret (ignore_badr r)
  | JOB_RESTART =>
      t ← unit_active_state (j_unit J);
      if bool_decide (t = UNIT_INACTIVE ∨ t = UNIT_FAILED ∨ t = UNIT_ACTIVATING)
      then become JOB_START;; unit_start (j_unit J) else unit_stop (j_unit J)
  | JOB_TRY_RESTART =>
      t ← unit_active_state (j_unit J);
      if bool_decide (t = UNIT_INACTIVE ∨ t = UNIT_FAILED ∨ t = UNIT_DEACTIVATING) then mret (- ENOEXEC)%Z
      else if bool_decide (t = UNIT_ACTIVATING) then become JOB_START;; unit_start (j_unit J)
      else become JOB_RESTART;; unit_stop (j_unit J)
  end.

(** Starting and stopping a unit may make the job go away, so it is looked up
    again by its id. *)
Definition job_run_and_invalidate (n : nat) (j : JobPtr) : MM Z :=
  J ← job_at j;
  assert_ (installed J);;
  when (in_run_queue J) (
    modify (λ m, m <| run_queue ::= list_remove j |>);;
    update_job j (λ J, J <| in_run_queue := false |>));;
  if bool_decide (j_state J ≠ JOB_WAITING) then mret 0%Z else
  b ← job_is_runnable j;
  if negb b then mret (- EAGAIN)%Z else
  update_job j (λ J, J <| j_state := JOB_RUNNING |>);;
  job_add_to_dbus_queue j;;
  r ← perform j;
  l ← gets jobs;
  match om_get l (j_id J) with
  | None => mret r
  | Some k =>
      if bool_decide (r = - EALREADY)%Z then job_finish_and_invalidate n k JOB_DONE;; mret 0%Z
      else if bool_decide (r = - ENOEXEC)%Z then job_finish_and_invalidate n k JOB_SKIPPED;; mret 0%Z
      else if bool_decide (r = - EAGAIN)%Z then update_job k (λ K, K <| j_state := JOB_WAITING |>);; mret r
      else if bool_decide (r < 0)%Z then job_finish_and_invalidate n k JOB_FAILED;; mret 0%Z
      else mret r
  end.

Definition manager_dispatch_run_queue (n : nat) : MM unit :=
  d ← gets dispatching_run_queue;
  if d : bool then mret tt else
  modify (λ m, m <| dispatching_run_queue := true |>);;
  while_some n (gets (λ m, head (run_queue m))) (λ j,
    J ← job_at j;
    assert_ (installed J);;
    assert_ (in_run_queue J);;
    _ ← job_run_and_invalidate n j; mret tt);;
  modify (λ m, m <| dispatching_run_queue := false |>).

(** ** A unit changes its state *)

Definition is_down (v : UnitPtr) : MM bool :=
  s ← unit_active_state v; mret (UNIT_IS_INACTIVE_OR_DEACTIVATING s).

(** Stop a unit that is only there for others when none of them runs. *)
Definition unit_check_unneeded (n : nat) (u : UnitPtr) : MM unit :=
  U ← unit_at u;
  if negb (stop_when_unneeded U) then mret tt else
  s ← unit_active_state u;
  if negb (UNIT_IS_ACTIVE_OR_ACTIVATING s) then mret tt else
  needed ← any (dependencies U UNIT_REQUIRED_BY ++ dependencies U UNIT_REQUIRED_BY_OVERRIDABLE
                ++ dependencies U UNIT_WANTED_BY ++ dependencies U UNIT_BOUND_BY)
               (λ v, d ← is_down v; mret (negb d));
  if needed : bool then mret tt else
  _ ← manager_add_job n JOB_STOP u JOB_FAIL true; mret tt.

Definition start_missing (n : nat) (u : UnitPtr) (d : UnitDependency) (mode : JobMode) (ovr : bool) : MM unit :=
  U ← unit_at u;
  for_each (dependencies U d) (λ v,
    W ← unit_at u;
    if decide (v ∈ dependencies W UNIT_AFTER) then mret tt else
    s ← unit_active_state v;
    if UNIT_IS_ACTIVE_OR_ACTIVATING s then mret tt else
    _ ← manager_add_job n JOB_START v mode ovr; mret tt).
Definition stop_running (n : nat) (u : UnitPtr) (d : UnitDependency) : MM unit :=
  U ← unit_at u;
  for_each (dependencies U d) (λ v,
    b ← is_down v;
    if b : bool then mret tt else
    _ ← manager_add_job n JOB_STOP v JOB_REPLACE true; mret tt).
Definition check_running (n : nat) (u : UnitPtr) (d : UnitDependency) : MM unit :=
  U ← unit_at u;
  for_each (dependencies U d) (λ v,
    b ← is_down v;
    if b : bool then mret tt else unit_check_unneeded n v).

Definition retroactively_start_dependencies (n : nat) (u : UnitPtr) : MM unit :=
  s ← unit_active_state u;
  assert_ (UNIT_IS_ACTIVE_OR_ACTIVATING s);;
  start_missing n u UNIT_REQUIRES JOB_REPLACE true;;
  start_missing n u UNIT_BIND_TO JOB_REPLACE true;;
  start_missing n u UNIT_REQUIRES_OVERRIDABLE JOB_FAIL false;;
  start_missing n u UNIT_REQUISITE JOB_REPLACE true;;
  start_missing n u UNIT_WANTS JOB_FAIL false;;
  stop_running n u UNIT_CONFLICTS;;
  stop_running n u UNIT_CONFLICTED_BY.

Definition retroactively_stop_dependencies (n : nat) (u : UnitPtr) : MM unit :=
  s ← unit_active_state u;
  assert_ (UNIT_IS_INACTIVE_OR_DEACTIVATING s);;
  stop_running n u UNIT_BOUND_BY;;
  check_running n u UNIT_REQUIRES;;
  check_running n u UNIT_REQUIRES_OVERRIDABLE;;
  check_running n u UNIT_WANTS;;
  check_running n u UNIT_REQUISITE;;
  check_running n u UNIT_REQUISITE_OVERRIDABLE;;
  check_running n u UNIT_BIND_TO.

(** What the state [ns] means for the job of a unit: how the job ends, if it
    does, and whether the state was not asked for. *)
Definition notify_job (t : JobType) (js : JobState) (ns : UnitActiveState) (reload_success : bool)
    : option JobResult * bool :=
  let running := bool_decide (js = JOB_RUNNING) in
  let down := if UNIT_IS_INACTIVE_OR_FAILED ns
              then Some (if decide (ns = UNIT_FAILED) then JOB_FAILED else JOB_DONE) else None in
  match t with
  | JOB_START | JOB_VERIFY_ACTIVE =>
      if UNIT_IS_ACTIVE_OR_RELOADING ns then (Some JOB_DONE, false)
      else if running && bool_decide (ns ≠ UNIT_ACTIVATING) then (down, true)
      else (None, false)
  | JOB_RELOAD | JOB_RELOAD_OR_START =>
      if negb running then (None, false)
      else if bool_decide (ns = UNIT_ACTIVE)
      then (Some (if reload_success then JOB_DONE else JOB_FAILED), false)
      else if bool_decide (ns ≠ UNIT_ACTIVATING) && bool_decide (ns ≠ UNIT_RELOADING) then (down, true)
      else (None, false)
  | JOB_STOP | JOB_RESTART | JOB_TRY_RESTART =>
      if UNIT_IS_INACTIVE_OR_FAILED ns then (Some JOB_DONE, false)
      else if running && bool_decide (ns ≠ UNIT_DEACTIVATING) then (Some JOB_FAILED, true)
      else (None, false)
  end.

(** The four timestamps. *)
Definition stamp (os ns : UnitActiveState) (ts : DualTimestamp) (U : Unit P) : Unit P :=
  let off s := UNIT_IS_INACTIVE_OR_FAILED s in
  let on s := UNIT_IS_ACTIVE_OR_RELOADING s in
  let U := if off os && negb (off ns) then U <| inactive_exit_timestamp := ts |>
           else if negb (off os) && off ns then U <| inactive_enter_timestamp := ts |> else U in
  if negb (on os) && on ns then U <| active_enter_timestamp := ts |>
  else if on os && negb (on ns) then U <| active_exit_timestamp := ts |> else U.

(** Without the notes to the audit log, the splash screen, the bus and the
    control group. *)
Definition unit_notify (n : nat) (u : UnitPtr) (os ns : UnitActiveState) (reload_success : bool) : MM unit :=
  reloading ← gets (λ m, bool_decide (0 < n_reloading m)%Z);
  when (negb reloading) (
    ts ← dual_timestamp_get;
    update_unit u (stamp os ns ts);;
    vt_state_changed u ns);;
  U ← unit_at u;
  unexpected ← match u_job U with
    | None => mret true
    | Some j =>
        J ← job_at j;
        when (bool_decide (j_state J = JOB_WAITING)) (job_add_to_run_queue j);;
        let '(res, unexpected) := notify_job (j_type J) (j_state J) ns reload_success in
        match res with None => mret tt | Some r => job_finish_and_invalidate n j r end;;
        mret unexpected
    end;
  when (negb reloading) (
    when unexpected (
      if UNIT_IS_INACTIVE_OR_FAILED os && UNIT_IS_ACTIVE_OR_ACTIVATING ns
      then retroactively_start_dependencies n u
      else when (UNIT_IS_ACTIVE_OR_ACTIVATING os && UNIT_IS_INACTIVE_OR_DEACTIVATING ns)
        (retroactively_stop_dependencies n u));;
    when (bool_decide (ns ≠ os ∧ ns = UNIT_FAILED)) (unit_trigger_on_failure n u));;
  update_unit u (λ U,
    if bool_decide (u_type U ≠ Some UNIT_SERVICE) || reloading then U
    else if UNIT_IS_ACTIVE_OR_RELOADING ns then
      if UNIT_IS_ACTIVE_OR_RELOADING os then U else U <| in_audit := true |>
    else if UNIT_IS_INACTIVE_OR_FAILED ns && negb (UNIT_IS_INACTIVE_OR_FAILED os)
    then U <| in_audit := false |> else U);;
  unit_check_unneeded n u;;
  unit_add_to_dbus_queue u;;
  unit_add_to_gc_queue u.
End activate.
