(* ===== verification/ApplySpec.v ===== *)
(** * What applying a transaction does (Activate.v)

    [transaction_apply] on a merged transaction installs each of its jobs in
    place of the job its unit had, and leaves no transaction behind. *)

From stdpp Require Import base gmap strings list fin_maps.
From Stdlib Require Import ZArith Lia.
From S2P Require Import Prelude CString JobType OrderedMap Engine Transaction TransactionAdd Order Links Wf WfCheck Passes Installed Merge Rollback Activate.

Section apply_spec.
Context {P : Type} `{UnitVTableLaws P}.
Abbreviation MM := (M (Manager P)).
Implicit Types m : Manager P.

(** ** Freeing the job that is replaced *)

(** The parts of the state that installing does not touch. *)
Definition same_base m m' : Prop :=
  dep_heap m' = dep_heap m ∧ transaction_jobs m' = transaction_jobs m ∧
  transaction_anchor m' = transaction_anchor m ∧ next_ptr m' = next_ptr m ∧ oom m' = oom m ∧
  current_job_id m' = current_job_id m.

#[global] Instance same_base_preorder : PreOrder same_base.
Proof. split; [done|]. unfold same_base. intros m1 m2 m3 H1 H2. naive_solver congruence. Qed.

Record dropped (k : JobPtr) (K : Job) m m' : Prop := {
  dr_rejob : rejob (j_unit K) None m m';
  dr_heap : job_heap m' = delete k (job_heap m);
  dr_jobs : jobs m' = om_remove (jobs m) (j_id K);
  dr_runq : run_queue m' = if in_run_queue K then list_remove k (run_queue m) else run_queue m;
  dr_dbusq : dbus_job_queue m' = if in_dbus_queue K then list_remove k (dbus_job_queue m) else dbus_job_queue m;
  dr_base : same_base m m' }.

Lemma chain_unlink_id u j m : j ∉ chain_of u m → chain_unlink u j (transaction_jobs m) = transaction_jobs m.
Proof.
  unfold chain_unlink, chain_of. destruct (om_get (transaction_jobs m) u); simpl; [|done].
  intros ?. by rewrite decide_False.
Qed.

Lemma job_free_installed_spec m k K U s :
  job_heap m !! k = Some K → installed K = true → subject_list K = [] → object_list K = [] →
  units m !! j_unit K = Some U → u_job U = Some k → active_state_in (units m) (j_unit K) = Some s →
  (k ∉ chain_of (j_unit K) m) →
  wp (job_free k) m (λ _ m', dropped k K m m').
Proof.
  intros HK Hi Es Eo HU Hj Hs Hk. unfold job_free, delete_fuel. wp_step. wp_step.
  set (n := S (S (size (dep_heap m)))). unfold job_free_with.
  wp_step. eapply wp_job_at; [done|]. rewrite Hi. wp_step. cbn [when]. wp_step. eapply wp_unit_at; [done|].
  wp_step. rewrite bool_decide_true by done. cbn [when]. wp_step.
  eapply wp_intro; [by apply (update_unit_eq _ _ m U)|].
  set (f := λ U : Unit P, U <| u_job := None |>).
  set (m1 := m <| units ::= <[j_unit K := f U]> |>).
  assert (bare <$> units m1 = bare <$> units m) as Hb1 by (by apply (bare_insert _ _ U)).
  assert (units m1 !! j_unit K = Some (f U)) as HU1 by (simpl; apply lookup_insert_eq).
  eapply wp_mono.
  { apply (unit_add_to_gc_queue_spec m1 (j_unit K) (f U) s HU1). by rewrite (active_state_bare _ _ _ Hb1). }
  intros [] m2 Hq. destruct (queued_fields _ _ Hq) as (Eh & Ed & Ejobs & Et & Ea & Er & Edq & En & Eoom & Ec).
  assert (rejob (j_unit K) None m m2) as Hrj.
  { split.
    - by rewrite (qu_units _ _ Hq).
    - destruct (queued_units' _ _ _ _ Hq HU1) as (U2 & HU2 & _ & E2). exists U2. split; [done|]. by rewrite E2.
    - intros v V' Hv HV'. destruct (queued_units _ _ _ _ Hq HV') as (V & HV & _ & E).
      exists V. split; [|done]. simpl in HV. by rewrite lookup_insert_ne in HV. }
  wp_step. wp_step.
  set (m3 := m2 <| jobs ::= _ |>).
  assert (job_heap m3 !! k = Some K) as HK3 by (unfold m3; simpl; by rewrite Eh).
  eapply wp_intro; [by apply (update_job_eq k _ m3 K)|].
  set (K1 := K <| installed := false |>).
  set (m4 := m3 <| job_heap ::= alter (λ J : Job, J <| installed := false |>) k |>).
  assert (job_heap m4 !! k = Some K1) as HK4 by (unfold m4; simpl; rewrite lookup_alter_eq, Eh; simpl; by rewrite HK).
  wp_step. unfold unlink_job_with. wp_step. eapply wp_job_at; [exact HK4|]. wp_step. wp_step.
  assert (transaction_jobs m4 = transaction_jobs m) as Et4 by (unfold m4, m3; simpl; by rewrite Et).
  assert (m4 <| transaction_jobs ::= chain_unlink (j_unit K1) k |> = m4) as ->.
  { unfold upd at 1. rewrite Et4. rewrite chain_unlink_id by done. rewrite <- Et4. by destruct m4. }
  assert (∀ (pick : Job → list DepPtr) body, pick K1 = [] →
    while_some n (J ← job_at k; mret (list_head (pick J))) body m4 = Ret tt m4) as Hloop.
  { intros pick body Hp. simpl. unfold job_at, mbind, M_bind. rewrite HK4. simpl. by rewrite Hp. }
  wp_step. eapply wp_intro; [by apply (Hloop subject_list)|].
  eapply wp_intro; [by apply (Hloop object_list)|].
  wp_step. eapply wp_job_at; [exact HK4|].
  wp_step. eapply (wp_intro _ _ tt (m4 <| run_queue ::= if in_run_queue K then list_remove k else id |>)).
  { change (in_run_queue K1) with (in_run_queue K). destruct (in_run_queue K); simpl; [done|]. by destruct m4. }
  wp_step. set (m5 := m4 <| run_queue ::= _ |>).
  eapply (wp_intro _ _ tt (m5 <| dbus_job_queue ::= if in_dbus_queue K then list_remove k else id |>)).
  { change (in_dbus_queue K1) with (in_dbus_queue K). destruct (in_dbus_queue K); simpl; [done|]. by destruct m5. }
  wp_step. split.
  - destruct Hrj. by split.
  - unfold m5, m4, m3; simpl. rewrite Eh. apply map_eq. intros j.
    rewrite !lookup_delete. case_decide; [done|]. by rewrite lookup_alter_ne.
  - unfold m5, m4, m3; simpl. by rewrite Ejobs.
  - unfold m5, m4, m3; simpl. rewrite Er. by destruct (in_run_queue K).
  - unfold m5, m4, m3; simpl. rewrite Edq. by destruct (in_dbus_queue K).
  - done.
Qed.

(** ** Installing *)

Record placed (j : JobPtr) (J : Job) m m' : Prop := {
  pl_rejob : rejob (j_unit J) (Some j) m m';
  pl_heap : ∃ tw, job_heap m' = <[j := install J <| timer_watch := tw |>]> (job_heap m);
  pl_jobs : jobs m' = jobs m;
  pl_runq : run_queue m' = j :: run_queue m;
  pl_dbusq : dbus_job_queue m' = j :: dbus_job_queue m;
  pl_base : same_base m m' }.

Lemma job_start_timer_spec m j J U :
  job_heap m !! j = Some J → units m !! j_unit J = Some U → oom m = [] →
  wp (job_start_timer j) m (λ _ m', ∃ tw, m' = m <| job_heap ::= <[j := J <| timer_watch := tw |>]> |>).
Proof.
  intros HJ HU Hoom. unfold job_start_timer. wp_step. eapply wp_job_at; [done|].
  wp_step. eapply wp_unit_at; [done|].
  assert (m = m <| job_heap ::= <[j := J <| timer_watch := timer_watch J |>]> |>) as Eid.
  { assert (J <| timer_watch := timer_watch J |> = J) as -> by (by destruct J).
    unfold upd. rewrite insert_id by done. by destruct m. }
  destruct (_ || timer_watch J); [wp_step; by exists (timer_watch J)|].
  wp_step. eapply (wp_intro _ _ true m); [unfold alloc; by rewrite Hoom|]. cbn [when].
  eapply wp_intro; [by apply (update_job_insert j _ m J)|]. by exists true.
Qed.

Lemma install_rest_spec m j J U :
  job_heap m !! j = Some J → installed J = false → in_run_queue J = false → in_dbus_queue J = false →
  units m !! j_unit J = Some U → oom m = [] →
  wp (update_unit (j_unit J) (λ U, U <| u_job := Some j |>);;
      update_job j (λ J, J <| installed := true |>);;
      modify (λ m, m <| n_installed_jobs ::= Z.add 1 |>);;
      job_add_to_run_queue j;;
      job_add_to_dbus_queue j;;
      job_start_timer j) m (λ _ m', placed j J m m').
Proof.
  intros HJ Hi Hr Hd HU Hoom. set (fu := λ U : Unit P, U <| u_job := Some j |>).
  wp_step. eapply wp_intro; [by apply (update_unit_eq _ fu m U)|].
  set (m1 := m <| units ::= _ |>). wp_step. eapply wp_intro; [by apply (update_job_insert j _ m1 J)|].
  set (J2 := J <| installed := true |>). wp_step. wp_step.
  match goal with |- wp _ ?s _ => set (m3 := s) end.
  assert (job_heap m3 !! j = Some J2) as HJ3 by (unfold m3; simpl; apply lookup_insert_eq).
  set (m4 := m3 <| run_queue ::= cons j |>).
  wp_step. eapply (wp_intro _ _ tt (m4 <| job_heap ::= <[j := J2 <| in_run_queue := true |>]> |>)).
  { unfold job_add_to_run_queue. rewrite (bind_ret _ _ m3 J2 m3) by by apply reads_job.
    rewrite (bind_ret _ _ m3 tt m3) by done. change (in_run_queue J2) with (in_run_queue J). rewrite Hr.
    rewrite (bind_ret _ _ m3 tt m4) by done. by apply (update_job_insert j _ m4 J2). }
  set (J3 := J2 <| in_run_queue := true |>). set (m5 := m4 <| job_heap ::= _ |>).
  assert (job_heap m5 !! j = Some J3) as HJ5 by (unfold m5; simpl; apply lookup_insert_eq).
  set (m6 := m5 <| dbus_job_queue ::= cons j |>).
  wp_step. eapply (wp_intro _ _ tt (m6 <| job_heap ::= <[j := install J]> |>)).
  { unfold job_add_to_dbus_queue. rewrite (bind_ret _ _ m5 J3 m5) by by apply reads_job.
    rewrite (bind_ret _ _ m5 tt m5) by done. change (in_dbus_queue J3) with (in_dbus_queue J). rewrite Hd.
    rewrite (bind_ret _ _ m5 tt m6) by done. by apply (update_job_insert j _ m6 J3). }
  set (m7 := m6 <| job_heap ::= _ |>).
  assert (units m7 = <[j_unit J := fu U]> (units m)) as EU by reflexivity.
  eapply wp_mono; [apply (job_start_timer_spec m7 j (install J) (fu U))|].
  - unfold m7; simpl. apply lookup_insert_eq.
  - rewrite EU. apply lookup_insert_eq.
  - exact Hoom.
  - intros [] m' [tw ->]. split; try done.
    + split.
      * change (bare <$> <[j_unit J := fu U]> (units m) = bare <$> units m). by apply (bare_insert _ _ U).
      * exists (fu U). split; [|done]. change (units _) with (<[j_unit J := fu U]> (units m)). apply lookup_insert_eq.
      * intros v V' Hv. change (units _) with (<[j_unit J := fu U]> (units m)) at 1.
        rewrite lookup_insert_ne by done. eauto.
    + exists tw. transitivity (<[j := install J <| timer_watch := tw |>]> (<[j := install J]> (<[j := J3]>
        (<[j := J2]> (job_heap m))))); [reflexivity|]. by rewrite !insert_insert_eq.
Qed.

(** ** Entering the new jobs into the map *)

Definition tx_merged m : Prop := ∀ u l, (u, l) ∈ transaction_jobs m → ∃ j, l = [j].

Definition pending m (tj : list (UnitPtr * list JobPtr)) : list (Z * JobPtr) :=
  omap (λ e : UnitPtr * list JobPtr, match e.2 with
    | [j] => J ← job_heap m !! j; if installed J then None else Some (j_id J, j)
    | _ => None
    end) tj.

Lemma put_jobs_eq tj : ∀ m,
  (∀ e, e ∈ tj → ∃ j J, e.2 = [j] ∧ job_heap m !! j = Some J) →
  om_wf (jobs m ++ pending m tj) → oom m = [] →
  put_jobs tj m = Ret 0%Z (m <| jobs ::= λ l, l ++ pending m tj |>).
Proof.
  induction tj as [|[u l] tj IH]; intros m Hlive Hnd Hoom.
  { unfold put_jobs; simpl. unfold mret, M_ret. f_equal. unfold upd. rewrite app_nil_r. by destruct m. }
  destruct (Hlive (u, l)) as (j & J & El & HJ); [left|]. simpl in El. subst l.
  assert (∀ e, e ∈ tj → ∃ j J, e.2 = [j] ∧ job_heap m !! j = Some J) as Hlive' by (intros; apply Hlive; by right).
  unfold put_jobs; cbn [for_each_r]. rewrite (bind_ret _ _ m (if installed J then 0 else 1)%Z
    (m <| jobs ::= λ l, l ++ pending m [(u, [j])] |>)).
  2: { rewrite (bind_ret _ _ m j m) by done. rewrite (bind_ret _ _ m J m) by by apply reads_job.
       unfold pending in *; simpl in *. rewrite HJ in *. simpl in *. destruct (installed J); simpl in *.
       - unfold mret, M_ret. f_equal. unfold upd. rewrite app_nil_r. by destruct m.
       - unfold jobs_put. rewrite (bind_ret _ _ m (jobs m) m) by done.
         assert (om_get (jobs m) (j_id J) = None) as ->.
         { apply om_get_None. unfold om_wf, om_keys in Hnd. rewrite fmap_app in Hnd.
           apply NoDup_app in Hnd as (_ & Hn & _). intros Hin. apply (Hn _ Hin). left. }
         rewrite (bind_ret _ _ m true m) by (unfold alloc; by rewrite Hoom). done. }
  rewrite bool_decide_false by (destruct (installed J); lia).
  set (m1 := m <| jobs ::= _ |>).
  assert (pending m ((u, [j]) :: tj) = pending m [(u, [j])] ++ pending m tj) as Ep.
  { unfold pending; simpl. rewrite HJ. simpl. by destruct (installed J). }
  pose proof (IH m1) as IH1. unfold put_jobs in IH1. rewrite IH1; [|exact Hlive'| |exact Hoom].
  - f_equal. rewrite Ep. change (pending m1 tj) with (pending m tj). unfold m1, upd; simpl.
    by rewrite app_assoc.
  - change (om_wf ((jobs m ++ pending m [(u, [j])]) ++ pending m tj)). by rewrite <- app_assoc, <- Ep.
Qed.

(** ** The state while jobs are installed *)

Definition is_installed m (j : JobPtr) : bool :=
  match job_heap m !! j with Some J => installed J | None => false end.
(** The jobs to be installed are in the map already; without them, the
    invariant holds. *)
Definition settled m : Manager P :=
  m <| jobs ::= filter (λ e : Z * JobPtr, is_installed m e.2 = true) |>.

Lemma elem_of_settled m e : e ∈ jobs (settled m) ↔ e ∈ jobs m ∧ is_installed m e.2 = true.
Proof. unfold settled; simpl. rewrite list_elem_of_filter. tauto. Qed.
Lemma settled_om_wf m : om_wf (jobs m) → om_wf (jobs (settled m)).
Proof.
  unfold om_wf, om_keys. intros Hn. eapply sublist_NoDup; [exact Hn|]. apply fmap_sublist, sublist_filter.
Qed.
Lemma settled_id m : (∀ e, e ∈ jobs m → is_installed m e.2 = true) → settled m = m.
Proof. intros Hi. unfold settled, upd. rewrite filter_id by done. by destruct m. Qed.

(** [s] has some of the jobs of the transaction of [m] installed. *)
Record applying (X : list JobPtr) m s : Prop := {
  ap_wf : wf X (settled s);
  ap_jobs : om_wf (jobs s);
  ap_live : ∀ id j, (id, j) ∈ jobs s → ∃ J, job_heap s !! j = Some J ∧ j_id J = id;
  ap_in : ∀ j J, j ∈ all_jobs s ∨ j ∈ X → job_heap s !! j = Some J → (j_id J, j) ∈ jobs s;
  ap_todo : ∀ id j, (id, j) ∈ jobs s → is_installed s j = true ∨ j ∈ all_jobs s ∨ j ∈ X;
  ap_tj : ∃ done, transaction_jobs m = done ++ transaction_jobs s;
  ap_done : ∀ j, j ∈ all_jobs m → j ∉ all_jobs s → j ∉ X → is_installed s j = true;
  ap_kept : ∀ j, j ∈ all_jobs m → is_Some (job_heap s !! j);
  ap_heap : ∀ j J', job_heap s !! j = Some J' → ∃ J, job_heap m !! j = Some J ∧
    j_unit J' = j_unit J ∧ j_id J' = j_id J ∧ j_type J' = j_type J ∧ j_state J' = j_state J ∧
    (installed J = true → installed J' = true) ∧
    (installed J = false → installed J' = true → in_run_queue J' = true) ∧ (j ∉ all_jobs m → J' = J);
  ap_units : bare <$> units s = bare <$> units m;
  ap_others : ∀ u U', u ∉ om_keys (transaction_jobs m) → units s !! u = Some U' →
    ∃ U, units m !! u = Some U ∧ u_job U' = u_job U;
  ap_dep : dep_heap s = dep_heap m;
  ap_oom : oom s = [] }.

Lemma elem_of_all m j : tx_merged m → j ∈ all_jobs m ↔ ∃ u, (u, [j]) ∈ transaction_jobs m.
Proof.
  intros Ht. unfold all_jobs. rewrite elem_of_concat. split.
  - intros (l & ((u & l') & -> & Hl)%list_elem_of_fmap & Hj). destruct (Ht u l' Hl) as [k ->]. simpl in Hj.
    apply list_elem_of_singleton in Hj as ->. by exists u.
  - intros [u Hu]. exists [j]. split; [|left]. apply list_elem_of_fmap. by exists (u, [j]).
Qed.

(** The first job leaves the map of the transaction. *)
Lemma applying_steal m s u l tj :
  applying [] m s → tx_merged m → transaction_jobs s = (u, l) :: tj →
  ∃ j J, l = [j] ∧ job_heap s !! j = Some J ∧ j_unit J = u ∧ (u, [j]) ∈ transaction_jobs m ∧
    applying [j] m (with_tj tj s) ∧ (∀ v, j ∉ chain_of v (with_tj tj s)).
Proof.
  intros Ha Htx Etj. destruct (ap_tj _ _ _ Ha) as [don Edone].
  assert ((u, l) ∈ transaction_jobs m) as Hin by (rewrite Edone, Etj; apply elem_of_app; right; left).
  destruct (Htx u l Hin) as [j ->]. pose proof (ap_wf _ _ _ Ha) as Hws.
  destruct (wc_tj _ _ (proj1 Hws)) as [Ho Ht]. change (transaction_jobs (settled s)) with (transaction_jobs s) in *.
  destruct (Ht u [j]) as (_ & _ & Hl); [rewrite Etj; left|].
  destruct (Hl j) as (J0 & HJ & Eu); [left|]. apply eheap_Some in HJ as (J & HJ & ->). simpl in Eu.
  exists j, J. destruct (chain_unlink_spec [] (settled s) j J Hws HJ) as (Hw1 & _ & Hall).
  assert (chain_unlink u j (transaction_jobs s) = tj) as Eun.
  { rewrite Etj. unfold chain_unlink. simpl. rewrite decide_True by done. rewrite decide_True by left.
    unfold list_remove. rewrite filter_cons_False by naive_solver. simpl. unfold om_remove.
    rewrite filter_cons_False by naive_solver. apply filter_id. intros [v l'] Hv. simpl. intros ->.
    unfold om_wf, om_keys in Ho. rewrite Etj in Ho. apply NoDup_cons in Ho as [Hn _]. apply Hn.
    apply list_elem_of_fmap. by exists (u, l'). }
  rewrite Eu in Hw1, Hall. change (transaction_jobs (settled s)) with (transaction_jobs s) in *.
  rewrite Eun in Hw1, Hall.
  assert (∀ k, k ∈ all_jobs (with_tj tj s) ↔ k ∈ all_jobs s ∧ k ≠ j) as Hall' by exact Hall.
  assert (∀ k, k ∈ all_jobs s ↔ k = j ∨ k ∈ all_jobs (with_tj tj s)) as Hk.
  { intros k. rewrite Hall'. split; [|unfold all_jobs; rewrite Etj; naive_solver set_solver].
    destruct (decide (k = j)); auto. }
  split_and!; try done.
  - destruct Ha as [? ? ? Hi Htodo ? Hd]. split; try done.
    + intros k K Hor. apply Hi. left. apply Hk. rewrite list_elem_of_singleton in Hor. tauto.
    + intros id k Hin'. destruct (Htodo id k Hin') as [?|[[->| ?]%Hk|?%elem_of_nil]]; [auto| |auto|done].
      right; right; left.
    + exists (don ++ [(u, [j])]). rewrite Edone, Etj. by rewrite <- app_assoc.
    + intros k Hkm Hn Hne. apply Hd; [done| |apply not_elem_of_nil]. rewrite Hk.
      rewrite list_elem_of_singleton in Hne. tauto.
  - intros v Hj. assert (j ∈ all_jobs (with_tj tj s)) as [_ ?]%Hall'; [|done].
    apply elem_of_chain in Hj as (l' & Hl'%om_get_Some_elem & ?). unfold all_jobs.
    apply elem_of_concat. exists l'. split; [|done]. apply list_elem_of_fmap. by exists (v, l').
Qed.

(** ** Installing one job *)

Lemma wf_links_ext m m' :
  dep_heap m' = dep_heap m → transaction_anchor m' = transaction_anchor m →
  (∀ j, (λ J, (subject_list J, object_list J)) <$> job_heap m' !! j =
        (λ J, (subject_list J, object_list J)) <$> job_heap m !! j) →
  wf_links m → wf_links m'.
Proof.
  intros Ed Ea Eh [H1 H2 H3].
  assert (∀ s, subjects_of m' s = subjects_of m s) as Es.
  { intros [j|]; simpl; [|by rewrite Ea]. specialize (Eh j).
    destruct (job_heap m' !! j), (job_heap m !! j); simpl in *; congruence. }
  assert (∀ j, objects_of m' j = objects_of m j) as Eo.
  { intros j. unfold objects_of. specialize (Eh j).
    destruct (job_heap m' !! j), (job_heap m !! j); simpl in *; congruence. }
  split.
  - intros d l. rewrite Ed, Es, Eo. apply H1.
  - intros x ds. rewrite Es, Ed. apply H2.
  - intros j ds. rewrite Eo, Ed. apply H3.
Qed.

(** The job that a unit of the transaction has outside it. *)
Lemma applying_outside j m s J U k :
  applying [j] m s → tx_merged m → wf [] m → inside m →
  (j_unit J, [j]) ∈ transaction_jobs m → is_installed s j = false →
  units s !! j_unit J = Some U → u_job U = Some k →
  ∃ K, job_heap s !! k = Some K ∧ j_unit K = j_unit J ∧ installed K = true ∧ k ≠ j ∧
    (k ∉ all_jobs m) ∧ subject_list K = [] ∧ object_list K = [].
Proof.
  intros Ha Htx Hwf Hin Hj Hi HU Hk. pose proof (ap_wf _ _ _ Ha) as [Hc Hl].
  destruct (wc_unit _ _ Hc _ U HU) as (_ & _ & Hjob). destruct (Hjob k Hk) as (K0 & HK & Eu & HiK).
  apply eheap_Some in HK as (K & HK & ->). simpl in Eu, HiK. change (job_heap s !! k = Some K) in HK.
  assert (k ≠ j) as Hne by (intros ->; unfold is_installed in Hi; rewrite HK in Hi; congruence).
  assert (k ∉ all_jobs m) as Hkm.
  { intros [v Hv]%elem_of_all; [|done]. destruct (ap_heap _ _ _ Ha k K HK) as (K1 & HK1 & Eu1 & _).
    destruct (wc_tj _ _ (proj1 Hwf)) as [Ho Ht]. destruct (Ht v [k] Hv) as (_ & _ & Hlive).
    destruct (Hlive k) as (K2 & HK2 & Eu2); [left|]. apply eheap_Some in HK2 as (K3 & HK3 & ->).
    simpl in Eu2. assert (v = j_unit J) as -> by congruence.
    apply om_elem_get in Hv, Hj; [|done..]. congruence. }
  exists K. split_and!; try done.
  - destruct (subject_links _ Hl (Some k) (subject_list K)) as [_ Hd]; [simpl; by rewrite HK|].
    destruct (subject_list K) as [|d ds]; [done|]. destruct (Hd d) as (l & Hdl & Es); [left|].
    change (dep_heap s !! d = Some l) in Hdl. rewrite (ap_dep _ _ _ Ha) in Hdl.
    destruct (Hin d l Hdl) as [_ Hs]. by destruct Hkm; apply Hs.
  - destruct (object_links _ Hl k (object_list K)) as [_ Hd]; [unfold objects_of; simpl; by rewrite HK|].
    destruct (object_list K) as [|d ds]; [done|]. destruct (Hd d) as (l & Hdl & Es); [left|].
    change (dep_heap s !! d = Some l) in Hdl. rewrite (ap_dep _ _ _ Ha) in Hdl.
    destruct (Hin d l Hdl) as [Ho _]. congruence.
Qed.

Lemma applying_all X m s j : applying X m s → j ∈ all_jobs s → j ∈ all_jobs m.
Proof.
  intros Ha. destruct (ap_tj _ _ _ Ha) as [don E]. unfold all_jobs. rewrite E, fmap_app, concat_app.
  intros ?. apply elem_of_app. by right.
Qed.
Lemma chain_all m u j : j ∈ chain_of u m → j ∈ all_jobs m.
Proof.
  intros (l & Hl%om_get_Some_elem & ?)%elem_of_chain. apply elem_of_concat. exists l.
  split; [|done]. apply list_elem_of_fmap. by exists (u, l).
Qed.

Lemma queue_without (q : list JobPtr) k (b : bool) :
  (k ∈ q → b = true) → (if b then list_remove k q else q) = list_remove k q.
Proof. intros Hq. destruct b; [done|]. rewrite list_remove_id; [done|]. intros ?%Hq. done. Qed.

(** Its heap, and with it the rest, changes at the job [k] only. *)
Lemma is_installed_other m m' j : job_heap m' !! j = job_heap m !! j → is_installed m' j = is_installed m j.
Proof. unfold is_installed. by intros ->. Qed.

Lemma applying_drop_wf m s s' j J k K :
  applying [j] m s → job_heap s !! k = Some K → installed K = true → j_unit K = j_unit J → k ≠ j →
  k ∉ all_jobs m → subject_list K = [] → object_list K = [] → dropped k K s s' →
  wf [j] (settled s').
Proof.
  intros Ha HK Hi Eu Hne Hkm Es Eo [Hrj Eh Ejobs Er Ed (Edep & Et & Ean & En & Eoom & Ec)].
  pose proof (ap_wf _ _ _ Ha) as [Hc Hl]. split.
  - assert (eheap (settled s) !! k = Some (erase_lists K)) as HeK by (apply eheap_Some; by exists K).
    destruct (wc_runq _ _ Hc) as [_ Hr]. destruct (wc_dbusq _ _ Hc) as [_ Hd].
    apply (wf_core_drop [j] (settled s) (settled s') k (erase_lists K)); try done.
    + by destruct Hrj; split.
    + intros Hin. by apply Hkm, (applying_all _ _ _ _ Ha), (chain_all s (j_unit K)).
    + unfold eheap. rewrite <- fmap_delete. simpl. by rewrite Eh.
    + apply settled_om_wf. rewrite Ejobs. apply om_wf_remove, (ap_jobs _ _ _ Ha).
    + intros [id x]. rewrite !elem_of_settled, Ejobs, om_elem_remove. simpl.
      split; [intros ((Hx & Hid) & Hix)|intros ((Hx & Hix) & Hid)]; (split; [split|]); try done.
      * revert Hix. unfold is_installed. rewrite Eh, lookup_delete. by case_decide.
      * revert Hix. unfold is_installed. rewrite Eh, lookup_delete_ne; [done|]. intros <-.
        destruct (ap_live _ _ _ Ha id k Hx) as (K' & HK' & Eid). congruence.
    + change (run_queue s' = list_remove k (run_queue s)). rewrite Er. apply queue_without.
      intros (K' & HK' & Hq)%Hr. rewrite HeK in HK'. by injection HK' as <-.
    + change (dbus_job_queue s' = list_remove k (dbus_job_queue s)). rewrite Ed. apply queue_without.
      intros (K' & HK' & Hq)%Hd. rewrite HeK in HK'. by injection HK' as <-.
  - apply (wf_links_ext (with_heap (delete k (job_heap s)) (settled s))); [done|done| |].
    + intros x. simpl. by rewrite Eh.
    + by apply (wf_links_delete (settled s) k K).
Qed.

Lemma applying_drop m s s' j J k K :
  applying [j] m s → job_heap s !! k = Some K → installed K = true → j_unit K = j_unit J → k ≠ j →
  k ∉ all_jobs m → subject_list K = [] → object_list K = [] → (j_unit J, [j]) ∈ transaction_jobs m →
  is_installed s j = false → is_Some (job_heap s !! j) →
  dropped k K s s' →
  applying [j] m s' ∧ unit_job_free s' (j_unit J) ∧ transaction_jobs s' = transaction_jobs s ∧
  job_heap s' !! j = job_heap s !! j.
Proof.
  intros Ha HK Hi Eu Hne Hkm Es Eo Hj Hji Hjl Hdr.
  pose proof (applying_drop_wf m s s' j J k K Ha HK Hi Eu Hne Hkm Es Eo Hdr) as Hw.
  destruct Hdr as [Hrj Eh Ejobs Er Ed (Edep & Et & Ean & En & Eoom & Ec)].
  destruct Hrj as [Eb (U' & HU' & EU') Hoth]. rewrite Eu in HU'.
  assert (∀ x, x ≠ k → job_heap s' !! x = job_heap s !! x) as Hx
    by (intros; rewrite Eh; by rewrite lookup_delete_ne).
  assert (all_jobs s' = all_jobs s) as Eall by (unfold all_jobs; by rewrite Et).
  pose proof (λ x, applying_all _ _ _ x Ha) as Hsub.
  assert (∀ x, x ∈ all_jobs s ∨ x ∈ [j] → x ≠ k) as Hor.
  { by intros x [Hxa%Hsub|E%list_elem_of_singleton] ->. }
  destruct Ha as [Hws Hjobs Hlive Hin Htodo Htj Hdone Hkept Hheap Hun Hot Hdep Hoom].
  split_and!; [|intros U HU; congruence|done|by apply Hx].
  split; rewrite ?Eall.
  - done.
  - rewrite Ejobs. by apply om_wf_remove.
  - intros id x. rewrite Ejobs, om_elem_remove. simpl. intros [Hxin Hid].
    destruct (Hlive id x Hxin) as (X & HX & ?). exists X. rewrite Hx; [done|]. intros ->. congruence.
  - intros x X Hxs HX. pose proof (Hor x Hxs) as Hxk. rewrite Hx in HX by done. rewrite Ejobs.
    apply om_elem_remove. simpl. pose proof (Hin x X Hxs HX) as H1. split; [done|]. intros E. rewrite E in H1.
    destruct Hws as [Hc _]. destruct (wc_job _ _ Hc k (erase_lists K)) as (U & _ & Hk).
    { apply eheap_Some. by exists K. }
    simpl in Hk. rewrite Hi in Hk. destruct Hk as [_ [H2 _]%elem_of_settled].
    apply om_elem_get in H1, H2; [|done..]. congruence.
  - intros id x. rewrite Ejobs, om_elem_remove. simpl. intros [Hxin Hid].
    rewrite (is_installed_other s s'); [by eapply Htodo|]. apply Hx. intros ->.
    destruct (Hlive id k Hxin) as (X & HX & ?). congruence.
  - destruct Htj as [don E]. exists don. by rewrite Et.
  - intros x Hxm Hn Hnj. rewrite (is_installed_other s s'); [by apply Hdone|]. apply Hx. by intros ->.
  - intros x Hxm. rewrite Hx; [by apply Hkept|]. by intros ->.
  - intros x X HX. rewrite Eh in HX. apply lookup_delete_Some in HX as [_ HX]. by apply Hheap.
  - congruence.
  - intros v V' Hv HV'. destruct (decide (v = j_unit J)) as [->|Hvj].
    { destruct Hv. apply list_elem_of_fmap. by exists (j_unit J, [j]). }
    destruct (Hoth v V') as (V & HV & E); [congruence|done|].
    destruct (Hot v V Hv HV) as (V0 & HV0 & E0). exists V0. split; [done|congruence].
  - congruence.
  - congruence.
Qed.

Lemma placed_heap s s' j J :
  placed j J s s' → ∃ J', job_heap s' = <[j := J']> (job_heap s) ∧ core_of (erase_lists J') = core_of (install (erase_lists J))
    ∧ subject_list J' = subject_list J ∧ object_list J' = object_list J ∧ installed J' = true ∧
    in_run_queue J' = true ∧
    j_unit J' = j_unit J ∧ j_id J' = j_id J ∧ j_type J' = j_type J ∧ j_state J' = j_state J.
Proof. intros [_ [tw Eh] _ _ _ _]. by exists (install J <| timer_watch := tw |>). Qed.

Lemma placed_installed s s' j J' x :
  job_heap s' = <[j := J']> (job_heap s) → installed J' = true →
  is_installed s' x = if decide (x = j) then true else is_installed s x.
Proof.
  intros Eh Hi. unfold is_installed. rewrite Eh. case_decide; [subst|].
  - by rewrite lookup_insert_eq.
  - by rewrite lookup_insert_ne.
Qed.

Lemma applying_place_wf m s s' j J :
  applying [j] m s → job_heap s !! j = Some J → installed J = false → unit_job_free s (j_unit J) →
  (∀ v, j ∉ chain_of v s) → placed j J s s' → wf [] (settled s').
Proof.
  intros Ha HJ Hi Hfree Hch Hpl. destruct (placed_heap s s' j J Hpl) as (J' & Eh & Ec & Es & Eo & Hi' & _).
  pose proof (λ x, placed_installed s s' j J' x Eh Hi') as Hinst.
  destruct Hpl as [Hrj _ Ejobs Er Ed (Edep & Et & Ean & En & Eoom & Eid)].
  pose proof (ap_wf _ _ _ Ha) as [Hc Hl]. split.
  - apply (wf_core_install [] (settled s) (settled s') j (erase_lists J)); try done.
    + apply eheap_Some. by exists J.
    + apply not_elem_of_nil.
    + by destruct Hrj; split.
    + unfold eheap. simpl. rewrite Eh, !fmap_insert. by f_equal.
    + apply settled_om_wf. rewrite Ejobs. apply (ap_jobs _ _ _ Ha).
    + intros [id x]. rewrite !elem_of_settled, Ejobs, Hinst. simpl. case_decide as Hx; [subst|naive_solver].
      assert ((j_id J, j) ∈ jobs s) as Hj by (apply (ap_in _ _ _ Ha); [right; left|done]).
      split; [|naive_solver]. intros [Hid _]. right. f_equal.
      destruct (ap_live _ _ _ Ha id j Hid) as (J0 & HJ0 & ?). congruence.
  - apply (wf_links_ext (settled s)); [done|done| |done]. intros x. simpl. rewrite Eh.
    destruct (decide (x = j)) as [->|]; [|by rewrite lookup_insert_ne]. rewrite lookup_insert_eq, HJ. simpl. congruence.
Qed.

Lemma applying_place m s s' j J :
  applying [j] m s → job_heap s !! j = Some J → installed J = false → unit_job_free s (j_unit J) →
  (∀ v, j ∉ chain_of v s) → (j_unit J, [j]) ∈ transaction_jobs m → tx_merged m → placed j J s s' →
  applying [] m s' ∧ transaction_jobs s' = transaction_jobs s.
Proof.
  intros Ha HJ Hi Hfree Hch Hj Htx Hpl. pose proof (applying_place_wf m s s' j J Ha HJ Hi Hfree Hch Hpl) as Hw.
  destruct (placed_heap s s' j J Hpl) as (J' & Eh & _ & _ & _ & Hi' & Erq & Eu & Eid & Ety & Est).
  pose proof (λ x, placed_installed s s' j J' x Eh Hi') as Hinst.
  destruct Hpl as [[Eb (U' & HU' & EU') Hoth] _ Ejobs _ _ (Edep & Et & Ean & En & Eoom & _)].
  assert (all_jobs s' = all_jobs s) as Eall by (unfold all_jobs; by rewrite Et).
  destruct Ha as [Hws Hjobs Hlive Hin Htodo Htj Hdone Hkept Hheap Hun Hot Hdep Hoom].
  assert (∀ x X', job_heap s' !! x = Some X' → (x = j ∧ X' = J') ∨ (x ≠ j ∧ job_heap s !! x = Some X')) as Hx.
  { intros x X'. rewrite Eh. intros [[-> ->]|[? ?]]%lookup_insert_Some; auto. }
  assert (∀ x, is_Some (job_heap s !! x) → is_Some (job_heap s' !! x)) as Hlv.
  { intros x. rewrite Eh. intros ?. apply lookup_insert_is_Some. destruct (decide (j = x)); auto. }
  split; [|done]. split; rewrite ?Eall.
  - done.
  - by rewrite Ejobs.
  - intros id x. rewrite Ejobs. intros Hid. destruct (Hlive id x Hid) as (X & HX & ?).
    destruct (Hlv x) as [X' HX']; [by exists X|]. exists X'. split; [done|].
    destruct (Hx x X' HX') as [[-> ->]|[_ ?]]; congruence.
  - intros x X' Hor HX'. rewrite Ejobs. destruct (Hx x X' HX') as [[-> ->]|[_ HX]].
    + rewrite Eid. apply Hin; [|done]. right. left.
    + apply Hin; [|done]. left. destruct Hor as [?|?%elem_of_nil]; done.
  - intros id x. rewrite Ejobs, Hinst. intros Hid. case_decide as Hxj; [by left|].
    destruct (Htodo id x Hid) as [?|[?|?%list_elem_of_singleton]]; auto.
  - destruct Htj as [don E]. exists don. by rewrite Et.
  - intros x Hxm Hn _. rewrite Hinst. case_decide as Hxj; [done|]. apply Hdone; [done..|].
    by rewrite list_elem_of_singleton.
  - intros x Hxm. by apply Hlv, Hkept.
  - intros x X' HX'. destruct (Hx x X' HX') as [[-> ->]|[_ HX]]; [|by apply Hheap].
    destruct (Hheap j J HJ) as (J0 & HJ0 & ? & ? & ? & ? & _ & _). exists J0. split_and!; try congruence; try done.
    intros []. apply elem_of_all; [done|]. by exists (j_unit J).
  - congruence.
  - intros v V' Hv HV'. destruct (decide (v = j_unit J)) as [->|Hvj].
    { destruct Hv. apply list_elem_of_fmap. by exists (j_unit J, [j]). }
    destruct (Hoth v V' Hvj HV') as (V & HV & E).
    destruct (Hot v V Hv HV) as (V0 & HV0 & E0). exists V0. split; [done|congruence].
  - congruence.
  - congruence.
Qed.

Lemma applying_keep m s j J :
  applying [j] m s → job_heap s !! j = Some J → installed J = true → applying [] m s.
Proof.
  intros Ha HJ Hi. assert (is_installed s j = true) as Hj by (unfold is_installed; by rewrite HJ).
  destruct Ha as [[Hc Hl] Hjobs Hlive Hin Htodo Htj Hdone Hkept Hheap Hun Hot Hdep Hoom].
  split; try done.
  - split; [|done]. apply (wf_core_weaken [] _ j); [|done]. intros J0 (J1 & HJ1 & ->)%eheap_Some.
    left. change (job_heap s !! j = Some J1) in HJ1. assert (J1 = J) as -> by congruence. done.
  - intros x X [?|?%elem_of_nil]; [|done]. apply Hin. by left.
  - intros id x Hid. destruct (Htodo id x Hid) as [?|[?|E%list_elem_of_singleton]]; [auto..|]. left. by rewrite E.
  - intros x Hxm Hn _. destruct (decide (x = j)) as [->|]; [done|]. apply Hdone; [done..|].
    by rewrite list_elem_of_singleton.
Qed.

Lemma install_job_spec m s j J :
  applying [j] m s → job_heap s !! j = Some J → (∀ v, j ∉ chain_of v s) →
  (j_unit J, [j]) ∈ transaction_jobs m → tx_merged m → wf [] m → inside m →
  wp (install_job j) s (λ _ s', applying [] m s' ∧ transaction_jobs s' = transaction_jobs s).
Proof.
  intros Ha HJ Hch Hj Htx Hwf Hin. unfold install_job. wp_step. eapply wp_job_at; [done|].
  destruct (installed J) eqn:Hi; [wp_step; by split; [apply (applying_keep m s j J)|]|].
  assert (is_installed s j = false) as Hji by (unfold is_installed; by rewrite HJ).
  pose proof (ap_wf _ _ _ Ha) as [Hc Hl].
  destruct (wc_job _ _ Hc j (erase_lists J)) as (U & HU & Hk); [apply eheap_Some; by exists J|].
  simpl in HU, Hk. rewrite Hi in Hk. destruct Hk as (_ & Hrq & Hdq).
  wp_step. eapply wp_unit_at; [done|]. wp_step.
  eapply (wp_mono _ _ (λ _ s2, applying [j] m s2 ∧ unit_job_free s2 (j_unit J) ∧
    transaction_jobs s2 = transaction_jobs s ∧ job_heap s2 !! j = job_heap s !! j)).
  { destruct (u_job U) as [k|] eqn:Hk.
    - destruct (applying_outside j m s J U k Ha Htx Hwf Hin Hj Hji HU Hk)
        as (K & HK & EuK & HiK & Hne & Hkm & Es & Eo).
      destruct (wc_unit _ _ Hc (j_unit J) U HU) as (_ & [st Hst] & _).
      eapply wp_mono; [apply (job_free_installed_spec s k K U st); try done|].
      + by rewrite EuK.
      + by rewrite EuK.
      + intros Hkc. by apply Hkm, (applying_all _ _ _ _ Ha), (chain_all s (j_unit K)).
      + intros [] s2 Hdr. apply (applying_drop m s s2 j J k K); try done.
    - wp_step. split_and!; try done. intros V HV. congruence. }
  intros [] s2 (Ha2 & Hfree & Et & EJ). rewrite HJ in EJ.
  pose proof (ap_wf _ _ _ Ha2) as [Hc2 _].
  destruct (wc_job _ _ Hc2 j (erase_lists J)) as (U2 & HU2 & _); [apply eheap_Some; by exists J|].
  eapply wp_mono; [apply (install_rest_spec s2 j J U2); try done; apply (ap_oom _ _ _ Ha2)|].
  intros [] s3 Hpl. destruct (applying_place m s2 s3 j J) as [Ha3 Et3]; try done.
  - intros v Hv. apply (Hch v). unfold chain_of in *. by rewrite <- Et.
  - split; [done|congruence].
Qed.

Lemma install_loop_spec m s :
  applying [] m s → tx_merged m → wf [] m → inside m →
  wp (while_some (S (length (transaction_jobs s))) steal_first install_job) s
    (λ _ s', applying [] m s' ∧ transaction_jobs s' = []).
Proof.
  intros Ha Htx Hwf Hin.
  apply (wp_while_some steal_first install_job (λ s, applying [] m s) (λ s, length (transaction_jobs s))
    (λ s', applying [] m s' ∧ transaction_jobs s' = [])); [|done|lia].
  clear s Ha. intros s Ha. unfold steal_first. wp_step. wp_step.
  destruct (transaction_jobs s) as [|[u l] tj] eqn:Etj; [by wp_step|].
  destruct (applying_steal m s u l tj Ha Htx Etj) as (j & J & -> & HJ & Eu & Hj & Ha1 & Hch).
  wp_step. apply wp_ret. wp_step. wp_step. wp_step.
  eapply wp_mono; [apply (install_job_spec m (with_tj tj s) j J); try done; by rewrite Eu|].
  intros [] s' [Ha' Et]. split; [done|]. rewrite Et. simpl. lia.
Qed.

(** Before the first round. *)
Lemma applying_start m :
  wf [] m → tx_merged m → oom m = [] → om_wf (jobs m ++ pending m (transaction_jobs m)) →
  applying [] m (m <| jobs ::= λ l, l ++ pending m (transaction_jobs m) |>).
Proof.
  intros Hwf Htx Hoom Hnd. set (s := m <| jobs ::= _ |>). pose proof Hwf as [Hc Hl].
  destruct (wc_jobs _ _ Hc) as [Ho Hjobs].
  assert (∀ id j, (id, j) ∈ jobs m → ∃ J, job_heap m !! j = Some J ∧ j_id J = id ∧ installed J = true) as Hold.
  { intros id j Hin. destruct (Hjobs id j Hin) as (J0 & (J & HJ & ->)%eheap_Some & ? & ?). by exists J. }
  assert (∀ id j, (id, j) ∈ pending m (transaction_jobs m) ↔
    ∃ J, job_heap m !! j = Some J ∧ j_id J = id ∧ installed J = false ∧ j ∈ all_jobs m) as Hpend.
  { intros id j. unfold pending. rewrite list_elem_of_omap. split.
    - intros ((u & l) & Hul & E). simpl in E. destruct (Htx u l Hul) as [k ->].
      destruct (job_heap m !! k) as [J|] eqn:HJ; [|done]. simpl in E.
      destruct (installed J) eqn:Hi; [done|]. injection E as <- <-. exists J. split_and!; try done.
      apply elem_of_all; [done|]. by exists u.
    - intros (J & HJ & <- & Hi & [u Hu]%elem_of_all); [|done]. exists (u, [j]). split; [done|]. simpl.
      rewrite HJ. simpl. by rewrite Hi. }
  assert (filter (λ e : Z * JobPtr, is_installed m e.2 = true) (jobs s) = jobs m) as Efil.
  { unfold s; simpl. rewrite filter_app, filter_id.
    - rewrite filter_none; [apply app_nil_r|].
      intros [id j] (J & HJ & _ & Hi & _)%Hpend. unfold is_installed. simpl. rewrite HJ, Hi. done.
    - intros [id j] (J & HJ & _ & Hi)%Hold. unfold is_installed. simpl. by rewrite HJ. }
  split; try done.
  - assert (settled s = m) as ->; [|done]. unfold settled, upd at 1. change (is_installed s) with (is_installed m).
    rewrite Efil. unfold s, upd. by destruct m.
  - intros id j [(J & HJ & ? & _)%Hold|(J & HJ & ? & _)%Hpend]%elem_of_app; eauto.
  - intros j J [Hj|?%elem_of_nil] HJ; [|done]. apply elem_of_app. destruct (installed J) eqn:Hi.
    + left. destruct (wc_job _ _ Hc j (erase_lists J)) as (U & _ & Hk); [apply eheap_Some; by exists J|].
      simpl in Hk. rewrite Hi in Hk. apply Hk.
    + right. apply Hpend. by exists J.
  - intros id j [(J & HJ & _ & Hi)%Hold|(J & HJ & _ & _ & Hj)%Hpend]%elem_of_app; [left|by right; left].
    unfold is_installed. simpl. by rewrite HJ.
  - by exists [].
  - intros j Hj. destruct (proj1 (elem_of_all_jobs [] m j Hc) Hj) as (J & HJ & _). apply eheap_live. by exists J.
  - intros j J' HJ'. exists J'. split_and!; try done. by intros -> .
  - intros u U' _ HU'. by exists U'.
Qed.

(** A merged transaction is applied. *)
Lemma transaction_apply_spec n finish m mode :
  wf [] m → inside m → tx_merged m → oom m = [] → mode ≠ JOB_ISOLATE →
  om_wf (jobs m ++ pending m (transaction_jobs m)) →
  wp (transaction_apply_with n finish mode) m (λ r m',
    r = 0%Z ∧ wf [] m' ∧ transaction_jobs m' = [] ∧ transaction_anchor m' = [] ∧ dep_heap m' = ∅ ∧
    bare <$> units m' = bare <$> units m ∧
    (∀ u j, (u, [j]) ∈ transaction_jobs m → ∃ J J' U', job_heap m !! j = Some J ∧ job_heap m' !! j = Some J' ∧
       installed J' = true ∧ j_type J' = j_type J ∧ j_state J' = j_state J ∧ units m' !! u = Some U' ∧
       u_job U' = Some j ∧ (j_id J, j) ∈ jobs m' ∧ (installed J = false → j ∈ run_queue m')) ∧
    (∀ u U', u ∉ om_keys (transaction_jobs m) → units m' !! u = Some U' →
       ∃ U, units m !! u = Some U ∧ u_job U' = u_job U) ∧
    (∀ j J', job_heap m' !! j = Some J' → ∃ J, job_heap m !! j = Some J ∧ j_unit J' = j_unit J ∧
       j_id J' = j_id J ∧ j_type J' = j_type J ∧ j_state J' = j_state J)).
Proof.
  intros Hwf Hin Htx Hoom Hmode Hnd. unfold transaction_apply_with. rewrite bool_decide_false by done.
  cbn [when]. wp_step. wp_step. wp_step. wp_step. wp_step.
  pose proof Hwf as [Hc _].
  eapply wp_intro; [apply put_jobs_eq; [|done|done]|].
  { intros [u l] Hul. destruct (Htx u l Hul) as [j ->]. exists j. destruct (wc_tj _ _ Hc) as [_ Ht].
    destruct (Ht u [j] Hul) as (_ & _ & Hl). destruct (Hl j) as (J & (J1 & HJ & _)%eheap_Some & _); [left|].
    by exists J1. }
  rewrite bool_decide_false by lia. wp_step.
  set (s0 := m <| jobs ::= _ |>).
  pose proof (install_loop_spec m s0 (applying_start m Hwf Htx Hoom Hnd) Htx Hwf Hin) as Hloop.
  change (transaction_jobs s0) with (transaction_jobs m) in Hloop.
  eapply wp_mono; [exact Hloop|].
  intros [] s [Ha Etj]. wp_step.
  assert (settled s = s) as Es.
  { apply settled_id. intros [id j] Hid. destruct (ap_todo _ _ _ Ha id j Hid) as [?|[Hj|?%elem_of_nil]]; try done.
    unfold all_jobs in Hj. rewrite Etj in Hj. by apply elem_of_nil in Hj. }
  pose proof (ap_wf _ _ _ Ha) as Hws. rewrite Es in Hws.
  eapply wp_mono; [by apply transaction_clean_dependencies_spec|].
  intros [] m' ((Hw' & Hsh & Eh & Et) & Ed & Ean). wp_step.
  pose proof (sh_rest _ _ _ (Hsh [])) as Er.
  pose proof (f_equal units Er) as Eun. pose proof (f_equal jobs Er) as Ejobs.
  change (units m' = units s) in Eun. change (jobs m' = jobs s) in Ejobs.
  split_and!; [done|done|congruence|done|done| | | |].
  - rewrite Eun. apply (ap_units _ _ _ Ha).
  - intros u j Hu. assert (j ∈ all_jobs m) as Hj by (apply elem_of_all; [done|]; by exists u).
    assert (is_installed s j = true) as Hi.
    { apply (ap_done _ _ _ Ha); [done| |apply not_elem_of_nil]. unfold all_jobs. rewrite Etj. apply not_elem_of_nil. }
    unfold is_installed in Hi. destruct (job_heap s !! j) as [J1|] eqn:HJ1; [|done].
    destruct (ap_heap _ _ _ Ha j J1 HJ1) as (J & HJ & Eu & Eid & Ety & Est & _ & Erq & _).
    assert (eheap m' !! j = Some (erase_lists J1)) as HJ' by (rewrite Eh; apply eheap_Some; by exists J1).
    destruct (wc_job _ _ (proj1 Hw') j _ HJ') as (U' & HU' & Hk). simpl in HU', Hk. rewrite Hi in Hk.
    destruct (wc_tj _ _ Hc) as [_ Ht]. destruct (Ht u [j] Hu) as (_ & _ & Hlive).
    destruct (Hlive j) as (J2 & (J3 & HJ3 & ->)%eheap_Some & Eu2); [left|]. simpl in Eu2.
    assert (j_unit J1 = u) as Eu1 by congruence. rewrite Eu1 in HU'.
    destruct (wc_runq _ _ (proj1 Hw')) as [_ Hrq].
    pose proof HJ' as (J' & HJ'' & EJ')%eheap_Some.
    pose proof (f_equal installed EJ'). pose proof (f_equal j_type EJ'). pose proof (f_equal j_state EJ').
    simpl in *. exists J, J', U'. split_and!; try congruence; try tauto.
    + rewrite <- Eid. tauto.
    + intros Hi0. apply Hrq. exists (erase_lists J1). split; [done|]. by apply Erq.
  - intros u U'. rewrite Eun. apply (ap_others _ _ _ Ha).
  - intros j J' HJ'. assert (eheap s !! j = Some (erase_lists J')) as (J1 & HJ1 & E)%eheap_Some
      by (rewrite <- Eh; apply eheap_Some; by exists J').
    destruct (ap_heap _ _ _ Ha j J1 HJ1) as (J & HJ & Eu & Eid & Ety & Est & _).
    pose proof (f_equal j_unit E). pose proof (f_equal j_id E). pose proof (f_equal j_type E).
    pose proof (f_equal j_state E). simpl in *. exists J. split_and!; congruence.
Qed.
End apply_spec.
