(* ===== verification/ActivateSpec.v ===== *)
(** * What activating a transaction does (Activate.v)

    The steps of [transaction_activate] composed: whatever the transaction
    holds, the call comes to an end; it installs the merged transaction or
    leaves the installed jobs as they were, and with [JOB_FAIL] it never
    weakens what is queued. *)

From stdpp Require Import base gmap strings list fin_maps.
From Stdlib Require Import ZArith Lia.
From S2P Require Import Prelude CString JobType OrderedMap Engine Transaction TransactionAdd Order Links Wf WfCheck Passes Installed Matter OrderSpec Merge Asked Rollback AddSpec Activate ApplySpec.

Section activate_spec.
Context {P : Type} `{UnitVTableLaws P}.
Abbreviation MM := (M (Manager P)).
Implicit Types m : Manager P.

(** ** The loops over ordering and merging *)

Lemma sublist_shorter {A} (l l' : list A) x : sublist l' l → x ∈ l → x ∉ l' → length l' < length l.
Proof.
  induction 1 as [|y l1 l2 Hs IH|y l1 l2 Hs IH]; simpl; rewrite ?elem_of_cons.
  - by intros ?%elem_of_nil.
  - intros [->|Hx] Hn; [by destruct Hn; left|]. assert (length l1 < length l2); [|lia]. apply IH; [done|].
    intros ?; apply Hn. by right.
  - intros _ _. pose proof (sublist_length _ _ Hs). lia.
Qed.

Lemma dropped_one_shorter m m' : dropped_one m m' → length (all_jobs m') < length (all_jobs m).
Proof. intros (_ & Hs & _ & d & D & Hd & _ & _ & Hn & _). by eapply sublist_shorter; [apply Hs|..]. Qed.

Lemma same_graph_all m m' : same_graph m m' → all_jobs m' = all_jobs m.
Proof. intros [E _]. by rewrite <- E. Qed.

Lemma same_graph_persists m m' : same_graph m m' → persists m m'.
Proof.
  intros [E Hb]. apply persists_colours; [done|]. apply map_eq. intros k.
  pose proof (f_equal (lookup k) Hb) as Hk. rewrite !lookup_fmap in *.
  destruct (job_heap m' !! k) as [K'|], (job_heap m !! k) as [K|]; simpl in *; try done. f_equal.
  assert (blank K' = blank K) as Ek by congruence. exact (f_equal colourless Ek).
Qed.

Lemma cycle_broken_shorter m m' : wf [] m → cycle_broken m m' →
  wf [] m' ∧ persists m m' ∧ length (all_jobs m') < length (all_jobs m).
Proof.
  intros Hwf (m1 & c & d & D & Hsg & _ & _ & Hdr & HD & Hw' & Hs & Hch & Hin & _). split; [done|]. split.
  - etrans; [by apply same_graph_persists|]. by apply persists_shrinks.
  - rewrite <- (same_graph_all m m1 Hsg). apply (sublist_shorter _ _ d); [apply Hs| |].
    + rewrite (same_graph_all m m1 Hsg). apply (elem_of_all_jobs [] m d (proj1 Hwf)). exists (erase_lists D).
      assert (eheap m !! d = Some (erase_lists D)) as HeD by (apply eheap_Some; by exists D). split; [done|].
      destruct (wc_job _ _ (proj1 Hwf) d _ HeD) as (U & _ & Hk). unfold droppable in Hdr. rewrite HD in Hdr.
      simpl in Hk. destruct (installed D); [done|]. by destruct Hk as ([?|?%elem_of_nil] & _).
    + intros Hd. apply (elem_of_all_jobs [] m' d (proj1 Hw')) in Hd as (D' & (D1 & HD' & ->)%eheap_Some & Hd).
      destruct (shrinks_ident _ _ _ d D1 Hs HD') as (D2 & HD2 & E & _).
      destruct (same_graph_job m m1 d D Hsg HD) as (D3 & HD3 & E3).
      assert (j_unit D1 = j_unit D) as Eu.
      { pose proof (f_equal j_unit E3). pose proof (f_equal (λ t, t.1.1) E). simpl in *. congruence. }
      simpl in Hd. rewrite Eu, Hch in Hd. by apply elem_of_nil in Hd.
Qed.

(** What the passes that only delete jobs do. *)
Record round m m' : Prop := {
  ro_wf : wf [] m';
  ro_shrinks : shrinks [] m m';
  ro_persists : persists m m';
  ro_asked : ∀ t u, wanted t u m → wanted t u m' }.
Lemma round_refl m : wf [] m → round m m.
Proof. by split. Qed.
Lemma round_intro m m' :
  wf [] m' → shrinks [] m m' → (inside m → inside m') → (∀ t u, wanted t u m → wanted t u m') → round m m'.
Proof. intros ? Hs Hi ?. split; [done..| |done]. by apply persists_shrinks. Qed.
Lemma round_shorter m m' : round m m' → length (all_jobs m') ≤ length (all_jobs m).
Proof. intros Hr. apply sublist_length, (sh_all _ _ _ (ro_shrinks _ _ Hr)). Qed.

Definition gc_round (mode : JobMode) : MM unit :=
  when (bool_decide (mode ≠ JOB_ISOLATE)) transaction_collect_garbage.

Lemma gc_round_spec mode m :
  wf [] m → wp (gc_round mode) m (λ _ m', round m m').
Proof.
  intros Hwf. unfold gc_round. case_bool_decide; cbn [when]; [|by wp_step; apply round_refl].
  eapply wp_mono; [by apply gc_keeps_asked|]. intros [] m' (? & ? & ? & ?). by apply round_intro.
Qed.

Lemma order_loop_spec mode k : ∀ g m,
  wf [] m → mark_ok m → (0 ≤ g)%Z → clean_from g m → length (all_jobs m) < k →
  (g + Z.of_nat k < 2 ^ 32)%Z →
  wp (order_loop k mode g) m (λ r m', wf [] m' ∧ persists m m' ∧ mark_ok m' ∧
    length (all_jobs m') ≤ length (all_jobs m) ∧ (r = 0%Z ∨ r = (- ENOEXEC)%Z) ∧
    ∀ t u, wanted t u m → wanted t u m').
Proof.
  induction k as [|k IH]; intros g m Hwf Hmk Hg Hb Hk Hbig; [lia|]. simpl. wp_step.
  eapply wp_mono; [by apply (gc_round_spec mode)|]. intros [] m1 Hr1. pose proof (round_shorter m m1 Hr1).
  destruct Hr1 as [Hw1 Hs1 Hp1 Ha1]. pose proof (mark_ok_shrinks _ _ _ Hs1 Hmk) as Hmk1.
  pose proof (clean_shrinks [] g m m1 Hs1 Hb) as Hb1.
  wp_step. eapply wp_mono.
  { eapply wp_wlp_and; [by apply transaction_verify_order_spec, clean_settled|].
    apply (transaction_verify_order_coloured (g + 1) g m1); [lia|done|].
    intros j J HJ Hge. apply (Hb1 j J HJ). lia. }
  intros [r g'] m2 [[-> Hr] [Hw2 Hb2]].
  assert (u32 (g + 1) = g + 1)%Z as -> by (unfold u32; rewrite Z.mod_small; lia).
  destruct Hr as [(-> & Hsg & _)|[[-> Hbr]|[-> [Hsg _]]]].
  - cbn. apply wp_ret. rewrite (same_graph_all m1 m2 Hsg). split_and!; [done| | |done|by left|].
    + etrans; [done|by apply same_graph_persists].
    + by apply (same_graph_asked m1 m2 JOB_START 0 Hsg).
    + intros t u ?. apply (same_graph_asked m1 m2 t u Hsg). by apply Ha1.
  - cbn. destruct (cycle_broken_shorter m1 m2 Hw1 Hbr) as (_ & Hp2 & Hlt).
    assert (mark_ok m2) as Hmk2 by (by apply (cycle_broken_asked m1 m2 JOB_START 0)).
    eapply wp_mono; [apply (IH (g + 1)%Z m2); [done|done|lia|done|lia|lia]|].
    intros r m' (Hw' & Hp' & Hmk' & Hlen & Hr & Ha'). split_and!; [done| |done|lia|done|].
    + etrans; [done|by etrans].
    + intros t u ?. apply Ha', (cycle_broken_asked m1 m2 t u); auto.
  - cbn. apply wp_ret. rewrite (same_graph_all m1 m2 Hsg). split_and!; [done| | |done|by right|].
    + etrans; [done|by apply same_graph_persists].
    + by apply (same_graph_asked m1 m2 JOB_START 0 Hsg).
    + intros t u ?. apply (same_graph_asked m1 m2 t u Hsg). by apply Ha1.
Qed.

Definition singles m : Prop := ∀ u, chain_of u m = [] ∨ ∃ j, chain_of u m = [j].

Lemma merge_loop_spec mode k : ∀ m,
  wf [] m → mark_ok m → inside m → length (all_jobs m) < k →
  wp (merge_loop k mode) m (λ r m', wf [] m' ∧ persists m m' ∧
    ((r = 0%Z ∧ singles m' ∧ ∀ t u, wanted t u m → wanted t u m') ∨ r = (- ENOEXEC)%Z)).
Proof.
  induction k as [|k IH]; intros m Hwf Hmk Hin Hk; [lia|]. simpl. wp_step.
  eapply wp_mono; [by apply transaction_merge_jobs_spec|].
  intros r m1 [[-> Hmg]|[[-> Hdr]|(-> & -> & _)]]; [pose proof Hmg as (Hw1 & Hp1 & _ & Hall)|..].
  - cbn. apply wp_ret. split_and!; [done|done|]. left. split_and!; [done| |].
    + intros u. specialize (Hall u).
      destruct (chain_of u m); [by left|right]. destruct Hall as (t & _ & j & J & Hch & _). eauto.
    + intros t u. by apply all_merged_wanted.
  - cbn. pose proof (dropped_one_shorter m m1 Hdr) as Hlt.
    assert (mark_ok m1) as Hmk1 by (by apply (dropped_one_asked m m1 JOB_START 0)).
    pose proof Hdr as (Hw1 & _ & Hp1 & _). apply wp_bind.
    eapply wp_mono; [by apply (gc_round_spec mode)|]. intros [] m2 Hr2.
    pose proof (round_shorter m1 m2 Hr2). destruct Hr2 as [Hw2 Hs2 Hp2 Ha2].
    eapply wp_mono; [apply (IH m2); [done|by eapply mark_ok_shrinks| |lia]|].
    { by apply (ps_inside _ _ Hp2), (ps_inside _ _ Hp1). }
    intros r m' (Hw' & Hp' & Hr). split_and!; [done|etrans; [done|by etrans]|].
    destruct Hr as [(-> & Hs & Ha')| ->]; [left|by right]. split_and!; [done|done|].
    intros t u ?. apply Ha', Ha2. by apply (dropped_one_asked m m1 t u).
  - cbn. apply wp_ret. split_and!; [done|done|by right].
Qed.

(** ** The numbers of the jobs *)

Definition distinct_ids m : Prop :=
  ∀ j k J K, job_heap m !! j = Some J → job_heap m !! k = Some K → j_id J = j_id K → j = k.

Lemma distinct_ids_persists m m' : persists m m' → distinct_ids m → distinct_ids m'.
Proof.
  intros Hp Hd j k J' K' HJ' HK' E.
  destruct (ps_job _ _ Hp j J' HJ') as (J & HJ & EJ). destruct (ps_job _ _ Hp k K' HK') as (K & HK & EK).
  apply (Hd j k J K HJ HK). unfold ident in *. congruence.
Qed.

Lemma singles_merged m : wf [] m → singles m → tx_merged m.
Proof.
  intros [Hc _] Hs u l Hul. destruct (wc_tj _ _ Hc) as [Ho Ht]. destruct (Ht u l Hul) as (Hne & _).
  assert (chain_of u m = l) as E by (unfold chain_of; by rewrite (om_elem_get _ u l Ho Hul)).
  destruct (Hs u) as [?|[j ?]]; [congruence|]. exists j. congruence.
Qed.

Lemma elem_of_pending m tj id j : (id, j) ∈ pending m tj ↔
  ∃ u J, (u, [j]) ∈ tj ∧ job_heap m !! j = Some J ∧ installed J = false ∧ id = j_id J.
Proof.
  unfold pending. rewrite list_elem_of_omap. split.
  - intros ((u & [|k [|k' l]]) & Hul & E); simpl in E; try done.
    destruct (job_heap m !! k) as [J|] eqn:HJ; [|done]. simpl in E.
    destruct (installed J) eqn:Hi; [done|]. injection E as <- <-. by exists u, J.
  - intros (u & J & Hul & HJ & Hi & ->). exists (u, [j]). split; [done|]. simpl. rewrite HJ. simpl. by rewrite Hi.
Qed.

Lemma pending_NoDup X m : wf X m → NoDup (pending m (transaction_jobs m)).
Proof.
  intros [Hc _]. destruct (wc_tj _ _ Hc) as [Ho Ht]. revert Ho Ht. unfold om_wf, om_keys.
  induction (transaction_jobs m) as [|[u l] tj IH]; intros Ho Ht; [constructor|].
  apply NoDup_cons in Ho as [Hu Ho]. assert (NoDup (pending m tj)) as IH' by (apply IH; [done|]; intros; apply Ht; by right).
  unfold pending; simpl. destruct l as [|j [|]]; try done.
  destruct (job_heap m !! j) as [J|] eqn:HJ; [|done]. simpl. destruct (installed J) eqn:Hi; [done|].
  apply NoDup_cons. split; [|done]. intros (v & J0 & Hv & HJ0 & _ & _)%elem_of_pending.
  destruct (Ht u [j]) as (_ & _ & H1); [left|]. destruct (H1 j) as (J1 & HJ1 & E1); [left|].
  destruct (Ht v [j]) as (_ & _ & H2); [by right|]. destruct (H2 j) as (J2 & HJ2 & E2); [left|].
  apply Hu, list_elem_of_fmap. exists (v, [j]). split; [simpl; congruence|done].
Qed.

Lemma pending_fresh m :
  wf [] m → distinct_ids m → om_wf (jobs m ++ pending m (transaction_jobs m)).
Proof.
  intros Hwf Hd. pose proof Hwf as [Hc _]. destruct (wc_jobs _ _ Hc) as [Ho Hj].
  assert (∀ e, e ∈ jobs m ++ pending m (transaction_jobs m) →
    ∃ J, job_heap m !! e.2 = Some J ∧ e.1 = j_id J ∧ (e ∈ jobs m ↔ installed J = true)) as Hlive.
  { intros [id j] [Hin|Hin]%elem_of_app.
    - destruct (Hj id j Hin) as (J0 & (J & HJ & ->)%eheap_Some & <- & Hi). by exists J.
    - pose proof Hin as (u & J & _ & HJ & Hi & ->)%elem_of_pending. exists J. split_and!; [done..|]. split; [|congruence].
      intros Hin'. destruct (Hj _ j Hin') as (J0 & (J1 & HJ1 & ->)%eheap_Some & _ & Hi1). simpl in Hi1. congruence. }
  unfold om_wf, om_keys. apply NoDup_fmap_2_strong.
  - intros [id j] [id' j'] (J & HJ & E & _)%Hlive (J' & HJ' & E' & _)%Hlive. simpl in *. intros ->.
    f_equal. apply (Hd j j' J J'); congruence.
  - apply NoDup_app. split_and!.
    + by apply NoDup_fmap_1 in Ho.
    + intros [id j] Hin (u & J & _ & HJ & Hi & _)%elem_of_pending.
      destruct (Hj id j Hin) as (J0 & (J1 & HJ1 & ->)%eheap_Some & _ & Hi1). simpl in Hi1. congruence.
    + by apply (pending_NoDup []).
Qed.

Lemma persists_units m m' : persists m m' → units m' = units m.
Proof. intros Hp. exact (f_equal units (ps_rest _ _ Hp)). Qed.
Lemma persists_unit_job_type m m' u : wf [] m → persists m m' → unit_job_type m' u = unit_job_type m u.
Proof.
  intros Hwf Hp. unfold unit_job_type. rewrite (persists_units m m' Hp).
  destruct (units m !! u) as [U|] eqn:HU; [simpl|done]. destruct (u_job U) as [k|] eqn:Hk; [simpl|done].
  destruct (wc_unit _ _ (proj1 Hwf) u U HU) as (_ & _ & Hj).
  destruct (Hj k Hk) as (K0 & (K & HK & ->)%eheap_Some & _ & Hi). simpl in Hi.
  destruct (ps_installed _ _ Hp k K HK Hi) as (K' & HK' & E & _). unfold type_of. rewrite HK, HK'. simpl. congruence.
Qed.

(** ** The steps composed *)

(** The transaction is installed. *)
Record activated (mode : JobMode) m m' : Prop := {
  av_wf : wf [] m';
  av_jobs : transaction_jobs m' = [];
  av_anchor : transaction_anchor m' = [];
  av_links : dep_heap m' = ∅;
  av_units : bare <$> units m' = bare <$> units m;
  av_unit_job : ∀ u e, unit_job_type m u = Some e →
    ∃ t, unit_job_type m' u = Some t ∧ (mode = JOB_FAIL → job_type_is_superset t e = true);
  av_asked : ∀ t u, wanted t u m →
    ∃ t', unit_job_type m' u = Some t' ∧ job_type_is_superset t' t = true;
  av_heap : ∀ j J', job_heap m' !! j = Some J' → installed J' = true ∧
    ∃ J, job_heap m !! j = Some J ∧ j_unit J' = j_unit J ∧ j_id J' = j_id J }.

Lemma apply_activated n finish m m2 mode :
  wf [] m → persists m m2 → wf [] m2 → inside m2 → singles m2 → oom m2 = [] → distinct_ids m2 →
  mode ≠ JOB_ISOLATE →
  (mode = JOB_FAIL → ∀ u t e, single m2 u t → unit_job_type m2 u = Some e → job_type_is_superset t e = true) →
  (∀ t u, wanted t u m → wanted t u m2) →
  wp (transaction_apply_with n finish mode) m2 (λ r m', r = 0%Z ∧ activated mode m m').
Proof.
  intros Hwf Hp Hw2 Hin Hs Hoom Hd Hmode Hsup Hask.
  eapply wp_mono; [apply transaction_apply_spec; [done|done|by apply singles_merged|done|done|by apply pending_fresh]|].
  intros r m' (-> & Hw' & Etj & Ean & Ed & Eb & Hin' & Hout & Hheap). split; [done|].
  assert (∀ u j, (u, [j]) ∈ transaction_jobs m2 → ∃ J, job_heap m2 !! j = Some J ∧
    unit_job_type m' u = Some (j_type J)) as Hnew.
  { intros u j Hul. destruct (Hin' u j Hul) as (J & J' & U' & HJ & HJ' & _ & Et & _ & HU' & Hj & _). exists J.
    split; [done|]. unfold unit_job_type. rewrite HU'. simpl. rewrite Hj. simpl. unfold type_of. rewrite HJ'.
    simpl. congruence. }
  assert (∀ u l, (u, l) ∈ transaction_jobs m2 → chain_of u m2 = l) as Hch.
  { intros u l Hul. destruct (wc_tj _ _ (proj1 Hw2)) as [Ho _]. unfold chain_of. by rewrite (om_elem_get _ u l Ho Hul). }
  split; try done.
  - by rewrite <- (persists_units m m2 Hp).
  - intros u e He. rewrite <- (persists_unit_job_type m m2 u Hwf Hp) in He.
    destruct (decide (u ∈ om_keys (transaction_jobs m2))) as [Hu|Hu].
    + apply list_elem_of_fmap in Hu as ([u' l] & -> & Hul). simpl.
      destruct (singles_merged m2 Hw2 Hs u' l Hul) as [j ->].
      destruct (Hnew u' j Hul) as (J & HJ & Et). exists (j_type J). split; [done|].
      intros Hm. apply (Hsup Hm u' (j_type J) e); [|done]. exists j, J. split_and!; [|done..]. by apply Hch.
    + exists e. split; [|intros _; apply superset_refl]. unfold unit_job_type in He |- *.
      destruct (units m2 !! u) as [U|] eqn:HU; [simpl in He|done].
      destruct (bare_lookup _ (units m') u U Eb HU) as (U' & HU' & _).
      destruct (Hout u U' Hu HU') as (U1 & HU1 & Ej). assert (U1 = U) as -> by congruence. rewrite HU'. simpl. rewrite Ej.
      destruct (u_job U) as [k|] eqn:Hk; [simpl in *|done].
      destruct (wc_unit _ _ (proj1 Hw') u U' HU') as (_ & _ & Hjob).
      destruct (Hjob k) as (K0 & (K & HK & ->)%eheap_Some & _); [congruence|].
      destruct (Hheap k K HK) as (K2 & HK2 & _ & _ & Et & _). unfold type_of in *. rewrite HK2 in He. rewrite HK.
      simpl in *. congruence.
  - intros t u (d & l & K & _ & _ & _ & Hc & HK & Ht)%Hask.
    assert (chain_of u m2 ≠ []) as Hne by (intros E; rewrite E in Hc; by apply elem_of_nil in Hc).
    apply (chain_keys m2 u Hw2) in Hne. apply list_elem_of_fmap in Hne as ([u' lu] & -> & Hul). simpl in *.
    destruct (singles_merged m2 Hw2 Hs u' lu Hul) as [j ->]. rewrite (Hch _ _ Hul) in Hc.
    apply list_elem_of_singleton in Hc as Ej. destruct (Hnew u' j Hul) as (J & HJ & Et). exists (j_type J).
    split; [done|]. assert (J = K) as -> by congruence. done.
  - intros j J' HJ'. split.
    + destruct (wc_job _ _ (proj1 Hw') j (erase_lists J')) as (U & _ & Hk); [apply eheap_Some; by exists J'|].
      simpl in Hk. destruct (installed J'); [done|]. destruct Hk as ([Hk|?%elem_of_nil] & _); [|done].
      unfold chain_of in Hk. rewrite Etj in Hk. by apply elem_of_nil in Hk.
    + destruct (Hheap j J' HJ') as (J2 & HJ2 & Eu & Eid & _). destruct (ps_job _ _ Hp j J2 HJ2) as (J & HJ & E).
      unfold ident in E. exists J. split_and!; [done|congruence..].
Qed.

(** The jobs of the transaction were never visited, and no search for cycles is in the middle of a job. *)
Definition unvisited m : Prop :=
  (∀ j J, job_heap m !! j = Some J → j ∈ all_jobs m → (generation J < 1)%Z) ∧ clean_from 2 m.

Lemma find_matter_activation m :
  wf [] m → inside m → unvisited m →
  wp (transaction_find_jobs_that_matter_to_anchor None 1) m
    (λ _ m', wf [] m' ∧ persists m m' ∧ clean_from 2 m' ∧ all_jobs m' = all_jobs m ∧ mark_ok m' ∧
      ∀ t u, wanted t u m → wanted t u m').
Proof.
  intros Hwf Hin [Hu Hb]. eapply wp_mono; [apply transaction_find_jobs_that_matter_spec; [done|]|].
  { intros d l J Hd HJ E. pose proof (Hu _ J HJ (proj1 (Hin d l Hd))). lia. }
  intros [] m' (Hw' & E & Hnone & Hsome).
  assert (∀ j J', job_heap m' !! j = Some J' → ∃ J, job_heap m !! j = Some J ∧ (J' = J ∨ J' = mark_job 1 J)) as Hback.
  { intros j J' HJ'. destruct (job_heap m !! j) as [J|] eqn:HJ; [|by rewrite (Hnone j HJ) in HJ'].
    exists J. split; [done|]. destruct (Hsome j J HJ) as [[_ E']|[_ E']]; rewrite HJ' in E'; injection E'; auto. }
  assert (dep_heap m' = dep_heap m ∧ ∀ u, chain_of u m' = chain_of u m) as [Ed Ec] by (by rewrite <- E).
  split_and!; [done| | |by rewrite <- E| |].
  - apply persists_colours; [done|]. apply map_eq. intros j. rewrite !lookup_fmap.
    destruct (job_heap m !! j) as [J|] eqn:HJ; [|by rewrite (Hnone j HJ)].
    by destruct (Hsome j J HJ) as [[_ ->]|[_ ->]].
  - intros j J' HJ'. destruct (Hback j J' HJ') as (J & HJ & [->| ->]); [|simpl; lia].
    by apply (Hb j).
  - intros j J' Hr HJ'. destruct (Hback j J' HJ') as (J & HJ & _).
    destruct (Hsome j J HJ) as [[_ E']|[Hn _]]; [rewrite HJ' in E'; by injection E' as ->|].
    destruct Hn. eapply reaches_mono; [|exact Hr]. by rewrite Ed.
  - intros t u (d & l & K & Hd & Hs & Hm & Hc & HK & Ht). destruct (Hsome (object l) K HK) as [[_ HK']|[_ HK']].
    + exists d, l, (mark_job 1 K). rewrite Ed, Ec. done.
    + exists d, l, K. rewrite Ed, Ec. done.
Qed.

Lemma minimize_round mode m :
  wf [] m → mark_ok m →
  wp (when (bool_decide (mode = JOB_FAIL)) transaction_minimize_impact) m (λ _ m', round m m').
Proof.
  intros Hwf Hm. case_bool_decide; cbn [when]; [|by apply wp_ret, round_refl].
  eapply wp_mono; [by apply minimize_keeps_asked|]. intros [] m' (? & ? & ? & ?). by apply round_intro.
Qed.
Lemma redundant_round m :
  wf [] m → wp transaction_drop_redundant m (λ _ m', round m m').
Proof.
  intros Hwf. eapply wp_mono; [by apply redundant_keeps_asked|].
  intros [] m' (? & ? & ? & ?). by apply round_intro.
Qed.
Lemma singles_shrinks X m m' : shrinks X m m' → singles m → singles m'.
Proof.
  intros Hs H1 u. pose proof (sh_chain _ _ _ Hs u) as Hsub. destruct (H1 u) as [E|[j E]]; rewrite E in Hsub.
  - left. by apply sublist_nil_r.
  - inversion Hsub as [|x l1 l2 Hsub' |x l1 l2 Hsub']; subst; apply sublist_nil_r in Hsub' as ->; [right; by eexists|by left].
Qed.

Definition bounded m : Prop := (Z.of_nat (length (all_jobs m)) + 4 < 2 ^ 32)%Z.

Definition quits (mode : JobMode) m (r : Z) m' : Prop :=
  wf [] m' ∧ persists m m' ∧ (r = (- ENOEXEC)%Z ∨ r = (- EEXIST)%Z ∧ mode = JOB_FAIL).

Lemma activate_steps_spec n finish mode m :
  wf [] m → inside m → oom m = [] → distinct_ids m → unvisited m → bounded m → mode ≠ JOB_ISOLATE →
  wp (activate_steps n finish mode) m (λ r m',
    (r = 0%Z ∧ activated mode m m') ∨ quits mode m r m').
Proof.
  intros Hwf Hin Hoom Hd Hb Hbd Hmode. unfold activate_steps.
  wp_step. eapply wp_mono; [by apply find_matter_activation|]. intros [] m1 (Hw1 & Hp1 & Hb1 & Ea1 & Hmk1 & Hk1).
  wp_step. eapply wp_mono; [by apply minimize_round|]. intros [] m2 Hr2. pose proof (round_shorter _ _ Hr2) as Hl2.
  destruct Hr2 as [Hw2 Hs2 Hp2 Hk2]. pose proof (mark_ok_shrinks _ _ _ Hs2 Hmk1) as Hmk2.
  wp_step. eapply wp_mono; [by apply redundant_round|]. intros [] m3 Hr3. pose proof (round_shorter _ _ Hr3) as Hl3.
  destruct Hr3 as [Hw3 Hs3 Hp3 Hk3]. pose proof (mark_ok_shrinks _ _ _ Hs3 Hmk2) as Hmk3.
  assert (clean_from 2 m3) as Hb3 by (eapply clean_shrinks; [exact Hs3|]; by eapply clean_shrinks).
  assert (length (all_jobs m3) ≤ length (all_jobs m)) as Hlen by (rewrite <- Ea1; lia).
  unfold rounds. wp_step. wp_step. wp_step. unfold bounded in Hbd.
  eapply wp_mono; [apply order_loop_spec; [done|done|lia|done|lia|lia]|].
  intros r m4 (Hw4 & Hp4 & Hmk4 & Hl4 & Hr & Hk4).
  assert (persists m m4) as Hpm4 by (etrans; [exact Hp1|]; etrans; [exact Hp2|]; by etrans).
  destruct Hr as [->| ->]; [|cbn; apply wp_ret; right; by split_and!; [..|left]].
  cbn. apply wp_bind, wp_gets. apply wp_bind. eapply wp_mono; [apply merge_loop_spec; [done|done|by apply (ps_inside _ _ Hpm4)|lia]|].
  intros r m5 (Hw5 & Hp5 & Hr). assert (persists m m5) as Hpm5 by (by etrans).
  destruct Hr as [(-> & Hs5 & Hk5)| ->]; [|cbn; apply wp_ret; right; by split_and!; [..|left]].
  cbn. apply wp_bind. eapply wp_mono; [by apply redundant_round|]. intros [] m6 [Hw6 Hs6 Hp6 Hk6].
  assert (persists m m6) as Hpm6 by (by etrans). pose proof (singles_shrinks [] m5 m6 Hs6 Hs5) as Hs.
  wp_step. eapply (wp_mono _ _ (λ r m', m' = m6 ∧ (r = (- EEXIST)%Z ∧ mode = JOB_FAIL ∨ r = 0%Z ∧
    (mode = JOB_FAIL → ∀ u t e, single m6 u t → unit_job_type m6 u = Some e → job_type_is_superset t e = true)))).
  { case_bool_decide; [|by apply wp_ret; split; [|right]].
    destruct (transaction_is_destructive_spec m6 Hw6 Hs) as (r & Hr & Hres).
    eapply reads_wp; [exact Hr|]. split; [done|]. destruct Hres as [[-> ?]|[-> ?]]; auto. }
  intros r m7 [-> [[-> Hm]|[-> Hsup]]]; cbn; [apply wp_ret; right; by split_and!; [..|right]|].
  eapply wp_mono; [apply (apply_activated n finish m m6 mode); try done|].
  - by apply (ps_inside _ _ Hpm6).
  - pose proof (f_equal oom (ps_rest _ _ Hpm6)) as E. change (oom m6 = oom m) in E. congruence.
  - by apply (distinct_ids_persists m).
  - auto 10.
  - intros r m' ?. by left.
Qed.

(** *** The rollback *)

Definition idle m : Prop := transaction_jobs m = [] ∧ transaction_anchor m = [] ∧ dep_heap m = ∅.

(** Nothing but the numbers of jobs and pointers that were used up is left of
    the transaction. *)
Record rolled_back m m' : Prop := {
  rb_wf : wf [] m';
  rb_idle : idle m';
  rb_rest : rest_add m' = rest_add m;
  rb_installed : ∀ k K, job_heap m !! k = Some K → installed K = true →
    ∃ K', job_heap m' !! k = Some K' ∧ ident K' = ident K ∧ j_type K' = j_type K ∧ j_state K' = j_state K;
  rb_only : ∀ k K', job_heap m' !! k = Some K' → installed K' = true ∧ is_Some (job_heap m !! k) }.

Lemma abort_rolled_back m m2 :
  wf [] m2 → persists m m2 → wp transaction_abort m2 (λ _ m', rolled_back m m').
Proof.
  intros Hw2 Hp. eapply wp_mono; [by apply transaction_abort_spec|].
  intros [] m' (Hw' & Hr & Et & Ea & Ed & Hj). split; [done|done| | |].
  - transitivity (rest_add m2); [exact (f_equal rest_add Hr)|exact (f_equal rest_add (ps_rest _ _ Hp))].
  - intros k K HK Hi. destruct (ps_installed _ _ Hp k K HK Hi) as (K2 & HK2 & Et2 & Es2).
    destruct (ps_job _ _ Hp k K2 HK2) as (K0 & HK0 & Eid). assert (K0 = K) as -> by congruence.
    assert (eheap m' !! k = Some (erase_lists K2)) as (K' & HK' & E)%eheap_Some.
    { apply Hj. split; [apply eheap_Some; by exists K2|]. unfold ident in Eid. simpl. congruence. }
    pose proof (f_equal ident E). pose proof (f_equal j_type E). pose proof (f_equal j_state E).
    exists K'. unfold ident in *. simpl in *. split_and!; congruence.
  - intros k K' HK'. destruct (proj1 (Hj k (erase_lists K'))) as [(K2 & HK2 & _)%eheap_Some Hi];
      [apply eheap_Some; by exists K'|]. split; [done|].
    destruct (ps_job _ _ Hp k K2 HK2) as (K & HK & _). by exists K.
Qed.

(** What activation expects of the transaction it is called on. *)
Record activatable m : Prop := {
  ac_wf : wf [] m;
  ac_inside : inside m;
  ac_oom : oom m = [];
  ac_ids : distinct_ids m;
  ac_unvisited : unvisited m;
  ac_bounded : bounded m }.

Lemma transaction_activate_spec n finish mode m :
  activatable m → mode ≠ JOB_ISOLATE →
  wp (transaction_activate_with n finish mode) m (λ r m',
    (r = 0%Z ∧ activated mode m m') ∨
    (rolled_back m m' ∧ (r = (- ENOEXEC)%Z ∨ r = (- EEXIST)%Z ∧ mode = JOB_FAIL))).
Proof.
  intros [Hw Hin Hoom Hids Hun Hbd] Hmode. unfold transaction_activate_with. wp_step.
  eapply wp_mono; [by apply activate_steps_spec|]. intros r m1 [[-> Hav]|(Hw1 & Hp1 & Hr)].
  - cbn. apply wp_bind. apply wp_intro with (a := m1) (s' := m1); [done|].
    rewrite (av_jobs _ _ _ Hav), (av_anchor _ _ _ Hav). cbn. left. by split.
  - rewrite bool_decide_true by (unfold ENOEXEC, EEXIST in Hr; lia). wp_step.
    eapply wp_mono; [by apply (abort_rolled_back m m1)|]. intros [] m' Hrb. wp_step. by right.
Qed.

(** C19. [transaction_activate], in any mode but isolation, comes to an end
    whatever consistent transaction (of less than 2^32 - 4 jobs) it is given, when the memory suffices, and whatever earlier requests left on the installed
    jobs, unless a search for cycles broke off while it was at one of them ([unvisited]; see [refused_request_poisons_the_next]).
    Either it returns 0 and has installed the transaction: every
    unit that had a job still has one, with [JOB_FAIL] one that does at least
    what the old one did, and each unit whose job is linked to the anchor has
    a job that does at least what was asked for.  Or it fails with [-ENOEXEC],
    or with [-EEXIST] in mode [JOB_FAIL], and the engine is as it was before
    the transaction. *)
Theorem transaction_activate_correct n finish mode m :
  activatable m → mode ≠ JOB_ISOLATE →
  wp (transaction_activate_with n finish mode) m (λ r m',
    (r = 0%Z ∧ activated mode m m') ∨
    (rolled_back m m' ∧ (r = (- ENOEXEC)%Z ∨ r = (- EEXIST)%Z ∧ mode = JOB_FAIL))).
Proof. apply transaction_activate_spec. Qed.

(** ** A request from beginning to end *)

Lemma all_jobs_NoDup X m : wf_core X m → NoDup (all_jobs m).
Proof.
  intros Hc. destruct (wc_tj _ _ Hc) as [Ho Ht]. revert Ho Ht. unfold all_jobs, om_wf, om_keys.
  induction (transaction_jobs m) as [|[u l] tj IH]; intros Ho Ht; [constructor|].
  apply NoDup_cons in Ho as [Hu Ho]. simpl. apply NoDup_app. destruct (Ht u l) as (_ & Hnd & Hl); [left|].
  split_and!; [done| |apply IH; [done|]; intros; apply Ht; by right].
  intros j Hj (l' & ([v l''] & -> & Hv)%list_elem_of_fmap & Hj')%elem_of_concat. simpl in Hj'.
  destruct (Hl j Hj) as (J & HJ & <-). destruct (Ht v l'') as (_ & _ & Hl'); [by right|].
  destruct (Hl' j Hj') as (J' & HJ' & <-). assert (J' = J) as -> by congruence.
  apply Hu, list_elem_of_fmap. by exists (j_unit J, l'').
Qed.

Lemma tidy_bounded m : wf [] m → tidy m → bounded m.
Proof.
  intros [Hc _] Ht. unfold bounded. destruct (td_room _ Ht) as [Hz Hr].
  set (id := λ j, from_option j_id 0%Z (job_heap m !! j)).
  assert (∀ j, j ∈ all_jobs m → ∃ J, job_heap m !! j = Some J) as Hlive.
  { intros j (J0 & (J & HJ & _)%eheap_Some & _)%(elem_of_all_jobs [] m j Hc). by exists J. }
  assert (length (id <$> all_jobs m) ≤ length (seqZ 0 (current_job_id m))) as Hlen.
  { apply NoDup_incl_length.
    - apply NoDup_ListNoDup, NoDup_fmap_2_strong; [|by eapply all_jobs_NoDup].
      intros j k Hj Hk E. destruct (Hlive j Hj) as [J HJ], (Hlive k Hk) as [K HK].
      apply (td_distinct _ Ht j k J K HJ HK). unfold id in E. by rewrite HJ, HK in E.
    - intros x (j & -> & Hj)%list_elem_of_In%list_elem_of_fmap. apply list_elem_of_In, elem_of_seqZ.
      destruct (Hlive j Hj) as [J HJ]. unfold id. rewrite HJ. simpl. pose proof (td_ids _ Ht j J HJ). lia. }
  rewrite length_fmap, length_seqZ in Hlen. lia.
Qed.

(** The state of the manager between two requests. *)
Record ready_for_requests m : Prop := {
  rq_wf : wf [] m;
  rq_idle : idle m;
  rq_oom : oom m = [];
  rq_tidy : tidy m }.

Lemma grows_unit_job_type m m' u : wf [] m → grows m m' → unit_job_type m' u = unit_job_type m u.
Proof.
  intros Hwf Hg. unfold unit_job_type. rewrite (grows_units m m' Hg).
  destruct (units m !! u) as [U|] eqn:HU; [simpl|done]. destruct (u_job U) as [k|] eqn:Hk; [simpl|done].
  destruct (wc_unit _ _ (proj1 Hwf) u U HU) as (_ & _ & Hj).
  destruct (Hj k Hk) as (K0 & (K & HK & ->)%eheap_Some & _ & Hi).
  destruct (gr_job _ _ Hg k K HK) as (K' & HK' & _ & E & _). unfold type_of. rewrite HK, HK'. simpl. congruence.
Qed.

Lemma linked_wanted m u t mt cf : mt = true → linked m None u t mt cf → wanted t u m.
Proof.
  intros -> (d & j & J & Hd & Hj & HJ & Ht). exists d, (mkJobDependency None j true cf), J.
  split_and!; try done. rewrite Ht. apply superset_refl.
Qed.

Lemma grows_rolled_back m m1 m' :
  wf [] m → wf [] m1 → grows m m1 → rolled_back m1 m' → rolled_back m m'.
Proof.
  intros Hwf Hw1 Hg [Hw' Hi Hr Hin Honly]. split; [done|done|by rewrite Hr, (gr_rest _ _ Hg)| |].
  - intros k K HK HiK. destruct (gr_job _ _ Hg k K HK) as (K1 & HK1 & Eu & Et & Ei & _).
    destruct (gr_fixed _ _ Hg k K HK) as (K1' & HK1' & Eid & Es). assert (K1' = K1) as -> by congruence.
    destruct (Hin k K1 HK1) as (K' & HK' & E & Et' & Es'); [congruence|]. exists K'. unfold ident in *.
    split_and!; congruence.
  - intros k K' HK'. destruct (Honly k K' HK') as [HiK [K1 HK1]]. split; [done|].
    destruct (Hin k K1 HK1) as (K2 & HK2 & E & _).
    { destruct (installed K1) eqn:Hi1; [done|]. exfalso.
      destruct (wc_job _ _ (proj1 Hw') k (erase_lists K')) as (U & HU & Hk); [apply eheap_Some; by exists K'|].
      simpl in HU, Hk. rewrite HiK in Hk. destruct Hk as [Hk _].
      assert (units m' = units m1) as Eun by exact (f_equal units Hr). rewrite Eun in HU.
      destruct (wc_unit _ _ (proj1 Hw1) _ U HU) as (_ & _ & Hj). destruct (Hj k Hk) as (K0 & HK0 & _ & Hi0).
      apply eheap_Some in HK0 as (K3 & HK3 & ->). simpl in Hi0. congruence. }
    unfold ident in E. assert (installed K1 = true) as Hi1 by congruence.
    destruct (wc_job _ _ (proj1 Hw1) k (erase_lists K1)) as (U & HU & Hk); [apply eheap_Some; by exists K1|].
    simpl in HU, Hk. rewrite Hi1 in Hk. destruct Hk as [Hk _]. rewrite (grows_units m m1 Hg) in HU.
    destruct (wc_unit _ _ (proj1 Hwf) _ U HU) as (_ & _ & Hj). destruct (Hj k Hk) as (K0 & HK0 & _).
    apply eheap_Some in HK0 as (K3 & HK3 & _). by exists K3.
Qed.

(** The request is queued. *)
Record queued_request (type : JobType) (unit : UnitPtr) (mode : JobMode) m m' : Prop := {
  qr_wf : wf [] m';
  qr_idle : idle m';
  qr_units : bare <$> units m' = bare <$> units m;
  qr_asked : ∃ t, unit_job_type m' unit = Some t ∧ job_type_is_superset t type = true;
  qr_queue : ∀ u e, unit_job_type m u = Some e →
    ∃ t, unit_job_type m' u = Some t ∧ (mode = JOB_FAIL → job_type_is_superset t e = true);
  qr_installed : ∀ j J, job_heap m' !! j = Some J → installed J = true }.

Lemma enqueue_spec n finish type unit mode ovr m U :
  ready_for_requests m → units m !! unit = Some U → mode ≠ JOB_ISOLATE →
  wp (enqueue_with n finish type unit mode ovr) m (λ r m',
    (r.1 = 0%Z ∧ queued_request type unit mode m m') ∨ ((r.1 < 0)%Z ∧ r.2 = None ∧ rolled_back m m')).
Proof.
  intros [Hw Hid Hoom Htd] HU Hmode. unfold enqueue_with. wp_step. eapply wp_unit_at; [done|].
  rewrite (bool_decide_false (mode = JOB_ISOLATE ∧ _)) by naive_solver.
  rewrite (bool_decide_false (mode = JOB_ISOLATE)) by done. cbn [andb]. wp_step.
  eapply wp_mono; [apply (transaction_add_job_spec m type unit U None); try done|].
  intros r m1 (Hw1 & Hg1 & Ha & _ & _ & _ & Htd1). destruct (decide (r.1 < 0)%Z) as [Hr|Hr].
  { rewrite bool_decide_true by done. wp_step. eapply wp_mono; [by apply (abort_rolled_back m1 m1)|].
    intros [] m' Hrb. wp_step. right. split_and!; [done|done|by eapply grows_rolled_back]. }
  rewrite bool_decide_false by done. assert (tidy m1) as Ht1 by (by apply Htd1).
  assert (r.1 = 0)%Z as Hr0 by (pose proof (an_le _ _ _ _ _ _ _ _ _ Ha); lia).
  assert (wanted type unit m1) as Hwt by (by apply (linked_wanted m1 unit type true false), (an_linked _ _ _ _ _ _ _ _ _ Ha)).
  wp_step. wp_step. rewrite bool_decide_false by lia. wp_step.
  eapply wp_mono; [apply (transaction_activate_spec n finish mode m1); [|done]|].
  { split; [done|apply Ht1|by rewrite (grows_oom _ _ Hg1)|exact (td_distinct _ Ht1)|split; [exact (td_unvisited _ Ht1)|exact (td_settled _ Ht1)]|].
    by apply tidy_bounded. }
  intros a m' [[-> Hav]|[Hrb Ha']].
  - rewrite bool_decide_false by lia. wp_step. left. split; [done|]. split.
    + apply Hav.
    + split; [apply Hav|]. split; apply Hav.
    + by rewrite (av_units _ _ _ Hav), (grows_units _ _ Hg1).
    + by apply (av_asked _ _ _ Hav).
    + intros u e He. apply (av_unit_job _ _ _ Hav). by rewrite (grows_unit_job_type m m1).
    + intros j J HJ. by apply (av_heap _ _ _ Hav j J HJ).
  - rewrite bool_decide_true by (unfold ENOEXEC, EEXIST in Ha'; lia). wp_step. right.
    split_and!; [|done|by eapply grows_rolled_back]. simpl. unfold ENOEXEC, EEXIST in Ha'. lia.
Qed.

(** C18. A request in any mode but isolation is carried out or refused as a whole, when the memory
    suffices and the 32-bit job numbers do not wrap around.  The queue may hold jobs of earlier requests, with the generations that their searches for cycles
    left on them; only a search that broke off at one of them, as in [refused_request_poisons_the_next], is
    excluded ([ready_for_requests]).
    On success the unit has a job that does at least what was asked for,
    no other unit has lost its job (with [JOB_FAIL] none does less than
    before), all jobs are installed and the transaction is empty again.  On an
    error every job is as it was, with its type, number and state, and so
    are the units and queues. *)
Theorem enqueue_correct n finish type unit mode ovr m U :
  ready_for_requests m → units m !! unit = Some U → mode ≠ JOB_ISOLATE →
  wp (enqueue_with n finish type unit mode ovr) m (λ r m',
    (r.1 = 0%Z ∧ queued_request type unit mode m m') ∨ ((r.1 < 0)%Z ∧ r.2 = None ∧ rolled_back m m')).
Proof. apply enqueue_spec. Qed.

(** ** Checking the premises on a given state *)

Definition check_ids m : bool :=
  map_all (λ j J, map_all (λ k K, bool_decide (j = k) || negb (bool_decide (j_id J = j_id K))) (job_heap m))
    (job_heap m).
Definition check_inside m : bool :=
  map_all (λ d l, bool_decide (object l ∈ all_jobs m) &&
    match subject l with Some s => bool_decide (s ∈ all_jobs m) | None => true end) (dep_heap m).
Definition check_unvisited m : bool :=
  map_all (λ j J, (bool_decide (j ∉ all_jobs m) || (generation J <? 1)%Z) &&
    ((generation J <? 2)%Z || bool_decide (marker J = None))) (job_heap m).

Lemma check_ids_sound m : check_ids m = true → distinct_ids m.
Proof.
  intros Hc j k J K HJ HK E. pose proof (map_all_true _ _ (map_all_true _ _ Hc j J HJ) k K HK) as Hb.
  simpl in Hb. apply orb_true_iff in Hb as [Hb|Hb]; [by apply bool_decide_eq_true in Hb|].
  by apply negb_true_iff, bool_decide_eq_false in Hb.
Qed.
Lemma check_inside_sound m : check_inside m = true → inside m.
Proof.
  intros Hc d l Hd. pose proof (map_all_true _ _ Hc d l Hd) as Hb. simpl in Hb.
  apply andb_true_iff in Hb as [Ho Hs]. apply bool_decide_eq_true in Ho. split; [done|].
  intros x Ex. rewrite Ex in Hs. by apply bool_decide_eq_true in Hs.
Qed.
Lemma check_unvisited_sound m : check_unvisited m = true → unvisited m.
Proof.
  intros Hc. split; intros j J HJ Hj; pose proof (map_all_true _ _ Hc j J HJ) as Hb; simpl in Hb;
    apply andb_true_iff in Hb as [Hb1%orb_true_iff Hb2%orb_true_iff].
  - destruct Hb1 as [Hb1%bool_decide_eq_true|]; [done|lia].
  - destruct Hb2 as [|Hb2%bool_decide_eq_true]; [lia|done].
Qed.

Definition check_tidy m : bool :=
  check_inside m && check_unvisited m && check_ids m &&
  map_all (λ _ J, (0 <=? j_id J)%Z && (j_id J <? current_job_id m)%Z) (job_heap m) &&
  (0 <=? current_job_id m)%Z && (current_job_id m + Z.of_nat (missing m) + 4 <? 2 ^ 32)%Z.
Lemma check_tidy_sound m : check_tidy m = true → tidy m.
Proof.
  unfold check_tidy. rewrite !andb_true_iff. intros (((((Hi & Hu) & Hd) & Hid) & Hz) & Hr).
  apply check_unvisited_sound in Hu as [Hu1 Hu2].
  split; [by apply check_inside_sound|exact Hu1|exact Hu2|by apply check_ids_sound| |lia].
  intros j J HJ. pose proof (map_all_true _ _ Hid j J HJ) as Hb. simpl in Hb. lia.
Qed.
End activate_spec.

(** ** Examples *)
Section examples.
Import Demo.

(** No job is left to finish in these examples. *)
Definition no_finish : JobPtr → JobResult → M (Manager UnitActiveState) () := λ _ _, fault.

(** A transaction for "a", while a job of an earlier request is queued for "d", which the search for
    cycles has visited. *)
Definition m0_queued : Manager UnitActiveState :=
  manager
    [(1, unit "a.target" (dep UNIT_BEFORE [4] nodeps) None UNIT_INACTIVE); (2, unit "b.target" nodeps None UNIT_ACTIVE);
     (4, unit "d.target" nodeps (Some 10) UNIT_INACTIVE)]
    [(10, (job 4 JOB_START [] [] 7) <| generation := 2%Z |> <| installed := true |>);
     (11, job 1 JOB_START [22] [21] 8); (12, job 2 JOB_STOP [] [22] 9)]
    [(21, mkJobDependency None 11 true false); (22, mkJobDependency (Some 11) 12 false true)]
    [(7%Z, 10)] [(1, [11]); (2, [12])] [21].
Lemma transaction_activate_correct_witness :
  ∃ m', transaction_activate_with 0 no_finish JOB_FAIL m0_queued = Ret 0%Z m' ∧ wf [] m' ∧
    ((λ e, (e.1, j_type e.2)) <$> map_to_list (job_heap m')) ≡ₚ [(10, JOB_START); (11, JOB_START)].
Proof.
  assert (activatable m0_queued) as Hac.
  { split; [by apply wf_check_sound; vm_compute|apply check_inside_sound|reflexivity|apply check_ids_sound|apply check_unvisited_sound|];
      [vm_compute; reflexivity..|]. unfold bounded. vm_compute. reflexivity. }
  destruct (wp_elim _ _ _ (transaction_activate_correct 0 no_finish JOB_FAIL m0_queued Hac ltac:(done)))
    as (r & m' & E & Hr).
  assert (match transaction_activate_with 0 no_finish JOB_FAIL m0_queued with Ret r _ => r | _ => 1%Z end = 0%Z) as C
    by (vm_compute; reflexivity).
  rewrite E in C. subst r. exists m'. split; [exact E|].
  destruct Hr as [[_ Hav]|[_ [C|[C _]]]]; [|discriminate C..]. split; [exact (av_wf _ _ _ Hav)|].
  assert (after (transaction_activate_with 0 no_finish JOB_FAIL) m0_queued
    (λ m, (λ e, (e.1, j_type e.2)) <$> map_to_list (job_heap m)) [] ≡ₚ [(10, JOB_START); (11, JOB_START)]) as D
    by (vm_compute; first [reflexivity | apply Permutation_swap]).
  unfold after in D. by rewrite E in D.
Defined.

(** The units of [m_web], with a job for "disk" in the queue that an earlier request left. *)
Definition m_web_queued : Manager UnitActiveState :=
  m_web <| units ::= alter (λ U, U <| u_job := Some 10 |>) 4 |> <| jobs := [(7%Z, 10)] |>
    <| job_heap := {[10 := (job 4 JOB_START [] [] 7) <| generation := 3%Z |> <| installed := true |>]} |>.
Lemma enqueue_correct_witness :
  unit_job_type m_web_queued 4 = Some JOB_START ∧
  ∃ r m', enqueue_with 0 no_finish JOB_START 1 JOB_FAIL true m_web_queued = Ret r m' ∧ r.1 = 0%Z ∧ wf [] m' ∧
    unit_job_type m' 4 = Some JOB_START ∧ unit_job_type m' 5 = Some JOB_STOP ∧
    ∃ t, unit_job_type m' 1 = Some t ∧ job_type_is_superset t JOB_START = true.
Proof.
  split; [reflexivity|]. assert (ready_for_requests m_web_queued) as Hrd.
  { split; [apply wf_check_sound; vm_compute; reflexivity|split; [|split]; reflexivity|reflexivity|].
    apply check_tidy_sound. vm_compute. reflexivity. }
  assert (units m_web_queued !! 1 = Some (unit "web.target" (dep UNIT_REQUIRES [2] (dep UNIT_WANTS [3] nodeps)) None UNIT_INACTIVE)) as HU by reflexivity.
  destruct (wp_elim _ _ _ (enqueue_correct 0 no_finish JOB_START 1 JOB_FAIL true m_web_queued _ Hrd HU ltac:(done)))
    as (r & m' & E & Hr).
  assert (match enqueue_with 0 no_finish JOB_START 1 JOB_FAIL true m_web_queued with
    Ret r m => (r.1, unit_job_type m 4, unit_job_type m 5) | _ => (1%Z, None, None) end
    = (0%Z, Some JOB_START, Some JOB_STOP)) as C by (vm_compute; reflexivity).
  rewrite E in C. injection C as C1 C2 C3. exists r, m'. split_and!; [exact E|exact C1| |exact C2|exact C3|];
    (destruct Hr as [[_ Hq]|[Hlt _]]; [|rewrite C1 in Hlt; discriminate Hlt]).
  - exact (qr_wf _ _ _ _ _ Hq).
  - exact (qr_asked _ _ _ _ _ Hq).
Defined.

(** "a" requires "b", and "b" needs "a" to run already. *)
Definition m_requisite : Manager UnitActiveState :=
  manager [(1, unit "a.target" (dep UNIT_REQUIRES [2] nodeps) None UNIT_INACTIVE);
           (2, unit "b.target" (dep UNIT_REQUISITE [1] nodeps) None UNIT_INACTIVE)] [] [] [] [] [].

(** C20. The job that [manager_add_job] answers may be gone: here the request
    succeeds, but the job made for it was merged into a later one of its unit
    and freed, so that the last lines, which read its id, use freed memory. *)
Theorem asked_job_dangles :
  (∃ k m', enqueue_with 0 no_finish JOB_START 1 JOB_REPLACE true m_requisite = Ret (0%Z, Some k) m' ∧
     job_heap m' !! k = None ∧ unit_job_type m' 1 = Some JOB_START) ∧
  manager_add_job_with 0 no_finish JOB_START 1 JOB_REPLACE true m_requisite = Fault.
Proof.
  split; [|vm_compute; reflexivity]. eexists _, _. split; [vm_compute; reflexivity|].
  split; vm_compute; reflexivity.
Qed.

(** "a" and "b", which is to stop, must each come before the other; "c" must
    come before "b". *)
Definition m_stale_marker : Manager UnitActiveState :=
  manager
    [(1, unit "a.target" (dep UNIT_BEFORE [2] nodeps) None UNIT_INACTIVE);
     (2, unit "b.target" (dep UNIT_BEFORE [1] nodeps) (Some 10) UNIT_ACTIVE);
     (3, unit "c.target" (dep UNIT_BEFORE [2] nodeps) None UNIT_INACTIVE)]
    [(10, (job 2 JOB_STOP [] [] 7) <| installed := true |>)] [] [(7%Z, 10)] [] [].

(** C21. A refused request is not without consequences: the marker that the
    search for cycles left on an installed job stays, and makes the next
    request, which the manager would have carried out before, fail with a
    cycle that does not exist. *)
Theorem refused_request_poisons_the_next :
  ready_for_requests m_stale_marker ∧
  let ask u := enqueue_with 0 no_finish JOB_START u JOB_REPLACE true in
  (∃ k m', ask 3 m_stale_marker = Ret (0%Z, Some k) m') ∧
  ∃ m1, ask 1 m_stale_marker = Ret ((- ENOEXEC)%Z, None) m1 ∧
    (∃ J, job_heap m1 !! 10 = Some J ∧ marker J = Some 100 ∧ job_heap m1 !! 100 = None) ∧
    ∃ m2, ask 3 m1 = Ret ((- ENOEXEC)%Z, None) m2.
Proof.
  split.
  { split; [apply wf_check_sound; vm_compute; reflexivity|split; [|split]; reflexivity|reflexivity|].
    apply check_tidy_sound. vm_compute. reflexivity. }
  cbv zeta. split; [eexists _, _; vm_compute; reflexivity|].
  eexists. split; [vm_compute; reflexivity|]. split.
  - eexists. split; [vm_compute; reflexivity|]. split; vm_compute; reflexivity.
  - eexists. vm_compute. reflexivity.
Qed.
End examples.
