(* ===== verification/Gc.v ===== *)
(** * The garbage collector of units (src/manager.c)

    A unit is garbage when nothing needs it ([unit_check_gc]) and nothing that
    is needed refers to it.  [unit_gc_sweep] looks along UNIT_REFERENCED_BY and
    marks what it finds in the unit's [gc_marker]: four colours per
    generation, so that the marks of an earlier run need not be reset.  A unit
    that only leads back to the way the search came from is unsure, unless it
    is where the search started.

    [live] is the specification.  [manager_dispatch_gc_queue] comes to an end,
    never collects a live unit, and collects every unit of its queue that is not
    live. *)

From stdpp Require Import base gmap strings list fin_maps.
From Stdlib Require Import ZArith Lia.
From S2P Require Import Prelude CString JobType OrderedMap Engine Transaction Links Wf WfCheck Passes Installed AddSpec.

Definition GC_OFFSET_IN_PATH : Z := 0.
Definition GC_OFFSET_UNSURE : Z := 1.
Definition GC_OFFSET_GOOD : Z := 2.
Definition GC_OFFSET_BAD : Z := 3.
Definition GC_OFFSET_MAX : Z := 4.
Definition GC_QUEUE_ENTRIES_MAX : Z := 16.
Definition GC_QUEUE_USEC_MAX : Z := 10 * 1000000.
Definition INT_MAX : Z := 2 ^ 31 - 1.

Section gc.
Context {P : Type} `{UnitVTable P}.
Abbreviation MM := (M (Manager P)).

Definition gc_mark (u : UnitPtr) (c : Z) : MM unit := update_unit u (λ U, U <| gc_marker := c |>).

(** [bad:], [good:] *)
Definition gc_bad (g : Z) (u : UnitPtr) : MM unit :=
  gc_mark u (u32 (g + GC_OFFSET_BAD));; unit_add_to_cleanup_queue u.
Definition gc_good (g : Z) (u : UnitPtr) : MM unit := gc_mark u (u32 (g + GC_OFFSET_GOOD)).

(** The loop over the units that refer to the unit: [None] when one of them is
    good, otherwise whether all are bad. *)
Fixpoint gc_look (g : Z) (sweep : UnitPtr → MM unit) (l : list UnitPtr) (is_bad : bool)
    : MM (option bool) :=
  match l with
  | [] => mret (Some is_bad)
  | v :: l' =>
      sweep v;;
      V ← unit_at v;
      if bool_decide (gc_marker V = u32 (g + GC_OFFSET_GOOD)) then mret None else
      gc_look g sweep l' (is_bad && bool_decide (gc_marker V = u32 (g + GC_OFFSET_BAD)))
  end.

Fixpoint unit_gc_sweep_rec (n : nat) (g : Z) (u : UnitPtr) : MM unit :=
  match n with
  | O => nofuel
  | S n' =>
      U ← unit_at u;
      if bool_decide (gc_marker U = u32 (g + GC_OFFSET_GOOD)) ||
         bool_decide (gc_marker U = u32 (g + GC_OFFSET_BAD)) ||
         bool_decide (gc_marker U = u32 (g + GC_OFFSET_IN_PATH)) then mret tt else
      if in_cleanup_queue U then gc_bad g u else
      b ← unit_check_gc u;
      if b : bool then gc_good g u else
      gc_mark u (u32 (g + GC_OFFSET_IN_PATH));;
      r ← gc_look g (unit_gc_sweep_rec n' g) (dependencies U UNIT_REFERENCED_BY) true;
      match r with
      | None => gc_good g u
      | Some true => gc_bad g u
      | Some false => gc_mark u (u32 (g + GC_OFFSET_UNSURE));; unit_add_to_gc_queue u
      end
  end.
(** The units on the way are different from each other. *)
Definition unit_gc_sweep (u : UnitPtr) (g : Z) : MM unit :=
  n ← gets (λ m, S (size (units m))); unit_gc_sweep_rec n g u.

(** One round of the loop over the queue. *)
Definition gc_collect (g : Z) (u : UnitPtr) : MM unit :=
  U ← unit_at u;
  assert_ (in_gc_queue U);;
  unit_gc_sweep u g;;
  modify (λ m, m <| gc_queue ::= list_remove u |>);;
  update_unit u (λ U, U <| in_gc_queue := false |>);;
  U ← unit_at u;
  when (bool_decide (gc_marker U = u32 (g + GC_OFFSET_BAD)) ||
        bool_decide (gc_marker U = u32 (g + GC_OFFSET_UNSURE)))
    (gc_bad g u).

Fixpoint gc_loop (n : nat) (g : Z) (c : Z) : MM Z :=
  match n with
  | O => nofuel
  | S n' =>
      q ← gets gc_queue;
      match q with
      | [] => mret c
      | u :: _ => gc_collect g u;; gc_loop n' g (u32 (c + 1))
      end
  end.

(** The next generation.  [m->gc_marker] is an [int], and its overflow is
    undefined, so the test for it that follows in the code has nothing to find. *)
Definition gc_next_marker : MM Z :=
  c ← gets m_gc_marker;
  assert_ (bool_decide (c + GC_OFFSET_MAX + GC_OFFSET_MAX ≤ INT_MAX)%Z);;
  let c := (c + GC_OFFSET_MAX)%Z in
  let c := if bool_decide (c + GC_OFFSET_MAX ≤ GC_OFFSET_MAX)%Z then 1%Z else c in
  modify (λ m, m <| m_gc_marker := c |>);;
  mret c.

(** There is enough to do, or it waited for long enough. *)
Definition gc_due (m : Manager P) : bool :=
  negb (bool_decide (n_in_gc_queue m < GC_QUEUE_ENTRIES_MAX)%Z &&
        (bool_decide (gc_queue_timestamp m ≤ 0)%Z ||
         bool_decide (clock m < u64 (gc_queue_timestamp m + GC_QUEUE_USEC_MAX))%Z)).

(** No unit gets into the queue again in a run. *)
Definition manager_dispatch_gc_queue : MM Z :=
  due ← gets gc_due;
  if negb due then mret 0%Z else
  g ← gc_next_marker;
  n ← gets (λ m, S (size (units m)));
  c ← gc_loop n g 0;
  modify (λ m, m <| n_in_gc_queue := 0%Z |> <| gc_queue_timestamp := 0%Z |>);;
  mret c.
End gc.

(** ** Specification *)

(** What the collector relies on in a unit type: its answers do not depend on
    the queues that a unit is in. *)
Class GcLaws P `{UnitVTable P} : Prop := {
  no_gc_bare : ∀ U V : Unit P, bare U = bare V → vt_no_gc U = vt_no_gc V;
  check_gc_bare : ∀ U V : Unit P, bare U = bare V → vt_check_gc U = vt_check_gc V }.

Section spec.
Context {P : Type} `{UnitVTableLaws P, !GcLaws P}.
Abbreviation MM := (M (Manager P)).
Implicit Types m : Manager P.

(** [live_avoiding m A u]: from [u] a needed unit can be reached along
    UNIT_REFERENCED_BY without a unit of [A] and without a unit that is on its
    way out. *)
Inductive live_avoiding m (A : gset UnitPtr) : UnitPtr → Prop :=
  | live_needed u U s :
      units m !! u = Some U → active_state_in (units m) u = Some s →
      in_cleanup_queue U = false → u ∉ A → needs U s = true → live_avoiding m A u
  | live_referenced u U v :
      units m !! u = Some U → in_cleanup_queue U = false → u ∉ A →
      v ∈ dependencies U UNIT_REFERENCED_BY → live_avoiding m A v → live_avoiding m A u.
Definition live m : UnitPtr → Prop := live_avoiding m ∅.

Lemma live_avoiding_out m A u : live_avoiding m A u → u ∉ A.
Proof. by destruct 1. Qed.
Lemma live_avoiding_mono m A B u : B ⊆ A → live_avoiding m A u → live_avoiding m B u.
Proof.
  intros Hs. induction 1; [eapply live_needed|eapply live_referenced]; try done; set_solver.
Qed.
Lemma live_avoiding_live m A u : live_avoiding m A u → live m u.
Proof. apply live_avoiding_mono. set_solver. Qed.

(** A way that need not come back to where it started. *)
Lemma live_avoiding_split m A u U s w :
  units m !! u = Some U → active_state_in (units m) u = Some s → needs U s = false →
  live_avoiding m A w →
  live_avoiding m ({[u]} ∪ A) w ∨
  ∃ v, v ∈ dependencies U UNIT_REFERENCED_BY ∧ live_avoiding m ({[u]} ∪ A) v.
Proof.
  intros HU Hs Hn. induction 1 as [w W s' HW Hw Hc HA Hn'|w W v HW Hc HA Hv Hl [IH|IH]]; [left|..|by right].
  - assert (w ≠ u) by (intros ->; congruence). eapply live_needed; [done..| |done]. set_solver.
  - destruct (decide (w = u)) as [->|].
    + right. rewrite HU in HW. injection HW as <-. eauto.
    + left. eapply live_referenced; [done..| |done|done]. set_solver.
Qed.

(** ** Queues *)

(** The list holds the units that say so. *)
Definition tracks (q : list UnitPtr) (f : Unit P → bool) (us : gmap UnitPtr (Unit P)) : Prop :=
  NoDup q ∧ ∀ u, u ∈ q ↔ ∃ U, us !! u = Some U ∧ f U = true.

Lemma tracks_insert (f : Unit P → bool) (us : gmap UnitPtr (Unit P)) u (U' : Unit P) v :
  (∃ V, <[u := U']> us !! v = Some V ∧ f V = true) ↔
  if decide (v = u) then f U' = true else ∃ V, us !! v = Some V ∧ f V = true.
Proof.
  case_decide as Hv.
  - subst. rewrite lookup_insert_eq. split; [by intros (V & [= <-] & ?)|eauto].
  - by rewrite lookup_insert_ne.
Qed.
Lemma tracks_same q f us u U U' :
  tracks q f us → us !! u = Some U → f U' = f U → tracks q f (<[u := U']> us).
Proof.
  intros [Hnd Hq] HU Hf. split; [done|]. intros v. rewrite Hq, tracks_insert, Hf.
  case_decide; [subst|done]. rewrite HU. split; [by intros (V & [= <-] & ?)|eauto].
Qed.
Lemma tracks_add q f us u U U' :
  tracks q f us → us !! u = Some U → f U = false → f U' = true →
  tracks (u :: q) f (<[u := U']> us).
Proof.
  intros [Hnd Hq] HU Hf Hf'. split.
  - constructor; [|done]. rewrite Hq. intros (V & HV & ?). congruence.
  - intros v. rewrite elem_of_cons, Hq, tracks_insert. case_decide; tauto.
Qed.
Lemma tracks_drop q f us u U U' :
  tracks q f us → us !! u = Some U → f U' = false → tracks (list_remove u q) f (<[u := U']> us).
Proof.
  intros [Hnd Hq] HU Hf. split; [by apply NoDup_list_remove|].
  intros v. rewrite elem_of_list_remove, Hq, tracks_insert, Hf.
  case_decide; [|tauto]. split; [by intros []|done].
Qed.

(** ** The invariant of a run *)

Section run.
Context (m0 : Manager P) (g : Z).
Hypothesis wf0 : ∃ X, wf_core X m0.
Hypothesis g_range : (0 < g ∧ g + 3 < 2 ^ 32)%Z.

Lemma u32_g k : (0 ≤ k ≤ 3)%Z → u32 (g + k) = (g + k)%Z.
Proof. intros. unfold u32. apply Z.mod_small. lia. Qed.

Definition in_path : Z := (g + GC_OFFSET_IN_PATH)%Z.
Definition unsure : Z := (g + GC_OFFSET_UNSURE)%Z.
Definition good : Z := (g + GC_OFFSET_GOOD)%Z.
Definition bad : Z := (g + GC_OFFSET_BAD)%Z.

(** What holds of a unit, whatever the collector did so far. *)
Record unit_ok u (U : Unit P) : Prop := {
  uo_good : gc_marker U = good → live m0 u;
  uo_bad : gc_marker U = bad → in_cleanup_queue U = true;
  uo_clean : in_cleanup_queue U = true → ¬ live m0 u;
  uo_range : (0 ≤ gc_marker U < g + GC_OFFSET_MAX)%Z }.
Record gc_ok m : Prop := {
  go_queued : queued m0 m;
  go_units : ∀ u U, units m !! u = Some U → unit_ok u U;
  go_clean : ∀ u U0 U, units m0 !! u = Some U0 → units m !! u = Some U →
    in_cleanup_queue U0 = true → in_cleanup_queue U = true;
  go_gcq : tracks (gc_queue m) in_gc_queue (units m);
  go_clq : tracks (cleanup_queue m) in_cleanup_queue (units m) }.

Definition marked m u c : Prop := gc_marker <$> units m !! u = Some c.
Definition decided m u : Prop := marked m u good ∨ marked m u bad.
#[local] Instance marked_dec m u c : Decision (marked m u c) := ltac:(unfold marked; apply _).
#[local] Instance decided_dec m u : Decision (decided m u) := ltac:(unfold decided; apply _).
Definition path m (A : gset UnitPtr) : Prop :=
  A ⊆ dom (units m) ∧ ∀ u U, units m !! u = Some U → gc_marker U = in_path ↔ u ∈ A.

(** What a search leaves alone. *)
Record moves m m' : Prop := {
  mv_decided : ∀ u c, c = good ∨ c = bad → marked m u c → marked m' u c;
  mv_queue : ∀ u, u ∈ gc_queue m' → u ∈ gc_queue m ∨ ¬ decided m u;
  mv_kept : gc_queue m ⊆ gc_queue m' }.

#[local] Instance moves_preorder : PreOrder moves.
Proof.
  split; [split; auto|]. intros m1 m2 m3 [D1 Q1 K1] [D2 Q2 K2]. split.
  - auto.
  - intros u [Hu|Hu]%Q2; [auto|]. right. intros [?|?]; apply Hu; [left|right]; apply D1; auto.
  - by etrans.
Qed.

Lemma marked_fun m u c d : marked m u c → marked m u d → c = d.
Proof. unfold marked. congruence. Qed.

(** One unit and the queues change. *)
Lemma gc_ok_change m m' u U U' :
  gc_ok m → units m !! u = Some U → units m' = <[u := U']> (units m) → unqueue m' = unqueue m →
  bare U' = bare U → u_job U' = u_job U → unit_ok u U' →
  (in_cleanup_queue U = true → in_cleanup_queue U' = true) →
  tracks (gc_queue m') in_gc_queue (units m') → tracks (cleanup_queue m') in_cleanup_queue (units m') →
  gc_ok m'.
Proof.
  intros [Hq Hu Hc _ _] HU Em Er Eb Ej Hok Hk Hgq Hcq. split; try done.
  - etrans; [exact Hq|]. split; [done|rewrite Em; by apply (bare_insert _ u U)|].
    rewrite Em, fmap_insert, Ej. apply insert_id. by rewrite lookup_fmap, HU.
  - rewrite Em. intros v V [[<- <-]|[? ?]]%lookup_insert_Some; auto.
  - rewrite Em. intros v V0 V HV0 [[<- <-]|[? ?]]%lookup_insert_Some ?; eauto.
Qed.

Lemma marked_unit m u U : units m !! u = Some U → marked m u (gc_marker U).
Proof. unfold marked. by intros ->. Qed.
Lemma marked_lookup m u c : marked m u c → ∃ U, units m !! u = Some U ∧ gc_marker U = c.
Proof. unfold marked. intros (U & ? & ->)%fmap_Some. eauto. Qed.

(** A unit gets a new mark, and perhaps a place in the queue. *)
Record remark u c m m' : Prop := {
  rm_marks : ∀ v d, marked m' v d ↔ if decide (v = u) then d = c else marked m v d;
  rm_queue : ∀ v, v ∈ gc_queue m' → v ∈ gc_queue m ∨ v = u;
  rm_kept : gc_queue m ⊆ gc_queue m';
  rm_dom : dom (units m') = dom (units m) }.

Lemma remark_change m m' u c U U' :
  units m !! u = Some U → units m' = <[u := U']> (units m) → gc_marker U' = c →
  gc_queue m' = gc_queue m ∨ gc_queue m' = u :: gc_queue m → remark u c m m'.
Proof.
  intros HU Em <- Hq. split.
  - intros v d. unfold marked. rewrite Em. case_decide as Hv.
    + subst. rewrite lookup_insert_eq. simpl. split; [by intros [= ->]|by intros ->].
    + by rewrite lookup_insert_ne.
  - intros v. destruct Hq as [->| ->]; [auto|]. rewrite elem_of_cons. tauto.
  - destruct Hq as [->| ->]; set_solver.
  - rewrite Em, dom_insert_L. apply elem_of_dom_2 in HU. set_solver.
Qed.
Lemma remark_marked u c m m' : remark u c m m' → marked m' u c.
Proof. intros Hr. apply (rm_marks _ _ _ _ Hr). by rewrite decide_True. Qed.
Lemma remark_moves u c m m' : remark u c m m' → ¬ decided m u → moves m m'.
Proof.
  intros Hr Hu. split.
  - intros v d Hd Hv. apply (rm_marks _ _ _ _ Hr). case_decide; [|done]. subst.
    exfalso. apply Hu. destruct Hd as [->| ->]; [by left|by right].
  - intros v [?| ->]%(rm_queue _ _ _ _ Hr); auto.
  - apply (rm_kept _ _ _ _ Hr).
Qed.

Lemma path_marked m A u : path m A → u ∈ dom (units m) → marked m u in_path ↔ u ∈ A.
Proof.
  intros [_ Hp] [U HU]%elem_of_dom. rewrite <- (Hp u U HU). unfold marked. rewrite HU. simpl.
  split; [by intros [= ->]|by intros ->].
Qed.
Lemma path_intro m A :
  A ⊆ dom (units m) → (∀ u, u ∈ dom (units m) → marked m u in_path ↔ u ∈ A) → path m A.
Proof.
  intros Hs Hm. split; [done|]. intros u U HU. rewrite <- Hm by by apply elem_of_dom_2 in HU.
  unfold marked. rewrite HU. simpl. split; [by intros ->|by intros [= ->]].
Qed.
Lemma remark_path u c m m' A :
  remark u c m m' → path m A → u ∈ dom (units m) →
  path m' (if decide (c = in_path) then {[u]} ∪ A else A ∖ {[u]}).
Proof.
  intros Hr Hp Hu. destruct Hp as [Hs Hp'] eqn:Ep. clear Ep. apply path_intro.
  - rewrite (rm_dom _ _ _ _ Hr). case_decide; set_solver.
  - intros v Hv. rewrite (rm_dom _ _ _ _ Hr) in Hv. rewrite (rm_marks _ _ _ _ Hr).
    destruct (decide (v = u)) as [->|]; [case_decide; set_solver|].
    rewrite (path_marked m A v) by done. case_decide; set_solver.
Qed.

(** ** What the unit was at the start *)

Lemma needs_same (U V : Unit P) s : bare U = bare V → u_job U = u_job V → needs U s = needs V s.
Proof.
  intros E Ej. unfold needs. assert (load_state U = load_state V) as -> by exact (f_equal load_state E).
  assert (u_no_gc U = u_no_gc V) as -> by exact (f_equal u_no_gc E).
  by rewrite (no_gc_bare U V E), (check_gc_bare U V E), Ej.
Qed.

Lemma gc_ok_unit m u U :
  gc_ok m → units m !! u = Some U →
  ∃ U0 s, units m0 !! u = Some U0 ∧ active_state_in (units m0) u = Some s ∧
    dependencies U = dependencies U0 ∧ (in_cleanup_queue U = false → in_cleanup_queue U0 = false) ∧
    reads (unit_check_gc u) m (needs U0 s).
Proof.
  intros Ho HU. destruct (queued_units m0 m u U (go_queued _ Ho) HU) as (U0 & HU0 & Eb & Ej).
  destruct wf0 as [X Hc]. destruct (wc_unit _ _ Hc u U0 HU0) as (_ & [s Hs] & _).
  exists U0, s. split_and!; [done|done| | |].
  - by apply bare_fields in Eb as (? & _).
  - intros Hcl. destruct (in_cleanup_queue U0) eqn:E; [|done].
    by rewrite (go_clean _ Ho u U0 U HU0 HU E) in Hcl.
  - rewrite <- (needs_same U U0 s Eb Ej). apply unit_check_gc_reads; [done|].
    by rewrite (active_state_bare (units m0) (units m) u (qu_units _ _ (go_queued _ Ho))).
Qed.
Lemma gc_ok_dom m : gc_ok m → dom (units m) = dom (units m0).
Proof.
  intros Ho. rewrite <- (dom_fmap_L bare), (qu_units _ _ (go_queued _ Ho)). by rewrite dom_fmap_L.
Qed.
Lemma referrer_in m u U v :
  gc_ok m → units m !! u = Some U → v ∈ dependencies U UNIT_REFERENCED_BY → v ∈ dom (units m).
Proof.
  intros Ho HU Hv. destruct (gc_ok_unit m u U Ho HU) as (U0 & s & HU0 & _ & Ed & _).
  destruct wf0 as [X Hc]. destruct (wc_unit _ _ Hc u U0 HU0) as (Hd & _ & _).
  rewrite (gc_ok_dom m Ho). apply elem_of_dom, (Hd UNIT_REFERENCED_BY). by rewrite <- Ed.
Qed.

(** ** Setting marks *)

Lemma gc_mark_spec m u U c :
  gc_ok m → units m !! u = Some U → unit_ok u (U <| gc_marker := c |>) →
  wp (gc_mark u c) m (λ _ m', gc_ok m' ∧ remark u c m m' ∧ gc_queue m' = gc_queue m ∧
    units m' !! u = Some (U <| gc_marker := c |>)).
Proof.
  intros Ho HU Hk. eapply wp_intro; [by apply (update_unit_eq u _ _ U)|]. split_and!.
  - apply (gc_ok_change m _ u U (U <| gc_marker := c |>)); try done; simpl;
      (eapply tracks_same; [|done|done]); apply Ho.
  - apply (remark_change m _ u c U (U <| gc_marker := c |>)); auto.
  - done.
  - simpl. by rewrite lookup_insert_eq.
Qed.

Lemma gc_good_spec m u U :
  gc_ok m → units m !! u = Some U → live m0 u →
  wp (gc_good g u) m (λ _ m', gc_ok m' ∧ remark u good m m').
Proof.
  intros Ho HU Hl. unfold gc_good. rewrite u32_g by (unfold GC_OFFSET_GOOD; lia).
  eapply wp_mono; [apply (gc_mark_spec m u U); [done|done|]|by intros ? ? (? & ? & _)].
  destruct (go_units _ Ho u U HU) as [_ _ Hc _].
  split; simpl; unfold bad, GC_OFFSET_GOOD, GC_OFFSET_BAD, GC_OFFSET_MAX; (done || lia).
Qed.

Lemma gc_bad_spec m u U :
  gc_ok m → units m !! u = Some U → ¬ live m0 u →
  wp (gc_bad g u) m (λ _ m', gc_ok m' ∧ remark u bad m m' ∧ gc_queue m' = gc_queue m).
Proof.
  intros Ho HU Hl. unfold gc_bad. rewrite u32_g by (unfold GC_OFFSET_BAD; lia).
  unfold gc_mark, unit_add_to_cleanup_queue. wp_step.
  eapply wp_intro; [by apply (update_unit_eq u _ _ U)|]. wp_step.
  set (m1 := m <| units ::= <[u := U <| gc_marker := (g + GC_OFFSET_BAD)%Z |>]> |>).
  eapply wp_unit_at; [apply lookup_insert_eq|]. simpl.
  assert (∀ U', gc_marker U' = bad → in_cleanup_queue U' = true → unit_ok u U') as Hok.
  { intros U' E1 E2. split; [|done|done|]; rewrite E1;
      unfold bad, good, GC_OFFSET_GOOD, GC_OFFSET_BAD, GC_OFFSET_MAX; lia. }
  destruct (in_cleanup_queue U) eqn:Ec.
  - wp_step. split_and!; [|by apply (remark_change m _ u bad U (U <| gc_marker := bad |>)); auto|done].
    apply (gc_ok_change m _ u U (U <| gc_marker := bad |>)); try done; [by apply Hok|..]; simpl;
      (eapply tracks_same; [|done|done]); apply Ho.
  - wp_step. wp_step. eapply wp_intro; [apply (update_unit_eq u _ _ (U <| gc_marker := bad |>));
      apply lookup_insert_eq|]. simpl.
    set (U' := U <| gc_marker := bad |> <| in_cleanup_queue := true |>).
    split_and!; [|apply (remark_change m _ u bad U U'); simpl; rewrite ?insert_insert_eq; auto|done].
    apply (gc_ok_change m _ u U U'); try done; [simpl; by rewrite insert_insert_eq|by apply Hok|..]; simpl;
      rewrite insert_insert_eq.
    + eapply tracks_same; [apply Ho|done|done].
    + by eapply tracks_add; [apply Ho|..].
Qed.

Lemma remark_trans u c m1 m2 m3 : remark u c m1 m2 → remark u c m2 m3 → remark u c m1 m3.
Proof.
  intros [M1 Q1 K1 D1] [M2 Q2 K2 D2]. split.
  - intros v d. rewrite M2. case_decide; [done|]. rewrite M1. by rewrite decide_False.
  - intros v [?|?]%Q2; auto.
  - by etrans.
  - congruence.
Qed.
Lemma remark_refl u m U : units m !! u = Some U → remark u (gc_marker U) m m.
Proof.
  intros HU. split; auto. intros v d. case_decide; [subst|done]. unfold marked. rewrite HU. simpl.
  split; [by intros [= ->]|by intros ->].
Qed.

Lemma unit_add_to_gc_queue_ok m u U :
  gc_ok m → units m !! u = Some U →
  wp (unit_add_to_gc_queue u) m (λ _ m', gc_ok m' ∧ remark u (gc_marker U) m m').
Proof.
  intros Ho HU. unfold unit_add_to_gc_queue. wp_step. eapply wp_unit_at; [done|].
  destruct (in_gc_queue U) eqn:Eg; simpl; [wp_step; split; [done|by apply remark_refl]|].
  destruct (in_cleanup_queue U); simpl; [wp_step; split; [done|by apply remark_refl]|].
  destruct (gc_ok_unit m u U Ho HU) as (U0 & s & _ & _ & _ & _ & Hr). wp_step.
  eapply reads_wp; [exact Hr|]. destruct (needs U0 s); [wp_step; split; [done|by apply remark_refl]|].
  wp_step. wp_step. wp_step. eapply wp_intro; [by apply (update_unit_eq u _ _ U)|].
  wp_step. wp_step. wp_step. wp_step. set (U' := U <| in_gc_queue := true |>).
  match goal with |- wp _ ?s _ => set (m1 := s) end.
  enough (gc_ok m1 ∧ remark u (gc_marker U) m m1) as [Ho1 Hr1].
  { unfold when. case_bool_decide; [|by wp_step]. wp_step. unfold now. wp_step. wp_step.
    destruct Ho1 as [[??] ? ? ? ?]. split; [|by destruct Hr1]. by split. }
  split; [|by apply (remark_change m m1 u _ U U'); auto].
  destruct (go_units _ Ho u U HU). apply (gc_ok_change m m1 u U U'); try done; simpl.
  - by eapply tracks_add; [apply Ho|..].
  - by eapply tracks_same; [apply Ho|..].
Qed.

Lemma gc_unsure_spec m u U :
  gc_ok m → units m !! u = Some U →
  wp (gc_mark u (u32 (g + GC_OFFSET_UNSURE));; unit_add_to_gc_queue u) m
     (λ _ m', gc_ok m' ∧ remark u unsure m m').
Proof.
  intros Ho HU. rewrite u32_g by (unfold GC_OFFSET_UNSURE; lia). wp_step.
  eapply wp_mono; [apply (gc_mark_spec m u U); [done|done|]|].
  { destruct (go_units _ Ho u U HU) as [_ _ Hc _].
    split; simpl; unfold good, bad, GC_OFFSET_UNSURE, GC_OFFSET_GOOD, GC_OFFSET_BAD, GC_OFFSET_MAX; (done || lia). }
  intros _ m1 (Ho1 & Hr1 & _ & HU1). eapply wp_mono; [by apply unit_add_to_gc_queue_ok|].
  intros _ m2 [? Hr2]. split; [done|]. by eapply remark_trans.
Qed.

(** ** The search *)

(** What the search for [u] found, when [A] are the units on the way to it. *)
Definition found (A : gset UnitPtr) (u : UnitPtr) (c : Z) : Prop :=
  c = good ∨ c = bad ∨ (c = in_path ∧ u ∈ A) ∨ (c = unsure ∧ ¬ live_avoiding m0 A u).
Definition swept (A : gset UnitPtr) (u : UnitPtr) m m' : Prop :=
  gc_ok m' ∧ path m' A ∧ moves m m' ∧ ∃ c, marked m' u c ∧ found A u c.

Lemma marked_good m u : gc_ok m → marked m u good → live m0 u.
Proof. intros Ho (U & HU & E)%marked_lookup. by apply (uo_good u U (go_units _ Ho u U HU)). Qed.
Lemma marked_bad m u : gc_ok m → marked m u bad → ¬ live m0 u.
Proof.
  intros Ho (U & HU & E)%marked_lookup. pose proof (go_units _ Ho u U HU) as Hk.
  by apply (uo_clean u U Hk), (uo_bad u U Hk).
Qed.

Lemma found_not_live A m u c :
  gc_ok m → marked m u c → found A u c → c ≠ good → ¬ live_avoiding m0 A u.
Proof.
  intros Ho Hm [->|[->|[[-> Hu]|[-> Hu]]]] Hc; [done| |by intros ?%live_avoiding_out|done].
  by intros ?%live_avoiding_live; eapply marked_bad.
Qed.

Lemma gc_look_spec A l sweep m b :
  (∀ v m, v ∈ l → gc_ok m → path m A → v ∈ dom (units m) → wp (sweep v) m (λ _ m', swept A v m m')) →
  gc_ok m → path m A → (∀ v, v ∈ l → v ∈ dom (units m)) →
  wp (gc_look g sweep l b) m (λ r m', gc_ok m' ∧ path m' A ∧ moves m m' ∧
    match r with
    | None => ∃ v, v ∈ l ∧ live m0 v
    | Some b' => (∀ v, v ∈ l → ¬ live_avoiding m0 A v) ∧
                 (b' = true → b = true ∧ ∀ v, v ∈ l → ¬ live m0 v)
    end).
Proof.
  revert m b. induction l as [|v l IH]; intros m b Hs Ho Hp Hl; simpl.
  { wp_step. split_and!; [done|done|reflexivity|by intros ? ?%elem_of_nil|].
    intros ->. split; [done|]. by intros ? ?%elem_of_nil. }
  wp_step. eapply wp_mono; [apply Hs; [left|done|done|apply Hl; left]|].
  intros _ m1 (Ho1 & Hp1 & Hm1 & c & Hc & Hf). wp_step.
  destruct (marked_lookup _ _ _ Hc) as (V & HV & Ev). eapply wp_unit_at; [done|].
  rewrite !u32_g by (unfold GC_OFFSET_GOOD, GC_OFFSET_BAD; lia). fold good bad.
  case_bool_decide as Hg.
  { wp_step. split_and!; [done..|]. exists v. split; [left|]. eapply marked_good; [done|].
    by rewrite <- Hg, Ev. }
  assert (¬ live_avoiding m0 A v) as Hnl by (eapply found_not_live; [done|done|done|congruence]).
  eapply wp_mono; [apply IH|].
  - intros w m' Hw. apply Hs. by right.
  - done.
  - done.
  - intros w Hw. rewrite (gc_ok_dom m1 Ho1), <- (gc_ok_dom m Ho). apply Hl. by right.
  - intros r m2 (Ho2 & Hp2 & Hm2 & Hr). split_and!; [done|done|by etrans|].
    destruct r as [b'|].
    + destruct Hr as [Hr Hb]. split; [intros w [->|?]%elem_of_cons; auto|].
      intros Eb. apply Hb in Eb as [[? E%bool_decide_eq_true]%andb_true_iff Hb']. split; [done|].
      intros w [->|?]%elem_of_cons; [|auto]. eapply marked_bad; [exact Ho1|].
      rewrite <- E. by apply marked_unit.
    + destruct Hr as (w & ? & ?). exists w. split; [by right|done].
Qed.

Lemma swept_remark m m1 m' A B u c :
  moves m m1 → path m1 B → B ∖ {[u]} = A → ¬ decided m1 u → u ∈ dom (units m1) →
  gc_ok m' → remark u c m1 m' → c ≠ in_path → found A u c → swept A u m m'.
Proof.
  intros Hm Hp HB Hd Hu Ho Hr Hc Hf. split_and!; [done|..].
  - rewrite <- HB. pose proof (remark_path u c m1 m' B Hr Hp Hu) as Hp'.
    by rewrite decide_False in Hp' by done.
  - etrans; [exact Hm|]. by eapply remark_moves.
  - exists c. split; [by eapply remark_marked|done].
Qed.

Lemma colours : good ≠ bad ∧ good ≠ in_path ∧ bad ≠ in_path ∧ unsure ≠ in_path ∧ unsure ≠ good ∧ unsure ≠ bad.
Proof.
  unfold good, bad, in_path, unsure, GC_OFFSET_GOOD, GC_OFFSET_BAD, GC_OFFSET_IN_PATH, GC_OFFSET_UNSURE. lia.
Qed.

(** [u] goes on the path. *)
Lemma enter_path m A u U :
  gc_ok m → path m A → units m !! u = Some U → u ∉ A → ¬ decided m u →
  wp (gc_mark u in_path) m (λ _ m1,
    gc_ok m1 ∧ path m1 ({[u]} ∪ A) ∧ moves m m1 ∧ ¬ decided m1 u).
Proof.
  intros Ho Hp HU Hu Hd.
  destruct colours as (_ & Hgi & Hbi & _). eapply wp_mono; [apply (gc_mark_spec m u U); [done|done|]|].
  { destruct (go_units _ Ho u U HU) as [_ _ Hc _]. split; simpl; [done..|].
    unfold in_path, GC_OFFSET_IN_PATH, GC_OFFSET_MAX. lia. }
  intros _ m1 (Ho1 & Hr & _ & _). split_and!; [done| |by eapply remark_moves|].
  - pose proof (remark_path u in_path m m1 A Hr Hp) as Hp1. rewrite decide_True in Hp1 by done.
    apply Hp1. by eapply elem_of_dom_2.
  - pose proof (remark_marked _ _ _ _ Hr) as Hm. intros [Hg|Hb]; [apply Hgi|apply Hbi]; by eapply marked_fun.
Qed.

(** The rest of the search after [u] has gone on the path. *)
Lemma gc_look_swept sweep m0' m A u (U U0 : Unit P) s :
  (∀ v m, gc_ok m → path m ({[u]} ∪ A) → v ∈ dom (units m) →
     wp (sweep v) m (λ _ m', swept ({[u]} ∪ A) v m m')) →
  gc_ok m → path m ({[u]} ∪ A) → moves m0' m → u ∈ dom (units m) → u ∉ A →
  units m0 !! u = Some U0 → active_state_in (units m0) u = Some s →
  in_cleanup_queue U0 = false → needs U0 s = false → dependencies U = dependencies U0 →
  (∀ v, v ∈ dependencies U UNIT_REFERENCED_BY → v ∈ dom (units m)) →
  wp (r ← gc_look g sweep (dependencies U UNIT_REFERENCED_BY) true;
      match r with
      | None => gc_good g u
      | Some true => gc_bad g u
      | Some false => gc_mark u (u32 (g + GC_OFFSET_UNSURE));; unit_add_to_gc_queue u
      end) m (λ _ m', swept A u m0' m').
Proof.
  intros Hs Ho1 Hp1 Hm1 Hu HuA HU0 Hs0 Hc0 En Ed Hin.
  destruct colours as (Hgb & Hgi & Hbi & Hui & Hug & Hub).
  wp_step. eapply wp_mono; [apply (gc_look_spec ({[u]} ∪ A)); [|done|done|done]|].
  { intros v m2 _. apply Hs. }
  intros r m2 (Ho2 & Hp2 & Hm2 & Hr).
  assert (u ∈ dom (units m2)) as Hu2 by by rewrite (gc_ok_dom m2 Ho2), <- (gc_ok_dom m Ho1).
  assert (¬ decided m2 u) as Hd2.
  { pose proof (proj2 (path_marked m2 _ u Hp2 Hu2) ltac:(set_solver)) as Hi.
    intros [Hg|Hb]; [apply Hgi|apply Hbi]; by eapply marked_fun. }
  pose proof Hu2 as [U2 HU2]%elem_of_dom.
  assert (∀ c m', c ≠ in_path → found A u c → gc_ok m' → remark u c m2 m' → swept A u m0' m') as Hdone.
  { intros c m' Hc Hf Ho' Hr'. eapply (swept_remark m0' m2 m' A ({[u]} ∪ A) u c); try done; [by etrans|set_solver]. }
  rewrite Ed in Hr. destruct r as [[]|].
  - destruct Hr as [_ Hr]. destruct (Hr eq_refl) as [_ Hr']. clear Hr.
    eapply wp_mono; [apply (gc_bad_spec m2 u U2); [done|done|]|].
    + intros Hl. destruct Hl as [u' U' s' HU' Hs' _ _ Hn'|u' U' v HU' _ _ Hv Hl]; [congruence|].
      rewrite HU0 in HU'. injection HU' as <-. by apply (Hr' v).
    + intros _ m' (Ho' & Hr & _). apply (Hdone bad); unfold found; auto.
  - destruct Hr as [Hr _]. eapply wp_mono; [by apply (gc_unsure_spec m2 u U2)|].
    intros _ m' [Ho' Hr']. apply (Hdone unsure); [done| |done|done]. unfold found. do 3 right.
    split; [done|]. intros Hl.
    destruct (live_avoiding_split m0 A u U0 s u HU0 Hs0 En Hl) as [Hl'|(v & Hv & Hl')].
    + apply live_avoiding_out in Hl'. set_solver.
    + by apply (Hr v).
  - destruct Hr as (v & Hv & Hl). eapply wp_mono; [apply (gc_good_spec m2 u U2); [done|done|]|].
    + by eapply live_referenced.
    + intros _ m' (Ho' & Hr). apply (Hdone good); unfold found; auto.
Qed.

Lemma unit_gc_sweep_rec_spec n : ∀ m A u,
  gc_ok m → path m A → u ∈ dom (units m) → size (dom (units m) ∖ A) < n →
  wp (unit_gc_sweep_rec n g u) m (λ _ m', swept A u m m').
Proof.
  induction n as [|n IH]; intros m A u Ho Hp Hu Hn; [lia|]. simpl.
  destruct colours as (Hgb & Hgi & Hbi & _).
  pose proof Hu as [U HU]%elem_of_dom. wp_step. eapply wp_unit_at; [done|].
  rewrite (u32_g GC_OFFSET_GOOD), (u32_g GC_OFFSET_BAD), (u32_g GC_OFFSET_IN_PATH)
    by (unfold GC_OFFSET_GOOD, GC_OFFSET_BAD, GC_OFFSET_IN_PATH; lia). fold good bad in_path.
  pose proof (marked_unit m u U HU) as HmU.
  destruct (decide (gc_marker U = good ∨ gc_marker U = bad ∨ gc_marker U = in_path)) as [Hk|Hk].
  { rewrite (proj2 (orb_true_iff _ _)) by (rewrite orb_true_iff, !bool_decide_eq_true; tauto).
    wp_step. split_and!; [done|done|reflexivity|]. exists (gc_marker U). split; [done|].
    unfold found. destruct Hk as [->|[->|Ei]]; [auto..|]. do 2 right. left. split; [done|].
    by apply (proj2 Hp u U HU). }
  rewrite !bool_decide_eq_false_2 by tauto. cbn [orb].
  assert (u ∉ A) as HuA by (rewrite <- (proj2 Hp u U HU); tauto).
  assert (¬ decided m u) as Hd.
  { intros [Hg|Hb]; [pose proof (marked_fun _ _ _ _ HmU Hg)|pose proof (marked_fun _ _ _ _ HmU Hb)]; tauto. }
  assert (∀ c m', c ≠ in_path → found A u c → gc_ok m' → remark u c m m' → swept A u m m') as Hdone.
  { intros c m' Hc Hf Ho' Hr. eapply (swept_remark m m m' A A u c); try done. set_solver. }
  destruct (in_cleanup_queue U) eqn:Ec.
  { eapply wp_mono; [apply (gc_bad_spec m u U); [done|done|by apply (uo_clean u U (go_units _ Ho u U HU))]|].
    intros _ m' (Ho' & Hr & _). apply (Hdone bad); unfold found; auto. }
  destruct (gc_ok_unit m u U Ho HU) as (U0 & s & HU0 & Hs0 & Ed & Hc0 & Hrd).
  specialize (Hc0 Ec). wp_step. eapply reads_wp; [exact Hrd|].
  destruct (needs U0 s) eqn:En.
  { eapply wp_mono; [apply (gc_good_spec m u U); [done|done|by eapply live_needed]|].
    intros _ m' (Ho' & Hr). apply (Hdone good); unfold found; auto. }
  wp_step. eapply wp_mono; [by apply (enter_path m A u U)|]. intros _ m1 (Ho1 & Hp1 & Hm1 & _).
  assert (dom (units m1) = dom (units m)) as Edom by by rewrite (gc_ok_dom m1 Ho1), <- (gc_ok_dom m Ho).
  apply (gc_look_swept _ m m1 A u U U0 s); try done; [|by rewrite Edom|].
  - intros v m2 Ho2 Hp2 Hv2. apply IH; try done. rewrite (gc_ok_dom m2 Ho2), <- (gc_ok_dom m Ho).
    enough (size (dom (units m) ∖ ({[u]} ∪ A)) < size (dom (units m) ∖ A)) by lia.
    apply subset_size. set_solver.
  - intros v Hv. rewrite Edom. by eapply (referrer_in m u U).
Qed.

(** ** The queue *)

(** The root of a search is taken out of the queue. *)
Lemma gc_dequeue_spec m u U :
  gc_ok m → units m !! u = Some U →
  wp (modify (λ m, m <| gc_queue ::= list_remove u |>);; update_unit u (λ U, U <| in_gc_queue := false |>)) m
    (λ _ m', gc_ok m' ∧ (∀ v c, marked m' v c ↔ marked m v c) ∧ gc_queue m' = list_remove u (gc_queue m)).
Proof.
  intros Ho HU. wp_step. wp_step. eapply wp_intro; [by apply (update_unit_eq u _ _ U)|].
  set (U' := U <| in_gc_queue := false |>). split_and!; [| |done].
  - destruct (go_units _ Ho u U HU). apply (gc_ok_change m _ u U U'); try done; simpl.
    + by eapply tracks_drop; [apply Ho|..].
    + by eapply tracks_same; [apply Ho|..].
  - intros v c. unfold marked. simpl. destruct (decide (v = u)) as [->|].
    + by rewrite lookup_insert_eq, HU.
    + by rewrite lookup_insert_ne.
Qed.

(** What a round of the loop does. *)
Record collected u m m' : Prop := {
  cl_ok : gc_ok m';
  cl_path : path m' ∅;
  cl_root : decided m' u ∧ u ∉ gc_queue m';
  cl_decided : ∀ v, decided m v → decided m' v;
  cl_queue : ∀ v, v ∈ gc_queue m' → v ∈ gc_queue m ∨ ¬ decided m v;
  cl_kept : ∀ v, v ∈ gc_queue m → v = u ∨ v ∈ gc_queue m' }.

Lemma path_same m m' A :
  dom (units m') = dom (units m) → (∀ v c, marked m' v c ↔ marked m v c) → path m A → path m' A.
Proof.
  intros Ed Hm Hp. pose proof Hp as [Hs _]. apply path_intro; [by rewrite Ed|].
  intros v Hv. rewrite Hm. apply path_marked; [done|]. by rewrite <- Ed.
Qed.
Lemma decided_same m m' v : (∀ v c, marked m' v c ↔ marked m v c) → decided m' v ↔ decided m v.
Proof. intros E. unfold decided. by rewrite !E. Qed.

Lemma gc_collect_spec m u :
  gc_ok m → path m ∅ → u ∈ gc_queue m → wp (gc_collect g u) m (λ _ m', collected u m m').
Proof.
  intros Ho Hp Hu. destruct colours as (Hgb & Hgi & Hbi & Hui & Hug & Hub).
  destruct (proj1 (proj2 (go_gcq _ Ho) u) Hu) as (U & HU & EU).
  unfold gc_collect. wp_step. eapply wp_unit_at; [done|]. rewrite EU. wp_step. simpl. wp_step.
  unfold unit_gc_sweep. wp_step. wp_step. wp_step.
  eapply wp_mono; [apply (unit_gc_sweep_rec_spec _ m ∅ u Ho Hp)|].
  { by eapply elem_of_dom_2. }
  { rewrite difference_empty_L, size_dom. lia. }
  intros _ m1 (Ho1 & Hp1 & Hm1 & c & Hc & Hf).
  destruct (marked_lookup _ _ _ Hc) as (U1 & HU1 & E1).
  change (wp ((modify (λ m, m <| gc_queue ::= list_remove u |>);; update_unit u (λ U, U <| in_gc_queue := false |>)) ≫=
    λ _, U ← unit_at u; when (bool_decide (gc_marker U = u32 (g + GC_OFFSET_BAD)) ||
        bool_decide (gc_marker U = u32 (g + GC_OFFSET_UNSURE))) (gc_bad g u)) m1 (λ _ m', collected u m m')).
  wp_step. eapply wp_mono; [by apply (gc_dequeue_spec m1 u U1)|]. intros _ m2 (Ho2 & Hk2 & Hq2).
  assert (dom (units m2) = dom (units m1)) as Ed by by rewrite (gc_ok_dom m2 Ho2), <- (gc_ok_dom m1 Ho1).
  pose proof (path_same m1 m2 ∅ Ed Hk2 Hp1) as Hp2. apply Hk2 in Hc.
  destruct (marked_lookup _ _ _ Hc) as (U2 & HU2 & E2). wp_step. eapply wp_unit_at; [done|].
  assert (∀ m', gc_ok m' → path m' ∅ → decided m' u → (∀ v, decided m2 v → decided m' v) →
    gc_queue m' = gc_queue m2 → collected u m m') as Hdone.
  { intros m' Ho' Hp' Hd' Hd2 Eq. split; [done|done|split; [done|]|..]; rewrite ?Eq, ?Hq2.
    - by intros [_ ?]%elem_of_list_remove.
    - intros v Hv. apply Hd2, (decided_same m1 m2 v Hk2). destruct Hv; [left|right]; apply (mv_decided _ _ Hm1); auto.
    - intros v [Hv _]%elem_of_list_remove. by apply (mv_queue _ _ Hm1).
    - intros v Hv. destruct (decide (v = u)); [by left|right]. apply elem_of_list_remove.
      split; [by apply (mv_kept _ _ Hm1)|done]. }
  rewrite !u32_g by (unfold GC_OFFSET_BAD, GC_OFFSET_UNSURE; lia). fold bad unsure. rewrite E2.
  destruct (decide (c = good)) as [->|Hcg].
  { rewrite !bool_decide_eq_false_2 by done. simpl. apply wp_ret. apply Hdone; auto. by left. }
  assert (¬ live m0 u) as Hnl by by eapply found_not_live.
  rewrite (proj2 (orb_true_iff _ _)); [wp_step|].
  2: { rewrite !bool_decide_eq_true. destruct Hf as [?|[?|[[? ?%elem_of_empty]|[? _]]]]; tauto. }
  eapply wp_mono; [by apply (gc_bad_spec m2 u U2)|]. intros _ m3 (Ho3 & Hr3 & Hq3).
  apply Hdone; [done| |right; by eapply remark_marked| |done].
  - pose proof (remark_path u bad m2 m3 ∅ Hr3 Hp2) as Hp3. rewrite decide_False in Hp3 by done.
    replace (∅ : gset nat) with ((∅ : gset nat) ∖ {[u]}) by set_solver.
    apply Hp3. by eapply elem_of_dom_2.
  - intros v Hv. destruct (decide (v = u)) as [->|]; [right; by eapply remark_marked|].
    destruct Hv; [left|right]; apply (rm_marks _ _ _ _ Hr3); by rewrite decide_False.
Qed.

(** The units the loop may still have to do with. *)
Definition undone m : gset UnitPtr := filter (λ u, u ∈ gc_queue m ∨ ¬ decided m u) (dom (units m)).

Lemma collected_undone u m m' :
  gc_ok m → u ∈ gc_queue m → collected u m m' → undone m' ⊂ undone m.
Proof.
  intros Ho Hu [Ho' _ [Hd Hn] Hdec Hq _].
  assert (dom (units m') = dom (units m)) as Ed by by rewrite (gc_ok_dom m' Ho'), <- (gc_ok_dom m Ho).
  unfold undone. split.
  - intros v. rewrite !elem_of_filter, Ed. intros [[?|Hv] ?]; (split; [|done]); [auto|].
    right. intros ?. by apply Hv, Hdec.
  - intros Hs. assert (u ∈ undone m') as Hu'.
    { apply Hs, elem_of_filter. split; [by left|]. destruct (proj1 (proj2 (go_gcq _ Ho) u) Hu) as (U & HU & _).
      by eapply elem_of_dom_2. }
    apply elem_of_filter in Hu' as [[?|?] _]; done.
Qed.

Lemma gc_loop_spec n : ∀ m c,
  gc_ok m → path m ∅ → size (undone m) < n →
  wp (gc_loop n g c) m (λ _ m', gc_ok m' ∧ gc_queue m' = [] ∧
    (∀ u, decided m u → decided m' u) ∧ ∀ u, u ∈ gc_queue m → decided m' u).
Proof.
  induction n as [|n IH]; intros m c Ho Hp Hn; [lia|]. simpl. wp_step. wp_step.
  destruct (gc_queue m) as [|u q] eqn:Eq.
  { wp_step. split_and!; [done|done|done|by intros ? ?%elem_of_nil]. }
  assert (u ∈ gc_queue m) as Hu by (rewrite Eq; left). wp_step.
  eapply wp_mono; [by apply gc_collect_spec|]. intros [] m1 Hc.
  pose proof (subset_size _ _ (collected_undone u m m1 Ho Hu Hc)) as Hlt.
  destruct Hc as [Ho1 Hp1 [Hd1 _] Hdec1 _ Hk1].
  eapply wp_mono; [apply IH; [done|done|lia]|]. intros _ m2 (Ho2 & Hq2 & Hdec2 & Hall).
  split_and!; [done|done|auto|]. intros v Hv. rewrite <- Eq in Hv. apply Hk1 in Hv as [->|Hv]; auto.
Qed.
End run.

(** ** The collector *)

(** The state between two runs: the queues hold the units that say so, and the
    marks are those of generations up to the current one. *)
Record gc_ready m : Prop := {
  gr_gcq : tracks (gc_queue m) in_gc_queue (units m);
  gr_clq : tracks (cleanup_queue m) in_cleanup_queue (units m);
  gr_marks : ∀ u U, units m !! u = Some U → (0 ≤ gc_marker U < m_gc_marker m + GC_OFFSET_MAX)%Z;
  gr_marker : (0 < m_gc_marker m)%Z }.

Definition next_generation m : Manager P := m <| m_gc_marker := (m_gc_marker m + GC_OFFSET_MAX)%Z |>.

Lemma in_cleanup_not_live m u U :
  units m !! u = Some U → in_cleanup_queue U = true → ¬ live m u.
Proof. intros HU Hc. destruct 1; congruence. Qed.

Lemma gc_ok_start m : gc_ready m → gc_ok (next_generation m) (m_gc_marker m + GC_OFFSET_MAX) (next_generation m).
Proof.
  intros [Hg Hc Hm Hp]. split; [done| |by intros; simplify_eq|done|done].
  intros u U HU. pose proof (Hm u U HU). split; unfold good, bad, GC_OFFSET_GOOD, GC_OFFSET_BAD, GC_OFFSET_MAX in *;
    try lia. by apply in_cleanup_not_live.
Qed.
Lemma path_start m : gc_ready m → path (m_gc_marker m + GC_OFFSET_MAX) (next_generation m) ∅.
Proof.
  intros [_ _ Hm _]. split; [set_solver|]. intros u U HU. pose proof (Hm u U HU).
  unfold in_path, GC_OFFSET_IN_PATH. split; [lia|set_solver].
Qed.

Lemma live_next_generation m u : live (next_generation m) u ↔ live m u.
Proof.
  split; (induction 1 as [u U s HU Hs Hc Hu Hn|u U v HU Hc Hu Hv _ IH];
    [by apply (live_needed _ _ u U s)|by apply (live_referenced _ _ u U v)]).
Qed.

(** C33. The garbage collector, when it is due, comes to an end with an empty
    queue, and is ready for the next run.  It changes nothing but the places of units in
    the queues: the units it puts into the clean-up queue are not live (no needed unit
    can be reached from them along UNIT_REFERENCED_BY), and of the units that were in its
    queue, cyclic references among them included, all that are not live are in the
    clean-up queue. *)
Theorem manager_dispatch_gc_queue_correct m :
  wf [] m → gc_ready m → gc_due m = true → (m_gc_marker m + 2 * GC_OFFSET_MAX ≤ INT_MAX)%Z →
  wp manager_dispatch_gc_queue m (λ _ m',
    gc_ready m' ∧ gc_queue m' = [] ∧ queued (next_generation m) m' ∧
    (∀ u U U', units m !! u = Some U → units m' !! u = Some U' →
      (in_cleanup_queue U' = true → ¬ live m u) ∧
      (in_cleanup_queue U = true → in_cleanup_queue U' = true) ∧
      (u ∈ gc_queue m → ¬ live m u → in_cleanup_queue U' = true))).
Proof.
  intros [Hwf _] Hr Hdue Hmax. unfold manager_dispatch_gc_queue. wp_step. wp_step. rewrite Hdue. simpl.
  set (g := (m_gc_marker m + GC_OFFSET_MAX)%Z). pose proof (gr_marker _ Hr) as Hpos.
  assert (0 < g ∧ g + 3 < 2 ^ 32)%Z as Hg.
  { unfold g, INT_MAX, GC_OFFSET_MAX in *. lia. }
  unfold gc_next_marker. wp_step. wp_step. wp_step. wp_step. rewrite bool_decide_eq_true_2 by lia. simpl.
  wp_step. rewrite bool_decide_eq_false_2 by (unfold GC_OFFSET_MAX; lia). wp_step. wp_step. wp_step.
  wp_step. wp_step. wp_step.
  match goal with |- wp _ ?s _ => change s with (next_generation m) end.
  assert (∃ X, wf_core X (next_generation m)) as Hwf' by (exists []; by destruct Hwf).
  eapply wp_mono; [apply (gc_loop_spec (next_generation m) g Hwf' Hg)|].
  - by apply gc_ok_start.
  - by apply path_start.
  - enough (size (undone g (next_generation m)) ≤ size (dom (units m))) by (rewrite size_dom in *; simpl; lia).
    apply subseteq_size. unfold undone. intros u [_ Hu]%elem_of_filter. exact Hu.
  - intros c m' (Ho & Hq & _ & Hdec). wp_step. wp_step. wp_step. split_and!; [|done|..].
    + destruct Ho as [Hqd Hu _ Hgq Hcq].
      assert (m_gc_marker m' = g) as E by exact (f_equal m_gc_marker (qu_rest _ _ Hqd)).
      split; [done|done| |simpl; rewrite E; apply Hg].
      intros u U HU. simpl. rewrite E. apply (uo_range _ _ _ _ (Hu u U HU)).
    + destruct Ho as [[] _ _ _ _]. by split.
    + intros u U U' HU HU'. change (units m' !! u = Some U') in HU'. pose proof (go_units _ _ _ Ho u U' HU') as Hok. setoid_rewrite <- live_next_generation.
      split_and!; [apply Hok|by apply (go_clean _ _ _ Ho u U U')|].
      intros Hin Hnl. apply Hdec in Hin as [Hgd|Hb].
      * exfalso. apply Hnl. by eapply marked_good.
      * apply (uo_bad _ _ _ _ Hok). unfold marked in Hb. rewrite HU' in Hb. by injection Hb.
Qed.
End spec.

(** ** An example *)
Import Demo.

#[export] Instance demo_gc_laws : GcLaws UnitActiveState.
Proof. by split. Qed.

(** Sixteen units: 1 and 2 refer to each other, 3 is referred to by the
    running unit 4, and 5 by 1. *)
Definition m_gc : Manager UnitActiveState :=
  let m := manager
    ([(1, unit "a.target" (dep UNIT_REFERENCED_BY [2] nodeps) None UNIT_INACTIVE);
      (2, unit "b.target" (dep UNIT_REFERENCED_BY [1] nodeps) None UNIT_INACTIVE);
      (3, unit "c.target" (dep UNIT_REFERENCED_BY [4] nodeps) None UNIT_INACTIVE);
      (4, unit "d.target" nodeps None UNIT_ACTIVE);
      (5, unit "e.target" (dep UNIT_REFERENCED_BY [1] nodeps) None UNIT_INACTIVE)])
    [] [] [] [] [] in
  m <| units ::= alter (λ U, U <| in_gc_queue := true |>) 3 |>
    <| units ::= alter (λ U, U <| in_gc_queue := true |>) 5 |>
    <| gc_queue := [3; 5] |> <| n_in_gc_queue := 16%Z |>.

(** Deciding [gc_ready]. *)
Definition tracks_check (q : list UnitPtr) (f : Unit UnitActiveState → bool)
    (us : gmap UnitPtr (Unit UnitActiveState)) : bool :=
  bool_decide (NoDup q) && forallb (λ u, from_option f false (us !! u)) q &&
  map_all (λ u U, negb (f U) || bool_decide (u ∈ q)) us.
Lemma tracks_check_sound q f us : tracks_check q f us = true → tracks q f us.
Proof.
  unfold tracks_check. rewrite !andb_true_iff, bool_decide_eq_true. intros [[Hnd Hq] Hm].
  split; [done|]. intros u. split.
  - intros Hu. pose proof (forallb_elem _ _ Hq u Hu) as E. simpl in E.
    destruct (us !! u) as [U|]; [by exists U|done].
  - intros (U & HU & E). pose proof (map_all_true _ _ Hm u U HU) as Hb. simpl in Hb.
    rewrite E in Hb. by apply bool_decide_eq_true in Hb.
Qed.
Lemma gc_ready_check m :
  tracks_check (gc_queue m) in_gc_queue (units m) &&
  tracks_check (cleanup_queue m) in_cleanup_queue (units m) &&
  map_all (λ _ U, bool_decide (0 ≤ gc_marker U < m_gc_marker m + GC_OFFSET_MAX)%Z) (units m) &&
  bool_decide (0 < m_gc_marker m)%Z = true → gc_ready m.
Proof.
  rewrite !andb_true_iff, bool_decide_eq_true. intros [[[Hg Hc] Hm] Hp].
  split; [by apply tracks_check_sound..| |done].
  intros u U HU. by apply (map_all_true _ _ Hm u U), bool_decide_eq_true in HU.
Qed.

(** [manager_dispatch_gc_queue_correct] at this state: the cycle of "a" and "b"
    does not save "e". *)
Lemma manager_dispatch_gc_queue_correct_witness :
  ∃ n m', manager_dispatch_gc_queue m_gc = Ret n m' ∧ gc_ready m' ∧ gc_queue m' = [] ∧
    ∀ u U U', units m_gc !! u = Some U → units m' !! u = Some U' →
      (in_cleanup_queue U' = true → ¬ live m_gc u) ∧ (u ∈ [3; 5] → ¬ live m_gc u → in_cleanup_queue U' = true).
Proof.
  destruct (wp_elim _ _ _ (manager_dispatch_gc_queue_correct m_gc
    (wf_check_sound m_gc ltac:(vm_compute; reflexivity)) (gc_ready_check m_gc ltac:(vm_compute; reflexivity))
    ltac:(vm_compute; reflexivity) ltac:(vm_compute; discriminate))) as (n & m' & E & Hr & Hq & _ & Hu).
  exists n, m'. split; [exact E|]. split; [exact Hr|]. split; [exact Hq|].
  intros u U U' HU HU'. destruct (Hu u U U' HU HU') as (H1 & _ & H3). split; [exact H1|exact H3].
Defined.

(** What it returns, and which units it collects. *)
Example m_gc_collected :
  match manager_dispatch_gc_queue m_gc with
  | Ret n m' => n = 4%Z ∧ cleanup_queue m' = [2; 1; 5]
  | _ => False
  end.
Proof. vm_compute. split; reflexivity. Qed.
