(* ===== verification/UnitGraph.v ===== *)
(** * The graph of units (src/unit.c, and loading in src/manager.c)

    Units come into being under a name, get further names, are merged when
    two of them turn out to be one, depend on each other, and go again.  A set
    ([Set*], src/set.c) is the list of its members in the order of insertion,
    a NULL set an empty list.  What a type of unit does when a unit is loaded
    or goes is behind the class [UnitTypeOps].  D-Bus signals and control
    groups are left out. *)

From stdpp Require Import base gmap strings list fin_maps.
From Stdlib Require Import ZArith Lia.
From S2P Require Import Prelude CString JobType Paths UnitName OrderedMap Engine Transaction Activate.

Definition MANAGER_MAX_NAMES : Z := 131072.

(** The entries [no_alias] and [no_instances] of the types' tables. *)
Definition no_alias (t : UnitType) : bool :=
  match t with UNIT_AUTOMOUNT | UNIT_MOUNT | UNIT_SNAPSHOT | UNIT_SWAP => true | _ => false end.
Definition no_instances (t : UnitType) : bool :=
  match t with UNIT_AUTOMOUNT | UNIT_DEVICE | UNIT_MOUNT | UNIT_SNAPSHOT | UNIT_SWAP => true | _ => false end.

(** The entries [init], [done] and [load], which may be absent. *)
Class UnitTypeOps (P : Type) := {
  ut_private : P;
  ut_init : UnitPtr → M (Manager P) unit;
  ut_done : UnitPtr → M (Manager P) unit;
  ut_load : option (UnitPtr → M (Manager P) Z) }.

(** In the order of the enumeration. *)
Definition unit_dependencies : list UnitDependency :=
  [UNIT_REQUIRES; UNIT_REQUIRES_OVERRIDABLE; UNIT_REQUISITE; UNIT_REQUISITE_OVERRIDABLE;
   UNIT_WANTS; UNIT_BIND_TO; UNIT_REQUIRED_BY; UNIT_REQUIRED_BY_OVERRIDABLE; UNIT_WANTED_BY;
   UNIT_BOUND_BY; UNIT_CONFLICTS; UNIT_CONFLICTED_BY; UNIT_BEFORE; UNIT_AFTER;
   UNIT_ON_FAILURE; UNIT_REFERENCES; UNIT_REFERENCED_BY].

Definition inverse_table (d : UnitDependency) : option UnitDependency :=
  match d with
  | UNIT_REQUIRES | UNIT_REQUISITE => Some UNIT_REQUIRED_BY
  | UNIT_REQUIRES_OVERRIDABLE | UNIT_REQUISITE_OVERRIDABLE => Some UNIT_REQUIRED_BY_OVERRIDABLE
  | UNIT_WANTS => Some UNIT_WANTED_BY
  | UNIT_BIND_TO => Some UNIT_BOUND_BY
  | UNIT_BOUND_BY => Some UNIT_BIND_TO
  | UNIT_CONFLICTS => Some UNIT_CONFLICTED_BY
  | UNIT_CONFLICTED_BY => Some UNIT_CONFLICTS
  | UNIT_BEFORE => Some UNIT_AFTER
  | UNIT_AFTER => Some UNIT_BEFORE
  | UNIT_REFERENCES => Some UNIT_REFERENCED_BY
  | UNIT_REFERENCED_BY => Some UNIT_REFERENCES
  | UNIT_REQUIRED_BY | UNIT_REQUIRED_BY_OVERRIDABLE | UNIT_WANTED_BY | UNIT_ON_FAILURE => None
  end.

Section graph.
Context {P : Type} `{UnitVTable P, UnitTypeOps P}.
Abbreviation MM := (M (Manager P)).

(** ** Sets of units *)

Definition on_dep (d : UnitDependency) (f : list UnitPtr → list UnitPtr) (U : Unit P) : Unit P :=
  U <| dependencies ::= λ D d', if decide (d' = d) then f (D d') else D d' |>.

(** [set_ensure_allocated(&u->meta.dependencies[d])]: an empty set may have to
    be allocated. *)
Definition ensure_dep (u : UnitPtr) (d : UnitDependency) : MM Z :=
  U ← unit_at u;
  match dependencies U d with
  | [] => ok ← alloc; mret (if ok : bool then 0 else - ENOMEM)%Z
  | _ => mret 0%Z
  end.
(** [set_put(u->meta.dependencies[d], v)] *)
Definition put_dep (u : UnitPtr) (d : UnitDependency) (v : UnitPtr) : MM Z :=
  U ← unit_at u;
  if decide (v ∈ dependencies U d) then mret 0%Z else
  ok ← alloc;
  if negb ok then mret (- ENOMEM)%Z else
  update_unit u (on_dep d (λ l, l ++ [v]));; mret 1%Z.
(** [set_remove(u->meta.dependencies[d], v)] *)
Definition remove_dep (u : UnitPtr) (d : UnitDependency) (v : UnitPtr) : MM unit :=
  update_unit u (on_dep d (list_remove v)).

(** ** Dependencies *)

Definition ensure_inverse (other : UnitPtr) (d : UnitDependency) : MM Z :=
  match inverse_table d with Some e => ensure_dep other e | None => mret 0%Z end.
Definition put_inverse (other : UnitPtr) (d : UnitDependency) (u : UnitPtr) : MM Z :=
  match inverse_table d with Some e => put_dep other e u | None => mret 0%Z end.

(** [fail:]: what was put in goes out again. *)
Definition undo_dependency (u : UnitPtr) (d : UnitDependency) (other : UnitPtr) (q v w : Z) : MM unit :=
  when (bool_decide (0 < q)%Z) (remove_dep u d other);;
  when (bool_decide (0 < v)%Z)
    (match inverse_table d with Some e => remove_dep other e u | None => mret tt end);;
  when (bool_decide (0 < w)%Z) (remove_dep u UNIT_REFERENCES other).

Definition ensure_references (u other : UnitPtr) (add_reference : bool) : MM Z :=
  if add_reference then
    r ← ensure_dep u UNIT_REFERENCES;
    if bool_decide (r < 0)%Z then mret r else ensure_dep other UNIT_REFERENCED_BY
  else mret 0%Z.
Definition put_reference (u : UnitPtr) (d : UnitDependency) (other : UnitPtr) (add_reference : bool) : MM Z :=
  if add_reference then put_dep u d other else mret 0%Z.

(** The units and the sets are there. *)
Definition put_edges (u : UnitPtr) (d : UnitDependency) (other : UnitPtr) (add_reference : bool) : MM Z :=
  q ← put_dep u d other;
  if bool_decide (q < 0)%Z then mret q else
  v ← put_inverse other d u;
  if bool_decide (v < 0)%Z then undo_dependency u d other q v 0;; mret v else
  w ← put_reference u UNIT_REFERENCES other add_reference;
  if bool_decide (w < 0)%Z then undo_dependency u d other q v w;; mret w else
  r ← put_reference other UNIT_REFERENCED_BY u add_reference;
  if bool_decide (r < 0)%Z then undo_dependency u d other q v w;; mret r else
  unit_add_to_dbus_queue u;;
  mret 0%Z.

Definition unit_add_dependency (u : UnitPtr) (d : UnitDependency) (other : UnitPtr) (add_reference : bool)
    : MM Z :=
  u ← unit_follow_merge u;
  other ← unit_follow_merge other;
  if decide (u = other) then mret 0%Z else
  r ← ensure_dep u d;
  if bool_decide (r < 0)%Z then mret r else
  r ← ensure_inverse other d;
  if bool_decide (r < 0)%Z then mret r else
  r ← ensure_references u other add_reference;
  if bool_decide (r < 0)%Z then mret r else
  put_edges u d other add_reference.

Definition unit_add_two_dependencies (u : UnitPtr) (d e : UnitDependency) (other : UnitPtr)
    (add_reference : bool) : MM Z :=
  r ← unit_add_dependency u d other add_reference;
  if bool_decide (r < 0)%Z then mret r else
  r ← unit_add_dependency u e other add_reference;
  if bool_decide (r < 0)%Z then mret r else mret 0%Z.

(** No ordering against a target that is ordered the other way round. *)
Definition unit_add_default_target_dependency (u target : UnitPtr) : MM Z :=
  T ← unit_at target;
  U ← unit_at u;
  if bool_decide (u_type T ≠ Some UNIT_TARGET) then mret 0%Z else
  if bool_decide (load_state U ≠ UNIT_LOADED) || bool_decide (load_state T ≠ UNIT_LOADED) then mret 0%Z else
  if negb (default_dependencies U) || negb (default_dependencies T) then mret 0%Z else
  if decide (u ∈ dependencies T UNIT_BEFORE) then mret 0%Z else
  unit_add_dependency target UNIT_AFTER u true.

Definition unit_add_default_dependencies (u : UnitPtr) : MM Z :=
  U ← unit_at u;
  for_each_r [UNIT_REQUIRED_BY; UNIT_REQUIRED_BY_OVERRIDABLE; UNIT_WANTED_BY; UNIT_BOUND_BY] (λ d,
    for_each_r (dependencies U d) (unit_add_default_target_dependency u)).

(** ** A unit goes *)

(** [freed]: the sets of [u] that are freed already; they may not be looked at
    any more.  Sets that were empty count, as they may be allocated. *)
Definition bidi_set_free (freed : list UnitDependency) (u : UnitPtr) (d : UnitDependency) : MM unit :=
  U ← unit_at u;
  for_each (dependencies U d) (λ other,
    for_each unit_dependencies (λ k,
      assert_ (negb (bool_decide (other = u ∧ k ∈ freed)));;
      remove_dep other k u);;
    unit_add_to_gc_queue other).
Fixpoint bidi_sets_free (freed todo : list UnitDependency) (u : UnitPtr) : MM unit :=
  match todo with
  | [] => mret tt
  | d :: todo => bidi_set_free freed u d;; bidi_sets_free (d :: freed) todo u
  end.

(** [hashmap_remove_value(m->units, t, u)] *)
Definition remove_name (t : string) (u : UnitPtr) : MM unit :=
  modify (λ m, m <| unit_names ::= λ l,
    if decide (om_get l t = Some u) then om_remove l t else l |>).

(** Out of all queues, and free. *)
Definition unlist_unit (u : UnitPtr) : MM unit :=
  U ← unit_at u;
  when (in_load_queue U) (modify (λ m, m <| load_queue ::= list_remove u |>));;
  when (u_in_dbus_queue U) (modify (λ m, m <| dbus_unit_queue ::= list_remove u |>));;
  when (in_cleanup_queue U) (modify (λ m, m <| cleanup_queue ::= list_remove u |>));;
  when (in_gc_queue U)
    (modify (λ m, m <| gc_queue ::= list_remove u |> <| n_in_gc_queue ::= λ n, u32 (n - 1) |>));;
  modify (λ m, m <| units ::= delete u |>).

Definition unit_free (u : UnitPtr) : MM unit :=
  U ← unit_at u;
  when (bool_decide (load_state U ≠ UNIT_STUB)) (ut_done u);;
  for_each (names U) (λ t, remove_name t u);;
  U ← unit_at u;
  match u_job U with Some j => job_free j | None => mret tt end;;
  bidi_sets_free [] unit_dependencies u;;
  unlist_unit u.

Fixpoint cleanup_loop (n : nat) (c : Z) : MM Z :=
  match n with
  | O => nofuel
  | S n' =>
      q ← gets cleanup_queue;
      match q with
      | [] => mret c
      | u :: _ =>
          U ← unit_at u;
          assert_ (in_cleanup_queue U);;
          unit_free u;;
          cleanup_loop n' (u32 (c + 1))
      end
  end.
Definition manager_dispatch_cleanup_queue : MM Z :=
  n ← gets (λ m, S (size (units m))); cleanup_loop n 0.

(** ** Names *)

Definition unit_new : MM (option UnitPtr) :=
  ok ← alloc;
  if negb ok then mret None else
  ok ← alloc;
  if negb ok then mret None else
  u ← fresh;
  modify (λ m, m <| units ::= <[u := {|
    u_type := None; load_state := UNIT_STUB; merged_into := None; u_id := ""; u_instance := None;
    names := []; dependencies := λ _, []; u_job := None; job_timeout := 0; condition_result := false;
    condition_timestamp := no_timestamp; inactive_exit_timestamp := no_timestamp;
    active_enter_timestamp := no_timestamp; active_exit_timestamp := no_timestamp;
    inactive_enter_timestamp := no_timestamp; deserialized_job := None; gc_marker := 0; load_error := 0; stop_when_unneeded := false;
    default_dependencies := true; allow_isolate := false; on_failure_isolate := false;
    ignore_on_isolate := false; in_load_queue := false; u_in_dbus_queue := false;
    in_cleanup_queue := false; in_gc_queue := false; sent_dbus_new_signal := false; u_no_gc := false;
    in_audit := false; description := None; fragment_path := None; priv := ut_private |}]> |>);;
  mret (Some u).

Definition unit_has_name (u : UnitPtr) (name : string) : MM bool :=
  U ← unit_at u; mret (bool_decide (name ∈ names U)).

Definition manager_get_unit (name : string) : MM (option UnitPtr) := gets (λ m, om_get (unit_names m) name).

(** A text of a unit's own: the allocation of [strdup] and the like. *)
Definition own_text (s : option string) : MM (option string) :=
  s ← deref s;
  ok ← alloc;
  mret (if ok : bool then Some s else None).

(** The name that a text stands for: a template gets the unit's instance. *)
Definition resolve_name (U : Unit P) (name : string) : MM (Z + string) :=
  if unit_name_is_template name then
    match u_instance U with
    | None => mret (inl (- EINVAL)%Z)
    | Some i =>
        s ← own_text (unit_name_replace_instance name i);
        mret (match s with Some s => inr s | None => inl (- ENOMEM)%Z end)
    end
  else mret (inr name).

Definition present {A} (o : option A) : bool := match o with Some _ => true | None => false end.

(** Whether the name [s] of type [t] with the instance [i] fits the unit. *)
Definition name_fits (U : Unit P) (n_names : Z) (t : UnitType) (i : option string) (s : string) : Z :=
  if present i && no_instances t then (- EINVAL)%Z
  else if present (u_type U) && negb (Bool.eqb (present (u_instance U)) (present i)) then (- EINVAL)%Z
  else if no_alias t && bool_decide (names U ≠ []) && negb (bool_decide (s ∈ names U)) then (- EEXIST)%Z
  else if bool_decide (MANAGER_MAX_NAMES ≤ n_names)%Z then (- E2BIG)%Z
  else 0%Z.

(** [set_put(u->meta.names, s)] and [hashmap_put(m->units, s, u)], undone
    when it fails. *)
Definition enter_name (u : UnitPtr) (s : string) : MM Z :=
  ok ← alloc;
  if negb ok then mret (- ENOMEM)%Z else
  update_unit u (λ U, U <| names ::= λ l, l ++ [s] |>);;
  o ← manager_get_unit s;
  r ← match o with
      | Some v => mret (if decide (v = u) then 0 else - EEXIST)%Z
      | None =>
          ok ← alloc;
          if negb ok then mret (- ENOMEM)%Z else
          modify (λ m, m <| unit_names ::= λ l, l ++ [(s, u)] |>);; mret 1%Z
      end;
  when (bool_decide (r < 0)%Z) (update_unit u (λ U, U <| names ::= filter (λ x, x ≠ s) |>));;
  mret r.

Definition unit_add_name (u : UnitPtr) (text : string) : MM Z :=
  U ← unit_at u;
  s ← (if unit_name_is_template text then resolve_name U text
       else s ← own_text (Some text);
            mret (match s with Some s => inr s | None => inl (- ENOMEM)%Z end));
  match s with
  | inl r => mret r
  | inr s =>
      if negb (unit_name_is_valid s false) then mret (- EINVAL)%Z else
      t ← deref (unit_name_to_type s);
      if present (u_type U) && bool_decide (u_type U ≠ Some t) then mret (- EINVAL)%Z else
      i ← deref (unit_name_to_instance s);
      ok ← (if present i then alloc else mret true);
      if negb ok then mret (- ENOMEM)%Z else
      n ← gets (λ m, Z.of_nat (length (unit_names m)));
      if bool_decide (name_fits U n t i s < 0)%Z then mret (name_fits U n t i s) else
      if decide (s ∈ names U) then mret 0%Z else
      r ← enter_name u s;
      if bool_decide (r < 0)%Z then mret r else
      when (negb (present (u_type U))) (
        update_unit u (λ U, U <| u_type := Some t |> <| u_id := s |> <| u_instance := i |>);;
        ut_init u);;
      unit_add_to_dbus_queue u;;
      mret 0%Z
  end.

Definition unit_choose_id (u : UnitPtr) (name : string) : MM Z :=
  U ← unit_at u;
  s ← resolve_name U name;
  match s with
  | inl r => mret r
  | inr s =>
      if negb (bool_decide (s ∈ names U)) then mret (- ENOENT)%Z else
      i ← deref (unit_name_to_instance s);
      ok ← (if present i then alloc else mret true);
      if negb ok then mret (- ENOMEM)%Z else
      update_unit u (λ U, U <| u_id := s |> <| u_instance := i |>);;
      unit_add_to_dbus_queue u;;
      mret 0%Z
  end.

Definition unit_set_description (u : UnitPtr) (text : string) : MM Z :=
  s ← own_text (Some text);
  match s with
  | None => mret (- ENOMEM)%Z
  | Some s => update_unit u (λ U, U <| description := Some s |>);; unit_add_to_dbus_queue u;; mret 0%Z
  end.

(** ** Merging *)

(** What [set_move] takes over: the members that are not there yet. *)
Definition set_moved {A} `{EqDecision A} (l other : list A) : list A := l ++ filter (λ x, x ∉ l) other.

Definition merge_names (u other : UnitPtr) : MM unit :=
  O ← unit_at other;
  update_unit u (λ U, U <| names ::= λ l, set_moved l (names O) |>);;
  update_unit other (λ O, O <| names := [] |> <| u_id := "" |>);;
  U ← unit_at u;
  for_each (names U) (λ t,
    o ← manager_get_unit t;
    assert_ (present o);;
    modify (λ m, m <| unit_names ::= λ l, om_replace l t u |>)).

(** [set_remove_and_put(back->meta.dependencies[k], other, u)], or the removal
    alone when [u] is there. *)
Definition replace_dep (back : UnitPtr) (k : UnitDependency) (other u : UnitPtr) : MM unit :=
  update_unit back (on_dep k (λ l,
    if decide (other ∈ l) then
      if decide (u ∈ l) then list_remove other l else list_remove other l ++ [u]
    else l)).

(** A unit that depends on itself would change the set that the loop is at,
    which the model does not follow. *)
Definition merge_dependencies (u other : UnitPtr) (d : UnitDependency) : MM unit :=
  O ← unit_at other;
  assert_ (negb (bool_decide (other ∈ dependencies O d)));;
  for_each (dependencies O d) (λ back,
    for_each unit_dependencies (λ k, replace_dep back k other u));;
  update_unit u (on_dep d (λ l, set_moved l (dependencies O d)));;
  update_unit other (on_dep d (λ _, [])).

Definition unit_merge (u other : UnitPtr) : MM Z :=
  U ← unit_at u;
  assert_ (present (u_type U));;
  other ← unit_follow_merge other;
  if decide (other = u) then mret 0%Z else
  O ← unit_at other;
  if bool_decide (u_type U ≠ u_type O) then mret (- EINVAL)%Z else
  if negb (Bool.eqb (present (u_instance U)) (present (u_instance O))) then mret (- EINVAL)%Z else
  if bool_decide (load_state O ≠ UNIT_STUB) && bool_decide (load_state O ≠ UNIT_ERROR) then mret (- EEXIST)%Z else
  if present (u_job O) then mret (- EEXIST)%Z else
  s ← unit_active_state other;
  if negb (UNIT_IS_INACTIVE_OR_FAILED s) then mret (- EEXIST)%Z else
  merge_names u other;;
  for_each unit_dependencies (merge_dependencies u other);;
  update_unit other (λ O, O <| load_state := UNIT_MERGED |> <| merged_into := Some u |>);;
  O ← unit_at other;
  when (bool_decide (load_state O ≠ UNIT_STUB)) (ut_done other);;
  unit_add_to_dbus_queue u;;
  unit_add_to_cleanup_queue other;;
  mret 0%Z.

Definition unit_merge_by_name (u : UnitPtr) (name : string) : MM Z :=
  U ← unit_at u;
  s ← resolve_name U name;
  match s with
  | inl r => mret r
  | inr s =>
      o ← manager_get_unit s;
      match o with
      | None => unit_add_name u s
      | Some other => unit_merge u other
      end
  end.

(** ** Loading *)

(** Out of the queue, whatever comes of it. *)
Definition leave_load_queue (u : UnitPtr) : MM unit :=
  U ← unit_at u;
  when (in_load_queue U) (
    modify (λ m, m <| load_queue ::= list_remove u |>);;
    update_unit u (λ U, U <| in_load_queue := false |>)).

(** The steps that may fail. *)
Definition load_steps (u : UnitPtr) : MM Z :=
  r ← match ut_load with Some load => load u | None => mret 0%Z end;
  if bool_decide (r < 0)%Z then mret r else
  U ← unit_at u;
  if bool_decide (load_state U = UNIT_STUB) then mret (- ENOENT)%Z else
  r ← (if bool_decide (load_state U = UNIT_LOADED) && default_dependencies U
       then unit_add_default_dependencies u else mret 0%Z);
  if bool_decide (r < 0)%Z then mret r else
  U ← unit_at u;
  if on_failure_isolate U && bool_decide (1 < length (dependencies U UNIT_ON_FAILURE)) then mret (- EINVAL)%Z
  else mret 0%Z.

Definition unit_load (u : UnitPtr) : MM Z :=
  leave_load_queue u;;
  U ← unit_at u;
  if negb (present (u_type U)) then mret (- EINVAL)%Z else
  if bool_decide (load_state U ≠ UNIT_STUB) then mret 0%Z else
  r ← load_steps u;
  if bool_decide (r < 0)%Z then
    update_unit u (λ U, U <| load_state := UNIT_ERROR |> <| load_error := r |>);;
    unit_add_to_dbus_queue u;;
    mret r
  else
    U ← unit_at u;
    assert_ (Bool.eqb (bool_decide (load_state U ≠ UNIT_MERGED)) (negb (present (merged_into U))));;
    v ← unit_follow_merge u;
    unit_add_to_dbus_queue v;;
    unit_add_to_gc_queue u;;
    mret 0%Z.

(** Loading a unit may put others into the queue; the fuel bounds how many are
    loaded. *)
Fixpoint load_loop (n : nat) (c : Z) : MM Z :=
  match n with
  | O => nofuel
  | S n' =>
      q ← gets load_queue;
      match q with
      | [] => mret c
      | u :: _ =>
          U ← unit_at u;
          assert_ (in_load_queue U);;
          _ ← unit_load u;
          load_loop n' (u32 (c + 1))
      end
  end.
Definition manager_dispatch_load_queue (n : nat) : MM Z :=
  b ← gets dispatching_load_queue;
  if b : bool then mret 0%Z else
  modify (λ m, m <| dispatching_load_queue := true |>);;
  c ← load_loop n 0;
  modify (λ m, m <| dispatching_load_queue := false |>);;
  mret c.

(** The unit under [name], or a new one that waits for being loaded.  The
    result is 1 for a unit that was there. *)
Definition manager_load_unit_prepare (name path : option string) : MM (Z * option UnitPtr) :=
  assert_ (present name || present path);;
  if match path with Some p => negb (is_path p) | None => false end then mret ((- EINVAL)%Z, None) else
  name ← deref (match name with Some n => Some n | None => file_name_from_path <$> path end);
  if negb (unit_name_is_valid name false) then mret ((- EINVAL)%Z, None) else
  o ← manager_get_unit name;
  match o with
  | Some ret => mret (1%Z, Some ret)
  | None =>
      o ← unit_new;
      match o with
      | None => mret ((- ENOMEM)%Z, None)
      | Some ret =>
          ok ← match path with
               | None => mret true
               | Some p =>
                   ok ← alloc;
                   when ok (update_unit ret (λ U, U <| fragment_path := Some p |>));;
                   mret ok
               end;
          if negb ok then unit_free ret;; mret ((- ENOMEM)%Z, None) else
          r ← unit_add_name ret name;
          if bool_decide (r < 0)%Z then unit_free ret;; mret (r, None) else
          unit_add_to_load_queue ret;;
          unit_add_to_dbus_queue ret;;
          unit_add_to_gc_queue ret;;
          mret (0%Z, Some ret)
      end
  end.

Definition manager_load_unit (n : nat) (name path : option string) : MM (Z * option UnitPtr) :=
  r ← manager_load_unit_prepare name path;
  if bool_decide (r.1 ≠ 0%Z) then mret r else
  _ ← manager_dispatch_load_queue n;
  match r.2 with
  | None => mret r
  | Some u => v ← unit_follow_merge u; mret (0%Z, Some v)
  end.

(** ** Dependencies by name *)

Definition resolve_template (u : UnitPtr) (name path : option string) : MM (option string) :=
  assert_ (present name || present path);;
  U ← unit_at u;
  name ← deref (match name with Some n => Some n | None => file_name_from_path <$> path end);
  if negb (unit_name_is_template name) then mret (Some name) else
  match u_instance U with
  | Some i => own_text (unit_name_replace_instance name i)
  | None =>
      i ← own_text (unit_name_to_prefix (u_id U));
      match i with
      | None => mret None
      | Some i => own_text (unit_name_replace_instance name i)
      end
  end.

(** The shape of the four functions below: load the unit that the name stands
    for, and add to it. *)
Definition with_named_unit (n : nat) (u : UnitPtr) (name path : option string) (add : UnitPtr → MM Z) : MM Z :=
  s ← resolve_template u name path;
  match s with
  | None => mret (- ENOMEM)%Z
  | Some s =>
      r ← manager_load_unit n (Some s) path;
      if bool_decide (r.1 < 0)%Z then mret r.1 else
      other ← deref r.2;
      add other
  end.
Definition unit_add_dependency_by_name (n : nat) (u : UnitPtr) (d : UnitDependency) (name path : option string)
    (add_reference : bool) : MM Z :=
  with_named_unit n u name path (λ other, unit_add_dependency u d other add_reference).
Definition unit_add_two_dependencies_by_name (n : nat) (u : UnitPtr) (d e : UnitDependency)
    (name path : option string) (add_reference : bool) : MM Z :=
  with_named_unit n u name path (λ other, unit_add_two_dependencies u d e other add_reference).
Definition unit_add_dependency_by_name_inverse (n : nat) (u : UnitPtr) (d : UnitDependency)
    (name path : option string) (add_reference : bool) : MM Z :=
  with_named_unit n u name path (λ other, unit_add_dependency other d u add_reference).
Definition unit_add_two_dependencies_by_name_inverse (n : nat) (u : UnitPtr) (d e : UnitDependency)
    (name path : option string) (add_reference : bool) : MM Z :=
  with_named_unit n u name path (λ other, unit_add_two_dependencies other d e u add_reference).

(** The unit of another type with the same name. *)
Definition unit_load_related_unit (n : nat) (u : UnitPtr) (type : string) : MM (Z * option UnitPtr) :=
  U ← unit_at u;
  t ← own_text (unit_name_change_suffix (u_id U) type);
  match t with
  | None => mret ((- ENOMEM)%Z, None)
  | Some t =>
      assert_ (negb (bool_decide (t ∈ names U)));;
      r ← manager_load_unit n (Some t) None;
      assert_ (bool_decide (r.1 < 0)%Z || negb (bool_decide (r.2 = Some u)));;
      mret r
  end.
Definition unit_get_related_unit (u : UnitPtr) (type : string) : MM (Z * option UnitPtr) :=
  U ← unit_at u;
  t ← own_text (unit_name_change_suffix (u_id U) type);
  match t with
  | None => mret ((- ENOMEM)%Z, None)
  | Some t =>
      assert_ (negb (bool_decide (t ∈ names U)));;
      o ← manager_get_unit t;
      mret (match o with None => ((- ENOENT)%Z, None) | Some f => (0%Z, Some f) end)
  end.

(** Links to the unit of the device node [what]. *)
Definition unit_add_node_link (n : nat) (u : UnitPtr) (what : option string) (wants : bool) : MM Z :=
  match what with
  | None => mret 0%Z
  | Some what =>
      b ← deref (is_device_path what);
      if negb b then mret 0%Z else
      e ← own_text (Some (unit_name_build_escape (str_drop 1 what) None ".device"));
      match e with
      | None => mret (- ENOMEM)%Z
      | Some e =>
          r ← manager_load_unit n (Some e) None;
          if bool_decide (r.1 < 0)%Z then mret r.1 else
          device ← deref r.2;
          q ← unit_add_two_dependencies u UNIT_AFTER UNIT_BIND_TO device true;
          if bool_decide (q < 0)%Z then mret q else
          if negb wants then mret 0%Z else
          q ← unit_add_dependency device UNIT_WANTS u false;
          if bool_decide (q < 0)%Z then mret q else mret 0%Z
      end
  end.

Definition manager_add_job_by_name (n : nat) (type : JobType) (name : string) (mode : JobMode) (ovr : bool)
    : MM (Z * option JobPtr) :=
  r ← manager_load_unit n (Some name) None;
  if bool_decide (r.1 < 0)%Z then mret (r.1, None) else
  unit ← deref r.2;
  manager_add_job n type unit mode ovr.
End graph.
