(* ===== verification/UnitGraphSpec.v ===== *)
(** * Dependencies stay consistent (UnitGraph.v)

    [edge m u d v]: [v] is in the set [d] of dependencies of [u].  [graph_ok]:
    no edge leads to a unit that is gone, every edge has one that leads back
    (the inverse, where there is one), and the names of units and the table of
    names agree.  Adding dependencies and freeing units keep it; merging two units
    contracts the graph. *)

From stdpp Require Import base gmap strings list fin_maps.
From Stdlib Require Import ZArith Lia.
From S2P Require Import Prelude CString JobType OrderedMap Engine Transaction Links Wf WfCheck Passes Installed AddSpec UnitGraph.

Section graph.
Context {P : Type} `{UnitVTableLaws P, !UnitTypeOps P}.
Abbreviation MM := (M (Manager P)).
Implicit Types m : Manager P.

(** ** The graph of a state *)

Definition deps m (u : UnitPtr) (d : UnitDependency) : list UnitPtr :=
  from_option (λ U, dependencies U d) [] (units m !! u).
Definition edge m u d v : Prop := v ∈ deps m u d.

(** What a unit is but for its dependencies. *)
Definition alone (U : Unit P) :=
  (u_type U, load_state U, merged_into U, u_id U, u_instance U, names U).

Record edges_ok m : Prop := {
  gk_live : ∀ u d v, edge m u d v → is_Some (units m !! v);
  gk_back : ∀ u d v, edge m u d v → ∃ e, edge m v e u;
  gk_inverse : ∀ u d e v, edge m u d v → inverse_table d = Some e → edge m v e u;
  gk_sets : ∀ u d, NoDup (deps m u d);
  gk_merged : ∀ u U d, units m !! u = Some U → load_state U = UNIT_MERGED → deps m u d = [] }.
Record names_ok m : Prop := {
  gk_table : om_wf (unit_names m);
  gk_names : ∀ n u, (n, u) ∈ unit_names m ↔ ∃ U, units m !! u = Some U ∧ n ∈ names U }.
Record graph_ok m : Prop := { gk_edges :> edges_ok m; gk_names_ok :> names_ok m }.
(** No unit depends on itself. *)
Definition no_loops m : Prop := ∀ u d, ¬ edge m u d u.

(** ** Steps that change edges only *)

Record rewires m m' (E : UnitPtr → UnitDependency → UnitPtr → Prop) : Prop := {
  rw_alone : alone <$> units m' = alone <$> units m;
  rw_names : unit_names m' = unit_names m;
  rw_sets : (∀ u d, NoDup (deps m u d)) → ∀ u d, NoDup (deps m' u d);
  rw_edges : ∀ u d v, edge m' u d v ↔ E u d v }.

Lemma alone_lookup m m' u U' :
  alone <$> units m' = alone <$> units m → units m' !! u = Some U' →
  ∃ U, units m !! u = Some U ∧ alone U' = alone U.
Proof.
  intros E HU'. pose proof (f_equal (lookup u) E) as Eu. rewrite !lookup_fmap, HU' in Eu. symmetry in Eu.
  apply fmap_Some in Eu as (U & ? & ?). eauto.
Qed.
Lemma alone_live m m' u :
  alone <$> units m' = alone <$> units m → is_Some (units m' !! u) ↔ is_Some (units m !! u).
Proof. intros E. by rewrite <- (fmap_is_Some alone), <- lookup_fmap, E, lookup_fmap, fmap_is_Some. Qed.
Lemma alone_fields (U V : Unit P) : alone U = alone V →
  load_state U = load_state V ∧ names U = names V ∧ merged_into U = merged_into V ∧ u_type U = u_type V ∧
  u_instance U = u_instance V.
Proof. by intros [=]. Qed.
Lemma bare_alone (U V : Unit P) : bare U = bare V → alone U = alone V.
Proof. intros E. exact (f_equal alone E). Qed.

Lemma rewires_refl m : rewires m m (edge m).
Proof. by split. Qed.
Lemma rewires_trans m1 m2 m3 E E' : rewires m1 m2 E → rewires m2 m3 E' → rewires m1 m3 E'.
Proof. intros [] []. split; [congruence|congruence|auto|done]. Qed.
Lemma rewires_iff m m' E E' : rewires m m' E → (∀ u d v, E u d v ↔ E' u d v) → rewires m m' E'.
Proof. intros [] He. split; [done..|]. intros. by rewrite <- He. Qed.

Lemma rewires_queued m m' : queued m m' → rewires m m' (edge m).
Proof.
  intros [Er Eb _].
  assert (∀ u d, deps m' u d = deps m u d) as Ed.
  { intros u d. unfold deps. pose proof (f_equal (lookup u) Eb) as Eu. rewrite !lookup_fmap in Eu.
    destruct (units m' !! u) as [U'|], (units m !! u) as [U|]; try done. simpl in *.
    apply (inj Some) in Eu. apply bare_fields in Eu as (-> & _). done. }
  split.
  - apply map_eq. intros u. pose proof (f_equal (lookup u) Eb) as Eu. rewrite !lookup_fmap in *.
    destruct (units m' !! u) as [U'|], (units m !! u) as [U|]; try done. simpl in *.
    apply (inj Some) in Eu. by rewrite (bare_alone _ _ Eu).
  - exact (f_equal unit_names Er).
  - intros Hs u d. by rewrite Ed.
  - intros u d v. unfold edge. by rewrite Ed.
Qed.

Lemma rewires_oom m l : rewires m (m <| oom := l |>) (edge m).
Proof. by split. Qed.

Lemma wp_alloc m (Q : bool → Manager P → Prop) : (∀ b l, Q b (m <| oom := l |>)) → wp alloc m Q.
Proof.
  intros HQ. unfold alloc, wp. destruct (oom m) as [|b l] eqn:E; [|apply HQ].
  specialize (HQ true (oom m)). by destruct m.
Qed.

Lemma deps_update m u U U' x k :
  units m !! u = Some U → deps (m <| units ::= <[u := U']> |>) x k = if decide (x = u) then dependencies U' k else deps m x k.
Proof.
  intros HU. unfold deps. simpl. case_decide as Hx; [subst; by rewrite lookup_insert_eq|].
  by rewrite lookup_insert_ne.
Qed.
Lemma alone_update m u U f d :
  units m !! u = Some U → alone <$> <[u := on_dep d f U]> (units m) = alone <$> units m.
Proof. intros HU. rewrite fmap_insert. apply insert_id. by rewrite lookup_fmap, HU. Qed.

Lemma remove_dep_spec m u d v :
  is_Some (units m !! u) →
  wp (remove_dep u d v) m (λ _ m', rewires m m' (λ x k y, edge m x k y ∧ ¬ (x = u ∧ k = d ∧ y = v))).
Proof.
  intros [U HU]. unfold remove_dep. eapply wp_intro; [by apply (update_unit_eq u _ _ U)|].
  assert (∀ x k, deps (m <| units ::= <[u := on_dep d (list_remove v) U]> |>) x k =
    if decide (x = u ∧ k = d) then list_remove v (deps m x k) else deps m x k) as Ed.
  { intros x k. rewrite (deps_update m u U) by done. unfold deps.
    destruct (decide (x = u)) as [->|]; [|by rewrite decide_False by tauto]. rewrite HU. simpl.
    destruct (decide (k = d)); [rewrite decide_True by tauto|rewrite decide_False by tauto]; done. }
  split; [by apply alone_update|done| |].
  - intros Hs x k. rewrite Ed. case_decide; [by apply NoDup_list_remove|done].
  - intros x k y. unfold edge. rewrite Ed. case_decide as Hc; [rewrite elem_of_list_remove|]; tauto.
Qed.

(** A put of the edges [N] with the result [r]: an error, 0 when they are
    there, and 1 when they are new. *)
Abbreviation Edges := (UnitPtr → UnitDependency → UnitPtr → Prop).
Record adds (E : Edges) (r : Z) (N E' : Edges) : Prop := {
  ad_edges : ∀ x k y, E' x k y ↔ E x k y ∨ ((0 ≤ r)%Z ∧ N x k y);
  ad_old : r = 0%Z → ∀ x k y, N x k y → E x k y;
  ad_new : (0 < r)%Z → ∀ x k y, N x k y → ¬ E x k y }.

Lemma adds_undo E r N E' x k y : adds E r N E' → E' x k y ∧ ¬ ((0 < r)%Z ∧ N x k y) ↔ E x k y.
Proof.
  intros [Ha Ho Hn]. rewrite Ha. specialize (Ho). split.
  - intros [[?|[Hr HN]] Hno]; [done|]. destruct (decide (r = 0%Z)) as [->|]; [by apply Ho|].
    exfalso. apply Hno. split; [lia|done].
  - intros HE. split; [by left|]. intros [Hr HN]. by apply (Hn Hr x k y).
Qed.
Lemma adds_none E r N : (r < 0)%Z → adds E r N E.
Proof. intros Hr. split; [|lia|lia]. intuition lia. Qed.

Definition one_edge u d v : Edges := λ x k y, x = u ∧ k = d ∧ y = v.

Lemma put_dep_spec m u d v :
  is_Some (units m !! u) →
  wp (put_dep u d v) m (λ r m', rewires m m' (edge m') ∧ adds (edge m) r (one_edge u d v) (edge m')).
Proof.
  intros [U HU]. unfold put_dep. wp_step. eapply wp_unit_at; [done|].
  assert (deps m u d = dependencies U d) as EU by (unfold deps; by rewrite HU).
  destruct (decide (v ∈ dependencies U d)) as [Hv|Hv].
  { wp_step. split; [apply rewires_refl|]. split; [|intros _|lia]; unfold one_edge.
    - intros x k y. split; [by left|]. intros [?|(_ & -> & -> & ->)]; [done|unfold edge; by rewrite EU].
    - intros x k y (-> & -> & ->). unfold edge. by rewrite EU. }
  wp_step. apply wp_alloc. intros [] l; simpl.
  2: { wp_step. split; [exact (rewires_oom m l)|by apply adds_none]. }
  wp_step. eapply wp_intro; [by apply (update_unit_eq u _ _ U)|]. wp_step.
  set (m1 := m <| oom := l |>). change (units m1 !! u = Some U) in HU.
  set (m2 := m1 <| units ::= <[u := on_dep d (λ l, l ++ [v]) U]> |>).
  assert (∀ x k, deps m2 x k = if decide (x = u ∧ k = d) then deps m x k ++ [v] else deps m x k) as Ed.
  { intros x k. unfold m2. rewrite (deps_update m1 u U) by done. unfold deps. change (units m1) with (units m) in *.
    destruct (decide (x = u)) as [->|]; [|by rewrite decide_False by tauto]. rewrite HU. simpl.
    destruct (decide (k = d)); [rewrite decide_True by tauto|rewrite decide_False by tauto]; done. }
  split; [split; [by apply (alone_update m1)|done| |done]|].
  - intros Hs x k. rewrite Ed. case_decide as Hc; [|done]. destruct Hc as [-> ->]. rewrite EU.
    apply NoDup_app; split_and!; [by rewrite <- EU|intros y Hy ->%list_elem_of_singleton; done|apply NoDup_singleton].
  - unfold one_edge. split; [|lia|].
    + intros x k y. unfold edge. rewrite Ed. case_decide as Hc; [rewrite elem_of_app, list_elem_of_singleton|]; intuition lia.
    + intros _ x k y (-> & -> & ->). unfold edge. by rewrite EU.
Qed.

Lemma ensure_dep_spec m u d :
  is_Some (units m !! u) → wp (ensure_dep u d) m (λ r m', rewires m m' (edge m)).
Proof.
  intros [U HU]. unfold ensure_dep. wp_step. eapply wp_unit_at; [done|].
  destruct (dependencies U d); [|wp_step; apply rewires_refl].
  wp_step. apply wp_alloc. intros b l. wp_step. apply rewires_oom.
Qed.

Lemma unit_add_to_dbus_queue_spec m u U :
  units m !! u = Some U → u_type U ≠ None → wp (unit_add_to_dbus_queue u) m (λ _ m', queued m m').
Proof.
  intros HU Ht. unfold unit_add_to_dbus_queue. wp_step. eapply wp_unit_at; [done|].
  rewrite (bool_decide_eq_true_2 (u_type U ≠ None)) by done. wp_step. simpl. wp_step.
  destruct (bool_decide (load_state U = UNIT_STUB) || u_in_dbus_queue U); [by wp_step|].
  wp_step. wp_step. destruct (has_subscriber m); simpl.
  - wp_step. wp_step. eapply wp_intro; [by apply (update_unit_eq u _ _ U)|].
    etrans; [by apply (queued_update u (λ U, U <| u_in_dbus_queue := true |>) m U)|]. by split.
  - eapply wp_intro; [by apply (update_unit_eq u _ _ U)|].
    by apply (queued_update u (λ U, U <| sent_dbus_new_signal := true |>) m U).
Qed.

(** ** Adding a dependency *)

(** The edges that [unit_add_dependency] is to add. *)
Definition new_edge (u : UnitPtr) (d : UnitDependency) (other : UnitPtr) (ref : bool)
    (x : UnitPtr) (k : UnitDependency) (y : UnitPtr) : Prop :=
  (x = u ∧ y = other ∧ (k = d ∨ (ref = true ∧ k = UNIT_REFERENCES))) ∨
  (x = other ∧ y = u ∧ (inverse_table d = Some k ∨ (ref = true ∧ k = UNIT_REFERENCED_BY))).

Lemma undo_dependency_spec m u d other q v w :
  is_Some (units m !! u) → is_Some (units m !! other) → 
  wp (undo_dependency u d other q v w) m (λ _ m', rewires m m' (λ x k y, edge m x k y ∧
    ¬ (0 < q ∧ x = u ∧ k = d ∧ y = other)%Z ∧
    ¬ (0 < v ∧ x = other ∧ inverse_table d = Some k ∧ y = u)%Z ∧
    ¬ (0 < w ∧ x = u ∧ k = UNIT_REFERENCES ∧ y = other)%Z)).
Proof.
  intros Hu Ho. unfold undo_dependency.
  assert (∀ m x k y (b : Z), is_Some (units m !! x) →
    wp (when (bool_decide (0 < b)%Z) (remove_dep x k y)) m (λ _ m',
      rewires m m' (λ x' k' y', edge m x' k' y' ∧ ¬ (0 < b ∧ x' = x ∧ k' = k ∧ y' = y)%Z))) as Hw.
  { intros m' x k y b Hx. unfold when. case_bool_decide.
    - eapply wp_mono; [by apply remove_dep_spec|]. intros [] m2 Hr. eapply rewires_iff; [exact Hr|]. tauto.
    - wp_step. eapply rewires_iff; [apply rewires_refl|]. tauto. }
  wp_step. eapply wp_mono; [by apply Hw|]. intros [] m1 R1. wp_step.
  assert (wp (when (bool_decide (0 < v)%Z)
    match inverse_table d with Some e => remove_dep other e u | None => mret tt end) m1 (λ _ m2,
      rewires m1 m2 (λ x k y, edge m1 x k y ∧ ¬ (0 < v ∧ x = other ∧ inverse_table d = Some k ∧ y = u)%Z))) as Hv.
  { destruct (inverse_table d) as [e|].
    - eapply wp_mono; [apply Hw; by apply (alone_live m m1 other (rw_alone _ _ _ R1))|].
      intros [] m2 Hr. eapply rewires_iff; [exact Hr|]. naive_solver.
    - unfold when. destruct (bool_decide _); wp_step; (eapply rewires_iff; [apply rewires_refl|]); naive_solver. }
  eapply wp_mono; [exact Hv|]. intros [] m2 R2. clear Hv.
  eapply wp_mono; [apply Hw|].
  { by apply (alone_live m1 m2 u (rw_alone _ _ _ R2)), (alone_live m m1 u (rw_alone _ _ _ R1)). }
  intros [] m3 R3. eapply rewires_trans; [exact R1|]. eapply rewires_trans; [exact R2|].
  eapply rewires_iff; [exact R3|]. intros x k y. simpl. rewrite (rw_edges _ _ _ R2), (rw_edges _ _ _ R1). tauto.
Qed.

Lemma ensure_inverse_spec m d other :
  is_Some (units m !! other) → wp (ensure_inverse other d) m (λ _ m', rewires m m' (edge m)).
Proof.
  intros Ho. unfold ensure_inverse. destruct (inverse_table d); [by apply ensure_dep_spec|].
  wp_step. apply rewires_refl.
Qed.
Lemma adds_iff E r N N' E' : (∀ x k y, N x k y ↔ N' x k y) → adds E r N E' → adds E r N' E'.
Proof.
  intros HN [Ha Ho Hn]. split.
  - intros x k y. by rewrite Ha, HN.
  - intros Hr x k y ?%HN. by apply Ho.
  - intros Hr x k y ?%HN. by apply Hn.
Qed.
Lemma adds_nothing (N : Edges) (E : Edges) : (∀ x k y, ¬ N x k y) → adds E 0 N E.
Proof. intros HN. split; [|by intros _ x k y ?%HN|lia]. intros x k y. specialize (HN x k y). tauto. Qed.

Lemma put_inverse_spec m d u other :
  is_Some (units m !! other) →
  wp (put_inverse other d u) m (λ r m', rewires m m' (edge m') ∧
    adds (edge m) r (λ x k y, x = other ∧ inverse_table d = Some k ∧ y = u) (edge m')).
Proof.
  intros Ho. unfold put_inverse. destruct (inverse_table d) as [e|].
  - eapply wp_mono; [by apply put_dep_spec|]. intros r m' [Hr Hn]. split; [done|].
    eapply adds_iff; [|exact Hn]. unfold one_edge. naive_solver.
  - wp_step. split; [apply rewires_refl|]. apply adds_nothing. naive_solver.
Qed.
Lemma put_reference_spec m (ref : bool) u d v :
  is_Some (units m !! u) →
  wp (put_reference u d v ref) m (λ r m', (ref = false → r = 0%Z) ∧ rewires m m' (edge m') ∧
    adds (edge m) r (λ x k y, ref = true ∧ one_edge u d v x k y) (edge m')).
Proof.
  intros Hx. unfold put_reference. destruct ref.
  - eapply wp_mono; [by apply put_dep_spec|]. intros r m' [Hr Hn]. split; [done|]. split; [done|].
    eapply adds_iff; [|exact Hn]. naive_solver.
  - wp_step. split; [done|]. split; [apply rewires_refl|]. apply adds_nothing. naive_solver.
Qed.

(** [u] stands for [v], itself or what it was merged into. *)
Definition stands_for m u v : Prop := follow_merge (units m) (S (size (units m))) u = Some v.

Lemma follow_merge_end (us : gmap UnitPtr (Unit P)) n u v :
  follow_merge us n u = Some v → ∃ V, us !! v = Some V ∧ load_state V ≠ UNIT_MERGED.
Proof.
  revert u. induction n as [|n IH]; intros u; simpl; [done|].
  destruct (us !! u) as [U|] eqn:HU; simpl; [|done]. case_bool_decide.
  - destruct (merged_into U); simpl; [apply IH|done].
  - intros [= <-]. eauto.
Qed.
Lemma wp_follow_merge m u v (Q : UnitPtr → Manager P → Prop) :
  stands_for m u v → Q v m → wp (unit_follow_merge u) m Q.
Proof. intros E HQ. eapply wp_intro; [|exact HQ]. unfold unit_follow_merge. by rewrite E. Qed.

(** The sets are there: nothing of the graph changes. *)
Lemma ensure_references_spec m (ref : bool) u other :
  is_Some (units m !! u) → is_Some (units m !! other) →
  wp (ensure_references u other ref) m (λ _ m', rewires m m' (edge m)).
Proof.
  intros Hu Ho. unfold ensure_references. destruct ref; [|wp_step; apply rewires_refl].
  wp_step. eapply wp_mono; [by apply ensure_dep_spec|]. intros r m1 R1. simpl. case_bool_decide; [by wp_step|].
  eapply wp_mono; [apply ensure_dep_spec; by apply (alone_live m m1 other (rw_alone _ _ _ R1))|].
  intros ? m2 R2. eapply rewires_trans; [exact R1|]. eapply rewires_iff; [exact R2|]. apply R1.
Qed.

Lemma rewires_step m1 m2 m3 E : rewires m1 m2 (edge m2) → rewires m2 m3 E → rewires m1 m3 E.
Proof. apply rewires_trans. Qed.

(** The four puts in a row. *)
Lemma put_edges_spec m u d other ref :
  u ≠ other → is_Some (units m !! u) → is_Some (units m !! other) →
  (∀ U, units m !! u = Some U → u_type U ≠ None) →
  wp (put_edges u d other ref) m (λ r m', (r ≤ 0)%Z ∧
    rewires m m' (λ x k y, edge m x k y ∨ (r = 0%Z ∧ new_edge u d other ref x k y))).
Proof.
  intros Hne Hu Ho Ht. unfold put_edges. wp_step. eapply wp_mono; [by apply put_dep_spec|]. intros q m1 [R1 D1]. simpl.
  case_bool_decide as Hq.
  { wp_step. split; [lia|]. eapply rewires_iff; [exact R1|]. intros x k y. rewrite (ad_edges _ _ _ _ D1). intuition lia. }
  assert (∀ m' : Manager P, alone <$> units m' = alone <$> units m → is_Some (units m' !! u) ∧ is_Some (units m' !! other))
    as Hlive by (intros m' E; split; by apply (alone_live m m' _ E)).
  pose proof (rw_alone _ _ _ R1) as A1. destruct (Hlive m1 A1) as [Hu1 Ho1].
  wp_step. eapply wp_mono; [by apply put_inverse_spec|]. intros v m2 [R2 D2]. simpl.
  pose proof (rewires_step _ _ _ _ R1 R2) as R02. destruct (Hlive m2 (rw_alone _ _ _ R02)) as [Hu2 Ho2].
  case_bool_decide as Hv.
  { wp_step. eapply wp_mono; [by apply undo_dependency_spec|]. intros [] m' R'. wp_step. split; [lia|].
    eapply rewires_trans; [exact R02|]. eapply rewires_iff; [exact R'|]. intros x k y.
    pose proof (adds_undo _ _ _ _ x k y D1). pose proof (adds_undo _ _ _ _ x k y D2). unfold one_edge in *.
    intuition lia. }
  wp_step. eapply wp_mono; [by apply put_reference_spec|]. intros w m3 (F3 & R3 & D3). simpl.
  pose proof (rewires_step _ _ _ _ R02 R3) as R03. destruct (Hlive m3 (rw_alone _ _ _ R03)) as [Hu3 Ho3].
  case_bool_decide as Hw.
  { wp_step. eapply wp_mono; [by apply undo_dependency_spec|]. intros [] m' R'. wp_step. split; [lia|].
    eapply rewires_trans; [exact R03|]. eapply rewires_iff; [exact R'|]. intros x k y.
    pose proof (adds_undo _ _ _ _ x k y D1). pose proof (adds_undo _ _ _ _ x k y D2).
    pose proof (ad_edges _ _ _ _ D3 x k y). unfold one_edge in *. intuition lia. }
  wp_step. eapply wp_mono; [by apply put_reference_spec|]. intros r m4 (F4 & R4 & D4). simpl.
  pose proof (rewires_step _ _ _ _ R03 R4) as R04. destruct (Hlive m4 (rw_alone _ _ _ R04)) as [Hu4 Ho4].
  case_bool_decide as Hr.
  { wp_step. eapply wp_mono; [by apply undo_dependency_spec|]. intros [] m' R'. wp_step. split; [lia|].
    eapply rewires_trans; [exact R04|]. eapply rewires_iff; [exact R'|]. intros x k y.
    pose proof (adds_undo _ _ _ _ x k y D1). pose proof (adds_undo _ _ _ _ x k y D2).
    pose proof (adds_undo _ _ _ _ x k y D3) as U3. pose proof (ad_edges _ _ _ _ D4 x k y). unfold one_edge in *.
    destruct ref; [|specialize (F4 eq_refl); lia]. intuition lia. }
  wp_step. destruct Hu4 as [U4 HU4]. destruct (alone_lookup m m4 u U4 (rw_alone _ _ _ R04) HU4) as (U & HU & EU).
  eapply wp_mono; [apply (unit_add_to_dbus_queue_spec m4 u U4 HU4)|].
  { apply alone_fields in EU as (_ & _ & _ & -> & _). by apply Ht. }
  intros [] m5 Hq5. wp_step. split; [done|]. eapply rewires_trans; [exact R04|].
  eapply rewires_iff; [by apply rewires_queued|]. intros x k y.
  rewrite (ad_edges _ _ _ _ D4), (ad_edges _ _ _ _ D3), (ad_edges _ _ _ _ D2), (ad_edges _ _ _ _ D1).
  unfold new_edge, one_edge. intuition lia.
Qed.

(** Adding a dependency adds the edges of the two units, or none. *)
Lemma unit_add_dependency_spec m u d other ref u' other' :
  stands_for m u u' → stands_for m other other' →
  (∀ U, units m !! u' = Some U → u_type U ≠ None) →
  wp (unit_add_dependency u d other ref) m (λ r m', (r ≤ 0)%Z ∧
    rewires m m' (λ x k y, edge m x k y ∨ (r = 0%Z ∧ u' ≠ other' ∧ new_edge u' d other' ref x k y))).
Proof.
  intros Hu Ho Ht. pose proof (follow_merge_end _ _ _ _ Hu) as (U & HU & _).
  pose proof (follow_merge_end _ _ _ _ Ho) as (O & HO & _). unfold unit_add_dependency.
  wp_step. eapply wp_follow_merge; [exact Hu|]. wp_step. eapply wp_follow_merge; [exact Ho|].
  destruct (decide (u' = other')) as [He|Hne].
  { wp_step. split; [done|]. eapply rewires_iff; [apply rewires_refl|]. tauto. }
  assert (∀ m1 (r : Z), (r < 0)%Z → rewires m m1 (edge m) → (r ≤ 0)%Z ∧
    rewires m m1 (λ x k y, edge m x k y ∨ (r = 0%Z ∧ u' ≠ other' ∧ new_edge u' d other' ref x k y))) as Hfail.
  { intros m1 r Hr R. split; [lia|]. eapply rewires_iff; [exact R|]. intuition lia. }
  assert (∀ m1, rewires m m1 (edge m) → is_Some (units m1 !! u') ∧ is_Some (units m1 !! other')) as Hlive.
  { intros m1 R. split; apply (alone_live m m1 _ (rw_alone _ _ _ R)); eauto. }
  assert (∀ m1 m2, rewires m m1 (edge m) → rewires m1 m2 (edge m1) → rewires m m2 (edge m)) as Htrans.
  { intros m1 m2 R1 R2. eapply rewires_trans; [exact R1|]. eapply rewires_iff; [exact R2|]. apply R1. }
  wp_step. eapply wp_mono; [apply ensure_dep_spec; eauto|]. intros r1 m1 R1. simpl.
  case_bool_decide; [wp_step; by apply Hfail|]. wp_step.
  eapply wp_mono; [apply ensure_inverse_spec, (Hlive m1 R1)|]. intros r2 m2 R2%(Htrans _ _ R1). simpl.
  case_bool_decide; [wp_step; by apply Hfail|]. wp_step.
  eapply wp_mono; [apply ensure_references_spec; apply (Hlive m2 R2)|]. intros r3 m3 R3%(Htrans _ _ R2). simpl.
  case_bool_decide; [wp_step; by apply Hfail|].
  eapply wp_mono; [apply put_edges_spec; [done|apply (Hlive m3 R3)..|]|].
  { intros U3 HU3. destruct (alone_lookup m m3 u' U3 (rw_alone _ _ _ R3) HU3) as (U0 & HU0 & EU).
    apply alone_fields in EU as (_ & _ & _ & -> & _). by apply Ht. }
  intros r m4 [Hr R4]. split; [done|]. eapply rewires_trans; [exact R3|]. eapply rewires_iff; [exact R4|].
  intros x k y. simpl. rewrite (rw_edges _ _ _ R3). tauto.
Qed.

(** ** The invariant *)

Lemma inverse_back d e : inverse_table d = Some e → inverse_table e = Some d ∨ inverse_table e = None.
Proof. destruct d; intros [= <-]; auto. Qed.
Lemma inverse_back_or_none d e f :
  inverse_table d = Some e → inverse_table e = Some f → f = d.
Proof. destruct d; intros [= <-]; by intros [= <-]. Qed.

Lemma graph_ok_rewires m m' E :
  rewires m m' E → graph_ok m →
  (∀ u d v, E u d v → is_Some (units m !! v) ∧ (∃ e, E v e u) ∧ ∀ e, inverse_table d = Some e → E v e u) →
  (∀ u U d v, units m !! u = Some U → load_state U = UNIT_MERGED → ¬ E u d v) → graph_ok m'.
Proof.
  intros [Ra Rn Rs Re] [[_ _ _ Hs _] [Ht Hn]] HE Hm. split; split.
  - intros u d v (Hv & _)%Re%HE. by apply (alone_live m m' v Ra).
  - intros u d v (_ & (e & He) & _)%Re%HE. exists e. by apply Re.
  - intros u d e v (_ & _ & Hi)%Re%HE ?. apply Re. by apply Hi.
  - by apply Rs.
  - intros u U d HU HUm. destruct (alone_lookup m m' u U Ra HU) as (V & HV & (El & _)%alone_fields).
    apply elem_of_nil_inv. intros v Hv%Re. by apply (Hm u V d v HV); [congruence|].
  - by rewrite Rn.
  - intros n u. rewrite Rn, Hn. split.
    + intros (U & HU & Hnu). destruct (alone_lookup m' m u U (eq_sym Ra) HU) as (V & HV & (_ & En & _)%alone_fields).
      exists V. split; [done|by rewrite <- En].
    + intros (U & HU & Hnu). destruct (alone_lookup m m' u U Ra HU) as (V & HV & (_ & En & _)%alone_fields).
      exists V. split; [done|by rewrite <- En].
Qed.

Lemma not_merged_edge m u U d v :
  edges_ok m → units m !! u = Some U → load_state U = UNIT_MERGED → ¬ edge m u d v.
Proof. intros Hg HU Hl He. unfold edge in He. rewrite (gk_merged _ Hg u U d HU Hl) in He. by apply elem_of_nil in He. Qed.

Lemma rewires_graph_ok m m' : rewires m m' (edge m) → graph_ok m → graph_ok m'.
Proof.
  intros R Hg. pose proof (gk_edges _ Hg). apply (graph_ok_rewires m m' (edge m) R Hg).
  - intros u d v He. split_and!; [by eapply gk_live|by eapply gk_back|]. intros e. by eapply gk_inverse.
  - intros u U d v. by apply not_merged_edge.
Qed.

Lemma new_edge_back u d other ref x k y e :
  new_edge u d other ref x k y → inverse_table k = Some e → new_edge u d other ref y e x.
Proof.
  unfold new_edge. intros [(-> & -> & Hk)|(-> & -> & Hk)] He; [right|left]; (split; [done|]); (split; [done|]).
  - destruct Hk as [->|[? ->]]; [by left|]. right. split; [done|]. by injection He.
  - destruct Hk as [Hk|[? ->]]; [left; by eapply inverse_back_or_none|]. right. split; [done|]. by injection He.
Qed.
Lemma new_edge_sym u d other ref x k y :
  inverse_table d ≠ None ∨ ref = true → new_edge u d other ref x k y → ∃ e, new_edge u d other ref y e x.
Proof.
  unfold new_edge. intros Hd [(-> & -> & _)|(-> & -> & _)].
  - destruct (inverse_table d) as [e|]; [exists e; auto|]. exists UNIT_REFERENCED_BY.
    destruct Hd as [Hd| ->]; [by destruct Hd|]. auto 10.
  - exists d. auto.
Qed.

(** C34. [unit_add_dependency] on units of a consistent graph, which may be
    stand-ins of merged ones: it returns 0 or an error; on success just the edges asked for,
    their inverses, and the references are added (none, if the two are one unit), and on any failing
    allocation the graph is as before.  The graph stays consistent, and no unit comes to
    depend on itself.  The condition is that the dependency has an inverse or a
    reference is asked for; OnFailure= and the like have no inverse. *)
Theorem unit_add_dependency_correct m u d other ref u' other' :
  graph_ok m → stands_for m u u' → stands_for m other other' →
  (∀ U, units m !! u' = Some U → u_type U ≠ None) → inverse_table d ≠ None ∨ ref = true →
  wp (unit_add_dependency u d other ref) m (λ r m', (r ≤ 0)%Z ∧ graph_ok m' ∧ (no_loops m → no_loops m') ∧
    ∀ x k y, edge m' x k y ↔ edge m x k y ∨ (r = 0%Z ∧ u' ≠ other' ∧ new_edge u' d other' ref x k y)).
Proof.
  intros Hg Hu Ho Ht Hd. pose proof (gk_edges _ Hg). eapply wp_mono; [by apply unit_add_dependency_spec|].
  intros r m' [Hr R]. split; [done|].
  pose proof (follow_merge_end _ _ _ _ Hu) as (U & HU & HUm).
  pose proof (follow_merge_end _ _ _ _ Ho) as (O & HO & HOm).
  split_and!; [eapply graph_ok_rewires; [exact R|done|..]| |apply R].
  - intros x k y [He|(E0 & Hne & He)].
    + split_and!; [by eapply gk_live| |].
      * destruct (gk_back _ Hg x k y He) as [e ?]. exists e. by left.
      * intros e Hi. left. by eapply gk_inverse.
    + split_and!.
      * destruct He as [(_ & -> & _)|(_ & -> & _)]; eauto.
      * destruct (new_edge_sym _ _ _ _ _ _ _ Hd He) as [e ?]. exists e. by right.
      * intros e Hi. right. split_and!; [done|done|]. by eapply new_edge_back.
  - intros x X k y HX HXm [He|(_ & _ & He)]; [by eapply not_merged_edge|].
    destruct He as [(-> & _)|(-> & _)]; congruence.
  - intros Hn x k [He|(_ & Hne & He)]%R; [by eapply Hn|].
    destruct He as [(-> & ? & _)|(-> & ? & _)]; congruence.
Qed.
End graph.

(** What the graph relies on in the operations of a unit type: they leave edges,
    names and jobs alone. *)
Class UnitTypeOpsLaws P `{UnitVTable P, !UnitTypeOps P} : Prop := {
  done_keeps : ∀ (m : Manager P) u, is_Some (units m !! u) → wp (ut_done u) m (λ _ m',
    rewires m m' (edge m) ∧ u_job <$> units m' = u_job <$> units m);
  init_keeps : ∀ (m : Manager P) u, is_Some (units m !! u) → wp (ut_init u) m (λ _ m',
    rewires m m' (edge m) ∧ u_job <$> units m' = u_job <$> units m) }.

Section free.
Context {P : Type} `{UnitVTableLaws P, !UnitTypeOps P, !UnitTypeOpsLaws P}.
Abbreviation MM := (M (Manager P)).
Implicit Types m : Manager P.

(** ** Freeing a unit *)

Lemma elem_of_unit_dependencies d : d ∈ unit_dependencies.
Proof. destruct d; unfold unit_dependencies; rewrite !elem_of_cons; tauto. Qed.

Lemma active_not_merged m u U :
  units m !! u = Some U → load_state U ≠ UNIT_MERGED → ∃ s, active_state_in (units m) u = Some s.
Proof.
  intros HU Hl. unfold active_state_in. cbn [follow_merge]. rewrite HU. simpl.
  rewrite bool_decide_eq_false_2 by done. simpl. rewrite HU. simpl. eauto.
Qed.

(** The inner loop: [u] goes out of all sets of [other]. *)
Lemma forget_spec m u other (freed ds : list UnitDependency) :
  other ≠ u → is_Some (units m !! other) →
  wp (for_each ds (λ k, assert_ (negb (bool_decide (other = u ∧ k ∈ freed)));; remove_dep other k u)) m
    (λ _ m', rewires m m' (λ x k y, edge m x k y ∧ ¬ (x = other ∧ y = u ∧ k ∈ ds))).
Proof.
  intros Hne. revert m. induction ds as [|k ds IH]; intros m Ho; simpl.
  { wp_step. eapply rewires_iff; [apply rewires_refl|]. intros. rewrite elem_of_nil. tauto. }
  wp_step. rewrite bool_decide_eq_false_2 by tauto. wp_step. simpl. wp_step.
  eapply wp_mono; [by apply remove_dep_spec|]. intros [] m1 R1.
  eapply wp_mono; [apply IH; by apply (alone_live m m1 other (rw_alone _ _ _ R1))|].
  intros [] m2 R2. eapply rewires_trans; [exact R1|]. eapply rewires_iff; [exact R2|].
  intros x k' y. simpl. rewrite (rw_edges _ _ _ R1), elem_of_cons. intuition congruence.
Qed.

Lemma load_state_alone m m' u U U' :
  alone <$> units m' = alone <$> units m → units m !! u = Some U → units m' !! u = Some U' →
  load_state U' = load_state U.
Proof.
  intros E HU HU'. destruct (alone_lookup m m' u U' E HU') as (V & HV & (El & _)%alone_fields). congruence.
Qed.

Lemma bidi_set_free_spec m0 m u d freed E :
  edges_ok m0 → no_loops m0 → rewires m0 m E → (∀ k y, E u k y ↔ edge m0 u k y) → is_Some (units m0 !! u) →
  wp (bidi_set_free freed u d) m (λ _ m', rewires m0 m' (λ x k y, E x k y ∧ ¬ (y = u ∧ edge m0 u d x))).
Proof.
  intros Hg Hn R HE Hu. unfold bidi_set_free. wp_step.
  pose proof (proj2 (alone_live m0 m u (rw_alone _ _ _ R)) Hu) as [U HU]. eapply wp_unit_at; [done|].
  assert (∀ x, x ∈ dependencies U d ↔ edge m0 u d x) as HL.
  { intros x. rewrite <- HE, <- (rw_edges _ _ _ R). unfold edge, deps. by rewrite HU. }
  eapply wp_mono; [apply (wp_for_each _ _ (λ l m', ∃ done, dependencies U d = done ++ l ∧
    rewires m0 m' (λ x k y, E x k y ∧ ¬ (y = u ∧ x ∈ done))))|].
  - intros x l m1 (done & Ed & R1).
    assert (edge m0 u d x) as Hx by (apply HL; rewrite Ed; set_solver).
    assert (x ≠ u) as Hxu by (intros ->; by apply (Hn u d)).
    assert (is_Some (units m1 !! x)) as Hx1 by (apply (alone_live m0 m1 x (rw_alone _ _ _ R1)); by eapply gk_live).
    wp_step. eapply wp_mono; [by apply forget_spec|]. intros [] m2 R2.
    pose proof (proj2 (alone_live m1 m2 x (rw_alone _ _ _ R2)) Hx1) as [X2 HX2].
    assert (load_state X2 ≠ UNIT_MERGED) as Hm.
    { destruct (gk_live _ Hg u d x Hx) as [X HX]. destruct (gk_back _ Hg u d x Hx) as [e He]. intros Em.
      apply (not_merged_edge m0 x X e u Hg HX); [|done]. rewrite <- Em. symmetry.
      eapply (load_state_alone m0 m2); [|done|done]. by rewrite (rw_alone _ _ _ R2), (rw_alone _ _ _ R1). }
    destruct (active_not_merged m2 x X2 HX2 Hm) as [s Hs].
    eapply wp_mono; [by apply (unit_add_to_gc_queue_spec m2 x X2 s)|]. intros [] m3 Hq.
    exists (done ++ [x]). split; [by rewrite <- app_assoc|].
    eapply rewires_trans; [exact R1|]. eapply rewires_trans; [exact R2|].
    eapply rewires_iff; [by apply rewires_queued|]. intros a k y. rewrite (rw_edges _ _ _ R2), (rw_edges _ _ _ R1).
    pose proof (elem_of_unit_dependencies k). rewrite elem_of_app, list_elem_of_singleton. tauto.
  - exists []. split; [done|]. eapply rewires_iff; [exact R|]. intros. rewrite elem_of_nil. tauto.
  - intros [] m1 (done & Ed & R1). rewrite app_nil_r in Ed. subst done. eapply rewires_iff; [exact R1|].
    intros x k y. cbv beta. by rewrite HL.
Qed.

Lemma bidi_sets_free_spec m0 u todo : ∀ m freed E,
  edges_ok m0 → no_loops m0 → rewires m0 m E → (∀ k y, E u k y ↔ edge m0 u k y) → is_Some (units m0 !! u) →
  wp (bidi_sets_free freed todo u) m (λ _ m',
    rewires m0 m' (λ x k y, E x k y ∧ ¬ (y = u ∧ ∃ d, d ∈ todo ∧ edge m0 u d x))).
Proof.
  induction todo as [|d todo IH]; intros m freed E Hg Hn R HE Hu; simpl.
  { wp_step. eapply rewires_iff; [exact R|]. intros x k y. setoid_rewrite elem_of_nil. naive_solver. }
  wp_step. eapply wp_mono; [by apply (bidi_set_free_spec m0 m u d freed E)|]. intros [] m1 R1.
  eapply wp_mono; [eapply (IH m1 _ _ Hg Hn R1)|].
  - intros k y. simpl. rewrite HE. split; [tauto|]. intros He. split; [done|]. intros [-> ?]. by apply (Hn u d).
  - done.
  - intros [] m2 R2. eapply rewires_iff; [exact R2|]. intros x k y. setoid_rewrite elem_of_cons. naive_solver.
Qed.

(** The names of [u] leave the table. *)
Lemma remove_names_spec m u (l : list string) :
  om_wf (unit_names m) →
  wp (for_each l (λ t, remove_name t u)) m (λ _ m', ∃ nm, m' = m <| unit_names := nm |> ∧ om_wf nm ∧
    ∀ n x, (n, x) ∈ nm ↔ (n, x) ∈ unit_names m ∧ ¬ (x = u ∧ n ∈ l)).
Proof.
  revert m. induction l as [|t l IH]; intros m Hw; simpl.
  { wp_step. exists (unit_names m). split; [by destruct m|]. split; [done|].
    intros. rewrite elem_of_nil. tauto. }
  wp_step. unfold remove_name at 1. wp_step.
  set (nm1 := if decide (om_get (unit_names m) t = Some u) then om_remove (unit_names m) t else unit_names m).
  assert (om_wf nm1) as Hw1 by (unfold nm1; case_decide; [by apply om_wf_remove|done]).
  assert (∀ n x, (n, x) ∈ nm1 ↔ (n, x) ∈ unit_names m ∧ ¬ (x = u ∧ n = t)) as E1.
  { intros n x. unfold nm1. case_decide as Hd; [rewrite om_elem_remove; simpl|].
    - rewrite (om_get_iff _ _ _ Hw) in Hd. split.
      { intros [Hin Hnt]. split; [done|]. by intros [_ ->]. }
      intros [Hin Hno]. split; [done|].
      intros ->. apply Hno. split; [|done]. apply (om_elem_get _ _ _ Hw) in Hin, Hd. congruence.
    - split; [|by intros [? _]]. intros Hin. split; [done|]. intros [-> ->]. by apply Hd, om_elem_get. }
  match goal with |- wp _ ?s _ => change s with (m <| unit_names := nm1 |>) end.
  eapply wp_mono; [by apply (IH (m <| unit_names := nm1 |>))|].
  intros [] m2 (nm & -> & Hw2 & E2). exists nm. split; [done|]. split; [done|].
  intros n x. rewrite E2. change (unit_names (m <| unit_names := nm1 |>)) with nm1. rewrite E1, elem_of_cons. tauto.
Qed.

(** Leaving the queues, and the end. *)
Lemma unlist_unit_spec m u U :
  units m !! u = Some U →
  wp (unlist_unit u) m
    (λ _ m', units m' = delete u (units m) ∧ unit_names m' = unit_names m).
Proof.
  intros HU. unfold unlist_unit. wp_step. eapply wp_unit_at; [done|].
  destruct (in_load_queue U), (u_in_dbus_queue U), (in_cleanup_queue U), (in_gc_queue U); simpl;
    repeat (wp_step; simpl); done.
Qed.

(** The state without [u]. *)
Record without u m m' : Prop := {
  wo_units : ∀ x X', units m' !! x = Some X' → x ≠ u ∧ ∃ X, units m !! x = Some X ∧ alone X' = alone X;
  wo_live : ∀ x, x ≠ u → is_Some (units m' !! x) ↔ is_Some (units m !! x);
  wo_edges : ∀ x k y, edge m' x k y ↔ edge m x k y ∧ x ≠ u ∧ y ≠ u;
  wo_sets : ∀ x k, NoDup (deps m' x k);
  wo_table : om_wf (unit_names m');
  wo_names : ∀ n x, (n, x) ∈ unit_names m' ↔ (n, x) ∈ unit_names m ∧ x ≠ u }.

Lemma without_graph_ok u m m' : without u m m' → graph_ok m → graph_ok m'.
Proof.
  intros [Hu Hl He Hs Ht Hnm] Hg. split; split; [..|done|].
  - intros x k y (Hxy & _ & Hy)%He. apply Hl; [done|]. by apply (gk_live _ Hg x k).
  - intros x k y (Hxy & Hx & Hy)%He. destruct (gk_back _ Hg x k y Hxy) as [e ?]. exists e. by apply He.
  - intros x k e y (Hxy & Hx & Hy)%He Hi. apply He. split; [|done]. by apply (gk_inverse _ Hg x k).
  - done.
  - intros x X k HX Hm. destruct (Hu x X HX) as (Hx & X0 & HX0 & (El & _)%alone_fields).
    apply elem_of_nil_inv. intros y (Hxy & _)%He. eapply (not_merged_edge m x X0 k y Hg HX0); [congruence|done].
  - intros n x. rewrite Hnm, (gk_names _ Hg). split.
    + intros [(X & HX & Hin) Hx]. destruct (proj2 (Hl x Hx) (mk_is_Some _ _ HX)) as [X' HX'].
      exists X'. split; [done|]. destruct (Hu x X' HX') as (_ & X0 & HX0 & (_ & En & _)%alone_fields).
      rewrite En. congruence.
    + intros (X' & HX' & Hin). destruct (Hu x X' HX') as (Hx & X & HX & (_ & En & _)%alone_fields).
      split; [|done]. exists X. by rewrite <- En.
Qed.

(** Everything after the names and the job. *)
Lemma unit_free_rest m1 m2 u :
  edges_ok m2 → no_loops m2 → is_Some (units m2 !! u) → units m2 = units m1 →
  wp (bidi_sets_free [] unit_dependencies u;; unlist_unit u) m2
    (λ _ m', (∀ x X', units m' !! x = Some X' → x ≠ u ∧ ∃ X, units m1 !! x = Some X ∧ alone X' = alone X) ∧
      (∀ x, x ≠ u → is_Some (units m' !! x) ↔ is_Some (units m1 !! x)) ∧
      (∀ x k y, edge m' x k y ↔ edge m1 x k y ∧ x ≠ u ∧ y ≠ u) ∧
      (∀ x k, NoDup (deps m' x k)) ∧ unit_names m' = unit_names m2 ∧ units m' !! u = None).
Proof.
  intros He Hn Hu Eu. wp_step.
  eapply wp_mono; [apply (bidi_sets_free_spec m2 u unit_dependencies m2 [] (edge m2) He Hn (rewires_refl m2)); done|].
  intros [] m3 R3. pose proof (proj2 (alone_live m2 m3 u (rw_alone _ _ _ R3)) Hu) as [U3 HU3].
  eapply wp_mono; [by apply (unlist_unit_spec m3 u U3)|]. intros [] m4 [Eu4 En4]. rewrite <- Eu.
  assert (∀ x k, x ≠ u → deps m4 x k = deps m3 x k) as Ed.
  { intros x k Hx. unfold deps. by rewrite Eu4, lookup_delete_ne. }
  assert (∀ k, deps m4 u k = []) as Edu by (intros k; unfold deps; by rewrite Eu4, lookup_delete_eq).
  split_and!.
  - intros x X4 HX. rewrite Eu4 in HX. apply lookup_delete_Some in HX as [Hx HX]. split; [done|].
    by apply (alone_lookup m2 m3 x X4 (rw_alone _ _ _ R3)).
  - intros x Hx. rewrite Eu4, lookup_delete_ne by done. by apply (alone_live m2 m3 x (rw_alone _ _ _ R3)).
  - intros x k y. assert (edge m1 x k y ↔ edge m2 x k y) as -> by (unfold edge, deps; by rewrite Eu).
    unfold edge at 1. destruct (decide (x = u)) as [->|Hx].
    { rewrite Edu, elem_of_nil. tauto. }
    rewrite (Ed x k Hx). change (edge m3 x k y ↔ edge m2 x k y ∧ x ≠ u ∧ y ≠ u).
    rewrite (rw_edges _ _ _ R3). split; [|naive_solver].
    intros [Hx1 Hno]. split_and!; [done|done|]. intros ->. apply Hno. split; [done|].
    destruct (gk_back _ He x k u Hx1) as [e ?]. exists e. split; [apply elem_of_unit_dependencies|done].
  - intros x k. destruct (decide (x = u)) as [->|Hx]; [rewrite Edu; constructor|].
    rewrite (Ed x k Hx). apply (rw_sets _ _ _ R3), He.
  - by rewrite En4, (rw_names _ _ _ R3).
  - by rewrite Eu4, lookup_delete_eq.
Qed.

(** C35. [unit_free] of a unit of a consistent graph without self-dependencies that has no
    job: it returns, no freed set is touched, the unit is gone, no remaining unit
    refers to it and no name leads to it; all other edges and names stay, and the graph
    is consistent again.  Adding dependencies never makes a unit depend on itself; merging two units that
    depend on each other does, and then [unit_free] does touch a freed set ([merged_unit_free_faults]). *)
Theorem unit_free_correct m u U :
  graph_ok m → no_loops m → units m !! u = Some U → u_job U = None →
  wp (unit_free u) m (λ _ m', graph_ok m' ∧ no_loops m' ∧ units m' !! u = None ∧
    (∀ x, x ≠ u → is_Some (units m' !! x) ↔ is_Some (units m !! x)) ∧
    (∀ x k y, edge m' x k y ↔ edge m x k y ∧ x ≠ u ∧ y ≠ u) ∧
    (∀ n x, (n, x) ∈ unit_names m' ↔ (n, x) ∈ unit_names m ∧ x ≠ u)).
Proof.
  intros Hg Hn HU Hj. pose proof (gk_edges _ Hg) as He. unfold unit_free. wp_step. eapply wp_unit_at; [done|].
  assert (wp (when (bool_decide (load_state U ≠ UNIT_STUB)) (ut_done u)) m
    (λ _ m', rewires m m' (edge m) ∧ u_job <$> units m' = u_job <$> units m)) as Hdone.
  { unfold when. case_bool_decide; [apply done_keeps; eauto|]. wp_step. split; [apply rewires_refl|done]. }
  wp_step. eapply wp_mono; [exact Hdone|]. intros [] m1 [R1 J1]. clear Hdone.
  wp_step. eapply wp_mono; [apply remove_names_spec; rewrite (rw_names _ _ _ R1); apply Hg|].
  intros [] m2 (nm & -> & Hw & Enm). rewrite (rw_names _ _ _ R1) in Enm.
  assert (is_Some (units m1 !! u)) as [U1 HU1] by (apply (alone_live m m1 u (rw_alone _ _ _ R1)); eauto).
  wp_step. eapply wp_unit_at; [done|].
  assert (u_job U1 = None) as Hj1.
  { pose proof (f_equal (lookup u) J1) as E. rewrite !lookup_fmap, HU, HU1 in E. simpl in E. congruence. }
  rewrite Hj1. wp_step. wp_step.
  set (m2 := m1 <| unit_names := nm |>).
  assert (edges_ok m1 ∧ no_loops m1) as [He1 Hn1].
  { split; [apply (rewires_graph_ok m m1 R1 Hg)|]. intros x d Hx%R1. by apply (Hn x d). }
  assert (edges_ok m2) as He2 by (destruct He1; by split).
  eapply wp_mono; [apply (unit_free_rest m1 m2 u He2 Hn1); [by exists U1|done]|].
  intros [] m4 (HX & HL & HE & HS & EN & Hgone).
  assert (without u m m4) as Hwo.
  { split.
    - intros x X4 HX4. destruct (HX x X4 HX4) as (Hx & X1 & HX1 & ->). split; [done|].
      by apply (alone_lookup m m1 x X1 (rw_alone _ _ _ R1)).
    - intros x Hx. rewrite (HL x Hx). apply (alone_live m m1 x (rw_alone _ _ _ R1)).
    - intros x k y. rewrite HE. by rewrite (rw_edges _ _ _ R1).
    - done.
    - by rewrite EN.
    - intros n x. rewrite EN. change (unit_names m2) with nm. rewrite Enm.
      split; intros [Hin Hno]; (split; [done|]); [|naive_solver]. intros ->. apply Hno. split; [done|].
      apply (gk_names _ Hg) in Hin as (V & HV & ?). congruence. }
  split_and!; [by eapply without_graph_ok| |done|apply Hwo..].
  intros x k (Hx & _)%(wo_edges _ _ _ Hwo). by apply (Hn x k).
Qed.
End free.

(** ** Checking a concrete graph *)

Section check.
Context {P : Type}.
Implicit Types m : Manager P.

Definition graph_check m : bool :=
  map_all (λ u U, forallb (λ d, bool_decide (NoDup (dependencies U d)) &&
    negb (bool_decide (load_state U = UNIT_MERGED) && bool_decide (dependencies U d ≠ [])) &&
    forallb (λ v, negb (bool_decide (u = v)) && bool_decide (is_Some (units m !! v)) &&
      existsb (λ e, bool_decide (u ∈ deps m v e)) unit_dependencies &&
      match inverse_table d with Some e => bool_decide (u ∈ deps m v e) | None => true end)
      (dependencies U d)) unit_dependencies &&
    forallb (λ n, bool_decide ((n, u) ∈ unit_names m)) (names U)) (units m) &&
  bool_decide (om_wf (unit_names m)) &&
  forallb (λ e, match units m !! e.2 with Some U => bool_decide (e.1 ∈ names U) | None => false end) (unit_names m).

Lemma graph_check_edge m u d v :
  graph_check m = true → edge m u d v →
  u ≠ v ∧ is_Some (units m !! v) ∧ (∃ e, edge m v e u) ∧ ∀ e, inverse_table d = Some e → edge m v e u.
Proof.
  unfold graph_check. rewrite !andb_true_iff. intros [[Hu _] _] He. unfold edge, deps in He.
  destruct (units m !! u) as [U|] eqn:HU; [|by apply elem_of_nil in He]. simpl in He.
  pose proof (map_all_true _ _ Hu u U HU) as E. cbv beta in E. apply andb_true_iff in E as [E _].
  pose proof (forallb_elem _ _ E d (elem_of_unit_dependencies d)) as Ed. cbv beta in Ed.
  apply andb_true_iff in Ed as [_ Ed]. pose proof (forallb_elem _ _ Ed v He) as Ev. cbv beta in Ev.
  rewrite !andb_true_iff in Ev. destruct Ev as [[[Ene%negb_true_iff Ev] Eb] Ei].
  split_and!; [by apply bool_decide_eq_false in Ene|by apply bool_decide_eq_true in Ev| |].
  - apply existsb_exists in Eb as (e & _ & Eb%bool_decide_eq_true). by exists e.
  - intros e Hi. rewrite Hi in Ei. by apply bool_decide_eq_true in Ei.
Qed.
Lemma graph_check_sound m : graph_check m = true → graph_ok m ∧ no_loops m.
Proof.
  intros E. pose proof (graph_check_edge m) as He. split.
  2: { intros u d Hu. by destruct (He u d u E Hu). }
  assert (∀ u U d, units m !! u = Some U → NoDup (dependencies U d) ∧
    (load_state U = UNIT_MERGED → dependencies U d = [])) as Hset.
  { intros u U d HU. unfold graph_check in E. rewrite !andb_true_iff in E. destruct E as [[Hu _] _].
    pose proof (map_all_true _ _ Hu u U HU) as EU. cbv beta in EU. apply andb_true_iff in EU as [EU _].
    pose proof (forallb_elem _ _ EU d (elem_of_unit_dependencies d)) as Ed. cbv beta in Ed.
    rewrite !andb_true_iff in Ed. destruct Ed as [[Hnd%bool_decide_eq_true Hm%negb_true_iff] _].
    split; [done|]. intros Hl. rewrite bool_decide_eq_true_2 in Hm by done. simpl in Hm.
    apply bool_decide_eq_false in Hm. by apply dec_stable. }
  unfold graph_check in E. rewrite !andb_true_iff, bool_decide_eq_true in E. destruct E as [[Hu Hw] Hn].
  split; split; [..|done|].
  - intros u d v Hv. apply (He u d v); [|done]. unfold graph_check. by rewrite Hu, Hn, bool_decide_eq_true_2.
  - intros u d v Hv. apply (He u d v); [|done]. unfold graph_check. by rewrite Hu, Hn, bool_decide_eq_true_2.
  - intros u d e v Hv. apply (He u d v); [|done]. unfold graph_check. by rewrite Hu, Hn, bool_decide_eq_true_2.
  - intros u d. unfold deps. destruct (units m !! u) as [U|] eqn:HU; simpl; [by apply (Hset u U)|constructor].
  - intros u U d HU Hl. unfold deps. rewrite HU. simpl. by apply (Hset u U).
  - intros n u. split.
    + intros Hin. pose proof (forallb_elem _ _ Hn _ Hin) as Ein. simpl in Ein.
      destruct (units m !! u) as [U|]; [|done]. apply bool_decide_eq_true in Ein. by exists U.
    + intros (U & HU & Hin). pose proof (map_all_true _ _ Hu u U HU) as EU. cbv beta in EU.
      apply andb_true_iff in EU as [_ EU]. by apply (forallb_elem _ _ EU), bool_decide_eq_true in Hin.
Qed.
End check.

(** ** Examples *)
Module GraphDemo.
Import Demo.

#[export] Instance demo_type_ops : UnitTypeOps UnitActiveState := {|
  ut_private := UNIT_INACTIVE;
  ut_init _ := mret tt;
  ut_done u := update_unit u (λ U, U <| priv := UNIT_INACTIVE |>);
  ut_load := Some (λ u, update_unit u (λ U, U <| load_state := UNIT_LOADED |>);; mret 0%Z) |}.

#[export] Instance demo_type_ops_laws : UnitTypeOpsLaws UnitActiveState.
Proof.
  split; intros m u [U HU]; simpl.
  - eapply wp_intro; [by apply (update_unit_eq u _ _ U)|]. simpl.
    assert (∀ x d, deps (m <| units ::= <[u := U <| priv := UNIT_INACTIVE |>]> |>) x d = deps m x d) as Ed.
    { intros x d. rewrite (deps_update m u U) by done. case_decide; [subst|done]. unfold deps. by rewrite HU. }
    split; [split|].
    + simpl. rewrite fmap_insert. apply insert_id. by rewrite lookup_fmap, HU.
    + done.
    + intros Hs x d. by rewrite Ed.
    + intros x d v. unfold edge. by rewrite Ed.
    + rewrite fmap_insert. apply insert_id. by rewrite lookup_fmap, HU.
  - wp_step. split; [apply rewires_refl|done].
Qed.

(** "a" is ordered after "b", which is not loaded yet, and wants "c"; "d" was
    merged into "c". *)
Definition m_graph : Manager UnitActiveState :=
  (manager
    [(1, unit "a.target" (dep UNIT_AFTER [2] (dep UNIT_WANTS [3] nodeps)) None UNIT_INACTIVE);
     (2, (unit "b.target" (dep UNIT_BEFORE [1] nodeps) None UNIT_INACTIVE) <| load_state := UNIT_STUB |>);
     (3, unit "c.target" (dep UNIT_WANTED_BY [1] nodeps) None UNIT_INACTIVE)]
    [] [] [] [] [])
  <| units ::= <[4 := (unit "" nodeps None UNIT_INACTIVE) <| names := [] |> <| load_state := UNIT_MERGED |>
       <| merged_into := Some 3 |>]> |>.

Lemma m_graph_ok : graph_ok m_graph ∧ no_loops m_graph.
Proof. apply graph_check_sound. vm_compute. reflexivity. Qed.

Lemma unit_add_dependency_correct_witness :
  ∃ r m', unit_add_dependency 4 UNIT_CONFLICTS 2 true m_graph = Ret r m' ∧ (r ≤ 0)%Z ∧ graph_ok m' ∧
    (no_loops m_graph → no_loops m') ∧
    ∀ x k y, edge m' x k y ↔ edge m_graph x k y ∨ (r = 0%Z ∧ 3 ≠ 2 ∧ new_edge 3 UNIT_CONFLICTS 2 true x k y).
Proof.
  refine (wp_elim _ _ _ (unit_add_dependency_correct m_graph 4 UNIT_CONFLICTS 2 true 3 2
    (proj1 m_graph_ok) _ _ _ _)).
  - vm_compute. reflexivity.
  - vm_compute. reflexivity.
  - intros U HU. vm_compute in HU. injection HU as <-. discriminate.
  - right. reflexivity.
Defined.

(** It succeeds there, and the third allocation failing undoes it. *)
Example m_graph_added :
  match unit_add_dependency 4 UNIT_CONFLICTS 2 true m_graph,
        unit_add_dependency 4 UNIT_CONFLICTS 2 true
          (m_graph <| oom := [true; true; true; true; true; true; true; false] |>) with
  | Ret r m', Ret r2 m2 => r = 0%Z ∧ deps m' 2 UNIT_CONFLICTED_BY = [3] ∧ deps m' 3 UNIT_REFERENCES = [2] ∧
      r2 = (- ENOMEM)%Z ∧ deps m2 3 UNIT_CONFLICTS = [] ∧ deps m2 3 UNIT_REFERENCES = []
  | _, _ => False
  end.
Proof. vm_compute. repeat split. Qed.

Lemma unit_free_correct_witness :
  ∃ r m', unit_free 1 m_graph = Ret r m' ∧ graph_ok m' ∧ no_loops m' ∧ units m' !! 1 = None ∧
    (∀ x, x ≠ 1 → is_Some (units m' !! x) ↔ is_Some (units m_graph !! x)) ∧
    (∀ x k y, edge m' x k y ↔ edge m_graph x k y ∧ x ≠ 1 ∧ y ≠ 1) ∧
    (∀ n x, (n, x) ∈ unit_names m' ↔ (n, x) ∈ unit_names m_graph ∧ x ≠ 1).
Proof.
  refine (wp_elim _ _ _ (unit_free_correct m_graph 1 _ (proj1 m_graph_ok) (proj2 m_graph_ok)
    ltac:(vm_compute; reflexivity) ltac:(vm_compute; reflexivity))).
Defined.
End GraphDemo.
