(* ===== verification/UnitMergeSpec.v ===== *)
(** * Merging units contracts the graph (UnitGraph.v: unit_merge)

    When [other] turns out to be [u], every edge from or to [other] becomes one
    from or to [u], the names of [other] lead to [u], and [other] is an empty shell
    that points to [u].  Edges between the two become edges from [u] to itself:
    [merged_unit_free_faults] shows what that leads to. *)

From stdpp Require Import base gmap strings list fin_maps.
From Stdlib Require Import ZArith Lia.
From S2P Require Import Prelude CString JobType OrderedMap Engine Transaction Links Wf WfCheck Passes Installed AddSpec UnitGraph UnitGraphSpec.

Section merge.
Context {P : Type} `{UnitVTableLaws P, !UnitTypeOps P, !UnitTypeOpsLaws P}.
Abbreviation MM := (M (Manager P)).
Implicit Types m : Manager P.
Abbreviation Edges := (UnitPtr → UnitDependency → UnitPtr → Prop).

(** ** One unit's edges change *)

Lemma update_deps_spec m u d f (N : UnitPtr → Prop) :
  is_Some (units m !! u) →
  (NoDup (deps m u d) → NoDup (f (deps m u d))) → (∀ y, y ∈ f (deps m u d) ↔ N y) →
  wp (update_unit u (on_dep d f)) m (λ _ m', rewires m m' (λ x k y,
    if decide (x = u ∧ k = d) then N y else edge m x k y)).
Proof.
  intros [U HU] Hnd HN. eapply wp_intro; [by apply (update_unit_eq u _ _ U)|].
  assert (∀ x k, deps (m <| units ::= <[u := on_dep d f U]> |>) x k =
    if decide (x = u ∧ k = d) then f (deps m x k) else deps m x k) as Ed.
  { intros x k. rewrite (deps_update m u U) by done. unfold deps.
    destruct (decide (x = u)) as [->|]; [|by rewrite decide_False by tauto]. rewrite HU. simpl.
    destruct (decide (k = d)); [rewrite decide_True by tauto|rewrite decide_False by tauto]; done. }
  split; [by apply alone_update|done| |].
  - intros Hs x k. rewrite Ed. case_decide as Hc; [|done]. destruct Hc as [-> ->]. by apply Hnd.
  - intros x k y. unfold edge. rewrite Ed. case_decide as Hc; [|done]. destruct Hc as [-> ->]. apply HN.
Qed.

Definition renamed (E : UnitPtr → Prop) (u other y : UnitPtr) : Prop := (E y ∧ y ≠ other) ∨ (y = u ∧ E other).

Lemma replace_dep_spec m back k other u :
  u ≠ other → is_Some (units m !! back) →
  wp (replace_dep back k other u) m (λ _ m', rewires m m' (λ x j y,
    if decide (x = back ∧ j = k) then renamed (edge m back k) u other y else edge m x j y)).
Proof.
  intros Hne Hb. unfold replace_dep. apply update_deps_spec; [done| |].
  - intros Hnd. case_decide; [|done]. case_decide; [by apply NoDup_list_remove|].
    apply NoDup_app; split_and!; [by apply NoDup_list_remove| |apply NoDup_singleton].
    by intros y [? _]%elem_of_list_remove ->%list_elem_of_singleton.
  - intros y. unfold renamed, edge. destruct (decide (other ∈ deps m back k)) as [Ho|Ho].
    + destruct (decide (u ∈ deps m back k)) as [Hu|Hu];
        rewrite ?elem_of_app, elem_of_list_remove, ?list_elem_of_singleton; [|tauto].
      split; [tauto|]. intros [?|[-> _]]; [done|]. done.
    + split; [|tauto]. intros Hy. left. split; [done|]. by intros ->.
Qed.

Lemma rename_all_spec m back other u ds :
  u ≠ other → is_Some (units m !! back) →
  wp (for_each ds (λ k, replace_dep back k other u)) m (λ _ m', rewires m m' (λ x j y,
    if decide (x = back ∧ j ∈ ds) then renamed (edge m back j) u other y else edge m x j y)).
Proof.
  intros Hne. revert m. induction ds as [|k ds IH]; intros m Hb; simpl.
  { wp_step. eapply rewires_iff; [apply rewires_refl|]. intros x j y. rewrite decide_False; [done|].
    by intros [_ ?%elem_of_nil]. }
  wp_step. eapply wp_mono; [by apply replace_dep_spec|]. intros [] m1 R1.
  eapply wp_mono; [apply IH; by apply (alone_live m m1 back (rw_alone _ _ _ R1))|].
  intros [] m2 R2. eapply rewires_trans; [exact R1|]. eapply rewires_iff; [exact R2|].
  pose proof (rw_edges _ _ _ R1) as E1. cbv beta in E1. intros x j y. cbv beta. unfold renamed.
  destruct (decide (x = back)) as [->|Hx].
  2: { rewrite !decide_False by tauto. rewrite E1. by rewrite decide_False by tauto. }
  destruct (decide (j = k)) as [->|Hj].
  - rewrite (decide_True (P := back = back ∧ k ∈ k :: ds)) by (split; [done|left]).
    case_decide as Hc; rewrite !E1; repeat (rewrite decide_True by done); unfold renamed; [|done].
    intuition congruence.
  - assert (∀ y', edge m1 back j y' ↔ edge m back j y') as E1'.
    { intros y'. rewrite E1. by rewrite decide_False by tauto. }
    destruct (decide (j ∈ ds)).
    + rewrite !decide_True; [by rewrite !E1'|..]; (split; [done|]); [by right|done].
    + rewrite !decide_False; [by rewrite E1'|..]; rewrite ?elem_of_cons; tauto.
Qed.

(** ** The sets of [other], one after the other *)

Section loop.
Context (m0 : Manager P) (u other : UnitPtr).
Hypothesis Hne : u ≠ other.
Hypothesis Hok : edges_ok m0.
Hypothesis Hself : ∀ d, ¬ edge m0 other d other.
Hypothesis Hlive : is_Some (units m0 !! u) ∧ is_Some (units m0 !! other).

(** The units that know of the merge when the sets [D] are done. *)
Definition told (D : list UnitDependency) (x : UnitPtr) : Prop := Exists (λ d, edge m0 other d x) D.
#[local] Instance told_dec D x : Decision (told D x) := ltac:(unfold told, edge; apply _).

(** The edges when the sets [D] are done. *)
Definition midway (D : list UnitDependency) : Edges := λ x k y,
  if decide (x = other) then k ∉ D ∧ edge m0 other k y
  else ((edge m0 x k y ∨ (x = u ∧ k ∈ D ∧ edge m0 other k y)) ∧ ¬ (y = other ∧ told D x)) ∨
       (y = u ∧ told D x ∧ edge m0 x k other).

Lemma renamed_twice E y : renamed (renamed E u other) u other y ↔ renamed E u other y.
Proof. unfold renamed. intuition congruence. Qed.

Lemma renamed_iff (E E' : UnitPtr → Prop) y :
  (∀ z, E z ↔ E' z) → renamed E u other y ↔ renamed E' u other y.
Proof. intros HE. unfold renamed. by rewrite !HE. Qed.

(** The loop over the units that the set [d] holds. *)
Lemma tell_spec m L E :
  rewires m0 m E → (∀ x, x ∈ L → is_Some (units m0 !! x)) →
  wp (for_each L (λ back, for_each unit_dependencies (λ k, replace_dep back k other u))) m
    (λ _ m', rewires m0 m' (λ x k y, if decide (x ∈ L) then renamed (E x k) u other y else E x k y)).
Proof.
  intros R HL. eapply wp_mono; [apply (wp_for_each _ _ (λ l m', ∃ done, L = done ++ l ∧
    rewires m0 m' (λ x k y, if decide (x ∈ done) then renamed (E x k) u other y else E x k y)))|].
  - intros x l m1 (done & Ed & R1).
    assert (is_Some (units m1 !! x)) as Hx.
    { apply (alone_live m0 m1 x (rw_alone _ _ _ R1)), HL. rewrite Ed. set_solver. }
    eapply wp_mono; [by apply rename_all_spec|]. intros [] m2 R2. exists (done ++ [x]).
    split; [by rewrite <- app_assoc|]. eapply rewires_trans; [exact R1|]. eapply rewires_iff; [exact R2|].
    pose proof (rw_edges _ _ _ R1) as E1. cbv beta in E1. intros a k y. cbv beta.
    pose proof (elem_of_unit_dependencies k) as Hk. destruct (decide (a = x)) as [->|Ha].
    + rewrite decide_True by done. rewrite decide_True by set_solver.
      destruct (decide (x ∈ done)) as [Hd|Hd].
      * rewrite <- (renamed_twice (E x k)). apply renamed_iff. intros z. simpl. rewrite E1. by rewrite decide_True by done.
      * apply renamed_iff. intros z. simpl. rewrite E1. by rewrite decide_False by done.
    + rewrite decide_False by tauto. rewrite E1.
      destruct (decide (a ∈ done)); [rewrite !decide_True by set_solver|rewrite !decide_False by set_solver]; done.
  - exists []. split; [done|]. eapply rewires_iff; [exact R|]. intros. by rewrite decide_False by set_solver.
  - intros [] m1 (done & Ed & R1). rewrite app_nil_r in Ed. by subst done.
Qed.

Lemma midway_cons D d (L : list UnitPtr) :
  (∀ y, y ∈ L ↔ edge m0 other d y) → other ∉ L → ∀ x k y, ¬ (x = other ∧ k = d) →
  (if decide (x = u ∧ k = d)
   then (if decide (x ∈ L) then renamed (midway D x k) u other y else midway D x k y) ∨ y ∈ L
   else if decide (x ∈ L) then renamed (midway D x k) u other y else midway D x k y)
  ↔ midway (d :: D) x k y.
Proof.
  intros HL HoL x k y Hxk.
  assert (told (d :: D) x ↔ told D x ∨ x ∈ L) as Ht by (unfold told; rewrite Exists_cons, HL; tauto).
  pose proof (Hself k) as Hsk. pose proof (not_eq_sym Hne) as Hne'.
  unfold midway, renamed.
  destruct (decide (x = other)) as [->|Hx].
  { repeat case_decide; rewrite ?elem_of_cons; try done; intuition congruence. }
  destruct (decide (x ∈ L)) as [HxL|HxL], (decide (told D x)) as [HtD|HtD], (decide (x = u ∧ k = d)) as [[-> ->]|Hud];
    rewrite Ht, ?(HL y), elem_of_cons; (destruct (decide (y = other)) as [->|]; [|destruct (decide (y = u)) as [->|]]);
    clear HL Ht; tauto.
Qed.

Lemma merge_dependencies_spec m D d :
  rewires m0 m (midway D) → d ∉ D →
  wp (merge_dependencies u other d) m (λ _ m', rewires m0 m' (midway (d :: D))).
Proof.
  intros R Hd. unfold merge_dependencies. destruct Hlive as [Hlu Hlo].
  pose proof (proj2 (alone_live m0 m other (rw_alone _ _ _ R)) Hlo) as [O HO].
  wp_step. eapply wp_unit_at; [done|]. set (L := dependencies O d).
  assert (L = deps m other d) as EL by (unfold deps; by rewrite HO).
  assert (∀ y, y ∈ L ↔ edge m0 other d y) as HL.
  { intros y. rewrite EL. change (edge m other d y ↔ edge m0 other d y). rewrite (rw_edges _ _ _ R).
    unfold midway. rewrite decide_True by done. tauto. }
  assert (other ∉ L) as HoL by (rewrite HL; apply Hself).
  rewrite bool_decide_eq_false_2 by done. wp_step. simpl. wp_step. wp_step.
  eapply wp_mono; [apply (tell_spec m L _ R)|].
  { intros x Hx%HL. by apply (gk_live _ Hok other d). }
  intros [] m1 R1. wp_step.
  assert (NoDup L) as HndL by (rewrite EL; apply (rw_sets _ _ _ R), Hok).
  eapply wp_mono; [apply (update_deps_spec m1 u d _ (λ y, edge m1 u d y ∨ y ∈ L))|].
  { by apply (alone_live m0 m1 u (rw_alone _ _ _ R1)). }
  { intros Hnd. unfold set_moved. apply NoDup_app. split_and!; [done| |by apply NoDup_filter].
    intros y Hy [Hno _]%list_elem_of_filter. done. }
  { intros y. unfold set_moved. rewrite elem_of_app, list_elem_of_filter. unfold edge.
    destruct (decide (y ∈ deps m1 u d)); tauto. }
  intros [] m2 R2. assert (rewires m0 m2 (edge m2)) as R02.
  { eapply rewires_trans; [exact R1|]. eapply rewires_iff; [exact R2|]. intros. symmetry. apply (rw_edges _ _ _ R2). }
  eapply wp_mono; [apply (update_deps_spec m2 other d _ (λ _, False))|].
  { by apply (alone_live m0 m2 other (rw_alone _ _ _ R02)). }
  { intros _. constructor. }
  { intros y. by rewrite elem_of_nil. }
  intros [] m3 R3. eapply rewires_trans; [exact R02|]. eapply rewires_iff; [exact R3|].
  pose proof (rw_edges _ _ _ R1) as E1. pose proof (rw_edges _ _ _ R2) as E2. cbv beta in E1, E2.
  intros x k y. cbv beta. destruct (decide (x = other ∧ k = d)) as [[-> ->]|Hxk].
  { unfold midway. rewrite decide_True by done. rewrite elem_of_cons. tauto. }
  rewrite E2. rewrite <- (midway_cons D d L HL HoL x k y Hxk).
  destruct (decide (x = u ∧ k = d)) as [[-> ->]|]; by rewrite E1.
Qed.

(** What was [other] is [u] now. *)
Definition stand_in (x : UnitPtr) : UnitPtr := if decide (x = other) then u else x.
Definition contracted : Edges := λ x k y,
  ∃ x0 y0, edge m0 x0 k y0 ∧ x = stand_in x0 ∧ y = stand_in y0.

Lemma midway_all D : (∀ d, d ∈ D) → ∀ x k y, midway D x k y ↔ contracted x k y.
Proof.
  intros HD x k y.
  assert (∀ x, told D x ↔ ∃ d, edge m0 other d x) as Ht.
  { intros z. unfold told. rewrite Exists_exists. naive_solver. }
  assert (∀ z d, edge m0 z d other → told D z) as Hb.
  { intros z d Hz. apply Ht. by apply (gk_back _ Hok z d other). }
  unfold midway, contracted, stand_in. split.
  - destruct (decide (x = other)) as [->|Hx]; [intros [Hk _]; by destruct Hk|].
    intros [[[He|(-> & _ & He)] Hno]|(-> & _ & He)].
    + exists x, y. rewrite !decide_False; [done| |done]. intros ->. apply Hno. split; [done|]. by apply (Hb x k).
    + exists other, y. rewrite decide_True by done. rewrite decide_False; [done|]. intros ->. by apply (Hself k).
    + exists x, other. rewrite decide_False by done. by rewrite decide_True by done.
  - intros (x0 & y0 & He & -> & ->). destruct (decide (x0 = other)) as [->|Hx].
    + rewrite decide_False by done. left. destruct (decide (y0 = other)) as [->|Hy]; [by destruct (Hself k)|].
      split; [right; auto|]. by intros [-> _].
    + rewrite decide_False by done. destruct (decide (y0 = other)) as [->|Hy]; [right; split_and!; eauto|].
      left. split; [by left|]. by intros [-> _].
Qed.

Lemma merge_all_spec m :
  rewires m0 m (edge m0) →
  wp (for_each unit_dependencies (merge_dependencies u other)) m (λ _ m', rewires m0 m' contracted).
Proof.
  intros R. eapply wp_mono; [apply (wp_for_each _ _ (λ l m', ∃ D, rewires m0 m' (midway D) ∧
    NoDup l ∧ (∀ d, d ∈ l → d ∉ D) ∧ ∀ d, d ∈ D ∨ d ∈ l))|].
  - intros d l m1 (D & R1 & [Hd Hnd]%NoDup_cons & HD & Hall).
    eapply wp_mono; [apply (merge_dependencies_spec m1 D d R1); apply HD; left|].
    intros [] m2 R2. exists (d :: D). split_and!; [done|done| |].
    + intros d' Hd' [->|Hin]%elem_of_cons; [done|]. by apply (HD d'); [right|].
    + intros d'. destruct (Hall d') as [?|[->|?]%elem_of_cons]; [left; by right|left; left|by right].
  - exists []. split_and!; [|unfold unit_dependencies; by vm_compute; repeat constructor; set_solver|set_solver|].
    + eapply rewires_iff; [exact R|]. intros x k y. unfold midway, told.
      case_decide; subst; rewrite elem_of_nil, ?Exists_nil; tauto.
    + intros d. right. apply elem_of_unit_dependencies.
  - intros [] m1 (D & R1 & _ & _ & Hall). eapply rewires_iff; [exact R1|]. apply midway_all.
    intros d. destruct (Hall d) as [?|?%elem_of_nil]; done.
Qed.
End loop.

(** ** Names *)

Lemma rename_table_spec m u l :
  om_wf (unit_names m) → (∀ n, n ∈ l → is_Some (om_get (unit_names m) n)) →
  wp (for_each l (λ t, o ← manager_get_unit t; assert_ (present o);;
        modify (λ m, m <| unit_names ::= λ l, om_replace l t u |>))) m
    (λ _ m', ∃ nm, m' = m <| unit_names := nm |> ∧ om_wf nm ∧
      ∀ n, om_get nm n = if decide (n ∈ l) then Some u else om_get (unit_names m) n).
Proof.
  revert m. induction l as [|t l IH]; intros m Hw Hl; cbn [for_each].
  { wp_step. exists (unit_names m). split; [by destruct m|]. split; [done|]. intros n.
    by rewrite decide_False by apply not_elem_of_nil. }
  destruct (Hl t) as [v Hv]; [left|]. wp_step. wp_step. unfold manager_get_unit at 1. wp_step.
  rewrite Hv. cbn [present assert_]. wp_step. wp_step. wp_step.
  set (nm1 := om_replace (unit_names m) t u).
  match goal with |- wp _ ?s _ => change s with (m <| unit_names := nm1 |>) end.
  eapply wp_mono; [apply (IH (m <| unit_names := nm1 |>))|].
  - by apply om_wf_replace.
  - intros n Hn. simpl. unfold nm1. rewrite om_get_replace. case_decide; [eauto|]. apply Hl. by right.
  - intros [] m' (nm & -> & Hw' & Hg). exists nm. split; [done|]. split; [done|]. intros n. rewrite Hg.
    change (unit_names (m <| unit_names := nm1 |>)) with nm1. unfold nm1. rewrite om_get_replace. destruct (decide (n ∈ l)) as [Hn|Hn].
    + by rewrite decide_True by by right.
    + destruct (decide (t = n)) as [->|Ht]; [by rewrite decide_True by left|].
      rewrite decide_False; [done|]. by intros [->|?]%elem_of_cons.
Qed.

(** The units and the table after [merge_names]. *)
Record names_merged u other m m' : Prop := {
  nm_units : ∀ x, is_Some (units m' !! x) ↔ is_Some (units m !! x);
  nm_same : ∀ x X X', units m !! x = Some X → units m' !! x = Some X' →
    dependencies X' = dependencies X ∧ load_state X' = load_state X ∧ u_type X' = u_type X ∧
    ((x ≠ u ∧ x ≠ other) → alone X' = alone X);
  nm_names : ∀ x X' n, units m' !! x = Some X' → n ∈ names X' ↔ ∃ x0 X0, units m !! x0 = Some X0 ∧
    n ∈ names X0 ∧ x = stand_in u other x0;
  nm_table : om_wf (unit_names m') ∧ ∀ n x, (n, x) ∈ unit_names m' ↔
    ∃ x0, (n, x0) ∈ unit_names m ∧ x = stand_in u other x0 }.

Lemma merge_names_spec m u other U O :
  names_ok m → u ≠ other → units m !! u = Some U → units m !! other = Some O →
  wp (merge_names u other) m (λ _ m', names_merged u other m m').
Proof.
  intros Hn Hne HU HO. unfold merge_names. wp_step. eapply wp_unit_at; [done|].
  set (U1 := U <| names ::= λ l, set_moved l (names O) |>).
  set (O1 := O <| names := [] |> <| u_id := "" |>).
  wp_step. eapply wp_intro; [by apply (update_unit_eq u _ _ U)|]. fold U1. simpl.
  wp_step. eapply wp_intro; [apply (update_unit_eq other _ _ O); simpl; by rewrite lookup_insert_ne|]. fold O1.
  set (m1 := m <| units ::= <[u := U1]> |> <| units ::= <[other := O1]> |>).
  assert (units m1 !! u = Some U1) as HU1.
  { simpl. rewrite lookup_insert_ne by done. by rewrite lookup_insert_eq. }
  wp_step. eapply wp_unit_at; [exact HU1|].
  assert (∀ n, n ∈ names U1 ↔ n ∈ names U ∨ n ∈ names O) as Hn1.
  { intros n. unfold U1, set_moved. simpl. rewrite elem_of_app, list_elem_of_filter.
    destruct (decide (n ∈ names U)); tauto. }
  pose proof (gk_table _ Hn) as Hw.
  assert (∀ n, n ∈ names U1 ↔ ∃ x0, (x0 = u ∨ x0 = other) ∧ (n, x0) ∈ unit_names m) as Hn2.
  { intros n. rewrite Hn1. split.
    - intros [Hin|Hin]; [exists u|exists other]; (split; [auto|]); apply (gk_names _ Hn); eauto.
    - intros (x0 & [-> | ->] & (X0 & HX0 & Hin)%(gk_names _ Hn)); [left|right]; congruence. }
  eapply wp_mono; [apply rename_table_spec; [done|]|].
  { intros n (x0 & _ & Hin)%Hn2. simpl. apply (om_elem_get _ _ _ Hw) in Hin. eauto. }
  intros [] m2 (nm & -> & Hw2 & Hg). simpl in Hg.
  assert (∀ x, units m1 !! x = if decide (x = other) then Some O1 else if decide (x = u) then Some U1 else units m !! x) as El.
  { intros x. simpl. repeat case_decide; subst; rewrite ?lookup_insert_eq, ?lookup_insert_ne, ?lookup_insert_eq,
      ?lookup_insert_ne by done; done. }
  split; change (units (m1 <| unit_names := nm |>)) with (units m1); change (unit_names (m1 <| unit_names := nm |>)) with nm.
  - intros x. rewrite El. repeat case_decide; subst; rewrite ?HU, ?HO; (split; [eauto|done]).
  - intros x X X' HX. rewrite El. destruct (decide (x = other)) as [->|]; [|destruct (decide (x = u)) as [->|]];
      intros HX2; simplify_eq; split_and!; (done || tauto).
  - intros x X' n. rewrite El. intros HX'.
    destruct (decide (x = other)) as [->|Hxo]; [|destruct (decide (x = u)) as [->|Hxu]].
    + injection HX' as <-. simpl. split; [by intros ?%elem_of_nil|]. intros (x0 & _ & _ & _ & E).
      unfold stand_in in E. case_decide; congruence.
    + injection HX' as <-. rewrite Hn1. unfold stand_in. split.
      * intros [?|?]; [exists u, U; by rewrite decide_False|exists other, O; by rewrite decide_True].
      * intros (x0 & X0 & HX0 & Hin & E). case_decide as Hd; [right|left]; congruence.
    + unfold stand_in. split; [intros ?; exists x, X'; by rewrite decide_False|].
      intros (x0 & X0 & HX0 & Hin & E). case_decide; congruence.
  - split; [done|]. intros n x. rewrite <- (om_get_iff _ _ _ Hw2), Hg. unfold stand_in.
    case_decide as Hin.
    + apply Hn2 in Hin as (x0 & Hx0 & Hin). split.
      * intros [= <-]. exists x0. split; [done|]. case_decide; [done|]. by destruct Hx0.
      * intros (x1 & Hin1 & ->). apply (om_elem_get _ _ _ Hw) in Hin, Hin1.
        assert (x1 = x0) as -> by congruence. case_decide; [done|]. destruct Hx0; congruence.
    + rewrite (om_get_iff _ _ _ Hw). split.
      * intros Hx. exists x. split; [done|]. rewrite decide_False; [done|]. intros ->. apply Hin, Hn2. eauto.
      * intros (x0 & Hx0 & ->). rewrite decide_False; [done|]. intros ->. apply Hin, Hn2. eauto.
Qed.

(** ** Merging *)

(** The conditions that [unit_merge] checks. *)
Definition mergeable (U O : Unit P) : bool :=
  bool_decide (u_type U = u_type O) && Bool.eqb (present (u_instance U)) (present (u_instance O)) &&
  (bool_decide (load_state O = UNIT_STUB) || bool_decide (load_state O = UNIT_ERROR)) &&
  negb (present (u_job O)) && UNIT_IS_INACTIVE_OR_FAILED (vt_active_state O).

Lemma unit_add_to_cleanup_queue_spec m u U :
  units m !! u = Some U → wp (unit_add_to_cleanup_queue u) m (λ _ m', queued m m').
Proof.
  intros HU. unfold unit_add_to_cleanup_queue. wp_step. eapply wp_unit_at; [done|].
  destruct (in_cleanup_queue U); [by wp_step|]. wp_step. wp_step.
  eapply wp_intro; [by apply (update_unit_eq u _ _ U)|].
  etrans; [by apply (queued_update u (λ U, U <| in_cleanup_queue := true |>) m U)|]. by split.
Qed.

Lemma names_merged_edges u other m m1 :
  names_merged u other m m1 → ∀ x k, deps m1 x k = deps m x k.
Proof.
  intros [Hu Hs _ _] x k. unfold deps. destruct (units m1 !! x) as [X1|] eqn:H1, (units m !! x) as [X|] eqn:H2; simpl.
  - by destruct (Hs x X X1 H2 H1) as (-> & _).
  - exfalso. apply (is_Some_None (A := Unit P)). rewrite <- H2. apply Hu. by rewrite H1.
  - exfalso. apply (is_Some_None (A := Unit P)). rewrite <- H1. apply Hu. by rewrite H2.
  - done.
Qed.
Lemma names_merged_ok u other m m1 : names_merged u other m m1 → edges_ok m → edges_ok m1.
Proof.
  intros Hm [Hl Hb Hi Hs Hmg]. pose proof (names_merged_edges _ _ _ _ Hm) as Ed.
  assert (∀ x k y, edge m1 x k y ↔ edge m x k y) as E by (intros; unfold edge; by rewrite Ed). split.
  - intros x k y ?%E. apply (nm_units _ _ _ _ Hm). eauto.
  - intros x k y He%E. destruct (Hb x k y He) as [e ?]. exists e. by apply E.
  - intros x k e y ?%E ?. apply E. eauto.
  - intros. by rewrite Ed.
  - intros x X1 k HX1 Hl1. rewrite Ed. destruct (proj1 (nm_units _ _ _ _ Hm x) (mk_is_Some _ _ HX1)) as [X HX].
    destruct (nm_same _ _ _ _ Hm x X X1 HX HX1) as (_ & E1 & _). apply (Hmg x X); congruence.
Qed.

(** The contraction of a consistent graph is consistent. *)
Lemma contracted_ok m u other x k y :
  edges_ok m → is_Some (units m !! u) → contracted m u other x k y →
  is_Some (units m !! y) ∧ (∃ e, contracted m u other y e x) ∧
  ∀ e, inverse_table k = Some e → contracted m u other y e x.
Proof.
  intros Hg Hu (x0 & y0 & He & -> & ->). split_and!.
  - unfold stand_in. case_decide; [done|]. by eapply gk_live.
  - destruct (gk_back _ Hg x0 k y0 He) as [e ?]. by exists e, y0, x0.
  - intros e Hi. exists y0, x0. split; [by eapply gk_inverse|done].
Qed.
Lemma contracted_source m u other x k y : u ≠ other → contracted m u other x k y → x ≠ other.
Proof. intros Hne (x0 & y0 & _ & -> & _). unfold stand_in. case_decide; congruence. Qed.

(** What [unit_merge] makes of the graph. *)
Record merged u other m m' : Prop := {
  mg_ok : graph_ok m';
  mg_edges : ∀ x k y, edge m' x k y ↔ contracted m u other x k y;
  mg_names : ∀ n x, (n, x) ∈ unit_names m' ↔ ∃ x0, (n, x0) ∈ unit_names m ∧ x = stand_in u other x0;
  mg_shell : ∃ O', units m' !! other = Some O' ∧ load_state O' = UNIT_MERGED ∧ merged_into O' = Some u }.

Lemma merged_rewires u other m m1 m2 : merged u other m m1 → rewires m1 m2 (edge m1) → merged u other m m2.
Proof.
  intros [Hok He Hn (O' & HO & Hl & Hm)] R. split.
  - by apply (rewires_graph_ok m1).
  - intros x k y. by rewrite (rw_edges _ _ _ R), He.
  - intros n x. by rewrite (rw_names _ _ _ R), Hn.
  - destruct (proj2 (alone_live m1 m2 other (rw_alone _ _ _ R)) (mk_is_Some _ _ HO)) as [O2 HO2].
    destruct (alone_lookup m1 m2 other O2 (rw_alone _ _ _ R) HO2) as (O1 & HO1 & (El & _ & Em & _)%alone_fields).
    exists O2. split; [done|]. rewrite El, Em. simplify_eq. done.
Qed.

(** The graph of [m2] after the loop over the sets, with [other] marked. *)
Lemma merged_marked m m1 m2 u other U O2 :
  graph_ok m → u ≠ other → units m !! u = Some U → load_state U ≠ UNIT_MERGED →
  names_merged u other m m1 → rewires m1 m2 (contracted m1 u other) → units m2 !! other = Some O2 →
  merged u other m (m2 <| units ::= <[other := O2 <| load_state := UNIT_MERGED |> <| merged_into := Some u |>]> |>).
Proof.
  intros Hg Hne HU HUm Hnm R HO2. set (O3 := O2 <| load_state := UNIT_MERGED |> <| merged_into := Some u |>).
  set (m3 := m2 <| units ::= <[other := O3]> |>).
  assert (∀ x k, deps m3 x k = deps m2 x k) as Ed.
  { intros x k. unfold m3. rewrite (deps_update m2 other O2) by done. case_decide; [subst|done].
    unfold deps. by rewrite HO2. }
  pose proof (names_merged_edges _ _ _ _ Hnm) as Ed1.
  assert (∀ x k y, edge m3 x k y ↔ contracted m u other x k y) as E3.
  { intros x k y. unfold edge at 1. rewrite Ed. change (edge m2 x k y ↔ contracted m u other x k y).
    rewrite (rw_edges _ _ _ R). unfold contracted, edge. by setoid_rewrite Ed1. }
  assert (∀ x, is_Some (units m3 !! x) ↔ is_Some (units m !! x)) as L3.
  { intros x. rewrite <- (nm_units _ _ _ _ Hnm), <- (alone_live m1 m2 x (rw_alone _ _ _ R)). simpl.
    destruct (decide (x = other)) as [->|]; [rewrite lookup_insert_eq, HO2; split; eauto|by rewrite lookup_insert_ne]. }
  assert (∀ x X3, units m3 !! x = Some X3 → ∃ X1, units m1 !! x = Some X1 ∧ names X3 = names X1 ∧
    (x ≠ other → load_state X3 = load_state X1)) as A3.
  { intros x X3 HX3. simpl in HX3. destruct (decide (x = other)) as [->|Hx].
    - rewrite lookup_insert_eq in HX3. injection HX3 as <-.
      destruct (alone_lookup m1 m2 other O2 (rw_alone _ _ _ R) HO2) as (X1 & HX1 & (_ & En & _)%alone_fields).
      exists X1. by split_and!.
    - rewrite lookup_insert_ne in HX3 by done.
      destruct (alone_lookup m1 m2 x X3 (rw_alone _ _ _ R) HX3) as (X1 & HX1 & (El & En & _)%alone_fields).
      exists X1. by split_and!. }
  split; [|done| |].
  2: { intros n x. change (unit_names m3) with (unit_names m2). rewrite (rw_names _ _ _ R). apply Hnm. }
  2: { exists O3. split; [apply lookup_insert_eq|done]. }
  split; split.
  - intros x k y (Hl & _)%E3%contracted_ok; [by apply L3|apply Hg|eauto].
  - intros x k y (_ & (e & ?) & _)%E3%contracted_ok; [exists e; by apply E3|apply Hg|eauto].
  - intros x k e y He Hi. apply E3. by apply (contracted_ok m u other x k y); [apply Hg|eauto|apply E3|].
  - intros x k. rewrite Ed. apply (rw_sets _ _ _ R). intros. rewrite Ed1. apply Hg.
  - intros x X3 k HX3 Hl3. apply elem_of_nil_inv. intros y He%E3.
    pose proof (contracted_source _ _ _ _ _ _ Hne He) as Hx. destruct He as (x0 & y0 & He & -> & ->).
    destruct (A3 _ _ HX3) as (X1 & HX1 & _ & El). rewrite (El Hx) in Hl3.
    destruct (proj1 (nm_units _ _ _ _ Hnm _) (mk_is_Some _ _ HX1)) as [X HX].
    destruct (nm_same _ _ _ _ Hnm _ X X1 HX HX1) as (_ & El1 & _). rewrite El1 in Hl3.
    unfold stand_in in HX, Hx. destruct (decide (x0 = other)) as [->|]; [congruence|].
    by apply (not_merged_edge m x0 X k y0 Hg).
  - change (unit_names m3) with (unit_names m2). rewrite (rw_names _ _ _ R). apply Hnm.
  - intros n x. change (unit_names m3) with (unit_names m2). rewrite (rw_names _ _ _ R).
    rewrite (proj2 (nm_table _ _ _ _ Hnm)). split.
    + intros (x0 & (X0 & HX0 & Hin)%(gk_names _ Hg) & ->).
      assert (is_Some (units m3 !! stand_in u other x0)) as [X3 HX3].
      { apply L3. unfold stand_in. case_decide; eauto. }
      exists X3. split; [done|]. destruct (A3 _ _ HX3) as (X1 & HX1 & -> & _).
      apply (nm_names _ _ _ _ Hnm _ X1 n HX1). eauto.
    + intros (X3 & HX3 & Hin). destruct (A3 _ _ HX3) as (X1 & HX1 & En & _). rewrite En in Hin.
      apply (nm_names _ _ _ _ Hnm _ X1 n HX1) in Hin as (x0 & X0 & HX0 & Hin & ->).
      exists x0. split; [|done]. apply (gk_names _ Hg). eauto.
Qed.
(** Once [other] is marked: the end of [unit_merge]. *)
Lemma merge_end m m3 u other U3 :
  merged u other m m3 → units m3 !! u = Some U3 → u_type U3 ≠ None →
  wp (O ← unit_at other;
      when (bool_decide (load_state O ≠ UNIT_STUB)) (ut_done other);;
      unit_add_to_dbus_queue u;; unit_add_to_cleanup_queue other;; mret 0%Z) m3
    (λ r m', r = 0%Z ∧ merged u other m m').
Proof.
  intros Hm HU3 Ht. destruct (mg_shell _ _ _ _ Hm) as (O & HO & Hl & _).
  wp_step. eapply wp_unit_at; [done|]. rewrite bool_decide_eq_true_2 by (rewrite Hl; done). unfold when.
  wp_step. eapply wp_mono; [apply done_keeps; eauto|]. intros [] m4 [R4 _].
  pose proof (merged_rewires _ _ _ _ _ Hm R4) as Hm4.
  destruct (proj2 (alone_live m3 m4 u (rw_alone _ _ _ R4)) (mk_is_Some _ _ HU3)) as [U4 HU4].
  destruct (alone_lookup m3 m4 u U4 (rw_alone _ _ _ R4) HU4) as (V & HV & (_ & _ & _ & Et & _)%alone_fields).
  wp_step. eapply wp_mono; [apply (unit_add_to_dbus_queue_spec m4 u U4 HU4); congruence|]. intros [] m5 Hq5.
  pose proof (merged_rewires _ _ _ _ _ Hm4 (rewires_queued _ _ Hq5)) as Hm5.
  destruct (mg_shell _ _ _ _ Hm5) as (O5 & HO5 & _).
  wp_step. eapply wp_mono; [by apply (unit_add_to_cleanup_queue_spec m5 other O5)|]. intros [] m6 Hq6.
  wp_step. split; [done|]. by eapply merged_rewires; [|apply rewires_queued].
Qed.

Lemma contracted_no_loops m u other :
  no_loops m → (∀ d, ¬ edge m u d other) → (∀ d, ¬ edge m other d u) → ∀ x k, ¬ contracted m u other x k x.
Proof.
  intros Hn H1 H2 x k (x0 & y0 & He & -> & E). unfold stand_in in E.
  repeat case_decide; subst; try done; [by apply (Hn other k)|by apply (H2 k)|by apply (H1 k)|by apply (Hn y0 k)].
Qed.

(** C36. [unit_merge] in a consistent graph, where [other] stands for the unit
    [o]: nothing is to be done when [o] is [u]; when the two may not be merged the
    error leaves everything as it was; otherwise the result is the contracted graph,
    consistent again: every edge and every name of [o] is one of [u], and [o] is an
    empty shell that is marked as merged into [u].  Units that did not depend on
    each other do not come to depend on themselves. *)
Theorem unit_merge_correct m u other o U O :
  graph_ok m → no_loops m → stands_for m other o → units m !! u = Some U → units m !! o = Some O →
  u_type U ≠ None → load_state U ≠ UNIT_MERGED →
  wp (unit_merge u other) m (λ r m',
    if decide (o = u) then r = 0%Z ∧ m' = m
    else if mergeable U O then r = 0%Z ∧ merged u o m m' ∧ ((∀ d, ¬ edge m u d o) → no_loops m')
    else (r < 0)%Z ∧ m' = m).
Proof.
  intros Hg Hn Ho HU HO Ht Hl. pose proof (follow_merge_end _ _ _ _ Ho) as (O' & HO' & HOl). simplify_eq.
  unfold unit_merge. wp_step. eapply wp_unit_at; [done|].
  assert (present (u_type U) = true) as -> by (by destruct (u_type U)). wp_step. simpl. wp_step. wp_step.
  eapply wp_follow_merge; [exact Ho|]. destruct (decide (o = u)) as [->|Hne]; [by wp_step|].
  wp_step. eapply wp_unit_at; [done|]. unfold mergeable.
  destruct (bool_decide_reflect (u_type U = u_type O)) as [Et|Et];
    [rewrite bool_decide_eq_false_2 by (intros He; by apply He)|rewrite bool_decide_eq_true_2 by done; by wp_step].
  destruct (Bool.eqb _ _); simpl; [|by wp_step].
  assert (bool_decide (load_state O ≠ UNIT_STUB) && bool_decide (load_state O ≠ UNIT_ERROR) =
    negb (bool_decide (load_state O = UNIT_STUB) || bool_decide (load_state O = UNIT_ERROR))) as ->
    by (by destruct (load_state O)).
  destruct (bool_decide (load_state O = UNIT_STUB) || bool_decide (load_state O = UNIT_ERROR)); simpl; [|by wp_step].
  destruct (present (u_job O)); simpl; [by wp_step|].
  assert (active_state_in (units m) o = Some (vt_active_state O)) as Ha.
  { unfold active_state_in. cbn [follow_merge]. rewrite HO. simpl.
    rewrite bool_decide_eq_false_2 by done. simpl. by rewrite HO. }
  wp_step. eapply wp_intro; [unfold unit_active_state; by rewrite Ha|].
  destruct (UNIT_IS_INACTIVE_OR_FAILED (vt_active_state O)); simpl; [|by wp_step].
  wp_step. eapply wp_mono; [by apply (merge_names_spec m u o U O (gk_names_ok _ Hg)); [apply not_eq_sym| |]|]. intros [] m1 Hnm.
  pose proof (names_merged_ok _ _ _ _ Hnm (gk_edges _ Hg)) as He1.
  pose proof (names_merged_edges _ _ _ _ Hnm) as Ed1.
  wp_step. eapply wp_mono; [apply (merge_all_spec m1 u o)|].
  { by apply not_eq_sym. } { done. }
  { intros d. unfold edge. rewrite Ed1. apply Hn. }
  { split; apply (nm_units _ _ _ _ Hnm); eauto. }
  { apply rewires_refl. }
  intros [] m2 R2.
  assert (is_Some (units m2 !! o)) as [O2 HO2] by (apply (alone_live m1 m2 o (rw_alone _ _ _ R2)), (nm_units _ _ _ _ Hnm); eauto).
  pose proof (merged_marked m m1 m2 u o U O2 Hg (not_eq_sym Hne) HU Hl Hnm R2 HO2) as Hm3.
  wp_step. eapply wp_intro; [by apply (update_unit_eq o _ _ O2)|]. simpl.
  assert (is_Some (units m2 !! u)) as [U2 HU2] by (apply (alone_live m1 m2 u (rw_alone _ _ _ R2)), (nm_units _ _ _ _ Hnm); eauto).
  eapply wp_mono; [apply (merge_end m _ u o U2 Hm3)|].
  - simpl. by rewrite lookup_insert_ne by done.
  - destruct (alone_lookup m1 m2 u U2 (rw_alone _ _ _ R2) HU2) as (U1 & HU1 & (_ & _ & _ & -> & _)%alone_fields).
    by destruct (nm_same _ _ _ _ Hnm u U U1 HU HU1) as (_ & _ & -> & _).
  - intros r m' [-> Hm']. split_and!; [done|done|]. intros Huo x k He%(mg_edges _ _ _ _ Hm').
    revert He. apply contracted_no_loops; [done|done|]. intros d Hd.
    destruct (gk_back _ Hg _ _ _ Hd) as [e He]. by apply (Huo e).
Qed.
End merge.

(** ** Examples *)
Module MergeDemo.
Import Demo GraphDemo.

Lemma unit_merge_correct_witness :
  ∃ r m', unit_merge 3 2 m_graph = Ret r m' ∧ r = 0%Z ∧ merged 3 2 m_graph m' ∧ no_loops m'.
Proof.
  destruct (wp_elim _ _ _ (unit_merge_correct m_graph 3 2 2 _ _ (proj1 m_graph_ok) (proj2 m_graph_ok)
    ltac:(vm_compute; reflexivity) ltac:(vm_compute; reflexivity) ltac:(vm_compute; reflexivity)
    ltac:(vm_compute; discriminate) ltac:(vm_compute; discriminate)))
    as (r & m' & E & Hr & Hm & Hn).
  exists r, m'. split; [exact E|]. split; [exact Hr|]. split; [exact Hm|]. apply Hn.
  intros []; apply (bool_decide_eq_true_1 (2 ∉ _)); vm_compute; reflexivity.
Defined.

(** "a" is ordered after "b", and then the two turn out to be one: "a" is ordered
    after itself.  When "a" goes, its set of wanted units is freed, and
    then looked at again for the sake of that dependency. *)
Theorem merged_unit_free_faults :
  (graph_ok m_graph ∧ no_loops m_graph) ∧
  match unit_merge 1 2 m_graph with
  | Ret r m' => r = 0%Z ∧ deps m' 1 UNIT_WANTS = [3] ∧ deps m' 1 UNIT_AFTER = [1] ∧ unit_free 1 m' = Fault
  | _ => False
  end.
Proof. split; [apply m_graph_ok|]. vm_compute. repeat split. Qed.
End MergeDemo.
