(* ===== verification/World.v ===== *)
(** * What the program asks of the system

    A system call is a question with an answer: a number, negative for an
    error, and possibly a text.  [World] holds the answers; [asked] counts the
    questions, so that the same question may get another answer later.  The
    theorems hold for every [World], that is for every behaviour of the system.
    Watching processes ([unit_watch_pid], src/unit.c) is here too. *)

From stdpp Require Import base gmap strings list.
From Stdlib Require Import ZArith Lia.
From S2P Require Import Prelude CString JobType OrderedMap Engine.

(** A command line of a unit file ([ExecCommand] of src/execute.h). *)
Record ExecCommand := mkExecCommand { ec_path : string; ec_argv : list string; ec_ignore : bool }.

Inductive Question :=
  | QTimer (u : UnitPtr) (delay : Z)                 (** [timerfd_settime] and [epoll_ctl] *)
  | QSpawn (u : UnitPtr) (c : ExecCommand) (fds apply_permissions apply_chroot apply_tty_stdin notify : bool)
      (main_pid : Z)                                 (** [exec_spawn], src/execute.c: the new process *)
  | QFds (u : UnitPtr)                               (** the descriptors of the unit's sockets *)
  | QOwnPid                                          (** [getpid] *)
  | QAlien (pid : Z)                                 (** 1 when the parent of [pid] is another process *)
  | QKill (pid sig : Z)                              (** [kill] *)
  | QCgroupEmpty (u : UnitPtr)                       (** [cgroup_bonding_is_empty_list] *)
  | QCgroupKill (u : UnitPtr) (sig : Z) (pids : list Z) (** [cgroup_bonding_kill_list] *)
  | QCgroupMainPid (u : UnitPtr)                     (** [cgroup_bonding_search_main_pid_list] *)
  | QLine (path : string)                            (** [read_one_line_file] *)
  | QDup (fd : Z).                                   (** [fcntl] with F_DUPFD_CLOEXEC *)

Class World := answer : nat → Question → Z * string.
(** [fork] returns a process id, to the parent a positive one. *)
Class WorldLaws `{World} : Prop :=
  spawn_pid : ∀ n u c f ap ac tty no p, (answer n (QSpawn u c f ap ac tty no p)).1 ≠ 0%Z.

Section world.
Context {P : Type} `{World}.
Abbreviation MM := (M (Manager P)).

Definition ask_text (q : Question) : MM (Z * string) :=
  n ← gets asked;
  modify (λ m, m <| asked ::= S |>);;
  mret (answer n q).
Definition ask (q : Question) : MM Z := r ← ask_text q; mret r.1.

Definition unit_watch_pid (u : UnitPtr) (pid : Z) : MM Z :=
  assert_ (bool_decide (1 ≤ pid)%Z);;
  l ← gets watch_pids;
  match om_get l pid with
  | Some v => mret (if decide (v = u) then 0 else - EEXIST)%Z
  | None =>
      ok ← alloc;
      if negb ok then mret (- ENOMEM)%Z else
      modify (λ m, m <| watch_pids ::= λ l, l ++ [(pid, u)] |>);; mret 1%Z
  end.
Definition unit_unwatch_pid (u : UnitPtr) (pid : Z) : MM unit :=
  assert_ (bool_decide (1 ≤ pid)%Z);;
  modify (λ m, m <| watch_pids ::= λ l, if decide (om_get l pid = Some u) then om_remove l pid else l |>).
End world.
