(* ===== verification/Service.v ===== *)
(** * Services (src/service.c)

    The state machine of a service: what is started, stopped and reloaded
    how, and what follows when a process exits, a timer elapses, a control group
    runs empty, a name appears on the bus, or the service sends a message.
    A service is the private part of its unit ([PrivateOf]); what it tells
    the manager is the class [ServiceEngine]; what it asks of the system goes
    through World.v.  SysV init scripts, the sockets of a service, and the exit
    status of the single commands are left out. *)

From stdpp Require Import base gmap strings list fin_maps.
From Stdlib Require Import ZArith Lia.
From S2P Require Import Prelude CString JobType OrderedMap Strv RateLimit Engine World.

Inductive ServiceState :=
  | SERVICE_DEAD | SERVICE_START_PRE | SERVICE_START | SERVICE_START_POST | SERVICE_RUNNING
  | SERVICE_EXITED | SERVICE_RELOAD | SERVICE_STOP | SERVICE_STOP_SIGTERM | SERVICE_STOP_SIGKILL
  | SERVICE_STOP_POST | SERVICE_FINAL_SIGTERM | SERVICE_FINAL_SIGKILL | SERVICE_FAILED
  | SERVICE_AUTO_RESTART.
Inductive ServiceRestart :=
  | SERVICE_RESTART_NO | SERVICE_RESTART_ON_SUCCESS | SERVICE_RESTART_ON_FAILURE
  | SERVICE_RESTART_ON_ABORT | SERVICE_RESTART_ALWAYS.
Inductive ServiceType := SERVICE_SIMPLE | SERVICE_FORKING | SERVICE_ONESHOT | SERVICE_DBUS | SERVICE_NOTIFY.
Inductive ServiceExecCommand :=
  | SERVICE_EXEC_START_PRE | SERVICE_EXEC_START | SERVICE_EXEC_START_POST | SERVICE_EXEC_RELOAD
  | SERVICE_EXEC_STOP | SERVICE_EXEC_STOP_POST.
Inductive NotifyAccess := NOTIFY_NONE | NOTIFY_ALL | NOTIFY_MAIN.
Inductive KillMode := KILL_CONTROL_GROUP | KILL_PROCESS | KILL_NONE.
Inductive KillWho := KILL_MAIN | KILL_CONTROL | KILL_ALL.

#[export] Instance ServiceState_eq_dec : EqDecision ServiceState. Proof. solve_decision. Defined.
#[export] Instance ServiceRestart_eq_dec : EqDecision ServiceRestart. Proof. solve_decision. Defined.
#[export] Instance ServiceType_eq_dec : EqDecision ServiceType. Proof. solve_decision. Defined.
#[export] Instance ServiceExecCommand_eq_dec : EqDecision ServiceExecCommand. Proof. solve_decision. Defined.
#[export] Instance NotifyAccess_eq_dec : EqDecision NotifyAccess. Proof. solve_decision. Defined.
#[export] Instance KillMode_eq_dec : EqDecision KillMode. Proof. solve_decision. Defined.
#[export] Instance KillWho_eq_dec : EqDecision KillWho. Proof. solve_decision. Defined.

Record ExecStatus := mkExecStatus { es_pid : Z; es_start : DualTimestamp; es_exit : DualTimestamp; es_code : Z; es_status : Z }.
#[export] Instance ExecStatus_rebuild : Rebuild ExecStatus := λ e,
  mkExecStatus (es_pid e) (es_start e) (es_exit e) (es_code e) (es_status e).
Definition no_status : ExecStatus := mkExecStatus 0 no_timestamp no_timestamp 0 0.

(** A chain of commands is a list, [command_next] its tail, NULL the empty
    list.  [timer_watch] is the delay that the timer was armed with.  Of the
    [ExecContext] there are the fields that the state machine looks at. *)
Record Service := mkService {
  s_type : ServiceType;
  s_restart : ServiceRestart;
  pid_file : option string;
  restart_usec : Z;
  timeout_usec : Z;
  exec_command : ServiceExecCommand → list ExecCommand;
  socket_stdio : bool;
  kill_mode : KillMode;
  kill_signal : Z;
  send_sigkill : bool;
  pam_name : option string;
  s_state : ServiceState;
  deserialized_state : ServiceState;
  main_exec_status : ExecStatus;
  control_command : list ExecCommand;
  main_command : list ExecCommand;
  control_command_id : option ServiceExecCommand;
  main_pid : Z;
  control_pid : Z;
  socket_fd : Z;
  permissions_start_only : bool;
  root_directory_start_only : bool;
  remain_after_exit : bool;
  guess_main_pid : bool;
  failure : bool;
  reload_failure : bool;
  main_pid_known : bool;
  main_pid_alien : bool;
  bus_name_good : bool;
  forbid_restart : bool;
  got_socket_fd : bool;
  sysv_path : option string;
  bus_name : option string;
  status_text : option string;
  s_ratelimit : RateLimit;
  accept_socket : option UnitPtr;
  s_timer_watch : option Z;
  notify_access : NotifyAccess }.

#[export] Instance Service_rebuild : Rebuild Service := λ s,
  mkService (s_type s) (s_restart s) (pid_file s) (restart_usec s) (timeout_usec s) (exec_command s)
    (socket_stdio s) (kill_mode s) (kill_signal s) (send_sigkill s) (pam_name s) (s_state s)
    (deserialized_state s) (main_exec_status s) (control_command s) (main_command s)
    (control_command_id s) (main_pid s) (control_pid s) (socket_fd s) (permissions_start_only s)
    (root_directory_start_only s) (remain_after_exit s) (guess_main_pid s) (failure s)
    (reload_failure s) (main_pid_known s) (main_pid_alien s) (bus_name_good s) (forbid_restart s)
    (got_socket_fd s) (sysv_path s) (bus_name s) (status_text s) (s_ratelimit s) (accept_socket s)
    (s_timer_watch s) (notify_access s).

Definition state_translation_table (s : ServiceState) : UnitActiveState :=
  match s with
  | SERVICE_DEAD => UNIT_INACTIVE
  | SERVICE_START_PRE | SERVICE_START | SERVICE_START_POST => UNIT_ACTIVATING
  | SERVICE_RUNNING | SERVICE_EXITED => UNIT_ACTIVE
  | SERVICE_RELOAD => UNIT_RELOADING
  | SERVICE_STOP | SERVICE_STOP_SIGTERM | SERVICE_STOP_SIGKILL | SERVICE_STOP_POST
  | SERVICE_FINAL_SIGTERM | SERVICE_FINAL_SIGKILL => UNIT_DEACTIVATING
  | SERVICE_FAILED => UNIT_FAILED
  | SERVICE_AUTO_RESTART => UNIT_ACTIVATING
  end.

Definition SIGHUP : Z := 1.
Definition SIGINT : Z := 2.
Definition SIGKILL : Z := 9.
Definition SIGPIPE : Z := 13.
Definition SIGTERM : Z := 15.
Definition SIGCONT : Z := 18.
Definition CLD_EXITED : Z := 1.
Definition CLD_KILLED : Z := 2.
Definition CLD_DUMPED : Z := 3.

(** src/exit-status.c *)
Definition is_clean_exit (code status : Z) : bool :=
  if bool_decide (code = CLD_EXITED) then bool_decide (status = 0%Z)
  else if bool_decide (code = CLD_KILLED) then
    bool_decide (status = SIGHUP) || bool_decide (status = SIGINT) || bool_decide (status = SIGTERM) ||
    bool_decide (status = SIGPIPE)
  else false.
Definition is_clean_exit_lsb (code status : Z) : bool :=
  if is_clean_exit code status then true
  else bool_decide (code = CLD_EXITED) && (bool_decide (status = 5%Z) || bool_decide (status = 6%Z)).

(** The private part of a unit may be an [A]. *)
Class PrivateOf (P A : Type) := {
  get_private : P → option A;
  put_private : A → P;
  get_put_private a : get_private (put_private a) = Some a;
  put_get_private p a : get_private p = Some a → put_private a = p }.

(** [unit_notify], [manager_add_job] with JOB_START and JOB_FAIL, [socket_connection_unref], and
    [service_notify_sockets_dead]. *)
Class ServiceEngine (P : Type) := {
  se_notify : UnitPtr → UnitActiveState → UnitActiveState → bool → M (Manager P) unit;
  se_add_start_job : UnitPtr → M (Manager P) Z;
  se_connection_unref : UnitPtr → M (Manager P) unit;
  se_sockets_dead : UnitPtr → M (Manager P) unit;
  se_query_pid : UnitPtr → M (Manager P) unit }.

Section service.
Context {P : Type} `{PrivateOf P Service, ServiceEngine P, World}.
Abbreviation MM := (M (Manager P)).

Definition service_at (u : UnitPtr) : MM Service := U ← unit_at u; deref (get_private (priv U)).
Definition update_service (u : UnitPtr) (f : Service → Service) : MM unit :=
  s ← service_at u;
  update_unit u (λ U, U <| priv := put_private (f s) |>).

(** ** Timers and processes *)

Definition unit_watch_timer (u : UnitPtr) (delay : Z) : MM Z :=
  r ← ask (QTimer u delay);
  if bool_decide (r < 0)%Z then mret r else
  update_service u (λ s, s <| s_timer_watch := Some delay |>);; mret 0%Z.
Definition unit_unwatch_timer (u : UnitPtr) : MM unit :=
  update_service u (λ s, s <| s_timer_watch := None |>).

Definition exec_status_start (pid : Z) (now : DualTimestamp) : ExecStatus := no_status <| es_pid := pid |> <| es_start := now |>.
(** [!s->start_timestamp.realtime <= 0] negates before it compares. *)
Definition exec_status_exit (e : ExecStatus) (pid code status : Z) (now : DualTimestamp) : ExecStatus :=
  let e := if (bool_decide (es_pid e ≠ 0%Z) && bool_decide (es_pid e ≠ pid)) ||
              bool_decide ((if bool_decide (realtime (es_start e) = 0%Z) then 1 else 0) ≤ 0)%Z
           then no_status else e in
  e <| es_pid := pid |> <| es_exit := now |> <| es_code := code |> <| es_status := status |>.

Definition service_unwatch_control_pid (u : UnitPtr) : MM unit :=
  s ← service_at u;
  if bool_decide (control_pid s ≤ 0)%Z then mret tt else
  unit_unwatch_pid u (control_pid s);;
  update_service u (λ s, s <| control_pid := 0%Z |>).
Definition service_unwatch_main_pid (u : UnitPtr) : MM unit :=
  s ← service_at u;
  if bool_decide (main_pid s ≤ 0)%Z then mret tt else
  unit_unwatch_pid u (main_pid s);;
  update_service u (λ s, s <| main_pid := 0%Z |>).

Definition service_set_main_pid (u : UnitPtr) (pid : Z) : MM Z :=
  if bool_decide (pid ≤ 1)%Z then mret (- EINVAL)%Z else
  own ← ask QOwnPid;
  if bool_decide (pid = own) then mret (- EINVAL)%Z else
  a ← ask (QAlien pid);
  t ← dual_timestamp_get;
  update_service u (λ s, s <| main_pid := pid |> <| main_pid_known := true |>
    <| main_pid_alien := bool_decide (0 < a)%Z |> <| main_exec_status := exec_status_start pid t |>);;
  mret 0%Z.

(** [kill(pid, 0)], where 0 stands for the own process group. *)
Definition kill_0 (pid : Z) : MM Z := if bool_decide (pid = 0%Z) then mret 0%Z else ask (QKill pid 0).

Definition service_load_pid_file (u : UnitPtr) : MM Z :=
  s ← service_at u;
  match pid_file s with
  | None => mret (- ENOENT)%Z
  | Some path =>
      l ← ask_text (QLine path);
      if bool_decide (l.1 < 0)%Z then mret l.1 else
      match parse_pid l.2 with
      | inl e => mret (- e)%Z
      | inr pid =>
          k ← kill_0 pid;
          if bool_decide (k < 0)%Z && bool_decide (k ≠ - EPERM)%Z then mret (- ESRCH)%Z else
          if main_pid_known s && bool_decide (pid = main_pid s) then mret 0%Z else
          when (main_pid_known s)
            (service_unwatch_main_pid u;; update_service u (λ s, s <| main_pid_known := false |>));;
          r ← service_set_main_pid u pid;
          if bool_decide (r < 0)%Z then mret r else
          r ← unit_watch_pid u pid;
          if bool_decide (r < 0)%Z then mret r else mret 0%Z
      end
  end.

Definition service_search_main_pid (u : UnitPtr) : MM Z :=
  s ← service_at u;
  if main_pid_known s then mret 0%Z else
  if negb (guess_main_pid s) then mret 0%Z else
  assert_ (bool_decide (main_pid s ≤ 0)%Z);;
  pid ← ask (QCgroupMainPid u);
  if bool_decide (pid ≤ 0)%Z then mret (- ENOENT)%Z else
  r ← service_set_main_pid u pid;
  if bool_decide (r < 0)%Z then mret r else
  r ← unit_watch_pid u pid;
  if bool_decide (r < 0)%Z then mret r else mret 0%Z.

Definition main_pid_good (u : UnitPtr) : MM Z :=
  s ← service_at u;
  if main_pid_known s then
    if main_pid_alien s then
      k ← kill_0 (main_pid s);
      mret (if bool_decide (0 ≤ k)%Z || bool_decide (k ≠ - ESRCH)%Z then 1 else 0)%Z
    else mret (if bool_decide (0 < main_pid s)%Z then 1 else 0)%Z
  else mret (- EAGAIN)%Z.
Definition control_pid_good (u : UnitPtr) : MM bool :=
  s ← service_at u; mret (bool_decide (0 < control_pid s)%Z).
Definition cgroup_good (u : UnitPtr) : MM Z :=
  r ← ask (QCgroupEmpty u);
  mret (if bool_decide (r < 0)%Z then r else if bool_decide (r = 0%Z) then 1 else 0)%Z.

(** ** A change of state *)

Definition has_control (st : ServiceState) : bool :=
  match st with
  | SERVICE_START_PRE | SERVICE_START | SERVICE_START_POST | SERVICE_RELOAD | SERVICE_STOP
  | SERVICE_STOP_SIGTERM | SERVICE_STOP_SIGKILL | SERVICE_STOP_POST | SERVICE_FINAL_SIGTERM
  | SERVICE_FINAL_SIGKILL => true
  | _ => false
  end.
Definition has_timer (st : ServiceState) : bool :=
  has_control st || bool_decide (st = SERVICE_AUTO_RESTART).
Definition has_main (st : ServiceState) : bool :=
  match st with
  | SERVICE_START | SERVICE_START_POST | SERVICE_RUNNING | SERVICE_RELOAD | SERVICE_STOP
  | SERVICE_STOP_SIGTERM | SERVICE_STOP_SIGKILL => true
  | _ => false
  end.
Definition tells_sockets (st : ServiceState) : bool :=
  match st with
  | SERVICE_DEAD | SERVICE_STOP | SERVICE_STOP_SIGTERM | SERVICE_STOP_SIGKILL | SERVICE_STOP_POST
  | SERVICE_FINAL_SIGTERM | SERVICE_FINAL_SIGKILL | SERVICE_FAILED | SERVICE_AUTO_RESTART => true
  | _ => false
  end.
Definition keeps_socket (st : ServiceState) : bool :=
  has_control st || bool_decide (st = SERVICE_RUNNING).

Definition service_close_socket_fd (u : UnitPtr) : MM unit :=
  update_service u (λ s, s <| socket_fd := (-1)%Z |>).
Definition service_connection_unref (u : UnitPtr) : MM unit :=
  s ← service_at u;
  match accept_socket s with
  | None => mret tt
  | Some sock => se_connection_unref sock;; update_service u (λ s, s <| accept_socket := None |>)
  end.

Definition service_set_state (u : UnitPtr) (state : ServiceState) : MM unit :=
  s ← service_at u;
  let old_state := s_state s in
  update_service u (λ s, s <| s_state := state |>);;
  when (negb (has_timer state)) (unit_unwatch_timer u);;
  when (negb (has_main state))
    (service_unwatch_main_pid u;; update_service u (λ s, s <| main_command := [] |>));;
  when (negb (has_control state))
    (service_unwatch_control_pid u;;
     update_service u (λ s, s <| control_command := [] |> <| control_command_id := None |>));;
  when (tells_sockets state)
    (s ← service_at u; when (bool_decide (socket_fd s < 0)%Z) (se_sockets_dead u));;
  U ← unit_at u;
  when (negb (keeps_socket state) && negb (bool_decide (state = SERVICE_DEAD) && bool_decide (u_job U ≠ None)))
    (service_close_socket_fd u;; service_connection_unref u);;
  s ← service_at u;
  se_notify u (state_translation_table old_state) (state_translation_table state) (negb (reload_failure s));;
  update_service u (λ s, s <| reload_failure := false |>).

(** ** Running commands *)

(** The steps that may fail. *)
Definition spawn_steps (u : UnitPtr) (c : ExecCommand) (timeout pass_fds apply_permissions apply_chroot
    apply_tty_stdin set_notify_socket : bool) : MM (Z + Z) :=
  s ← service_at u;
  r ← (if (pass_fds || socket_stdio s) && bool_decide (socket_fd s < 0)%Z then ask (QFds u) else mret 0%Z);
  if bool_decide (r < 0)%Z then mret (inl r) else
  r ← (if timeout && bool_decide (timeout_usec s ≠ 0%Z) then unit_watch_timer u (timeout_usec s)
       else unit_unwatch_timer u;; mret 0%Z);
  if bool_decide (r < 0)%Z then mret (inl r) else
  argv ← alloc;
  if negb argv then mret (inl (- ENOMEM)%Z) else
  our_env ← alloc;
  if negb our_env then mret (inl (- ENOMEM)%Z) else
  e ← (if set_notify_socket then alloc else mret true);
  if negb e then mret (inl (- ENOMEM)%Z) else
  e ← (if bool_decide (0 < main_pid s)%Z then alloc else mret true);
  if negb e then mret (inl (- ENOMEM)%Z) else
  final_env ← alloc;
  if negb final_env then mret (inl (- ENOMEM)%Z) else
  pid ← ask (QSpawn u c (pass_fds || socket_stdio s) apply_permissions apply_chroot apply_tty_stdin
               set_notify_socket (main_pid s));
  if bool_decide (pid < 0)%Z then mret (inl pid) else
  r ← unit_watch_pid u pid;
  if bool_decide (r < 0)%Z then mret (inl r) else
  mret (inr pid).
Definition service_spawn (u : UnitPtr) (c : ExecCommand) (timeout pass_fds apply_permissions apply_chroot
    apply_tty_stdin set_notify_socket : bool) : MM (Z + Z) :=
  r ← spawn_steps u c timeout pass_fds apply_permissions apply_chroot apply_tty_stdin set_notify_socket;
  match r with
  | inl _ => when timeout (unit_unwatch_timer u)
  | inr _ => mret tt
  end;;
  mret r.

(** A control process for the first of the commands [id], if there is one.
    The result says how it went, [None] that there is nothing to run. *)
Definition run_control (u : UnitPtr) (id : ServiceExecCommand) (tty : bool) : MM (option (Z + Z)) :=
  service_unwatch_control_pid u;;
  s ← service_at u;
  update_service u (λ s, s <| control_command := exec_command s id |>);;
  match exec_command s id with
  | [] => mret None
  | c :: _ =>
      update_service u (λ s, s <| control_command_id := Some id |>);;
      r ← service_spawn u c true false (negb (permissions_start_only s)) (negb (root_directory_start_only s))
            tty false;
      match r with
      | inl _ => mret tt
      | inr pid => update_service u (λ s, s <| control_pid := pid |>)
      end;;
      mret (Some r)
  end.

Definition fail_if (u : UnitPtr) (success : bool) : MM unit :=
  when (negb success) (update_service u (λ s, s <| failure := true |>)).

(** ** What follows what *)

(** Whether the configuration asks for a restart. *)
Definition wants_restart (s : Service) : bool :=
  bool_decide (s_restart s = SERVICE_RESTART_ALWAYS) ||
  (bool_decide (s_restart s = SERVICE_RESTART_ON_SUCCESS) && negb (failure s)) ||
  (bool_decide (s_restart s = SERVICE_RESTART_ON_FAILURE) && failure s) ||
  (bool_decide (s_restart s = SERVICE_RESTART_ON_ABORT) && failure s &&
   (bool_decide (es_code (main_exec_status s) = CLD_KILLED) ||
    bool_decide (es_code (main_exec_status s) = CLD_DUMPED))).

(** [service_enter_dead] with [allow_restart] false: how it ends after the
    timer could not be armed, too. *)
Definition enter_dead_now (u : UnitPtr) (success : bool) : MM unit :=
  fail_if u success;;
  s ← service_at u;
  service_set_state u (if failure s then SERVICE_FAILED else SERVICE_DEAD);;
  update_service u (λ s, s <| forbid_restart := false |>).
Definition service_enter_dead (u : UnitPtr) (success allow_restart : bool) : MM unit :=
  fail_if u success;;
  s ← service_at u;
  if allow_restart && negb (forbid_restart s) && wants_restart s then
    r ← unit_watch_timer u (restart_usec s);
    if bool_decide (r < 0)%Z then enter_dead_now u false else
    service_set_state u SERVICE_AUTO_RESTART;;
    update_service u (λ s, s <| forbid_restart := false |>)
  else enter_dead_now u true.

Definition is_sigterm (st : ServiceState) : bool :=
  bool_decide (st = SERVICE_STOP_SIGTERM) || bool_decide (st = SERVICE_FINAL_SIGTERM).
Definition is_stop_signal (st : ServiceState) : bool :=
  bool_decide (st = SERVICE_STOP_SIGTERM) || bool_decide (st = SERVICE_STOP_SIGKILL).

Definition kill_and_sigcont (pid sig : Z) : MM Z :=
  r ← ask (QKill pid sig);
  when (bool_decide (0 ≤ r)%Z) (_ ← ask (QKill pid SIGCONT); mret tt);;
  mret r.
(** Whether there is a process to wait for; no process with [pid] counts as
    one. *)
Definition kill_process (pid sig : Z) (wait ours : bool) : MM bool :=
  if bool_decide (pid ≤ 0)%Z then mret wait else
  r ← kill_and_sigcont pid sig;
  mret (if bool_decide (r < 0)%Z && bool_decide (r ≠ - ESRCH)%Z then wait else ours).
(** The processes of the control group but those that got their signal already. *)
Definition kill_group (u : UnitPtr) (sig : Z) (wait : bool) : MM (Z + bool) :=
  s ← service_at u;
  ok ← alloc;
  if negb ok then mret (inl (- ENOMEM)%Z) else
  ok ← (if bool_decide (0 < main_pid s)%Z then alloc else mret true);
  if negb ok then mret (inl (- ENOMEM)%Z) else
  ok ← (if bool_decide (0 < control_pid s)%Z && bool_decide (control_pid s ≠ main_pid s)
        then alloc else mret true);
  if negb ok then mret (inl (- ENOMEM)%Z) else
  r ← ask (QCgroupKill u sig (filter (λ p, (0 < p)%Z) [main_pid s; control_pid s]));
  mret (inr (if bool_decide (0 < r)%Z then true else wait)).

(** The processes are told to go; an error code, or whether to wait. *)
Definition send_signals (u : UnitPtr) (state : ServiceState) : MM (Z + bool) :=
  s ← service_at u;
  if bool_decide (kill_mode s = KILL_NONE) then mret (inr false) else
  let sig := if is_sigterm state then kill_signal s else SIGKILL in
  w ← kill_process (main_pid s) sig false (negb (main_pid_alien s));
  w ← kill_process (control_pid s) sig w true;
  if bool_decide (kill_mode s = KILL_CONTROL_GROUP) then kill_group u sig w else mret (inr w).

(** [service_enter_signal], where [next] is what comes when there is nothing
    to wait for. *)
Definition enter_signal_with (next : bool → MM unit) (u : UnitPtr) (state : ServiceState) (success : bool)
    : MM unit :=
  fail_if u success;;
  w ← send_signals u state;
  match w with
  | inl _ => next false
  | inr false => next true
  | inr true =>
      s ← service_at u;
      r ← (if bool_decide (0 < timeout_usec s)%Z then unit_watch_timer u (timeout_usec s) else mret 0%Z);
      if bool_decide (r < 0)%Z then next false else service_set_state u state
  end.
Definition enter_final_signal (u : UnitPtr) (state : ServiceState) (success : bool) : MM unit :=
  enter_signal_with (λ ok, service_enter_dead u ok true) u state success.

Definition service_enter_stop_post (u : UnitPtr) (success : bool) : MM unit :=
  fail_if u success;;
  r ← run_control u SERVICE_EXEC_STOP_POST true;
  match r with
  | None => enter_final_signal u SERVICE_FINAL_SIGTERM true
  | Some (inl _) => enter_final_signal u SERVICE_FINAL_SIGTERM false
  | Some (inr _) => service_set_state u SERVICE_STOP_POST
  end.

Definition service_enter_signal (u : UnitPtr) (state : ServiceState) (success : bool) : MM unit :=
  if is_stop_signal state then enter_signal_with (service_enter_stop_post u) u state success
  else enter_final_signal u state success.

Definition service_enter_stop (u : UnitPtr) (success : bool) : MM unit :=
  fail_if u success;;
  r ← run_control u SERVICE_EXEC_STOP false;
  match r with
  | None => service_enter_signal u SERVICE_STOP_SIGTERM true
  | Some (inl _) => service_enter_signal u SERVICE_STOP_SIGTERM false
  | Some (inr _) => service_set_state u SERVICE_STOP
  end.

Definition service_enter_running (u : UnitPtr) (success : bool) : MM unit :=
  fail_if u success;;
  main_pid_ok ← main_pid_good u;
  cgroup_ok ← cgroup_good u;
  s ← service_at u;
  if (bool_decide (0 < main_pid_ok)%Z || (bool_decide (main_pid_ok < 0)%Z && bool_decide (cgroup_ok ≠ 0%Z))) &&
     (bus_name_good s || bool_decide (s_type s ≠ SERVICE_DBUS))
  then service_set_state u SERVICE_RUNNING
  else if remain_after_exit s then service_set_state u SERVICE_EXITED
  else service_enter_stop u true.

Definition service_enter_start_post (u : UnitPtr) : MM unit :=
  r ← run_control u SERVICE_EXEC_START_POST false;
  match r with
  | None => service_enter_running u true
  | Some (inl _) => service_enter_stop u false
  | Some (inr _) => service_set_state u SERVICE_START_POST
  end.

(** What is run as the start command; a forking service's is a control process. *)
Definition prepare_start (u : UnitPtr) : MM (list ExecCommand) :=
  s ← service_at u;
  let l := exec_command s SERVICE_EXEC_START in
  assert_ (bool_decide (l ≠ []));;
  assert_ (bool_decide (tail l = []) || bool_decide (s_type s = SERVICE_ONESHOT));;
  (if bool_decide (s_type s = SERVICE_FORKING) then
    service_unwatch_control_pid u;;
    update_service u (λ s, s <| control_command_id := Some SERVICE_EXEC_START |> <| control_command := l |>
      <| main_command := [] |>)
  else
    service_unwatch_main_pid u;;
    update_service u (λ s, s <| control_command_id := None |> <| control_command := [] |>
      <| main_command := l |>));;
  mret l.
Definition service_enter_start (u : UnitPtr) : MM unit :=
  l ← prepare_start u;
  c ← deref (head l);
  s ← service_at u;
  r ← service_spawn u c
        (match s_type s with SERVICE_FORKING | SERVICE_DBUS | SERVICE_NOTIFY => true | _ => false end)
        true true true true (bool_decide (notify_access s ≠ NOTIFY_NONE));
  match r with
  | inl _ => service_enter_signal u SERVICE_FINAL_SIGTERM false
  | inr pid =>
      match s_type s with
      | SERVICE_SIMPLE => _ ← service_set_main_pid u pid; service_enter_start_post u
      | SERVICE_FORKING =>
          update_service u (λ s, s <| control_pid := pid |>);; service_set_state u SERVICE_START
      | _ => _ ← service_set_main_pid u pid; service_set_state u SERVICE_START
      end
  end.

Definition service_enter_start_pre (u : UnitPtr) : MM unit :=
  r ← run_control u SERVICE_EXEC_START_PRE true;
  match r with
  | None => service_enter_start u
  | Some (inl _) => service_enter_dead u false true
  | Some (inr _) => service_set_state u SERVICE_START_PRE
  end.

(** When there is a job, a timer is armed that [service_enter_dead] disarms
    again. *)
Definition service_enter_restart (u : UnitPtr) : MM unit :=
  U ← unit_at u;
  s ← service_at u;
  r ← (if bool_decide (u_job U ≠ None) then unit_watch_timer u (restart_usec s) else mret 0%Z);
  if bool_decide (r < 0)%Z then service_enter_dead u false false else
  service_enter_dead u true false;;
  r ← se_add_start_job u;
  if bool_decide (r < 0)%Z then service_enter_dead u false false else mret tt.

Definition service_enter_reload (u : UnitPtr) : MM unit :=
  r ← run_control u SERVICE_EXEC_RELOAD false;
  match r with
  | None => service_enter_running u true
  | Some (inl _) => update_service u (λ s, s <| reload_failure := true |>);; service_enter_running u true
  | Some (inr _) => service_set_state u SERVICE_RELOAD
  end.

(** When the next control command cannot be run. *)
Definition next_control_failed (u : UnitPtr) : MM unit :=
  s ← service_at u;
  match s_state s with
  | SERVICE_START_PRE => service_enter_signal u SERVICE_FINAL_SIGTERM false
  | SERVICE_STOP => service_enter_signal u SERVICE_STOP_SIGTERM false
  | SERVICE_STOP_POST => service_enter_dead u false true
  | SERVICE_RELOAD => update_service u (λ s, s <| reload_failure := true |>);; service_enter_running u true
  | _ => service_enter_stop u false
  end.
Definition service_run_next_control (u : UnitPtr) (success : bool) : MM unit :=
  s ← service_at u;
  c ← deref (head (tail (control_command s)));
  fail_if u success;;
  assert_ (bool_decide (control_command_id s ≠ Some SERVICE_EXEC_START));;
  update_service u (λ s, s <| control_command ::= tail |>);;
  service_unwatch_control_pid u;;
  r ← service_spawn u c true false (negb (permissions_start_only s)) (negb (root_directory_start_only s))
        (bool_decide (control_command_id s = Some SERVICE_EXEC_START_PRE) ||
         bool_decide (control_command_id s = Some SERVICE_EXEC_STOP_POST)) false;
  match r with
  | inl _ => next_control_failed u
  | inr pid => update_service u (λ s, s <| control_pid := pid |>)
  end.
Definition service_run_next_main (u : UnitPtr) (success : bool) : MM unit :=
  s ← service_at u;
  c ← deref (head (tail (main_command s)));
  assert_ (bool_decide (s_type s = SERVICE_ONESHOT));;
  fail_if u success;;
  update_service u (λ s, s <| main_command ::= tail |>);;
  service_unwatch_main_pid u;;
  r ← service_spawn u c false true true true true (bool_decide (notify_access s ≠ NOTIFY_NONE));
  match r with
  | inl _ => service_enter_stop u false
  | inr pid => _ ← service_set_main_pid u pid; mret tt
  end.

(** ** What the manager calls *)

Definition is_stopping (st : ServiceState) : bool :=
  match st with
  | SERVICE_STOP | SERVICE_STOP_SIGTERM | SERVICE_STOP_SIGKILL | SERVICE_STOP_POST
  | SERVICE_FINAL_SIGTERM | SERVICE_FINAL_SIGKILL => true
  | _ => false
  end.
Definition is_starting (st : ServiceState) : bool :=
  match st with SERVICE_START_PRE | SERVICE_START | SERVICE_START_POST => true | _ => false end.

Definition service_start (u : UnitPtr) : MM Z :=
  s ← service_at u;
  if is_stopping (s_state s) then mret (- EAGAIN)%Z
  else if is_starting (s_state s) then mret 0%Z else
  assert_ (match s_state s with SERVICE_DEAD | SERVICE_FAILED | SERVICE_AUTO_RESTART => true | _ => false end);;
  t ← now;
  let '(ok, rl) := ratelimit_test t (s_ratelimit s) in
  update_service u (λ s, s <| s_ratelimit := rl |>);;
  if negb ok then mret (- ECANCELED)%Z else
  update_service u (λ s, s <| failure := false |> <| main_pid_known := false |> <| main_pid_alien := false |>
    <| forbid_restart := false |>);;
  service_enter_start_pre u;;
  mret 0%Z.

Definition service_stop (u : UnitPtr) : MM Z :=
  update_service u (λ s, s <| forbid_restart := true |>);;
  s ← service_at u;
  if is_stopping (s_state s) then mret 0%Z else
  match s_state s with
  | SERVICE_AUTO_RESTART => service_set_state u SERVICE_DEAD;; mret 0%Z
  | SERVICE_START_PRE | SERVICE_START | SERVICE_START_POST | SERVICE_RELOAD =>
      service_enter_signal u SERVICE_STOP_SIGTERM true;; mret 0%Z
  | SERVICE_RUNNING | SERVICE_EXITED => service_enter_stop u true;; mret 0%Z
  | _ => fault
  end.

Definition service_reload (u : UnitPtr) : MM Z :=
  s ← service_at u;
  assert_ (bool_decide (s_state s = SERVICE_RUNNING) || bool_decide (s_state s = SERVICE_EXITED));;
  service_enter_reload u;;
  mret 0%Z.

Definition service_can_reload (s : Service) : bool := bool_decide (exec_command s SERVICE_EXEC_RELOAD ≠ []).
Definition service_active_state (s : Service) : UnitActiveState := state_translation_table (s_state s).
Definition service_check_gc (u : UnitPtr) : MM bool :=
  c ← cgroup_good u;
  if bool_decide (0 < c)%Z then mret true else
  p ← main_pid_good u;
  if bool_decide (0 < p)%Z then mret true else
  g ← control_pid_good u;
  if g : bool then mret true else
  s ← service_at u;
  mret (bool_decide (sysv_path s ≠ None)).
Definition service_check_snapshot (s : Service) : bool := negb (got_socket_fd s).

Definition service_reset_failed (u : UnitPtr) : MM unit :=
  s ← service_at u;
  when (bool_decide (s_state s = SERVICE_FAILED)) (service_set_state u SERVICE_DEAD);;
  update_service u (λ s, s <| failure := false |>).

Definition service_verify (U : Unit P) (s : Service) : Z :=
  if bool_decide (load_state U ≠ UNIT_LOADED) then 0%Z
  else if bool_decide (exec_command s SERVICE_EXEC_START = []) then (- EINVAL)%Z
  else if bool_decide (s_type s ≠ SERVICE_ONESHOT) && bool_decide (tail (exec_command s SERVICE_EXEC_START) ≠ [])
  then (- EINVAL)%Z
  else if bool_decide (s_type s = SERVICE_ONESHOT) && bool_decide (exec_command s SERVICE_EXEC_RELOAD ≠ [])
  then (- EINVAL)%Z
  else if bool_decide (s_type s = SERVICE_DBUS) && bool_decide (bus_name s = None) then (- EINVAL)%Z
  else if bool_decide (pam_name s ≠ None) && bool_decide (kill_mode s ≠ KILL_CONTROL_GROUP) then (- EINVAL)%Z
  else 0%Z.

(** ** Events *)

(** The main process is gone, and no command follows. *)
Definition main_gone (u : UnitPtr) (success : bool) : MM unit :=
  s ← service_at u;
  match s_state s with
  | SERVICE_START_POST | SERVICE_RELOAD | SERVICE_STOP => mret tt
  | SERVICE_START =>
      if bool_decide (s_type s = SERVICE_ONESHOT) then
        if success then service_enter_start_post u else service_enter_signal u SERVICE_FINAL_SIGTERM false
      else
        assert_ (bool_decide (s_type s = SERVICE_DBUS) || bool_decide (s_type s = SERVICE_NOTIFY));;
        service_enter_running u success
  | SERVICE_RUNNING => service_enter_running u success
  | SERVICE_STOP_SIGTERM | SERVICE_STOP_SIGKILL =>
      g ← control_pid_good u;
      when (negb g) (service_enter_stop_post u success)
  | _ => fault
  end.

Definition learn_main_pid (u : UnitPtr) : MM unit :=
  _ ← service_load_pid_file u; _ ← service_search_main_pid u; mret tt.
(** The control process is gone, and no command follows. *)
Definition control_gone (u : UnitPtr) (success : bool) : MM unit :=
  s ← service_at u;
  match s_state s with
  | SERVICE_START_PRE =>
      if success then service_enter_start u else service_enter_signal u SERVICE_FINAL_SIGTERM false
  | SERVICE_START =>
      assert_ (bool_decide (s_type s = SERVICE_FORKING));;
      if success then learn_main_pid u;; service_enter_start_post u
      else service_enter_signal u SERVICE_FINAL_SIGTERM false
  | SERVICE_START_POST | SERVICE_RELOAD =>
      when success (learn_main_pid u);;
      update_service u (λ s, s <| reload_failure := negb success |>);;
      service_enter_running u true
  | SERVICE_STOP => service_enter_signal u SERVICE_STOP_SIGTERM success
  | SERVICE_STOP_SIGTERM | SERVICE_STOP_SIGKILL =>
      g ← main_pid_good u;
      when (bool_decide (g ≤ 0)%Z) (service_enter_stop_post u success)
  | SERVICE_STOP_POST | SERVICE_FINAL_SIGTERM | SERVICE_FINAL_SIGKILL => service_enter_dead u success true
  | _ => fault
  end.

(** A command whose failure is to be ignored succeeds. *)
Definition forgive (l : list ExecCommand) (success : bool) : bool :=
  match l with c :: _ => success || ec_ignore c | [] => success end.

Definition main_exited (u : UnitPtr) (pid code status : Z) (success : bool) : MM unit :=
  t ← dual_timestamp_get;
  update_service u (λ s, s <| main_pid := 0%Z |>
    <| main_exec_status ::= λ e, exec_status_exit e pid code status t |>);;
  s ← service_at u;
  let success := forgive (main_command s) success in
  fail_if u success;;
  if bool_decide (tail (main_command s) ≠ []) && success then service_run_next_main u success
  else update_service u (λ s, s <| main_command := [] |>);; main_gone u success.
Definition control_exited (u : UnitPtr) (success : bool) : MM unit :=
  update_service u (λ s, s <| control_pid := 0%Z |>);;
  s ← service_at u;
  let success := forgive (control_command s) success in
  fail_if u success;;
  if bool_decide (tail (control_command s) ≠ []) && success then service_run_next_control u success
  else
    update_service u (λ s, s <| control_command := [] |> <| control_command_id := None |>);;
    control_gone u success.

Definition service_sigchld_event (u : UnitPtr) (pid code status : Z) : MM unit :=
  assert_ (bool_decide (0 ≤ pid)%Z);;
  U ← unit_at u;
  s ← service_at u;
  let success := match fragment_path U with
                 | None => is_clean_exit_lsb code status
                 | Some _ => is_clean_exit code status
                 end in
  if bool_decide (main_pid s = pid) then
    r ← service_load_pid_file u;
    if bool_decide (r = 0%Z) then mret tt else
    main_exited u pid code status success;;
    unit_add_to_dbus_queue u
  else
    when (bool_decide (control_pid s = pid)) (control_exited u success);;
    unit_add_to_dbus_queue u.

Definition service_timer_event (u : UnitPtr) : MM unit :=
  s ← service_at u;
  match s_state s with
  | SERVICE_START_PRE | SERVICE_START => service_enter_signal u SERVICE_FINAL_SIGTERM false
  | SERVICE_START_POST => service_enter_stop u false
  | SERVICE_RELOAD => update_service u (λ s, s <| reload_failure := true |>);; service_enter_running u true
  | SERVICE_STOP => service_enter_signal u SERVICE_STOP_SIGTERM false
  | SERVICE_STOP_SIGTERM =>
      if send_sigkill s then service_enter_signal u SERVICE_STOP_SIGKILL false
      else service_enter_stop_post u false
  | SERVICE_STOP_SIGKILL => service_enter_stop_post u false
  | SERVICE_STOP_POST => service_enter_signal u SERVICE_FINAL_SIGTERM false
  | SERVICE_FINAL_SIGTERM =>
      if send_sigkill s then service_enter_signal u SERVICE_FINAL_SIGKILL false
      else service_enter_dead u false true
  | SERVICE_FINAL_SIGKILL => service_enter_dead u false true
  | SERVICE_AUTO_RESTART => service_enter_restart u
  | _ => fault
  end.

Definition service_cgroup_notify_event (u : UnitPtr) : MM unit :=
  s ← service_at u;
  match s_state s with
  | SERVICE_RUNNING => service_enter_running u true
  | SERVICE_STOP_SIGTERM | SERVICE_STOP_SIGKILL =>
      m ← main_pid_good u;
      c ← control_pid_good u;
      when (bool_decide (m ≤ 0)%Z && negb c) (service_enter_stop_post u true)
  | SERVICE_FINAL_SIGTERM | SERVICE_FINAL_SIGKILL =>
      m ← main_pid_good u;
      c ← control_pid_good u;
      when (bool_decide (m ≤ 0)%Z && negb c) (service_enter_dead u true true)
  | _ => mret tt
  end.

(** The states in which the main process may be named from outside. *)
Definition takes_main_pid (st : ServiceState) : bool :=
  match st with
  | SERVICE_START | SERVICE_START_POST | SERVICE_RUNNING | SERVICE_RELOAD => true
  | _ => false
  end.

Definition service_notify_message (u : UnitPtr) (pid : Z) (tags : list string) : MM unit :=
  s ← service_at u;
  if bool_decide (notify_access s = NOTIFY_NONE) then mret tt
  else if bool_decide (notify_access s = NOTIFY_MAIN) && bool_decide (pid ≠ main_pid s) then mret tt else
  match strv_find_prefix tags "MAINPID=" with
  | Some e =>
      when (takes_main_pid (s_state s))
        match parse_pid (str_drop 8 e) with
        | inl _ => mret tt
        | inr pid => _ ← service_set_main_pid u pid; mret tt
        end
  | None => mret tt
  end;;
  when (bool_decide (s_type s = SERVICE_NOTIFY) && bool_decide (s_state s = SERVICE_START) &&
        bool_decide (strv_find tags "READY=1" ≠ None))
    (service_enter_start_post u);;
  match strv_find_prefix tags "STATUS=" with
  | None => unit_add_to_dbus_queue u
  | Some e =>
      ok ← (if bool_decide (str_drop 7 e = "") then mret true else alloc);
      if negb ok then mret tt else
      update_service u (λ s, s <| status_text := if bool_decide (str_drop 7 e = "") then None
                                                 else Some (str_drop 7 e) |>);;
      unit_add_to_dbus_queue u
  end.

Definition service_bus_name_owner_change (u : UnitPtr) (name : string) (old_owner new_owner : option string)
    : MM unit :=
  s ← service_at u;
  assert_ (bool_decide (bus_name s = Some name));;
  assert_ (bool_decide (old_owner ≠ None) || bool_decide (new_owner ≠ None));;
  update_service u (λ s, s <| bus_name_good := bool_decide (new_owner ≠ None) |>);;
  if bool_decide (s_type s = SERVICE_DBUS) then
    if bool_decide (s_state s = SERVICE_RUNNING) then service_enter_running u true
    else when (bool_decide (s_state s = SERVICE_START) && bool_decide (new_owner ≠ None))
           (service_enter_start_post u)
  else when (bool_decide (new_owner ≠ None) && bool_decide (main_pid s ≤ 0)%Z && takes_main_pid (s_state s))
         (se_query_pid u).
Definition service_bus_query_pid_done (u : UnitPtr) (pid : Z) : MM unit :=
  s ← service_at u;
  when (bool_decide (main_pid s ≤ 0)%Z && takes_main_pid (s_state s))
    (_ ← service_set_main_pid u pid; mret tt).

Definition service_set_socket_fd (u : UnitPtr) (fd : Z) (sock : UnitPtr) : MM Z :=
  assert_ (bool_decide (0 ≤ fd)%Z);;
  U ← unit_at u;
  s ← service_at u;
  if bool_decide (load_state U ≠ UNIT_LOADED) then mret (- EINVAL)%Z
  else if bool_decide (0 ≤ socket_fd s)%Z then mret (- EBUSY)%Z
  else if bool_decide (s_state s ≠ SERVICE_DEAD) then mret (- EAGAIN)%Z else
  update_service u (λ s, s <| socket_fd := fd |> <| got_socket_fd := true |> <| accept_socket := Some sock |>);;
  mret 0%Z.

(** The result of the last of the signals that failed. *)
Definition kill_one (who : KillWho) (other : KillWho) (pid signo r : Z) : MM Z :=
  if (bool_decide (who = other) || bool_decide (who = KILL_ALL)) && bool_decide (0 < pid)%Z then
    k ← ask (QKill pid signo); mret (if bool_decide (k < 0)%Z then k else r)
  else mret r.
Definition service_kill (u : UnitPtr) (who : KillWho) (mode : KillMode) (signo : Z) : MM Z :=
  s ← service_at u;
  if bool_decide (main_pid s ≤ 0)%Z && bool_decide (who = KILL_MAIN) then mret (- ESRCH)%Z
  else if bool_decide (control_pid s ≤ 0)%Z && bool_decide (who = KILL_CONTROL) then mret (- ESRCH)%Z else
  r ← kill_one who KILL_CONTROL (control_pid s) signo 0;
  r ← kill_one who KILL_MAIN (main_pid s) signo r;
  if bool_decide (who = KILL_ALL) && bool_decide (mode = KILL_CONTROL_GROUP) then
    ok ← alloc;
    if negb ok then mret (- ENOMEM)%Z else
    ok ← (if bool_decide (0 < control_pid s)%Z then alloc else mret true);
    if negb ok then mret (- ENOMEM)%Z else
    ok ← (if bool_decide (0 < main_pid s)%Z && bool_decide (control_pid s ≠ main_pid s) then alloc else mret true);
    if negb ok then mret (- ENOMEM)%Z else
    q ← ask (QCgroupKill u signo (filter (λ p, (0 < p)%Z) [control_pid s; main_pid s]));
    mret (if bool_decide (q < 0)%Z && bool_decide (q ≠ - EAGAIN)%Z && bool_decide (q ≠ - ESRCH)%Z &&
             bool_decide (q ≠ - ENOENT)%Z then q else r)
  else mret r.
End service.
