(* ===== verification/ServiceLogic.v ===== *)
(** * A program logic for services (Service.v)

    What src/service.c does to a service is described by triples
    [sv u s c Q]: run on a unit [u] that holds the service [s], [c] returns, with a
    result [a] and a service [s'] with [Q a s'], and touches nothing else that can be seen.
    The manager and the system are out of sight: the rules for what they do
    say nothing but that [u] and the other services stay as they are. *)

From stdpp Require Import base gmap strings list fin_maps.
From Stdlib Require Import ZArith Lia.
From S2P Require Import Prelude CString JobType OrderedMap Strv RateLimit Engine Wf Installed World Service.

Section view.
Context {P : Type} `{PrivateOf P Service}.
Implicit Types m : Manager P.

(** What a unit is to src/service.c. *)
Definition Sight : Type := option UnitType * UnitLoadState * option Service.
Definition seen (U : Unit P) : Sight := (u_type U, load_state U, get_private (priv U)).
Definition seen_units m : gmap UnitPtr Sight := seen <$> units m.
Definition holds (u : UnitPtr) (s : Service) m : Prop := ∃ t l, seen_units m !! u = Some (Some t, l, Some s).
(** The units but [u]. *)
Definition elsewhere (u : UnitPtr) m : gmap UnitPtr Sight := delete u (seen_units m).

Lemma holds_unit u s m :
  holds u s m → ∃ U, units m !! u = Some U ∧ get_private (priv U) = Some s ∧ u_type U ≠ None.
Proof.
  intros (t & l & Hu). unfold seen_units in Hu. rewrite lookup_fmap in Hu.
  destruct (units m !! u) as [U|]; [|done]. injection Hu as Ht _ Hs. exists U. by rewrite Ht.
Qed.
Lemma holds_same u s m m' : seen_units m' = seen_units m → holds u s m → holds u s m'.
Proof. intros E (t & l & Hu). exists t, l. by rewrite E. Qed.
End view.

(** What src/service.c relies on in the rest of the manager: it leaves the
    services to themselves.  Whether a call returns at all is [engine_total]; where
    it does not, that is not held against the service. *)
Class ServiceEngineLaws P `{PrivateOf P Service, !ServiceEngine P} := {
  engine_total : Prop;
  notify_law : ∀ (m : Manager P) u os ns ok, is_Some (units m !! u) →
    wx engine_total (se_notify u os ns ok) m (λ _ m', seen_units m' = seen_units m);
  add_start_job_law : ∀ (m : Manager P) u, is_Some (units m !! u) →
    wx engine_total (se_add_start_job u) m (λ _ m', seen_units m' = seen_units m);
  connection_unref_law : ∀ (m : Manager P) u,
    wx engine_total (se_connection_unref u) m (λ _ m', seen_units m' = seen_units m);
  sockets_dead_law : ∀ (m : Manager P) u, is_Some (units m !! u) →
    wx engine_total (se_sockets_dead u) m (λ _ m', seen_units m' = seen_units m);
  query_pid_law : ∀ (m : Manager P) u, is_Some (units m !! u) →
    wx engine_total (se_query_pid u) m (λ _ m', seen_units m' = seen_units m) }.

Section logic.
Context {P : Type} `{ServiceEngineLaws P, !World}.
Abbreviation MM := (M (Manager P)).
Implicit Types m : Manager P.

Definition sv {A} (u : UnitPtr) (s : Service) (c : MM A) (Q : A → Service → Prop) : Prop :=
  ∀ m t l, seen_units m !! u = Some (Some t, l, Some s) →
    wx engine_total c m (λ a m', ∃ s', seen_units m' = <[u := (Some t, l, Some s')]> (seen_units m) ∧ Q a s').

Lemma sv_elim {A} u s (c : MM A) (Q : A → Service → Prop) m : sv u s c Q → holds u s m →
  wx engine_total c m (λ a m', ∃ s', holds u s' m' ∧ elsewhere u m' = elsewhere u m ∧ Q a s').
Proof.
  intros Hc (t & l & Hu). eapply wx_mono; [by apply Hc|]. intros a m' (s' & E & HQ). exists s'.
  unfold holds, elsewhere. rewrite E. split; [exists t, l; apply lookup_insert_eq|].
  split; [apply delete_insert_eq|done].
Qed.
Lemma sv_mono {A} u s (c : MM A) (Q Q' : A → Service → Prop) :
  sv u s c Q → (∀ a s', Q a s' → Q' a s') → sv u s c Q'.
Proof.
  intros Hc HQ m t l Hm. eapply wx_mono; [by apply Hc|]. intros a m' (s' & ? & ?). exists s'. auto.
Qed.
Lemma sv_bind {A B} u s (c : MM A) (f : A → MM B) (Q : B → Service → Prop) :
  sv u s c (λ a s', sv u s' (f a) Q) → sv u s (c ≫= f) Q.
Proof.
  intros Hc m t l Hm. apply wx_bind. eapply wx_mono; [by apply Hc|]. intros a m1 (s1 & E1 & Hf).
  eapply wx_mono; [apply (Hf m1 t l); rewrite E1; apply lookup_insert_eq|]. intros b m2 (s2 & E2 & HQ). exists s2.
  split; [|done]. by rewrite E2, E1, insert_insert_eq.
Qed.
Lemma sv_ret {A} u s (a : A) (Q : A → Service → Prop) : Q a s → sv u s (mret a : MM A) Q.
Proof. intros HQ m t l Hm. apply wp_wx, wp_ret. exists s. by rewrite insert_id. Qed.

(** A step that no unit notices. *)
Lemma sv_engine {A} u s (c : MM A) (Q : A → Service → Prop) :
  (∀ m, holds u s m → wx engine_total c m (λ a m', seen_units m' = seen_units m ∧ Q a s)) → sv u s c Q.
Proof.
  intros Hc m t l Hm. eapply wx_mono; [by apply Hc; exists t, l|]. intros a m' [E HQ]. exists s.
  split; [|done]. by rewrite E, insert_id.
Qed.
Lemma sv_quiet {A} u s (c : MM A) (Q : A → Service → Prop) :
  (∀ m, holds u s m → wp c m (λ a m', seen_units m' = seen_units m ∧ Q a s)) → sv u s c Q.
Proof.
  intros Hc. apply sv_engine. intros m Hm. by apply wp_wx, Hc.
Qed.
Lemma sv_unit_at u s (Q : Unit P → Service → Prop) :
  (∀ U, u_type U ≠ None → Q U s) → sv u s (unit_at u) Q.
Proof.
  intros HQ. apply sv_quiet. intros m (U & HU & _ & Ht)%holds_unit.
  eapply wp_unit_at; [done|]. auto.
Qed.
Lemma sv_service_at u s (Q : Service → Service → Prop) : Q s s → sv u s (service_at u) Q.
Proof.
  intros HQ. apply sv_quiet. intros m (U & HU & Hs & _)%holds_unit. unfold service_at. wp_step.
  eapply wp_unit_at; [done|]. by eapply wp_deref.
Qed.
Lemma sv_update u s f (Q : unit → Service → Prop) : Q tt (f s) → sv u s (update_service u f) Q.
Proof.
  intros HQ m t l Hm. destruct (holds_unit u s m) as (U & HU & Hs & Ht); [by exists t, l|].
  unfold update_service, service_at. apply wp_wx. wp_step. wp_step. eapply wp_unit_at; [done|]. eapply wp_deref; [done|].
  eapply wp_intro; [by apply (update_unit_eq u _ _ U)|]. cbn beta.
  exists (f s). split; [|done]. unfold seen_units in *. simpl. rewrite fmap_insert. f_equal.
  rewrite lookup_fmap, HU in Hm. injection Hm as <- <- _. unfold seen. simpl. by rewrite get_put_private.
Qed.
Lemma sv_modify u s f (Q : unit → Service → Prop) :
  (∀ m, units (f m) = units m) → Q tt s → sv u s (modify f) Q.
Proof. intros Hf HQ. apply sv_quiet. intros m _. wp_step. unfold seen_units. by rewrite Hf. Qed.
Lemma sv_gets {A} u s (f : Manager P → A) (Q : A → Service → Prop) :
  (∀ a, Q a s) → sv u s (gets f) Q.
Proof. intros HQ. apply sv_quiet. intros m _. by wp_step. Qed.
Lemma sv_alloc u s (Q : bool → Service → Prop) : (∀ b, Q b s) → sv u s alloc Q.
Proof.
  intros HQ. apply sv_quiet. intros m _. unfold alloc, wp. by destruct (oom m).
Qed.
Lemma sv_ask_text u s q (Q : Z * string → Service → Prop) :
  (∀ n, Q (answer n q) s) → sv u s (ask_text q) Q.
Proof. intros HQ. apply sv_quiet. intros m _. unfold ask_text. wp_step. wp_step. wp_step. by wp_step. Qed.
Lemma sv_ask u s q (Q : Z → Service → Prop) : (∀ n, Q (answer n q).1 s) → sv u s (ask q) Q.
Proof. intros HQ. unfold ask. apply sv_bind, sv_ask_text. intros n. by apply sv_ret. Qed.
Lemma sv_assert u s b (Q : unit → Service → Prop) :
  b = true → Q tt s → sv u s (assert_ b : MM unit) Q.
Proof. intros ->. apply sv_ret. Qed.
Lemma sv_when u s b (c : MM unit) (Q : unit → Service → Prop) :
  (b = true → sv u s c Q) → (b = false → Q tt s) → sv u s (when b c) Q.
Proof. destruct b; simpl; intros Ht Hf; [by apply Ht|by apply sv_ret, Hf]. Qed.
Lemma sv_deref {A} u s (o : option A) a (Q : A → Service → Prop) :
  o = Some a → Q a s → sv u s (deref o : MM A) Q.
Proof. intros ->. apply sv_ret. Qed.

Lemma sv_watch_pid u s v pid (Q : Z → Service → Prop) :
  (1 ≤ pid)%Z → (∀ r, Q r s) → sv u s (unit_watch_pid v pid) Q.
Proof.
  intros Hp HQ. unfold unit_watch_pid. apply sv_bind, sv_assert; [by apply bool_decide_eq_true|].
  apply sv_bind, sv_gets. intros l. destruct (om_get l pid); [by apply sv_ret|].
  apply sv_bind, sv_alloc. intros []; simpl; [|by apply sv_ret].
  apply sv_bind, sv_modify; [done|]. by apply sv_ret.
Qed.
Lemma sv_unwatch_pid u s v pid (Q : unit → Service → Prop) :
  (1 ≤ pid)%Z → Q tt s → sv u s (unit_unwatch_pid v pid) Q.
Proof.
  intros Hp HQ. unfold unit_unwatch_pid. apply sv_bind, sv_assert; [by apply bool_decide_eq_true|].
  by apply sv_modify.
Qed.

Lemma holds_live u s m : holds u s m → is_Some (units m !! u).
Proof. intros (U & ? & _)%holds_unit. eauto. Qed.
Lemma sv_notify u s os ns ok (Q : unit → Service → Prop) : Q tt s → sv u s (se_notify u os ns ok) Q.
Proof.
  intros HQ. apply sv_engine. intros m Hm. eapply wx_mono; [apply notify_law; by eapply holds_live|].
  by intros []; split.
Qed.
Lemma sv_add_start_job u s (Q : Z → Service → Prop) : (∀ r, Q r s) → sv u s (se_add_start_job u) Q.
Proof.
  intros HQ. apply sv_engine. intros m Hm. eapply wx_mono; [apply add_start_job_law; by eapply holds_live|].
  by intros r; split.
Qed.
Lemma sv_connection_unref u s v (Q : unit → Service → Prop) : Q tt s → sv u s (se_connection_unref v) Q.
Proof. intros HQ. apply sv_engine. intros m Hm. eapply wx_mono; [apply connection_unref_law|]. by intros []; split. Qed.
Lemma sv_sockets_dead u s (Q : unit → Service → Prop) : Q tt s → sv u s (se_sockets_dead u) Q.
Proof.
  intros HQ. apply sv_engine. intros m Hm. eapply wx_mono; [apply sockets_dead_law; by eapply holds_live|].
  by intros []; split.
Qed.
Lemma sv_query_pid u s (Q : unit → Service → Prop) : Q tt s → sv u s (se_query_pid u) Q.
Proof.
  intros HQ. apply sv_engine. intros m Hm. eapply wx_mono; [apply query_pid_law; by eapply holds_live|].
  by intros []; split.
Qed.
Lemma seen_flag m u U (U' : Unit P) :
  units m !! u = Some U → seen U' = seen U → seen_units (m <| units ::= <[u := U']> |>) = seen_units m.
Proof.
  intros HU E. unfold seen_units. simpl. rewrite fmap_insert, E. apply insert_id. by rewrite lookup_fmap, HU.
Qed.
Lemma sv_dbus_queue u s (Q : unit → Service → Prop) : Q tt s → sv u s (unit_add_to_dbus_queue u) Q.
Proof.
  intros HQ. apply sv_quiet. intros m (U & HU & _ & Ht)%holds_unit. unfold unit_add_to_dbus_queue.
  wp_step. eapply wp_unit_at; [done|]. rewrite (bool_decide_eq_true_2 (u_type U ≠ None)) by done. wp_step. simpl. wp_step.
  destruct (bool_decide (load_state U = UNIT_STUB) || u_in_dbus_queue U); [by wp_step|].
  wp_step. wp_step. destruct (has_subscriber m); simpl.
  - wp_step. wp_step. eapply wp_intro; [by apply (update_unit_eq u _ _ U)|]. split; [|done].
    by apply (seen_flag m u U).
  - eapply wp_intro; [by apply (update_unit_eq u _ _ U)|]. split; [|done]. by apply (seen_flag m u U).
Qed.
End logic.

#[global] Arguments sv : simpl never.

(** One step of the code in a triple. *)
Ltac sv_step :=
  lazymatch goal with
  | |- sv _ _ (mbind _ _) _ => apply sv_bind
  | |- sv _ _ (mret _) _ => apply sv_ret
  | |- sv _ _ (service_at _) _ => apply sv_service_at
  | |- sv _ _ (unit_at _) _ => apply sv_unit_at; intros ? ?
  | |- sv _ _ (update_service _ _) _ => apply sv_update; cbn beta
  | |- sv _ _ alloc _ => apply sv_alloc; intros ?
  | |- sv _ _ (ask _) _ => apply sv_ask; intros ?
  | |- sv _ _ (ask_text _) _ => apply sv_ask_text; intros ?
  | |- sv _ _ now _ => apply sv_gets; intros ?
  | |- sv _ _ dual_timestamp_get _ => apply sv_gets; intros ?
  | |- sv _ _ (gets _) _ => apply sv_gets; intros ?
  | |- sv _ _ (unit_watch_pid _ _) _ => apply sv_watch_pid; [|intros ?]
  | |- sv _ _ (unit_unwatch_pid _ _) _ => apply sv_unwatch_pid
  | |- sv _ _ (se_notify _ _ _ _) _ => apply sv_notify
  | |- sv _ _ (se_add_start_job _) _ => apply sv_add_start_job; intros ?
  | |- sv _ _ (se_connection_unref _) _ => apply sv_connection_unref
  | |- sv _ _ (se_sockets_dead _) _ => apply sv_sockets_dead
  | |- sv _ _ (se_query_pid _) _ => apply sv_query_pid
  | |- sv _ _ (unit_add_to_dbus_queue _) _ => apply sv_dbus_queue
  | |- sv _ _ (when _ _) _ => apply sv_when; intros ?
  | |- sv _ _ (if ?b then _ else _) _ => destruct b eqn:?
  end.
Ltac sv_steps := repeat (sv_step; cbv beta).
