(* ===== verification/ServiceSpec.v ===== *)
(** * Services behave (Service.v)

    [service_ok]: which processes, commands and timers a service may have in
    its state.  Every event that can reach a service keeps it, and runs into no failed
    assertion of src/service.c.  A service that is being stopped moves towards
    inactivity with every timeout. *)

From stdpp Require Import base gmap strings list fin_maps.
From Stdlib Require Import ZArith Lia.
From S2P Require Import Prelude CString JobType OrderedMap Strv RateLimit Engine Wf Installed World Service ServiceLogic.

(** ** The invariant *)

(** What the unit file says. *)
Definition config (s : Service) :=
  (s_type s, s_restart s, pid_file s, restart_usec s, timeout_usec s, exec_command s, socket_stdio s,
   kill_mode s, kill_signal s, send_sigkill s, pam_name s, permissions_start_only s,
   root_directory_start_only s, remain_after_exit s, guess_main_pid s, sysv_path s, bus_name s, notify_access s).

(** What holds between the changes of state, too. *)
Record core (s : Service) : Prop := {
  core_start : exec_command s SERVICE_EXEC_START ≠ [];
  core_single : s_type s ≠ SERVICE_ONESHOT → tail (exec_command s SERVICE_EXEC_START) = [];
  core_known : main_pid_known s = false → (main_pid s ≤ 0)%Z;
  core_control : control_command s ≠ [] →
    ∃ id, control_command_id s = Some id ∧ suffix (control_command s) (exec_command s id);
  core_forking : control_command_id s = Some SERVICE_EXEC_START → s_type s = SERVICE_FORKING;
  core_main : suffix (main_command s) (exec_command s SERVICE_EXEC_START) }.

(** The timer runs whenever a control process or the end of the service is
    waited for, unless there is no timeout. *)
Definition armed (s : Service) : Prop :=
  s_type s ≠ SERVICE_ONESHOT → (0 < timeout_usec s)%Z → s_timer_watch s ≠ None.

(** The service may enter [st]. *)
Record fits (st : ServiceState) (s : Service) : Prop := {
  fits_start : st = SERVICE_START → s_type s ≠ SERVICE_SIMPLE ∧
    (s_type s = SERVICE_FORKING → main_command s = []) ∧
    (s_type s ≠ SERVICE_FORKING → (control_pid s ≤ 0)%Z);
  fits_armed : has_control st = true → armed s;
  fits_restart : st = SERVICE_AUTO_RESTART → s_timer_watch s ≠ None }.

Record service_ok (s : Service) : Prop := {
  ok_core :> core s;
  ok_fits :> fits (s_state s) s;
  ok_main : has_main (s_state s) = false → (main_pid s ≤ 0)%Z ∧ main_command s = [];
  ok_control : has_control (s_state s) = false →
    (control_pid s ≤ 0)%Z ∧ control_command s = [] ∧ control_command_id s = None;
  ok_timer : has_timer (s_state s) = false → s_timer_watch s = None }.

(** How far a service is from its end. *)
Definition stop_rank (st : ServiceState) : nat :=
  match st with
  | SERVICE_DEAD | SERVICE_FAILED | SERVICE_AUTO_RESTART => 0
  | SERVICE_FINAL_SIGKILL => 1
  | SERVICE_FINAL_SIGTERM => 2
  | SERVICE_STOP_POST => 3
  | SERVICE_STOP_SIGKILL => 4
  | SERVICE_STOP_SIGTERM => 5
  | SERVICE_STOP => 6
  | _ => 7
  end.

Lemma stop_rank_max st : stop_rank st ≤ 7.
Proof. destruct st; simpl; lia. Qed.

(** The outcome of a handler. *)
Definition lands (s : Service) (n : nat) (s' : Service) : Prop :=
  service_ok s' ∧ config s' = config s ∧ stop_rank (s_state s') ≤ n.

(** The fields that the invariant speaks of. *)
Definition vital (s : Service) :=
  (config s, s_state s, main_pid_known s, main_pid s, control_pid s, control_command s, main_command s,
   control_command_id s, s_timer_watch s).
Lemma config_fields s s' : config s' = config s →
  s_type s' = s_type s ∧ exec_command s' = exec_command s ∧ timeout_usec s' = timeout_usec s ∧ bus_name s' = bus_name s.
Proof. by intros [=]. Qed.
Lemma vital_fields s s' : vital s' = vital s →
  s_type s' = s_type s ∧ exec_command s' = exec_command s ∧ timeout_usec s' = timeout_usec s ∧
  s_state s' = s_state s ∧ main_pid_known s' = main_pid_known s ∧ main_pid s' = main_pid s ∧
  control_pid s' = control_pid s ∧ control_command s' = control_command s ∧ main_command s' = main_command s ∧
  control_command_id s' = control_command_id s ∧ s_timer_watch s' = s_timer_watch s ∧ config s' = config s.
Proof. intros E. unfold vital in E. injection E as. split_and!; try congruence. unfold config. congruence. Qed.
Lemma core_vital s s' : vital s' = vital s → core s → core s'.
Proof.
  intros (Et & Ee & _ & _ & Ek & Em & _ & Ec & Ema & Ei & _)%vital_fields [].
  split; rewrite ?Et, ?Ee, ?Ek, ?Em, ?Ec, ?Ema, ?Ei; done.
Qed.
Lemma fits_vital st s s' : vital s' = vital s → fits st s → fits st s'.
Proof.
  intros (Et & _ & Eo & _ & _ & Em & Ec & _ & Ema & _ & Ew & _)%vital_fields [].
  split; unfold armed; rewrite ?Et, ?Eo, ?Em, ?Ec, ?Ema, ?Ew; done.
Qed.
Lemma service_ok_vital s s' : vital s' = vital s → service_ok s → service_ok s'.
Proof.
  intros E [Hc Hf Hm Hk Ht]. pose proof (vital_fields _ _ E) as (_ & _ & _ & Es & _ & Em & Ec & Ecc & Ema & Ei & Ew & _).
  split; rewrite ?Es, ?Em, ?Ec, ?Ecc, ?Ema, ?Ei, ?Ew; [by eapply core_vital|by eapply fits_vital|done..].
Qed.
Lemma lands_vital s n s1 s' : vital s' = vital s1 → lands s n s1 → lands s n s'.
Proof.
  intros E (Hok & Ec & Hr). pose proof (vital_fields _ _ E) as (_ & _ & _ & Es & _ & _ & _ & _ & _ & _ & _ & Ec').
  split; [by eapply service_ok_vital|]. split; [congruence|by rewrite Es].
Qed.
Lemma lands_weaken s n n' s' : lands s n s' → n ≤ n' → lands s n' s'.
Proof. intros (? & ? & ?) ?. split_and!; [done|done|lia]. Qed.

(** A step within a state keeps [core] if it keeps what that is about. *)
Lemma core_same s s' :
  core s → config s' = config s → main_pid_known s' = main_pid_known s → main_pid s' = main_pid s →
  control_command s' = control_command s → control_command_id s' = control_command_id s →
  main_command s' = main_command s → core s'.
Proof.
  intros [] (Et & Ee & _)%config_fields Ek Em Ec Ei Ema.
  split; rewrite ?Et, ?Ee, ?Ek, ?Em, ?Ec, ?Ema, ?Ei; done.
Qed.

Section spec.
Context {P : Type} `{ServiceEngineLaws P, !World, !WorldLaws}.
Abbreviation MM := (M (Manager P)).

Lemma sv_unwatch_main u s (Q : unit → Service → Prop) :
  (∀ p, (p ≤ 0)%Z → Q tt (s <| main_pid := p |>)) → sv u s (service_unwatch_main_pid u) Q.
Proof.
  intros HQ. unfold service_unwatch_main_pid. sv_step. sv_step. case_bool_decide as Hp.
  - sv_step. specialize (HQ _ Hp). by destruct s.
  - sv_step. sv_step; [lia|]. sv_step. by apply HQ.
Qed.
Lemma sv_unwatch_control u s (Q : unit → Service → Prop) :
  (∀ p, (p ≤ 0)%Z → Q tt (s <| control_pid := p |>)) → sv u s (service_unwatch_control_pid u) Q.
Proof.
  intros HQ. unfold service_unwatch_control_pid. sv_step. sv_step. case_bool_decide as Hp.
  - sv_step. specialize (HQ _ Hp). by destruct s.
  - sv_step. sv_step; [lia|]. sv_step. by apply HQ.
Qed.

(** What a change of state does to the service, without its reports. *)
Record moved (s : Service) (st : ServiceState) (s' : Service) : Prop := {
  mv_config : config s' = config s;
  mv_state : s_state s' = st;
  mv_known : main_pid_known s' = main_pid_known s;
  mv_main : if has_main st then main_pid s' = main_pid s ∧ main_command s' = main_command s
            else (main_pid s' ≤ 0)%Z ∧ main_command s' = [];
  mv_control : if has_control st then control_pid s' = control_pid s ∧ control_command s' = control_command s
                 ∧ control_command_id s' = control_command_id s
               else (control_pid s' ≤ 0)%Z ∧ control_command s' = [] ∧ control_command_id s' = None;
  mv_timer : s_timer_watch s' = if has_timer st then s_timer_watch s else None }.

(** One after the other. *)
Lemma sv_seq {A} u s (c : MM unit) (k : MM A) (Q : A → Service → Prop) (R : Service → Prop) :
  sv u s c (λ _ s', R s') → (∀ s', R s' → sv u s' k Q) → sv u s (c;; k) Q.
Proof. intros Hc Hk. apply sv_bind. eapply sv_mono; [exact Hc|]. intros [] s' HR. by apply Hk. Qed.

Lemma sv_connection_unref_service u s (Q : unit → Service → Prop) :
  (∀ a, Q tt (s <| accept_socket := a |>)) → sv u s (service_connection_unref u) Q.
Proof.
  intros HQ. unfold service_connection_unref. sv_step. sv_step. destruct (accept_socket s) as [a|] eqn:E.
  - sv_steps. apply HQ.
  - sv_step. specialize (HQ None). rewrite <- E in HQ. by destruct s.
Qed.

Lemma sv_set_state_moved u s st (Q : unit → Service → Prop) :
  (∀ s', moved s st s' → Q tt s') → sv u s (service_set_state u st) Q.
Proof.
  intros HQ. unfold service_set_state, unit_unwatch_timer, service_close_socket_fd. sv_step. sv_step.
  destruct st; cbn [has_timer has_main has_control tells_sockets keeps_socket negb orb andb bool_decide];
    repeat (sv_step || (apply sv_unwatch_main; intros) || (apply sv_unwatch_control; intros) ||
            (apply sv_connection_unref_service; intros)); try done;
    apply HQ; by split.
Qed.

Lemma moved_ok s st s' : core s → fits st s → moved s st s' → service_ok s'.
Proof.
  intros Hc Hf [Ec Es Ek Hm Hk Ht]. pose proof (config_fields _ _ Ec) as (Et & Ee & Eo & _).
  destruct Hc as [Hs Hsi Hkn Hco Hfo Hma], Hf as [Hst Har Hre]. split; [split|split|..]; rewrite ?Et, ?Ee, ?Es.
  - done.
  - done.
  - rewrite Ek. intros E. destruct (has_main st); destruct Hm as [Hm _]; [rewrite Hm; auto|done].
  - destruct (has_control st); destruct Hk as (_ & E1 & E2); rewrite E1, E2; done.
  - destruct (has_control st); destruct Hk as (_ & _ & E); rewrite E; done.
  - destruct (has_main st); destruct Hm as [_ E]; rewrite E; [done|apply suffix_nil].
  - intros ->. simpl in Hm, Hk. destruct Hm as [_ ->], Hk as (-> & _). by apply Hst.
  - intros E. rewrite E in *. unfold armed. rewrite Et, Eo, Ht. unfold has_timer. rewrite E. simpl. by apply Har.
  - intros ->. rewrite Ht. simpl. by apply Hre.
  - intros E. by rewrite E in Hm.
  - intros E. by rewrite E in Hk.
  - intros E. by rewrite Ht, E.
Qed.
Lemma sv_set_state u s st n (Q : unit → Service → Prop) :
  core s → fits st s → stop_rank st ≤ n → (∀ s', lands s n s' → Q tt s') → sv u s (service_set_state u st) Q.
Proof.
  intros Hc Hf Hn HQ. apply sv_set_state_moved. intros s' Hm. apply HQ.
  split; [by eapply moved_ok|]. split; [apply Hm|]. by rewrite (mv_state _ _ _ Hm).
Qed.
Lemma sv_fail_if u s b (Q : unit → Service → Prop) :
  (∀ f, Q tt (s <| failure := f |>)) → sv u s (fail_if u b) Q.
Proof.
  intros HQ. unfold fail_if. destruct b; simpl; [|by sv_step]. sv_step.
  specialize (HQ (failure s)). by destruct s.
Qed.

(** ** Timers and commands *)

Lemma sv_watch_timer u s d (Q : Z → Service → Prop) :
  (∀ r, (r < 0)%Z → Q r s) → Q 0%Z (s <| s_timer_watch := Some d |>) → sv u s (unit_watch_timer u d) Q.
Proof.
  intros Hf HQ. unfold unit_watch_timer. sv_step. sv_step. case_bool_decide; [sv_step; by apply Hf|].
  sv_steps. done.
Qed.
Lemma timer_id (s : Service) : s <| s_timer_watch := s_timer_watch s |> = s.
Proof. by destruct s. Qed.

Lemma sv_spawn_steps u s c timeout fds ap ac tty no (Q : Z + Z → Service → Prop) :
  (∀ e t, Q (inl e) (s <| s_timer_watch := t |>)) →
  (∀ pid t, (0 < pid)%Z → (timeout = true → (0 < timeout_usec s)%Z → t ≠ None) →
    (timeout = false → t = None) → Q (inr pid) (s <| s_timer_watch := t |>)) →
  sv u s (spawn_steps u c timeout fds ap ac tty no) Q.
Proof.
  intros Hf HQ. unfold spawn_steps. sv_step. sv_step.
  apply sv_bind. apply sv_mono with (Q := λ _ s', s' = s).
  { destruct (_ && _); by sv_step. }
  intros r ? ->. destruct (bool_decide (r < 0)%Z); [sv_step; rewrite <- (timer_id s); apply Hf|].
  apply sv_bind. apply sv_mono with (Q := λ r s', ∃ t, s' = s <| s_timer_watch := t |> ∧
    ((r < 0)%Z ∨ (timeout = true → (0 < timeout_usec s)%Z → t ≠ None) ∧ (timeout = false → t = None))).
  { destruct timeout; simpl; [case_bool_decide as Ht|].
    - apply sv_watch_timer; [|eexists; split; [done|by right]]. intros q Hq. exists (s_timer_watch s). rewrite timer_id. auto.
    - unfold unit_unwatch_timer. sv_steps. exists None. split; [done|]. right. split; [lia|done].
    - unfold unit_unwatch_timer. sv_steps. exists None. split; [done|]. by right. }
  intros q ? (t & -> & Ht). case_bool_decide as Hq; [sv_step; apply Hf|].
  assert (∀ b, sv u (s <| s_timer_watch := t |>) (if b : bool then alloc else mret true : MM bool)
    (λ _ s', s' = s <| s_timer_watch := t |>)) as Ha by (intros []; by sv_step).
  do 2 (sv_step; sv_step; destruct (negb _); [sv_step; apply Hf|]).
  do 2 (sv_step; eapply sv_mono; [apply Ha|]; intros [] ? ->; simpl; [|sv_step; apply Hf]).
  sv_step; sv_step; destruct (negb _); [sv_step; apply Hf|].
  sv_step. sv_step. match goal with |- context [(answer ?n ?q).1] => pose proof (spawn_pid n) as Hp; set (pid := (answer n q).1) end.
  assert (pid ≠ 0)%Z as Hp0 by apply Hp. case_bool_decide; [sv_step; apply Hf|].
  sv_step. sv_step; [lia|]. destruct (bool_decide _); sv_step; [apply Hf|]. apply HQ; [lia|intuition lia|intuition lia].
Qed.
Lemma sv_spawn u s c timeout fds ap ac tty no (Q : Z + Z → Service → Prop) :
  (∀ e t, Q (inl e) (s <| s_timer_watch := t |>)) →
  (∀ pid t, (0 < pid)%Z → (timeout = true → (0 < timeout_usec s)%Z → t ≠ None) →
    (timeout = false → t = None) → Q (inr pid) (s <| s_timer_watch := t |>)) →
  sv u s (service_spawn u c timeout fds ap ac tty no) Q.
Proof.
  intros Hf HQ. unfold service_spawn. sv_step. apply sv_spawn_steps.
  - intros e t. sv_step. unfold when, unit_unwatch_timer. destruct timeout; [|sv_steps; apply Hf].
    sv_steps. apply (Hf e None).
  - intros pid t Hp Ht Hn. sv_steps. by apply HQ.
Qed.

(** The service after [run_control]. *)
Record ran (s : Service) (id : ServiceExecCommand) (o : option (Z + Z)) (s' : Service) : Prop := {
  ran_core : core s';
  ran_config : config s' = config s;
  ran_main : main_pid s' = main_pid s ∧ main_command s' = main_command s ∧ s_state s' = s_state s;
  ran_result : match o with
    | None => (control_pid s' ≤ 0)%Z ∧ control_command s' = []
    | Some (inl _) => (control_pid s' ≤ 0)%Z
    | Some (inr _) => armed s'
    end }.
Lemma sv_run_control u s id tty (Q : option (Z + Z) → Service → Prop) :
  core s → id ≠ SERVICE_EXEC_START → (∀ o s', ran s id o s' → Q o s') → sv u s (run_control u id tty) Q.
Proof.
  intros [C1 C2 C3 C4 C5 C6] Hid HQ. unfold run_control. sv_step. apply sv_unwatch_control. intros p Hp.
  sv_step. sv_step. sv_step. sv_step. cbn. destruct (exec_command s id) as [|c l] eqn:El.
  - sv_step. apply HQ. split; [|done|done|done]. by split.
  - sv_step. sv_step. sv_step. apply sv_spawn.
    + intros e t. sv_steps. apply HQ. split; [|done|done|done].
      split; [done|done|done| |cbn; congruence|done]. intros _. exists id. split; [done|]. cbn. by rewrite El.
    + intros pid t Hpid Ht _. sv_steps. apply HQ. split; [|done|done|].
      * split; [done|done|done| |cbn; congruence|done]. intros _. exists id. split; [done|]. cbn. by rewrite El.
      * intros _ Ho. by apply Ht.
Qed.

(** ** The way down *)

Lemma fits_plain st s : has_control st = false → st ≠ SERVICE_AUTO_RESTART → fits st s.
Proof. intros Hc Hr. split; [intros ->; done|congruence|done]. Qed.
Lemma fits_control st s : st ≠ SERVICE_START → st ≠ SERVICE_AUTO_RESTART → armed s → fits st s.
Proof. by split. Qed.

Lemma sv_enter_dead_now u s ok (Q : unit → Service → Prop) :
  core s → (∀ s', lands s 0 s' → Q tt s') → sv u s (enter_dead_now u ok) Q.
Proof.
  intros Hc HQ. unfold enter_dead_now. sv_step. apply sv_fail_if. intros f. sv_step. sv_step.
  sv_step. apply sv_set_state with (n := 0).
  - by eapply core_vital; [|exact Hc].
  - apply fits_plain; by destruct (failure _).
  - by destruct (failure _).
  - intros s' Hl. sv_step. apply HQ. by eapply lands_vital; [|exact Hl].
Qed.
Lemma sv_enter_dead u s ok restart (Q : unit → Service → Prop) :
  core s → (∀ s', lands s 0 s' → Q tt s') → sv u s (service_enter_dead u ok restart) Q.
Proof.
  intros Hc HQ. unfold service_enter_dead. sv_step. apply sv_fail_if. intros f. sv_step. sv_step.
  assert (core (s <| failure := f |>)) as Hc1 by (by eapply core_vital; [|exact Hc]).
  destruct (_ && _); [|by apply sv_enter_dead_now].
  sv_step. apply sv_watch_timer.
  - intros r Hr. rewrite bool_decide_eq_true_2 by done. by apply sv_enter_dead_now.
  - simpl. sv_step. apply sv_set_state with (n := 0); [by eapply core_same; [exact Hc1|..]|by split|done|].
    intros s' Hl. sv_step. apply HQ. by eapply lands_vital; [|exact Hl].
Qed.

(** Signals change nothing about the service. *)
Lemma sv_kill_process u s pid sig w o (Q : bool → Service → Prop) :
  (∀ b, Q b s) → sv u s (kill_process pid sig w o) Q.
Proof.
  intros HQ. unfold kill_process, kill_and_sigcont. destruct (bool_decide _); [by sv_step|].
  sv_steps; apply HQ.
Qed.
Lemma sv_send_signals u s st (Q : Z + bool → Service → Prop) :
  (∀ r, Q r s) → sv u s (send_signals u st) Q.
Proof.
  intros HQ. unfold send_signals, kill_group. sv_step. sv_step. destruct (bool_decide _); [by sv_step|].
  sv_step. apply sv_kill_process. intros b1. sv_step. apply sv_kill_process. intros b2.
  destruct (bool_decide _); [|by sv_step].
  assert (∀ b, sv u s (if b : bool then alloc else mret true : MM bool) (λ _ s', s' = s)) as Ha
    by (intros []; by sv_step).
  sv_step. sv_step. sv_step. sv_step. destruct (negb _); [by sv_step|].
  do 2 (sv_step; eapply sv_mono; [apply Ha|]; intros [] ? ->; simpl; [|by sv_step]).
  sv_step. sv_step. by sv_step.
Qed.

(** [next] leads to where [n] bounds the rank. *)
Lemma sv_enter_signal_with u s next st n ok (Q : unit → Service → Prop) :
  core s → is_stopping st = true → stop_rank st ≤ n → 
  (∀ b s1, core s1 → sv u s1 (next b) (λ _ s', lands s1 n s')) →
  (∀ s', lands s n s' → Q tt s') → sv u s (enter_signal_with next u st ok) Q.
Proof.
  intros Hc Hst Hn Hnext HQ. unfold enter_signal_with. sv_step. apply sv_fail_if. intros f.
  set (s1 := s <| failure := f |>). assert (core s1) as Hc1 by (by eapply core_vital; [|exact Hc]).
  assert (∀ b, sv u s1 (next b) Q) as Hq.
  { intros b. eapply sv_mono; [by apply Hnext|]. intros [] s' Hl. by apply HQ. }
  sv_step. apply sv_send_signals. intros [e|[]]; [apply Hq| |apply Hq].
  sv_step. sv_step. sv_step.
  apply sv_mono with (Q := λ r s', (r < 0)%Z ∧ s' = s1 ∨ (0 ≤ r)%Z ∧ ∃ t, s' = s1 <| s_timer_watch := t |> ∧ armed s').
  { case_bool_decide as Ht.
    - apply sv_watch_timer; [auto|]. right. split; [done|]. eexists. split; [done|]. by intros _ _.
    - sv_step. right. split; [done|]. exists (s_timer_watch s1). rewrite timer_id. split; [done|]. by intros _ ?. }
  intros r s2 [[Hr ->]|(Hr & t & -> & Ha)].
  - rewrite bool_decide_eq_true_2 by done. apply Hq.
  - rewrite bool_decide_eq_false_2 by lia. apply sv_set_state with (n := n); [by eapply core_same; [exact Hc1|..]| |done|].
    + apply fits_control; [by intros ->|by intros ->|done].
    + intros s' Hl. by apply HQ.
Qed.
Lemma sv_enter_final_signal u s st ok n (Q : unit → Service → Prop) :
  core s → is_stopping st = true → stop_rank st ≤ n → (∀ s', lands s n s' → Q tt s') →
  sv u s (enter_final_signal u st ok) Q.
Proof.
  intros Hc Hst Hn HQ. unfold enter_final_signal. apply sv_enter_signal_with with (n := n); [done..| |done].
  intros b s1 Hc1. apply sv_enter_dead; [done|]. intros s' Hl. eapply lands_weaken; [exact Hl|lia].
Qed.
Lemma sv_enter_stop_post u s ok (Q : unit → Service → Prop) :
  core s → (∀ s', lands s 3 s' → Q tt s') → sv u s (service_enter_stop_post u ok) Q.
Proof.
  intros Hc HQ. unfold service_enter_stop_post. sv_step. apply sv_fail_if. intros f.
  sv_step. apply sv_run_control; [by eapply core_vital; [|exact Hc]|done|].
  intros o s1 [Hc1 E _ Hr]. change (config s1 = config s) in E.
  assert (∀ s', lands s1 3 s' → Q tt s') as HQ1.
  { intros s' (? & ? & ?). apply HQ. split_and!; [done|congruence|done]. }
  destruct o as [[e|pid]|]; [apply sv_enter_final_signal with (n := 3); (done || (simpl; lia))| |
                             apply sv_enter_final_signal with (n := 3); (done || (simpl; lia))].
  apply sv_set_state with (n := 3); [done|by apply fits_control|simpl; lia|done].
Qed.
Lemma sv_enter_signal u s st ok n (Q : unit → Service → Prop) :
  core s → is_stopping st = true → stop_rank st ≤ n → (is_stop_signal st = true → 3 ≤ n) →
  (∀ s', lands s n s' → Q tt s') → sv u s (service_enter_signal u st ok) Q.
Proof.
  intros Hc Hst Hn Hp HQ. unfold service_enter_signal. destruct (is_stop_signal st).
  - apply sv_enter_signal_with with (n := n); [done..| |done]. intros b s1 Hc1.
    apply sv_enter_stop_post; [done|]. intros s' Hl. eapply lands_weaken; [exact Hl|auto].
  - by apply sv_enter_final_signal with (n := n).
Qed.
Lemma sv_enter_stop u s ok n (Q : unit → Service → Prop) :
  core s → 6 ≤ n → (∀ s', lands s n s' → Q tt s') → sv u s (service_enter_stop u ok) Q.
Proof.
  intros Hc Hn HQ. unfold service_enter_stop. sv_step. apply sv_fail_if. intros f.
  sv_step. apply sv_run_control; [by eapply core_vital; [|exact Hc]|done|].
  intros o s1 [Hc1 E _ Hr]. change (config s1 = config s) in E.
  assert (∀ s', lands s1 n s' → Q tt s') as HQ1.
  { intros s' (? & ? & ?). apply HQ. split_and!; [done|congruence|done]. }
  destruct o as [[e|pid]|];
    [apply sv_enter_signal with (n := n); (done || (simpl; lia))| |
     apply sv_enter_signal with (n := n); (done || (simpl; lia))].
  apply sv_set_state with (n := n); [done|by apply fits_control|simpl; lia|done].
Qed.

(** ** The main process *)

(** At most the main process of [s'] is another one. *)
Record learned (s s' : Service) : Prop := {
  ln_core : core s';
  ln_rest : config s' = config s ∧ s_state s' = s_state s ∧ control_pid s' = control_pid s ∧
    control_command s' = control_command s ∧ control_command_id s' = control_command_id s ∧
    main_command s' = main_command s ∧ s_timer_watch s' = s_timer_watch s }.

Lemma learned_refl s : core s → learned s s.
Proof. by split. Qed.
Lemma learned_trans s1 s2 s3 : learned s1 s2 → learned s2 s3 → learned s1 s3.
Proof. intros [_ (? & ? & ? & ? & ? & ? & ?)] [Hc (? & ? & ? & ? & ? & ? & ?)]. split; [done|]. split_and!; congruence. Qed.

Lemma sv_set_main_pid u s pid (Q : Z → Service → Prop) :
  core s → (∀ r, (r < 0)%Z → Q r s) → (∀ s', learned s s' → Q 0%Z s') → sv u s (service_set_main_pid u pid) Q.
Proof.
  intros [C1 C2 C3 C4 C5 C6] Hf HQ. unfold service_set_main_pid. case_bool_decide; [sv_step; by apply Hf|].
  sv_step. sv_step. case_bool_decide; [sv_step; by apply Hf|].
  sv_step. sv_step. sv_step. sv_step. sv_step. sv_step. sv_step. apply HQ. split; [|done].
  split; cbn; try done.
Qed.
Lemma sv_kill_0 u s pid (Q : Z → Service → Prop) : (∀ r, Q r s) → sv u s (kill_0 pid) Q.
Proof. intros HQ. unfold kill_0. destruct (bool_decide _); by sv_step. Qed.
Lemma sv_main_pid_good u s (Q : Z → Service → Prop) : (∀ r, Q r s) → sv u s (main_pid_good u) Q.
Proof.
  intros HQ. unfold main_pid_good. sv_step. sv_step. destruct (main_pid_known s); [|by sv_step].
  destruct (main_pid_alien s); [|by sv_step]. sv_step. apply sv_kill_0. intros r. by sv_step.
Qed.
Lemma sv_control_pid_good u s (Q : bool → Service → Prop) :
  Q (bool_decide (0 < control_pid s)%Z) s → sv u s (control_pid_good u) Q.
Proof. intros HQ. unfold control_pid_good. sv_step. sv_step. by sv_step. Qed.
Lemma sv_cgroup_good u s (Q : Z → Service → Prop) : (∀ r, Q r s) → sv u s (cgroup_good u) Q.
Proof. intros HQ. unfold cgroup_good. sv_step. sv_step. by sv_step. Qed.

(** The new main process is watched. *)
Lemma sv_take_main_pid u s pid (Q : Z → Service → Prop) :
  core s → (0 < pid)%Z → (∀ r s', learned s s' → Q r s') →
  sv u s (r ← service_set_main_pid u pid;
          if bool_decide (r < 0)%Z then mret r else
          r ← unit_watch_pid u pid;
          if bool_decide (r < 0)%Z then mret r else mret 0%Z) Q.
Proof.
  intros Hc Hp HQ. sv_step. apply sv_set_main_pid; [done| |].
  - intros r Hr. rewrite bool_decide_eq_true_2 by done. sv_step. by apply HQ, learned_refl.
  - intros s' Hl. simpl. sv_step. sv_step; [lia|]. destruct (bool_decide _); sv_step; by apply HQ.
Qed.
Lemma sv_load_pid_file u s (Q : Z → Service → Prop) :
  core s → (∀ r s', learned s s' → Q r s') → sv u s (service_load_pid_file u) Q.
Proof.
  intros Hc HQ. unfold service_load_pid_file. sv_step. sv_step.
  assert (∀ r : Z, sv u s (mret r : MM Z) Q) as Hret by (intros r; sv_step; by apply HQ, learned_refl).
  destruct (pid_file s) as [path|]; [|apply Hret]. sv_step. sv_step.
  destruct (bool_decide _); [apply Hret|]. destruct (parse_pid _) as [e|pid] eqn:Ep; [apply Hret|].
  sv_step. apply sv_kill_0. intros k. destruct (_ && _); [apply Hret|]. destruct (_ && _); [apply Hret|].
  assert (0 < pid)%Z as Hpid.
  { revert Ep. unfold parse_pid. destruct (safe_atollu _); [done|]. case_bool_decide; [done|].
    case_bool_decide; [done|]. intros [= <-]. lia. }
  apply sv_seq with (R := λ s1, learned s s1).
  - destruct (main_pid_known s); unfold when; [|sv_step; by apply learned_refl].
    sv_step. apply sv_unwatch_main. intros p Hp. sv_step. destruct Hc. split; [|done]. by split.
  - intros s1 Hl. apply sv_take_main_pid; [apply Hl|done|]. intros r s2 Hl2. apply HQ. by eapply learned_trans.
Qed.
Lemma sv_search_main_pid u s (Q : Z → Service → Prop) :
  core s → (∀ r s', learned s s' → Q r s') → sv u s (service_search_main_pid u) Q.
Proof.
  intros Hc HQ. unfold service_search_main_pid. sv_step. sv_step.
  assert (∀ r : Z, sv u s (mret r : MM Z) Q) as Hret by (intros r; sv_step; by apply HQ, learned_refl).
  destruct (main_pid_known s) eqn:Ek; [apply Hret|]. destruct (negb _); [apply Hret|].
  sv_step. apply sv_assert; [by apply bool_decide_eq_true, (core_known _ Hc)|].
  sv_step. sv_step. case_bool_decide; [apply Hret|]. apply sv_take_main_pid; [done|lia|done].
Qed.
Lemma sv_learn_main_pid u s (Q : unit → Service → Prop) :
  core s → (∀ s', learned s s' → Q tt s') → sv u s (learn_main_pid u) Q.
Proof.
  intros Hc HQ. unfold learn_main_pid. sv_step. apply sv_load_pid_file; [done|]. intros r s1 L1.
  sv_step. apply sv_search_main_pid; [apply L1|]. intros q s2 L2. sv_step. apply HQ. by eapply learned_trans.
Qed.

(** ** The way up *)

Lemma lands_config s1 s n s' : config s1 = config s → lands s1 n s' → lands s n s'.
Proof. intros E (? & ? & ?). split_and!; [done|congruence|done]. Qed.

Lemma sv_enter_running u s ok n (Q : unit → Service → Prop) :
  core s → 7 ≤ n → (∀ s', lands s n s' → Q tt s') → sv u s (service_enter_running u ok) Q.
Proof.
  intros Hc Hn HQ. unfold service_enter_running. sv_step. apply sv_fail_if. intros f.
  assert (core (s <| failure := f |>)) as Hc1 by (by eapply core_vital; [|exact Hc]).
  sv_step. apply sv_main_pid_good. intros mp. sv_step. apply sv_cgroup_good. intros cg. sv_step. sv_step.
  destruct (_ && _); [|destruct (remain_after_exit _)].
  - apply sv_set_state with (n := n); [done|by apply fits_plain|simpl; lia|done].
  - apply sv_set_state with (n := n); [done|by apply fits_plain|simpl; lia|done].
  - apply sv_enter_stop with (n := n); [done|lia|done].
Qed.
Lemma sv_enter_start_post u s n (Q : unit → Service → Prop) :
  core s → 7 ≤ n → (∀ s', lands s n s' → Q tt s') → sv u s (service_enter_start_post u) Q.
Proof.
  intros Hc Hn HQ. unfold service_enter_start_post. sv_step. apply sv_run_control; [done|done|].
  intros o s1 [Hc1 E _ Hr].
  destruct o as [[e|pid]|];
    [apply sv_enter_stop with (n := n)|apply sv_set_state with (n := n)|apply sv_enter_running with (n := n)];
    try done; try lia; try (intros s' Hl; by eapply HQ, lands_config).
Qed.

(** After [prepare_start]. *)
Record prepared (s s' : Service) : Prop := {
  pr_core : core s';
  pr_config : config s' = config s;
  pr_forking : s_type s = SERVICE_FORKING → (main_pid s' ≤ 0)%Z ∧ main_command s' = [];
  pr_main : s_type s ≠ SERVICE_FORKING → (control_pid s' ≤ 0)%Z }.
Lemma sv_prepare_start u s (Q : list ExecCommand → Service → Prop) :
  core s → (main_pid s ≤ 0)%Z → (control_pid s ≤ 0)%Z →
  (∀ s', prepared s s' → Q (exec_command s SERVICE_EXEC_START) s') → sv u s (prepare_start u) Q.
Proof.
  intros [C1 C2 C3 C4 C5 C6] Hm Hk HQ. unfold prepare_start. sv_step. sv_step.
  sv_step. apply sv_assert; [by apply bool_decide_eq_true|]. sv_step. apply sv_assert.
  { apply orb_true_iff. rewrite !bool_decide_eq_true. destruct (decide (s_type s = SERVICE_ONESHOT)); auto. }
  sv_step. case_bool_decide as Ht.
  - sv_step. apply sv_unwatch_control. intros p Hp. sv_step. sv_step. apply HQ. split; [|done|done|done].
    split; cbn; try done.
    + intros _. by exists SERVICE_EXEC_START.
    + apply suffix_nil.
  - sv_step. apply sv_unwatch_main. intros p Hp. sv_step. sv_step. apply HQ. split; [|done|done|done].
    by split.
Qed.
Lemma sv_enter_start u s n (Q : unit → Service → Prop) :
  core s → (main_pid s ≤ 0)%Z → (control_pid s ≤ 0)%Z → 7 ≤ n →
  (∀ s', lands s n s' → Q tt s') → sv u s (service_enter_start u) Q.
Proof.
  intros Hc Hm Hk Hn HQ. unfold service_enter_start. sv_step. apply sv_prepare_start; [done..|].
  intros s1 [Hc1 E Hfo Hma]. pose proof (config_fields _ _ E) as (Et & _ & Eo & _).
  pose proof (core_start _ Hc) as Hne. destruct (exec_command s SERVICE_EXEC_START) as [|c l]; [done|].
  sv_step. eapply sv_deref; [done|]. sv_step. sv_step. sv_step.
  assert (∀ s1', config s1' = config s1 → ∀ s', lands s1' n s' → Q tt s') as HQ1.
  { intros s1' E1 s' Hl. apply HQ. eapply lands_config; [|exact Hl]. congruence. }
  apply sv_spawn.
  - intros e t. apply sv_enter_signal with (n := n); [|done|simpl; lia|done|by apply HQ1].
    by eapply core_same; [exact Hc1|..].
  - intros pid t Hpid Ht _.
    set (s2 := s1 <| s_timer_watch := t |>). assert (core s2) as Hc2 by (by eapply core_same; [exact Hc1|..]).
    assert (∀ Q' : unit → Service → Prop, s_type s1 ≠ SERVICE_SIMPLE → s_type s1 ≠ SERVICE_FORKING →
      (s_type s1 ≠ SERVICE_ONESHOT → (0 < timeout_usec s1)%Z → t ≠ None) →
      (∀ s', lands s2 n s' → Q' tt s') →
      sv u s2 (_ ← service_set_main_pid u pid; service_set_state u SERVICE_START) Q') as Hstart.
    { intros Q' Ht1 Ht2 Ht3 HQ'.
      assert (∀ s3, learned s2 s3 → sv u s3 (service_set_state u SERVICE_START) Q') as Hl3.
      { intros s3 [Hc3 (E3 & Es & Ek & _ & _ & _ & Ew)]. pose proof (config_fields _ _ E3) as (Et3 & _ & Eo3 & _).
        change (s_type s2) with (s_type s1) in Et3. change (timeout_usec s2) with (timeout_usec s1) in Eo3.
        apply sv_set_state with (n := n); [done| |simpl; lia|].
        - split; [|intros _; unfold armed; rewrite Et3, Eo3, Ew; exact Ht3|done].
          intros _. rewrite Et3, Ek. split; [done|]. split; [done|]. intros _. apply Hma. congruence.
        - intros s' Hl. apply HQ'. by eapply lands_config. }
      sv_step. apply sv_set_main_pid; [done| |].
      - intros r _. by apply Hl3, learned_refl.
      - done. }
    change (s_type s2) with (s_type s1). destruct (s_type s1) eqn:Ety.
    + sv_step. apply sv_set_main_pid; [done| |].
      * intros r _. apply sv_enter_start_post with (n := n); [done|done|by apply HQ1].
      * intros s3 [Hc3 (E3 & _)]. apply sv_enter_start_post with (n := n); [done|done|by apply HQ1].
    + sv_step. sv_step. apply sv_set_state with (n := n); [by eapply core_same; [exact Hc2|..]| |simpl; lia|by apply HQ1].
      split; [|intros _ _ Ho; by apply Ht|done]. intros _. cbn. rewrite Ety. split_and!; [done| |done].
      intros _. apply Hfo. congruence.
    + apply Hstart; [done..|]. by apply HQ1.
    + apply Hstart; [done|done|intros _ Ho; by apply Ht|by apply HQ1].
    + apply Hstart; [done|done|intros _ Ho; by apply Ht|by apply HQ1].
Qed.
Lemma sv_enter_start_pre u s n (Q : unit → Service → Prop) :
  core s → (main_pid s ≤ 0)%Z → 7 ≤ n →
  (∀ s', lands s n s' → Q tt s') → sv u s (service_enter_start_pre u) Q.
Proof.
  intros Hc Hm Hn HQ. unfold service_enter_start_pre. sv_step. apply sv_run_control; [done|done|].
  intros o s1 [Hc1 E (Em & _) Hr].
  assert (∀ k s', k ≤ n → lands s1 k s' → Q tt s') as HQ1.
  { intros k s' Hk Hl. apply HQ. eapply lands_weaken; [by eapply lands_config|done]. }
  destruct o as [[e|pid]|].
  - apply sv_enter_dead; [done|]. intros s'. apply HQ1. lia.
  - apply sv_set_state with (n := n); [done|by apply fits_control|simpl; lia|]. intros s'. by apply HQ1.
  - apply sv_enter_start with (n := n); [done|congruence|apply Hr|done|]. intros s'. by apply HQ1.
Qed.
Lemma sv_enter_reload u s n (Q : unit → Service → Prop) :
  core s → 7 ≤ n → (∀ s', lands s n s' → Q tt s') → sv u s (service_enter_reload u) Q.
Proof.
  intros Hc Hn HQ. unfold service_enter_reload. sv_step. apply sv_run_control; [done|done|].
  intros o s1 [Hc1 E _ Hr].
  assert (∀ s', lands s1 n s' → Q tt s') as HQ1 by (intros s' Hl; by eapply HQ, lands_config).
  destruct o as [[e|pid]|].
  - sv_step. sv_step. apply sv_enter_running with (n := n); [by eapply core_vital; [|exact Hc1]|done|done].
  - apply sv_set_state with (n := n); [done|by apply fits_control|simpl; lia|done].
  - by apply sv_enter_running with (n := n).
Qed.
Lemma sv_enter_restart u s (Q : unit → Service → Prop) :
  core s → (∀ s', lands s 0 s' → Q tt s') → sv u s (service_enter_restart u) Q.
Proof.
  intros Hc HQ. unfold service_enter_restart. sv_step. sv_step. sv_step. sv_step. sv_step.
  apply sv_mono with (Q := λ r s', ∃ t, s' = s <| s_timer_watch := t |>).
  { destruct (bool_decide _); [apply sv_watch_timer|sv_step; exists (s_timer_watch s); by rewrite timer_id].
    - intros r _. exists (s_timer_watch s). by rewrite timer_id.
    - eauto. }
  intros r s1 [t ->]. set (s1 := s <| s_timer_watch := t |>).
  assert (core s1) as Hc1 by (by eapply core_same; [exact Hc|..]).
  destruct (bool_decide _); [by apply sv_enter_dead|].
  sv_step. apply sv_enter_dead; [done|]. intros s2 Hl2. sv_step. sv_step.
  destruct (bool_decide _); [|sv_step; by apply HQ].
  apply sv_enter_dead; [apply Hl2|]. intros s3 Hl3. apply HQ. eapply lands_config; [apply Hl2|exact Hl3].
Qed.

(** ** Commands that follow *)

Lemma suffix_tail {A} (l k : list A) : suffix l k → suffix (tail l) k.
Proof. destruct l as [|x l]; [done|]. intros [p ->]. exists (p ++ [x]). by rewrite <- app_assoc. Qed.
(** A chain within a single command has nothing that follows. *)
Lemma suffix_single {A} (l k : list A) : suffix l k → tail k = [] → tail l = [].
Proof.
  destruct l as [|x [|y l]]; [done|done|]. intros [p ->] Ht. destruct p as [|a [|b p]]; done.
Qed.

Lemma oneshot_chain s : core s → tail (main_command s) ≠ [] → s_type s = SERVICE_ONESHOT.
Proof.
  intros Hc Ht. destruct (decide (s_type s = SERVICE_ONESHOT)) as [|Hn]; [done|]. exfalso. apply Ht.
  eapply suffix_single; [apply Hc|]. by apply Hc.
Qed.
Lemma control_chain s :
  core s → tail (control_command s) ≠ [] → control_command_id s ≠ Some SERVICE_EXEC_START.
Proof.
  intros Hc Ht E. destruct (core_control _ Hc) as (id & Ei & Hs); [by intros E'; rewrite E' in Ht|].
  rewrite E in Ei. injection Ei as <-. apply Ht. eapply suffix_single; [exact Hs|].
  apply Hc. rewrite (core_forking _ Hc E). done.
Qed.

Lemma sv_run_next_main u s ok (Q : unit → Service → Prop) :
  service_ok s → has_main (s_state s) = true → tail (main_command s) ≠ [] →
  (∀ s', lands s 7 s' → Q tt s') → sv u s (service_run_next_main u ok) Q.
Proof.
  intros Hok Hst Ht HQ. pose proof (oneshot_chain _ Hok Ht) as Hty.
  assert (core (s <| main_command ::= tail |>)) as Hc.
  { destruct Hok as [[] _ _ _ _]. split; try done. by apply suffix_tail. }
  unfold service_run_next_main. sv_step. sv_step. sv_step.
  destruct (tail (main_command s)) as [|c l] eqn:El; [done|]. eapply sv_deref; [done|].
  sv_step. apply sv_assert; [by apply bool_decide_eq_true|]. sv_step. apply sv_fail_if. intros f.
  sv_step. sv_step. sv_step. apply sv_unwatch_main. intros p Hp.
  set (s1 := s <| failure := f |> <| main_command ::= tail |> <| main_pid := p |>).
  assert (core s1) as Hc1.
  { destruct Hc as [C1 C2 C3 C4 C5 C6]. by split. }
  sv_step. apply sv_spawn.
  - intros e t. apply sv_enter_stop with (n := 7); [by eapply core_same; [exact Hc1|..]|lia|done].
  - intros pid t Hpid _ Hn. rewrite Hn by done. set (s2 := s1 <| s_timer_watch := None |>).
    assert (∀ s3, learned s2 s3 → Q tt s3) as Hl.
    { intros s3 [Hc3 (E3 & Es & Ek & Ecc & Ei & _ & Ew)]. pose proof (config_fields _ _ E3) as (Et3 & _).
      change (s_type s2) with (s_type s) in Et3. change (s_state s2) with (s_state s) in Es.
      change (control_pid s2) with (control_pid s) in Ek. change (control_command s2) with (control_command s) in Ecc.
      change (control_command_id s2) with (control_command_id s) in Ei.
      apply HQ. split; [|split; [done|apply stop_rank_max]].
      split; [done| |by rewrite Es, Hst|rewrite Es, Ek, Ecc, Ei; apply Hok|done].
      split; rewrite Es.
      - intros E. rewrite Et3, Hty. split_and!; [done|done|]. intros _. rewrite Ek. by apply Hok; [|rewrite Hty].
      - intros _ Ho. by rewrite Et3 in Ho.
      - intros E. by rewrite E in Hst. }
    sv_step. apply sv_set_main_pid; [by eapply core_same; [exact Hc1|..]| |].
    + intros r _. sv_step. apply Hl, learned_refl. by eapply core_same; [exact Hc1|..].
    + intros s3 H3. sv_step. by apply Hl.
Qed.

Lemma sv_next_control_failed u s (Q : unit → Service → Prop) :
  core s → (∀ s', lands s 7 s' → Q tt s') → sv u s (next_control_failed u) Q.
Proof.
  intros Hc HQ. unfold next_control_failed. sv_step. sv_step.
  destruct (s_state s); try (apply sv_enter_stop with (n := 7); [done|lia|done]).
  - apply sv_enter_signal with (n := 7); (done || simpl; lia).
  - sv_step. sv_step. apply sv_enter_running with (n := 7); [by eapply core_vital; [|exact Hc]|lia|done].
  - apply sv_enter_signal with (n := 7); (done || simpl; lia).
  - apply sv_enter_dead; [done|]. intros s' Hl. eapply HQ, lands_weaken; [exact Hl|lia].
Qed.
Lemma sv_run_next_control u s ok (Q : unit → Service → Prop) :
  service_ok s → has_control (s_state s) = true → (s_state s = SERVICE_START → s_type s = SERVICE_FORKING) →
  tail (control_command s) ≠ [] →
  (∀ s', lands s 7 s' → Q tt s') → sv u s (service_run_next_control u ok) Q.
Proof.
  intros Hok Hst Hns Ht HQ. pose proof (control_chain _ Hok Ht) as Hid.
  assert (core (s <| control_command ::= tail |>)) as Hc.
  { destruct Hok as [[C1 C2 C3 C4 C5 C6] _ _ _ _]. split; try done. intros _. cbn.
    destruct C4 as (id & ? & ?); [by intros E; rewrite E in Ht|]. exists id. split; [done|by apply suffix_tail]. }
  unfold service_run_next_control. sv_step. sv_step. sv_step.
  destruct (tail (control_command s)) as [|c l] eqn:El; [done|]. eapply sv_deref; [done|].
  sv_step. apply sv_fail_if. intros f. sv_step. apply sv_assert; [by apply bool_decide_eq_true|].
  sv_step. sv_step. sv_step. apply sv_unwatch_control. intros p Hp.
  set (s1 := s <| failure := f |> <| control_command ::= tail |> <| control_pid := p |>).
  assert (core s1) as Hc1 by (by eapply core_same; [exact Hc|..]).
  sv_step. apply sv_spawn.
  - intros e t. apply sv_next_control_failed; [by eapply core_same; [exact Hc1|..]|done].
  - intros pid t Hpid Hw _. sv_step. apply HQ. split; [|split; [done|apply stop_rank_max]].
    split; [by eapply core_same; [exact Hc1|..]| |apply Hok|cbn; congruence|].
    + split; cbn; [|intros _ _ Ho; by apply Hw|intros E; by rewrite E in Hst].
      intros E. destruct (fits_start _ _ (ok_fits _ Hok) E) as (? & ? & _). split_and!; [done|done|]. by rewrite (Hns E).
    + cbn. unfold has_timer. by rewrite Hst.
Qed.
End spec.
