(* ===== verification/ServiceEvents.v ===== *)
(** * What can happen to a service (Service.v)

    The events that the manager hands to a service, the invariant along every sequence of
    them, how stopping ends, and what goes wrong: a main process that is named
    while a forking service starts, and commands that are run while the service is killed. *)

From stdpp Require Import base gmap strings list fin_maps.
From Stdlib Require Import ZArith Lia.
From S2P Require Import Prelude CString JobType OrderedMap Strv RateLimit Engine Wf WfCheck Installed World Service ServiceLogic ServiceSpec.

Inductive Event :=
  | EvStart | EvStop | EvReload | EvResetFailed
  | EvChild (pid code status : Z)
  | EvTimer
  | EvCgroupEmpty
  | EvMessage (pid : Z) (tags : list string)
  | EvBusName (name : string) (old_owner new_owner : option string)
  | EvBusPid (pid : Z)
  | EvSocketFd (fd : Z) (sock : UnitPtr)
  | EvKill (who : KillWho) (mode : KillMode) (signo : Z)
  | EvCheckGc.

(** What the manager makes sure of before it calls: src/job.c does not start what is active, nor
    stop what is inactive, nor reload what is not active; a child has a pid; a
    timer elapses only when armed; the bus reports on the name that is watched. *)
Definition start_is_control (s : Service) : Prop := s_type s = SERVICE_FORKING ∧ s_state s = SERVICE_START.
Definition allowed (s : Service) (e : Event) : Prop :=
  match e with
  | EvStart => UNIT_IS_ACTIVE_OR_RELOADING (service_active_state s) = false
  | EvStop => UNIT_IS_INACTIVE_OR_FAILED (service_active_state s) = false
  | EvReload => service_active_state s = UNIT_ACTIVE
  | EvChild pid _ _ => (0 < pid)%Z
  | EvTimer => s_timer_watch s ≠ None
  | EvBusName name old_owner new_owner => bus_name s = Some name ∧ (old_owner ≠ None ∨ new_owner ≠ None)
  | EvSocketFd fd _ => (0 ≤ fd)%Z
  | _ => True
  end.

(** The one event that the manager delivers and the code does not cope with: the start command of
    a forking service still runs, a main process is known all the same (from a message, the bus or
    an earlier pid file), and it exits.  See [named_main_pid_faults]. *)
Definition aborts (s : Service) (e : Event) : Prop :=
  match e with EvChild pid _ _ => start_is_control s ∧ main_pid s = pid | _ => False end.
#[export] Instance aborts_dec s e : Decision (aborts s e).
Proof. destruct e; unfold aborts, start_is_control; apply _. Defined.

Section events.
Context {P : Type} `{PrivateOf P Service, !ServiceEngine P, !World}.
Abbreviation MM := (M (Manager P)).

Definition handle (u : UnitPtr) (e : Event) : MM unit :=
  match e with
  | EvStart => _ ← service_start u; mret tt
  | EvStop => _ ← service_stop u; mret tt
  | EvReload => _ ← service_reload u; mret tt
  | EvResetFailed => service_reset_failed u
  | EvChild pid code status => service_sigchld_event u pid code status
  | EvTimer => service_timer_event u
  | EvCgroupEmpty => service_cgroup_notify_event u
  | EvMessage pid tags => service_notify_message u pid tags
  | EvBusName name old_owner new_owner => service_bus_name_owner_change u name old_owner new_owner
  | EvBusPid pid => service_bus_query_pid_done u pid
  | EvSocketFd fd sock => _ ← service_set_socket_fd u fd sock; mret tt
  | EvKill who mode signo => _ ← service_kill u who mode signo; mret tt
  | EvCheckGc => _ ← service_check_gc u; mret tt
  end.

(** A sequence of events, each allowed when it happens. *)
Inductive runs (u : UnitPtr) : list Event → Manager P → Manager P → Prop :=
  | runs_nil m : runs u [] m m
  | runs_cons e es m s m1 m' :
      holds u s m → allowed s e → handle u e m = Ret tt m1 → runs u es m1 m' → runs u (e :: es) m m'.
End events.

(** Every list of commands has at most one. *)
Definition single (s : Service) : Prop := ∀ id, tail (exec_command s id) = [].
(** The rank that the event leaves at most. *)
Definition rank_after (s : Service) (e : Event) : nat :=
  match e with EvTimer => pred (stop_rank (s_state s)) | _ => stop_rank (s_state s) end.
(** What an event makes of a service: a stopping one does not go back. *)
Definition goes_on (s : Service) (e : Event) (s' : Service) : Prop :=
  service_ok s' ∧ config s' = config s ∧
  (is_stopping (s_state s) = true → single s → stop_rank (s_state s') ≤ rank_after s e).

Section spec.
Context {P : Type} `{ServiceEngineLaws P, !World, !WorldLaws}.
Abbreviation MM := (M (Manager P)).

Lemma lands_goes_on s e s' : lands s 7 s' → is_stopping (s_state s) = false → goes_on s e s'.
Proof. intros (? & ? & _) Hs. split_and!; [done|done|]. by rewrite Hs. Qed.
Lemma lands_rank s e n s' : lands s n s' → n ≤ rank_after s e → goes_on s e s'.
Proof. intros (? & ? & ?) Hn. split_and!; [done|done|]. intros. lia. Qed.
Lemma goes_on_lands s e s1 s' :
  e ≠ EvTimer → vital s' = vital s1 → lands s (stop_rank (s_state s)) s1 → goes_on s e s'.
Proof.
  intros He E Hl. pose proof (lands_vital _ _ _ _ E Hl) as (? & ? & ?).
  split_and!; [done|done|]. by destruct e.
Qed.
Lemma goes_on_vital s e s' : service_ok s → e ≠ EvTimer → vital s' = vital s → goes_on s e s'.
Proof. intros Hok He E. by apply (goes_on_lands s e s). Qed.

Lemma learned_ok s s' :
  service_ok s → learned s s' → has_main (s_state s) = true → service_ok s'.
Proof.
  intros [Hc Hf Hm Hk Ht] [Hc' (Ec & Es & Ek & Ecc & Ei & Ema & Ew)] Hst.
  pose proof (config_fields _ _ Ec) as (Et & _ & Eo & _).
  split; rewrite ?Es, ?Ek, ?Ecc, ?Ei, ?Ew; [done| |by rewrite Hst|done|done].
  destruct Hf as [F1 F2 F3]. split; unfold armed; rewrite ?Et, ?Eo, ?Ek, ?Ema, ?Ew; done.
Qed.

(** ** A process exits *)

Lemma sv_main_gone u s ok (Q : unit → Service → Prop) :
  service_ok s → has_main (s_state s) = true → ¬ start_is_control s →
  (∀ s' n, lands s n s' → (is_stopping (s_state s) = true → n ≤ stop_rank (s_state s)) → Q tt s') →
  sv u s (main_gone u ok) Q.
Proof.
  intros Hok Hst Hns HQ. pose proof (ok_core _ Hok) as Hc. unfold main_gone. sv_step. sv_step.
  assert (lands s (stop_rank (s_state s)) s) as Hstay by done.
  destruct (s_state s) eqn:Es; try done.
  - case_bool_decide as Ht.
    + destruct ok; [apply sv_enter_start_post with (n := 7)|apply sv_enter_signal with (n := 7)];
        [done|lia|intros s' Hl; by eapply HQ|done|done|simpl; lia|intros; lia|intros s' Hl; by eapply HQ].
    + sv_step. apply sv_assert.
      * destruct (fits_start _ _ (ok_fits _ Hok)) as (? & _ & _); [done|].
        apply orb_true_iff. rewrite !bool_decide_eq_true. destruct (s_type s) eqn:Ety; auto; try done. by destruct Hns.
      * apply sv_enter_running with (n := 7); [done|lia|]. intros s' Hl. by eapply HQ.
  - sv_step. by eapply HQ.
  - apply sv_enter_running with (n := 7); [done|lia|]. intros s' Hl. by eapply HQ.
  - sv_step. by eapply HQ.
  - sv_step. by eapply HQ.
  - sv_step. apply sv_control_pid_good. sv_step; [|by eapply HQ].
    apply sv_enter_stop_post; [done|]. intros s' Hl. eapply HQ; [exact Hl|simpl; lia].
  - sv_step. apply sv_control_pid_good. sv_step; [|by eapply HQ].
    apply sv_enter_stop_post; [done|]. intros s' Hl. eapply HQ; [exact Hl|simpl; lia].
Qed.

(** Processes and commands that are gone do no harm. *)
Record shrunk (s s' : Service) : Prop := {
  sh_config : config s' = config s;
  sh_state : s_state s' = s_state s;
  sh_timer : s_timer_watch s' = s_timer_watch s;
  sh_main_pid : main_pid s' = main_pid s ∧ main_pid_known s' = main_pid_known s ∨ (main_pid s' ≤ 0)%Z;
  sh_main : main_command s' = main_command s ∨ main_command s' = [];
  sh_control_pid : control_pid s' = control_pid s ∨ (control_pid s' ≤ 0)%Z;
  sh_control : control_command s' = control_command s ∧ control_command_id s' = control_command_id s ∨
    control_command s' = [] ∧ control_command_id s' = None }.
Lemma shrunk_ok s s' : shrunk s s' → service_ok s → service_ok s'.
Proof.
  intros [Ec Es Ew Hmp Hm Hkp Hk] [[C1 C2 C3 C4 C5 C6] [F1 F2 F3] Om Ok Ot].
  pose proof (config_fields _ _ Ec) as (Et & Ee & Eo & _).
  assert (main_pid s ≤ 0 → main_pid s' ≤ 0)%Z as Hmp' by (destruct Hmp as [[-> _]|]; lia).
  assert (control_pid s ≤ 0 → control_pid s' ≤ 0)%Z as Hkp' by (destruct Hkp as [->|]; lia).
  assert (main_command s = [] → main_command s' = []) as Hm' by (destruct Hm as [->|]; done).
  split; [split|split|..]; rewrite ?Et, ?Ee, ?Es, ?Ew; try done.
  - destruct Hmp as [[-> ->]|]; auto.
  - destruct Hk as [[-> ->]|[-> _]]; done.
  - destruct Hk as [[_ ->]|[_ ->]]; done.
  - destruct Hm as [->| ->]; [done|apply suffix_nil].
  - intros E. destruct (F1 E) as (? & F & F'). split_and!; auto.
  - unfold armed. by rewrite Et, Eo, Ew.
  - intros E. destruct (Om E). auto.
  - intros E. destruct (Ok E) as (? & E1 & E2). split; [auto|]. destruct Hk as [[-> ->]|[-> ->]]; done.
Qed.

Lemma sv_main_exited u s pid code status ok (Q : unit → Service → Prop) :
  service_ok s → has_main (s_state s) = true → ¬ start_is_control s →
  (∀ s' n, lands s n s' → (is_stopping (s_state s) = true → single s → n ≤ stop_rank (s_state s)) → Q tt s') →
  sv u s (main_exited u pid code status ok) Q.
Proof.
  intros Hok Hst Hns HQ. unfold main_exited. sv_step. sv_step. sv_step. sv_step. sv_step. sv_step.
  match goal with |- context [forgive ?l ok] => set (ok1 := forgive l ok) end.
  sv_step. apply sv_fail_if. intros f.
  match goal with |- sv u ?x _ _ => set (s1 := x) end.
  change (main_command s1) with (main_command s).
  assert (service_ok s1) as Hok1 by (eapply shrunk_ok, Hok; split; (done || (right; done) || by left)).
  case_bool_decide as Ht; simpl.
  - destruct ok1.
    + apply sv_run_next_main; [done..|]. intros s' Hl. eapply HQ; [exact Hl|]. intros _ Hsi. exfalso.
      apply Ht. eapply suffix_single; [apply Hok|apply Hsi].
    + sv_step. sv_step. apply sv_main_gone; [|done|done|].
      * eapply shrunk_ok, Hok1. split; (done || (right; done) || by left).
      * intros s' n Hl Hn. eapply HQ; [exact Hl|auto].
  - sv_step. sv_step. apply sv_main_gone; [|done|done|].
    + eapply shrunk_ok, Hok1. split; (done || (right; done) || by left).
    + intros s' n Hl Hn. eapply HQ; [exact Hl|auto].
Qed.

Lemma sv_control_gone u s ok (Q : unit → Service → Prop) :
  service_ok s → has_control (s_state s) = true → (control_pid s ≤ 0)%Z →
  (s_state s = SERVICE_START → s_type s = SERVICE_FORKING) →
  (∀ s' n, lands s n s' → (is_stopping (s_state s) = true → n ≤ stop_rank (s_state s)) → Q tt s') →
  sv u s (control_gone u ok) Q.
Proof.
  intros Hok Hst Hcp Hty HQ. pose proof (ok_core _ Hok) as Hc. unfold control_gone. sv_step. sv_step.
  assert (lands s (stop_rank (s_state s)) s) as Hstay by done.
  assert (∀ n, 7 ≤ n → is_stopping (s_state s) = false → ∀ s', lands s n s' → Q tt s') as HQ7.
  { intros n Hn Hs s' Hl. eapply HQ; [exact Hl|]. by rewrite Hs. }
  assert (∀ s1, learned s s1 ∨ vital s1 = vital s → core s1 ∧ config s1 = config s) as Hle.
  { intros s1 [[? (? & _)]|E]; [done|]. split; [by eapply core_vital|by apply vital_fields in E as (_ & _ & _ & _ & _ & _ & _ & _ & _ & _ & _ & ?)]. }
  assert (∀ s1, is_stopping (s_state s) = false → core s1 ∧ config s1 = config s →
    sv u s1 (update_service u (λ s, s <| reload_failure := negb ok |>);; service_enter_running u true) Q) as Hrun.
  { intros s1 Hs [Hc1 E1]. sv_step. sv_step.
    apply sv_enter_running with (n := 7); [by eapply core_vital; [|exact Hc1]|lia|].
    intros s' Hl. apply (HQ7 7); [lia|done|]. by eapply lands_config. }
  assert (is_stopping (s_state s) = false → sv u s (when ok (learn_main_pid u);;
    update_service u (λ s, s <| reload_failure := negb ok |>);; service_enter_running u true) Q) as Hup.
  { intros Hs. sv_step. destruct ok; unfold when.
    - apply sv_learn_main_pid; [done|]. intros s1 L1. apply Hrun; auto.
    - sv_step. by apply Hrun. }
  destruct (s_state s) eqn:Es; try done.
  - destruct (ok_main _ Hok) as [Hmp _]; [by rewrite Es|].
    destruct ok; [apply sv_enter_start with (n := 7)|apply sv_enter_signal with (n := 7)];
      [done|done|done|lia|apply HQ7; [lia|done]|done|done|simpl; lia|intros; lia|apply HQ7; [lia|done]].
  - sv_step. apply sv_assert; [by apply bool_decide_eq_true, Hty|]. destruct ok.
    + sv_step. apply sv_learn_main_pid; [done|]. intros s1 L1. apply sv_enter_start_post with (n := 7); [apply L1|lia|].
      intros s' Hl. apply (HQ7 7); [lia|done|]. eapply lands_config; [|exact Hl]. apply L1.
    + apply sv_enter_signal with (n := 7); [done|done|simpl; lia|intros; lia|apply HQ7; [lia|done]].
  - by apply Hup.
  - by apply Hup.
  - apply sv_enter_signal with (n := 5); [done|done|simpl; lia|intros; lia|].
    intros s' Hl. eapply HQ; [exact Hl|simpl; lia].
  - sv_step. apply sv_main_pid_good. intros r. sv_step; [|by eapply HQ].
    apply sv_enter_stop_post; [done|]. intros s' Hl. eapply HQ; [exact Hl|simpl; lia].
  - sv_step. apply sv_main_pid_good. intros r. sv_step; [|by eapply HQ].
    apply sv_enter_stop_post; [done|]. intros s' Hl. eapply HQ; [exact Hl|simpl; lia].
  - apply sv_enter_dead; [done|]. intros s' Hl. eapply HQ; [exact Hl|simpl; lia].
  - apply sv_enter_dead; [done|]. intros s' Hl. eapply HQ; [exact Hl|simpl; lia].
  - apply sv_enter_dead; [done|]. intros s' Hl. eapply HQ; [exact Hl|simpl; lia].
Qed.

Lemma sv_control_exited u s ok (Q : unit → Service → Prop) :
  service_ok s → (0 < control_pid s)%Z →
  (∀ s' n, lands s n s' → (is_stopping (s_state s) = true → single s → n ≤ stop_rank (s_state s)) → Q tt s') →
  sv u s (control_exited u ok) Q.
Proof.
  intros Hok Hpid HQ.
  assert (has_control (s_state s) = true) as Hst.
  { destruct (has_control (s_state s)) eqn:E; [done|]. destruct (ok_control _ Hok E). lia. }
  assert (s_state s = SERVICE_START → s_type s = SERVICE_FORKING) as Hty.
  { intros E. destruct (fits_start _ _ (ok_fits _ Hok) E) as (_ & _ & F).
    destruct (decide (s_type s = SERVICE_FORKING)) as [|Hn]; [done|]. specialize (F Hn). lia. }
  unfold control_exited. sv_step. sv_step. sv_step. sv_step.
  match goal with |- context [forgive ?l ok] => set (ok1 := forgive l ok) end.
  sv_step. apply sv_fail_if. intros f.
  match goal with |- sv u ?x _ _ => set (s1 := x) end.
  assert (service_ok s1) as Hok1 by (eapply shrunk_ok, Hok; split; (done || (right; done) || by left)).
  change (control_command (_ <| control_pid := 0%Z |>)) with (control_command s).
  assert (sv u s1 (update_service u (λ s, s <| control_command := [] |> <| control_command_id := None |>);;
    control_gone u ok1) Q) as Hgone.
  { sv_step. sv_step. apply sv_control_gone; [|done|done|done|].
    - eapply shrunk_ok, Hok1. split; (done || (right; done) || by left).
    - intros s' n Hl Hn. eapply HQ; [exact Hl|auto]. }
  case_bool_decide as Ht; simpl; [|exact Hgone]. destruct ok1; [|exact Hgone].
  apply sv_run_next_control; [done..|]. intros s' Hl. eapply HQ; [exact Hl|].
  intros _ Hsi. exfalso. apply Ht.
  destruct (core_control _ (ok_core _ Hok)) as (id & _ & Hsuf); [by intros E; rewrite E in Ht|].
  eapply suffix_single; [exact Hsuf|apply Hsi].
Qed.

Lemma sv_child u s pid code status :
  service_ok s → (0 < pid)%Z → ¬ aborts s (EvChild pid code status) →
  sv u s (service_sigchld_event u pid code status) (λ _ s', goes_on s (EvChild pid code status) s').
Proof.
  intros Hok Hpid Hna. unfold service_sigchld_event. sv_step. apply sv_assert; [by apply bool_decide_eq_true; lia|].
  sv_step. sv_step. sv_step. sv_step.
  match goal with |- context [main_exited u pid code status ?b] => set (ok := b) end.
  assert (∀ s1 s' n, config s1 = config s → s_state s1 = s_state s → lands s1 n s' →
    (is_stopping (s_state s1) = true → single s1 → n ≤ stop_rank (s_state s1)) →
    goes_on s (EvChild pid code status) s') as Hgo.
  { intros s1 s' n E1 Es (? & E2 & Hn) Hr. split_and!; [done|congruence|]. intros Hs Hsi. simpl. rewrite <- Es.
    etrans; [exact Hn|]. apply Hr; [congruence|]. intros id. apply config_fields in E1 as (_ & -> & _). apply Hsi. }
  destruct (decide (main_pid s = pid)) as [Hm|Hm].
  - rewrite bool_decide_eq_true_2 by done.
    assert (has_main (s_state s) = true) as Hst.
    { destruct (has_main (s_state s)) eqn:E; [done|]. destruct (ok_main _ Hok E). lia. }
    assert (¬ start_is_control s) as Hns by (intros Hx; by apply Hna).
    sv_step. apply sv_load_pid_file; [apply Hok|]. intros r s1 L1.
    assert (service_ok s1) as Hok1 by by eapply learned_ok.
    pose proof (ln_rest _ _ L1) as (E1 & Es1 & _).
    case_bool_decide.
    + sv_step. split_and!; [done|done|]. intros _ _. simpl. by rewrite Es1.
    + sv_step. apply sv_main_exited; [done|by rewrite Es1| |].
      * intros [Ety Es]. apply Hns. apply config_fields in E1 as (Et & _). split; congruence.
      * intros s' n Hl Hn. sv_step. by eapply Hgo.
  - rewrite bool_decide_eq_false_2 by done. sv_step. sv_step.
    + match goal with Hb : bool_decide _ = true |- _ => apply bool_decide_eq_true in Hb end.
      apply sv_control_exited; [done|lia|]. intros s' n Hl Hn. sv_step. by eapply Hgo.
    + sv_step. by apply goes_on_vital.
Qed.

(** ** The other events *)

Lemma sv_timer u s : service_ok s → s_timer_watch s ≠ None → sv u s (service_timer_event u) (λ _ s', goes_on s EvTimer s').
Proof.
  intros Hok Ht. pose proof (ok_core _ Hok) as Hc. unfold service_timer_event. sv_step. sv_step.
  assert (has_timer (s_state s) = true) as Hst.
  { destruct (has_timer (s_state s)) eqn:E; [done|]. by destruct Ht, (ok_timer _ Hok). }
  assert (∀ s' n, lands s n s' → n ≤ pred (stop_rank (s_state s)) → goes_on s EvTimer s') as Hr
    by (intros; by eapply lands_rank).
  assert (∀ s', lands s 7 s' → is_stopping (s_state s) = false → goes_on s EvTimer s') as H7 by (intros; by apply lands_goes_on).
  destruct (s_state s) eqn:Es; try done.
  - apply sv_enter_signal with (n := 7); [done|done|simpl; lia|intros; lia|intros; by apply H7].
  - apply sv_enter_signal with (n := 7); [done|done|simpl; lia|intros; lia|intros; by apply H7].
  - apply sv_enter_stop with (n := 7); [done|lia|intros; by apply H7].
  - sv_step. sv_step. apply sv_enter_running with (n := 7); [by eapply core_vital; [|exact Hc]|lia|].
    intros s' Hl. by apply H7.
  - apply sv_enter_signal with (n := 5); [done|done|simpl; lia|intros; lia|]. intros s' Hl. by apply (Hr s' 5).
  - sv_step; [apply sv_enter_signal with (n := 4); [done|done|simpl; lia|intros; lia|]|apply sv_enter_stop_post; [done|]];
      intros s' Hl; (eapply Hr; [exact Hl|simpl; lia]).
  - apply sv_enter_stop_post; [done|]. intros s' Hl. eapply Hr; [exact Hl|simpl; lia].
  - apply sv_enter_signal with (n := 2); [done|done|simpl; lia|done|]. intros s' Hl. by apply (Hr s' 2).
  - sv_step; [apply sv_enter_signal with (n := 1); [done|done|simpl; lia|done|]|apply sv_enter_dead; [done|]];
      intros s' Hl; (eapply Hr; [exact Hl|simpl; lia]).
  - apply sv_enter_dead; [done|]. intros s' Hl. eapply Hr; [exact Hl|simpl; lia].
  - apply sv_enter_restart; [done|]. intros s' Hl. eapply Hr; [exact Hl|simpl; lia].
Qed.

Lemma sv_start u s e : service_ok s → e ≠ EvTimer → allowed s EvStart → sv u s (service_start u) (λ _ s', goes_on s e s').
Proof.
  intros Hok He Ha. unfold service_start. sv_step. sv_step.
  destruct (is_stopping (s_state s)) eqn:Est; [sv_step; by apply goes_on_vital|].
  destruct (is_starting (s_state s)) eqn:Esa; [sv_step; by apply goes_on_vital|].
  simpl in Ha. unfold service_active_state in Ha. sv_step. apply sv_assert; [by destruct (s_state s)|].
  sv_step. sv_step. destruct (ratelimit_test _ _) as [ok rl]. sv_step. sv_step.
  destruct ok; simpl; [|sv_step; by apply goes_on_vital].
  sv_step. sv_step. assert (main_pid s ≤ 0)%Z as Hm by (apply (ok_main _ Hok); by destruct (s_state s)).
  sv_step. apply sv_enter_start_pre with (n := 7); [|exact Hm|lia|].
  - destruct Hok as [[] _ _ _ _]. by split.
  - intros s' Hl. sv_step. by apply lands_goes_on.
Qed.
Lemma sv_stop u s e : service_ok s → e ≠ EvTimer → allowed s EvStop → sv u s (service_stop u) (λ _ s', goes_on s e s').
Proof.
  intros Hok He Ha. unfold service_stop. sv_step. sv_step. sv_step. sv_step.
  set (s1 := s <| forbid_restart := true |>). change (s_state s1) with (s_state s).
  assert (core s1) as Hc by (eapply core_vital; [|apply Hok]; done).
  destruct (is_stopping (s_state s)) eqn:Est; [sv_step; by apply goes_on_vital|].
  assert (∀ s', lands s1 7 s' → goes_on s e s') as H7 by (intros; by apply lands_goes_on).
  simpl in Ha. unfold service_active_state in Ha.
  destruct (s_state s) eqn:Es; try done; sv_step.
  - apply sv_enter_signal with (n := 7); [done|done|simpl; lia|intros; lia|]. intros s' Hl. sv_step. auto.
  - apply sv_enter_signal with (n := 7); [done|done|simpl; lia|intros; lia|]. intros s' Hl. sv_step. auto.
  - apply sv_enter_signal with (n := 7); [done|done|simpl; lia|intros; lia|]. intros s' Hl. sv_step. auto.
  - apply sv_enter_stop with (n := 7); [done|lia|]. intros s' Hl. sv_step. auto.
  - apply sv_enter_stop with (n := 7); [done|lia|]. intros s' Hl. sv_step. auto.
  - apply sv_enter_signal with (n := 7); [done|done|simpl; lia|intros; lia|]. intros s' Hl. sv_step. auto.
  - apply sv_set_state with (n := 7); [done|by apply fits_plain|simpl; lia|]. intros s' Hl. sv_step. auto.
Qed.
Lemma sv_message u s pid tags :
  service_ok s →
  sv u s (service_notify_message u pid tags) (λ _ s', goes_on s (EvMessage pid tags) s').
Proof.
  intros Hok. unfold service_notify_message. sv_step. sv_step.
  destruct (bool_decide _); [sv_step; by apply goes_on_vital|].
  destruct (_ && _); [sv_step; by apply goes_on_vital|].
  apply sv_seq with (R := λ s1, service_ok s1 ∧ config s1 = config s ∧ s_state s1 = s_state s).
  { destruct (strv_find_prefix tags "MAINPID=") as [e|]; [|by sv_step].
    sv_step; [|done]. destruct (parse_pid _) as [|q]; [by sv_step|]. sv_step.
    apply sv_set_main_pid; [apply Hok|intros r _; by sv_step|]. intros s1 L1. sv_step.
    split; [|by destruct L1 as [_ (? & ? & _)]]. eapply learned_ok; [exact Hok|exact L1|].
    by destruct (s_state s). }
  intros s1 (Hok1 & E1 & Es1).
  assert (∀ s2 s', service_ok s2 → config s2 = config s → (is_stopping (s_state s) = true → s_state s2 = s_state s) →
    vital s' = vital s2 → goes_on s (EvMessage pid tags) s') as Hgo.
  { intros s2 s' Hok2 E2 Es2 Ev. pose proof (vital_fields _ _ Ev) as (_ & _ & _ & Es' & _ & _ & _ & _ & _ & _ & _ & Ec').
    split; [by eapply service_ok_vital|]. split; [congruence|]. intros Hs _. simpl. by rewrite Es', Es2. }
  apply sv_seq with (R := λ s2, service_ok s2 ∧ config s2 = config s ∧ (is_stopping (s_state s) = true → s_state s2 = s_state s)).
  { apply sv_when; intros Hb; [|done].
    apply sv_enter_start_post with (n := 7); [apply Hok1|lia|]. intros s' (? & ? & _).
    split_and!; [done|congruence|]. intros Hs. rewrite !andb_true_iff, !bool_decide_eq_true in Hb.
    destruct Hb as [[_ Hb] _]. by rewrite Hb in Hs. }
  intros s2 (Hok2 & E2 & Es2). destruct (strv_find_prefix tags "STATUS=") as [e|].
  - sv_step. apply sv_mono with (Q := λ _ s', s' = s2); [destruct (bool_decide _); by sv_step|].
    intros [] ? ->; simpl; [|sv_step; by eapply Hgo]. sv_step. sv_step. sv_step. by eapply Hgo.
  - sv_step. by eapply Hgo.
Qed.
Lemma sv_bus_name u s e name old_owner new_owner :
  service_ok s → e ≠ EvTimer → allowed s (EvBusName name old_owner new_owner) →
  sv u s (service_bus_name_owner_change u name old_owner new_owner) (λ _ s', goes_on s e s').
Proof.
  intros Hok He [Ha Hb]. unfold service_bus_name_owner_change. sv_step. sv_step.
  sv_step. apply sv_assert; [by apply bool_decide_eq_true|]. sv_step. apply sv_assert.
  { apply orb_true_iff. by rewrite !bool_decide_eq_true. }
  sv_step. sv_step.
  generalize (bool_decide (new_owner ≠ None)). intros good. set (s1 := s <| bus_name_good := good |>).
  assert (core s1) as Hc by (eapply core_vital; [|apply Hok]; done).
  assert (∀ s', is_stopping (s_state s) = false → lands s1 7 s' → goes_on s e s') as H7 by (intros; by apply lands_goes_on).
  change (s_state s1) with (s_state s). change (s_type s1) with (s_type s).
  destruct (bool_decide (s_type s = SERVICE_DBUS)); [destruct (decide (s_state s = SERVICE_RUNNING)) as [Es|Es]|].
  - rewrite bool_decide_eq_true_2 by done. apply sv_enter_running with (n := 7); [done|lia|].
    intros s'. apply H7. by rewrite Es.
  - rewrite bool_decide_eq_false_2 by done. sv_step; [|by apply goes_on_vital].
    match goal with Hx : _ && _ = true |- _ => apply andb_true_iff in Hx as [Es'%bool_decide_eq_true _] end.
    apply sv_enter_start_post with (n := 7); [done|lia|]. intros s'. apply H7. by rewrite Es'.
  - sv_step; [sv_step|]; by apply goes_on_vital.
Qed.
Lemma sv_cgroup_empty u s e :
  service_ok s → e ≠ EvTimer → sv u s (service_cgroup_notify_event u) (λ _ s', goes_on s e s').
Proof.
  intros Hok He. pose proof (ok_core _ Hok) as Hc. unfold service_cgroup_notify_event. sv_step. sv_step.
  assert (∀ n s', lands s n s' → n ≤ stop_rank (s_state s) → goes_on s e s') as Hr.
  { intros n s' Hl Hn. eapply lands_rank; [exact Hl|by destruct e]. }
  assert (goes_on s e s) as Hstay by by apply goes_on_vital.
  destruct (s_state s) eqn:Es; try (by sv_step).
  - apply sv_enter_running with (n := 7); [done|lia|]. intros s' Hl. apply lands_goes_on; [exact Hl|by rewrite Es].
  - sv_step. apply sv_main_pid_good. intros r. sv_step. apply sv_control_pid_good. sv_step; [|done].
    apply sv_enter_stop_post; [done|]. intros s' Hl. eapply Hr; [exact Hl|simpl; lia].
  - sv_step. apply sv_main_pid_good. intros r. sv_step. apply sv_control_pid_good. sv_step; [|done].
    apply sv_enter_stop_post; [done|]. intros s' Hl. eapply Hr; [exact Hl|simpl; lia].
  - sv_step. apply sv_main_pid_good. intros r. sv_step. apply sv_control_pid_good. sv_step; [|done].
    apply sv_enter_dead; [done|]. intros s' Hl. eapply Hr; [exact Hl|simpl; lia].
  - sv_step. apply sv_main_pid_good. intros r. sv_step. apply sv_control_pid_good. sv_step; [|done].
    apply sv_enter_dead; [done|]. intros s' Hl. eapply Hr; [exact Hl|simpl; lia].
Qed.

Lemma sv_kill_one u s who other pid sig r (Q : Z → Service → Prop) :
  (∀ r, Q r s) → sv u s (kill_one who other pid sig r) Q.
Proof. intros HQ. unfold kill_one. sv_steps; apply HQ. Qed.
Lemma sv_kill u s who mode sig (Q : Z → Service → Prop) : (∀ r, Q r s) → sv u s (service_kill u who mode sig) Q.
Proof.
  intros HQ. unfold service_kill. sv_step. sv_step.
  destruct (_ && _); [by sv_step|]. destruct (_ && _); [by sv_step|].
  sv_step. apply sv_kill_one. intros r1. sv_step. apply sv_kill_one. intros r2.
  destruct (_ && _); [|by sv_step].
  assert (∀ b, sv u s (if b : bool then alloc else mret true : MM bool) (λ _ s', s' = s)) as Ha
    by (intros []; by sv_step).
  sv_step. sv_step. destruct (negb _); [by sv_step|].
  do 2 (sv_step; eapply sv_mono; [apply Ha|]; intros [] ? ->; simpl; [|by sv_step]).
  sv_step. sv_step. by sv_step.
Qed.
Lemma sv_check_gc u s (Q : bool → Service → Prop) : (∀ b, Q b s) → sv u s (service_check_gc u) Q.
Proof.
  intros HQ. unfold service_check_gc. sv_step. apply sv_cgroup_good. intros c. destruct (bool_decide _); [by sv_step|].
  sv_step. apply sv_main_pid_good. intros p. destruct (bool_decide _); [by sv_step|].
  sv_step. apply sv_control_pid_good. destruct (bool_decide _); [by sv_step|]. sv_step. sv_step. by sv_step.
Qed.

(** Every event that may happen is handled. *)
Lemma sv_reload u s : service_ok s → allowed s EvReload → sv u s (service_reload u) (λ _ s', goes_on s EvReload s').
Proof.
  intros Hok Ha. pose proof (ok_core _ Hok) as Hc. simpl in Ha. unfold service_active_state in Ha.
  unfold service_reload. sv_step. sv_step. sv_step.
  apply sv_assert; [apply orb_true_iff; rewrite !bool_decide_eq_true; destruct (s_state s); auto; done|].
  sv_step. apply sv_enter_reload with (n := 7); [done|lia|]. intros s' Hl. sv_step.
  apply lands_goes_on; [exact Hl|by destruct (s_state s)].
Qed.
Lemma sv_handle u s e : service_ok s → allowed s e → ¬ aborts s e → sv u s (handle u e) (λ _ s', goes_on s e s').
Proof.
  intros Hok Ha Hna. pose proof (ok_core _ Hok) as Hc. destruct e; cbn [handle].
  - sv_step. eapply sv_mono; [by apply (sv_start u s EvStart)|]. intros r s' Hg. by sv_step.
  - sv_step. eapply sv_mono; [by apply (sv_stop u s EvStop)|]. intros r s' Hg. by sv_step.
  - sv_step. eapply sv_mono; [by apply (sv_reload u s)|]. intros r s' Hg. by sv_step.
  - unfold service_reset_failed. sv_step. sv_step. sv_step. sv_step.
    + match goal with Hb : bool_decide _ = true |- _ => apply bool_decide_eq_true in Hb as Es end.
      apply sv_set_state with (n := 7); [done|by apply fits_plain|simpl; lia|]. intros s' Hl. sv_step.
      apply lands_goes_on; [by eapply lands_vital; [|exact Hl]|by rewrite Es].
    + sv_step. by apply goes_on_vital.
  - by apply sv_child.
  - by apply sv_timer.
  - by apply sv_cgroup_empty.
  - by apply sv_message.
  - by apply sv_bus_name.
  - unfold service_bus_query_pid_done. sv_step. sv_step. sv_step; [|by apply goes_on_vital].
    match goal with Hb : _ && _ = true |- _ => apply andb_true_iff in Hb as [_ Hb]; rename Hb into Ht end.
    sv_step. apply sv_set_main_pid; [done|intros r _; sv_step; by apply goes_on_vital|].
    intros s1 L1. sv_step. pose proof (ln_rest _ _ L1) as (E1 & Es1 & _).
    split_and!; [|done|intros _ _; simpl; by rewrite Es1]. eapply learned_ok; [exact Hok|exact L1|].
    by destruct (s_state s).
  - unfold service_set_socket_fd. sv_step. sv_step. apply sv_assert; [by apply bool_decide_eq_true|].
    sv_step. sv_step. sv_step. sv_step.
    do 3 (destruct (bool_decide _); [sv_step; sv_step; by apply goes_on_vital|]).
    sv_step. sv_step. sv_step. sv_step. by apply goes_on_vital.
  - sv_step. apply sv_kill. intros r. sv_step. by apply goes_on_vital.
  - sv_step. apply sv_check_gc. intros b. sv_step. by apply goes_on_vital.
Qed.

(** ** The event that aborts *)

(** As [sv], for a computation that may fail an assertion. *)
Definition lv {A} (u : UnitPtr) (s : Service) (c : MM A) (Q : A → Service → Prop) : Prop :=
  ∀ m t l, seen_units m !! u = Some (Some t, l, Some s) →
    wlp c m (λ a m', ∃ s', seen_units m' = <[u := (Some t, l, Some s')]> (seen_units m) ∧ Q a s').
Lemma sv_lv {A} u s (c : MM A) (Q : A → Service → Prop) : sv u s c Q → lv u s c Q.
Proof. intros Hc m t l Hm. specialize (Hc m t l Hm). revert Hc. unfold wx, wlp. by destruct (c m). Qed.
Lemma lv_bind {A B} u s (c : MM A) (f : A → MM B) (Q : B → Service → Prop) :
  lv u s c (λ a s', lv u s' (f a) Q) → lv u s (c ≫= f) Q.
Proof.
  intros Hc m t l Hm. apply wlp_bind. eapply wlp_mono; [by apply Hc|]. intros a m1 (s1 & E1 & Hf).
  eapply wlp_mono; [apply (Hf m1 t l); by rewrite E1, lookup_insert_eq|]. intros b m2 (s2 & E2 & HQ).
  exists s2. split; [|exact HQ]. by rewrite E2, E1, insert_insert_eq.
Qed.
Lemma lv_assert_false {A} u s b (k : MM A) (Q : A → Service → Prop) : b = false → lv u s (assert_ b;; k) Q.
Proof. by intros -> m t l _. Qed.
(** The main process of a forking service that starts is gone: that does not return. *)
Lemma lv_main_exited u s pid code status ok (Q : unit → Service → Prop) :
  service_ok s → start_is_control s → lv u s (main_exited u pid code status ok) Q.
Proof.
  intros Hok [Ety Es]. destruct (fits_start _ _ (ok_fits _ Hok) Es) as (_ & Fm & _). specialize (Fm Ety).
  unfold main_exited. apply lv_bind, sv_lv. sv_step. apply lv_bind, sv_lv. sv_step. apply lv_bind, sv_lv. sv_step. cbv zeta.
  apply lv_bind, sv_lv, sv_fail_if. intros f. cbn [main_command]. 
  match goal with |- context [bool_decide (tail ?l ≠ [])] => change l with (main_command s) end. rewrite Fm.
  rewrite bool_decide_eq_false_2 by (intros E; by destruct E). simpl. apply lv_bind, sv_lv. sv_step.
  unfold main_gone. apply lv_bind, sv_lv. sv_step. cbn. rewrite Es. rewrite bool_decide_eq_false_2 by (by rewrite Ety).
  apply lv_assert_false. by rewrite Ety.
Qed.
Lemma sv_no_pid_file u s (Q : Z → Service → Prop) :
  pid_file s = None → Q (- ENOENT)%Z s → sv u s (service_load_pid_file u) Q.
Proof. intros E HQ. unfold service_load_pid_file. sv_step. sv_step. rewrite E. by sv_step. Qed.
Lemma lv_child_aborts u s pid code status :
  service_ok s → (0 < pid)%Z → aborts s (EvChild pid code status) →
  lv u s (service_sigchld_event u pid code status) (λ _ s', goes_on s (EvChild pid code status) s' ∧ pid_file s ≠ None).
Proof.
  intros Hok Hpid [Hf Hm]. unfold service_sigchld_event. apply lv_bind, sv_lv, sv_assert; [by apply bool_decide_eq_true; lia|].
  apply lv_bind, sv_lv, sv_unit_at. intros U _. apply lv_bind, sv_lv. sv_step. cbv zeta. rewrite bool_decide_eq_true_2 by done.
  apply lv_bind, sv_lv. destruct (pid_file s) as [path|] eqn:Ep.
  - apply sv_load_pid_file; [apply Hok|]. intros r s1 L1. pose proof (ln_rest _ _ L1) as (E1 & Es1 & _).
    assert (service_ok s1) as Hok1.
    { eapply learned_ok; [exact Hok|exact L1|]. destruct Hf as [_ Es]. by rewrite Es. }
    case_bool_decide.
    + apply sv_lv. sv_step. split; [|done]. split_and!; [done|done|]. intros _ _. simpl. by rewrite Es1.
    + apply lv_bind, lv_main_exited; [done|]. destruct Hf as [Et Es]. apply config_fields in E1 as (Et' & _). split; congruence.
  - apply sv_no_pid_file; [done|]. apply lv_bind. by apply lv_main_exited.
Qed.

(** What holds whenever the handler returns. *)
Lemma lv_handle u s e : service_ok s → allowed s e → lv u s (handle u e) (λ _ s', goes_on s e s').
Proof.
  intros Hok Ha. destruct (decide (aborts s e)) as [Hb|Hb]; [|by apply sv_lv, sv_handle].
  destruct e as [| | | |pid code status| | | | | | | |]; try done. intros m t l Hm.
  eapply wlp_mono; [by apply (lv_child_aborts u s pid code status)|]. intros [] m' (s' & ? & ? & _). by exists s'.
Qed.
Lemma handle_aborts u s m m' e :
  holds u s m → service_ok s → allowed s e → aborts s e → pid_file s = None → handle u e m ≠ Ret tt m'.
Proof.
  intros (t & l & Hm) Hok Ha Hb Hp E. destruct e as [| | | |pid code status| | | | | | | |]; try done.
  destruct (wlp_elim _ _ _ _ _ (lv_child_aborts u s pid code status Hok Ha Hb m t l Hm) E) as (_ & _ & _ & F). by destruct F.
Qed.
Lemma handle_step u s m e m' :
  holds u s m → service_ok s → allowed s e → handle u e m = Ret tt m' →
  ∃ s', holds u s' m' ∧ elsewhere u m' = elsewhere u m ∧ goes_on s e s'.
Proof.
  intros (t & l & Hm) Hok Ha E. destruct (wlp_elim _ _ _ _ _ (lv_handle u s e Hok Ha m t l Hm) E) as (s' & Es & Hg).
  exists s'. unfold holds, elsewhere. rewrite Es. split; [exists t, l; apply lookup_insert_eq|]. split; [apply delete_insert_eq|done].
Qed.
Lemma handle_safe u s m e : holds u s m → service_ok s → allowed s e → ¬ aborts s e →
  handle u e m ≠ Fault ∧ (engine_total → ∃ m', handle u e m = Ret tt m').
Proof.
  intros Hm Hok Ha Hna. pose proof (sv_elim _ _ _ _ _ (sv_handle u s e Hok Ha Hna) Hm) as Hw. split; [by eapply wx_no_fault|].
  intros Ht. destruct (wx_elim _ _ _ _ Hw Ht) as ([] & m' & E & _). by exists m'.
Qed.
Lemma holds_unique u s s' m : holds u s m → holds u s' m → s = s'.
Proof. intros (t & l & E) (t' & l' & E'). congruence. Qed.

(** Along a run. *)
Lemma runs_ok u es m m' s :
  runs u es m m' → holds u s m → service_ok s →
  ∃ s', holds u s' m' ∧ service_ok s' ∧ config s' = config s ∧ elsewhere u m' = elsewhere u m.
Proof.
  intros Hr. revert s. induction Hr as [m|e es m s0 m1 m' Hs0 Ha Hh Hr IH]; intros s Hs Hok; [by exists s|].
  rewrite (holds_unique _ _ _ _ Hs Hs0) in *.
  destruct (handle_step u s0 m e m1 Hs0 Hok Ha Hh) as (s2 & Hs2 & Ee & Hok2 & Ec & _). destruct (IH s2 Hs2 Hok2) as (s' & ? & ? & ? & ?).
  exists s'. split_and!; [done|done|congruence|congruence].
Qed.
End spec.

Lemma rank_0 st : stop_rank st ≤ 0 → st ∈ [SERVICE_DEAD; SERVICE_FAILED; SERVICE_AUTO_RESTART].
Proof. destruct st; simpl; try lia; intros _; rewrite !elem_of_cons; auto. Qed.

(** The number of timeouts in a run. *)
Definition timeouts (es : list Event) : nat :=
  length (List.filter (λ e, match e with EvTimer => true | _ => false end) es).

Section theorems.
Context {P : Type} `{ServiceEngineLaws P, !World, !WorldLaws}.

(** C37. The state machine of services is closed.  Along every sequence of starts, stops,
    reloads, exits of processes, timeouts, messages, bus events and empty control groups that the
    manager may deliver ([allowed]: what its callers check, main processes named by messages and the
    bus at any time included), and whatever the system answers, the service keeps the invariant on its processes, commands
    and timer, and its configuration and every other service stay as they are.  The next event is then
    handled without a failed assertion of src/service.c, and to the end if the calls into the rest of the
    manager come to theirs, with one exception ([aborts]): the exit of the known main process of a
    forking service whose start command still runs.  That is no false alarm: without a pid file it
    never gets through. *)
Theorem service_events_safe u es (m m' : Manager P) s :
  holds u s m → service_ok s → runs u es m m' →
  ∃ s', holds u s' m' ∧ service_ok s' ∧ config s' = config s ∧ elsewhere u m' = elsewhere u m ∧
    (∀ e, allowed s' e → ¬ aborts s' e → handle u e m' ≠ Fault ∧ (engine_total → ∃ m2, handle u e m' = Ret tt m2)) ∧
    (∀ e m2, allowed s' e → aborts s' e → pid_file s' = None → handle u e m' ≠ Ret tt m2).
Proof.
  intros Hs Hok Hr. destruct (runs_ok u es m m' s Hr Hs Hok) as (s' & Hs' & Hok' & Ec & Ee).
  exists s'. split_and!; [done..| |].
  - intros e Ha Hb. by apply (handle_safe u s').
  - intros e m2 Ha Hb Hp. by eapply handle_aborts.
Qed.

(** C38. Stopping comes to an end: a service whose lists of commands have at most one command each, and
    which is being stopped, is dead, failed or waiting for its restart at some point of
    every run with as many timeouts as its state has rank, six at most, whatever
    else happens in between and whatever the system answers; and as long as it is being stopped its
    timer runs, if it has a timeout and is not a oneshot.  With longer lists the stop can start over for ever
    ([stop_starts_over]), and a oneshot loses its timer ([killed_oneshot_goes_on]). *)
Theorem service_stop_ends u es (m m' : Manager P) s :
  holds u s m → service_ok s → single s → is_stopping (s_state s) = true → runs u es m m' →
  (stop_rank (s_state s) ≤ timeouts es →
    ∃ es1 es2 m1 s1, es = es1 ++ es2 ∧ runs u es1 m m1 ∧ runs u es2 m1 m' ∧ holds u s1 m1 ∧
      s_state s1 ∈ [SERVICE_DEAD; SERVICE_FAILED; SERVICE_AUTO_RESTART]) ∧
  (∀ s', holds u s' m' → is_stopping (s_state s') = true → s_type s ≠ SERVICE_ONESHOT →
    (0 < timeout_usec s)%Z → allowed s' EvTimer).
Proof.
  intros Hs Hok Hsi Hst Hr. split.
  2: { intros s' Hs' Hst' Hty Hto. destruct (runs_ok u es m m' s Hr Hs Hok) as (s2 & Hs2 & Hok2 & Ec & _).
    rewrite (holds_unique _ _ _ _ Hs' Hs2) in *. apply config_fields in Ec as (Et & _ & Eo & _).
    apply (fits_armed _ _ (ok_fits _ Hok2)); [by destruct (s_state s2)|congruence|by rewrite Eo]. }
  assert (stop_rank (s_state s) ≤ 6) as H6 by (revert Hst; destruct (s_state s); simpl; (done || lia)). clear Hst.
  revert s Hs Hok Hsi H6. induction Hr as [m|e es m s0 m1 m' Hs0 Ha Hh Hr IH]; intros s Hs Hok Hsi H6 Hn.
  - exists [], [], m, s. split_and!; [done|constructor|constructor|done|]. simpl in Hn. by apply rank_0.
  - rewrite (holds_unique _ _ _ _ Hs Hs0) in *. destruct (decide (stop_rank (s_state s0) = 0)) as [Hr0|Hr0].
    { exists [], (e :: es), m, s0. split; [done|]. split; [apply runs_nil|]. split; [by eapply runs_cons; [exact Hs0|..]|]. split; [done|]. apply rank_0. by rewrite Hr0. }
    destruct (handle_step u s0 m e m1 Hs0 Hok Ha Hh) as (s2 & Hs2 & Ee & Hok2 & Ec & Hrank).
    assert (is_stopping (s_state s0) = true) as Hst0 by (revert Hr0 H6; destruct (s_state s0); simpl; (done || lia)).
    specialize (Hrank Hst0 Hsi).
    destruct (IH s2 Hs2 Hok2) as (es1 & es2 & m3 & s3 & -> & R1 & R2 & Hs3 & Hin).
    + intros id. apply config_fields in Ec as (_ & -> & _). apply Hsi.
    + destruct e; simpl in Hrank; lia.
    + unfold timeouts in *. destruct e; simpl in *; lia.
    + exists (e :: es1), es2, m3, s3. split_and!; [done|by eapply runs_cons; [exact Hs0|..]|done|done|done].
Qed.
End theorems.

(** ** Running events *)

#[export] Instance allowed_dec s e : Decision (allowed s e).
Proof. destruct e; unfold allowed; apply _. Defined.

Section run.
Context {P : Type} `{PrivateOf P Service, !ServiceEngine P, !World}.

(** The events one after the other, as long as they are allowed. *)
Fixpoint run (u : UnitPtr) (es : list Event) : M (Manager P) unit :=
  match es with
  | [] => mret tt
  | e :: es => s ← service_at u; assert_ (bool_decide (allowed s e));; handle u e;; run u es
  end.
End run.

Lemma run_runs {P} `{ServiceEngineLaws P, !World, !WorldLaws} u es (m m' : Manager P) s :
  holds u s m → service_ok s → run u es m = Ret tt m' → runs u es m m'.
Proof.
  revert m s. induction es as [|e es IH]; intros m s Hs Hok E; simpl in E.
  { injection E as <-. constructor. }
  pose proof (holds_unit _ _ _ Hs) as (U & HU & HP & _).
  assert (service_at u m = Ret s m) as Eat.
  { unfold service_at, unit_at, mbind, M_bind. rewrite HU. simpl. by rewrite HP. }
  rewrite (bind_ret _ _ _ _ _ Eat) in E. case_bool_decide as Ha; [|done].
  cbn [assert_] in E. erewrite bind_ret in E by reflexivity.
  destruct (handle u e m) as [[] m1| |] eqn:Hh; [|unfold mbind, M_bind in E; by rewrite Hh in E..].
  rewrite (bind_ret _ _ _ _ _ Hh) in E. destruct (handle_step u s m e m1 Hs Hok Ha Hh) as (s1 & Hs1 & _ & Hok1 & _).
  eapply runs_cons; [exact Hs|done|exact Hh|]. by eapply IH.
Qed.

(** ** Examples *)
Module ServiceDemo.
Import Demo.

#[export] Instance demo_private : PrivateOf Service Service := {| get_private := Some; put_private := id; get_put_private _ := eq_refl;
  put_get_private p a E := eq_sym (f_equal (default p) E) |}.
#[export] Instance demo_engine : ServiceEngine Service := {|
  se_notify _ _ _ _ := mret tt; se_add_start_job _ := mret 0%Z; se_connection_unref _ := mret tt;
  se_sockets_dead _ := mret tt; se_query_pid _ := mret tt |}.
#[export] Instance demo_engine_laws : ServiceEngineLaws Service.
Proof. refine {| engine_total := True |}; intros; by apply wp_wx, wp_ret. Defined.
(** Commands start but for a missing one, signals arrive, no control group is left. *)
#[export] Instance demo_world : World := λ n q,
  match q with
  | QSpawn _ c _ _ _ _ _ _ =>
      if bool_decide (ec_path c = "/bin/missing") then ((- ENOENT)%Z, "") else (1000 + Z.of_nat n, "")%Z
  | QAlien pid => (if bool_decide (pid = 66) then 1 else 0, "")%Z
  | QOwnPid => (1, "")%Z
  | QCgroupEmpty _ => (1, "")%Z
  | QLine _ => ((- ENOENT)%Z, "")
  | _ => (0, "")%Z
  end.
#[export] Instance demo_world_laws : WorldLaws.
Proof. intros n u c f ap ac tty no p. unfold answer, demo_world, ENOENT. destruct (bool_decide _); cbn [fst]; lia. Qed.

Definition command (path : string) : ExecCommand := mkExecCommand path [path] false.
Definition commands (l : list (ServiceExecCommand * list string)) (id : ServiceExecCommand) : list ExecCommand :=
  command <$> default [] (snd <$> List.find (λ p, bool_decide (p.1 = id)) l).
(** A loaded service that is dead. *)
Definition service (t : ServiceType) (l : list (ServiceExecCommand * list string)) : Service := {|
  s_type := t; s_restart := SERVICE_RESTART_NO; pid_file := None; restart_usec := 100000; timeout_usec := 90000000;
  exec_command := commands l; socket_stdio := false; kill_mode := KILL_PROCESS; kill_signal := SIGTERM;
  send_sigkill := true; pam_name := None; s_state := SERVICE_DEAD; deserialized_state := SERVICE_DEAD;
  main_exec_status := no_status; control_command := []; main_command := []; control_command_id := None;
  main_pid := 0; control_pid := 0; socket_fd := -1; permissions_start_only := false;
  root_directory_start_only := false; remain_after_exit := false; guess_main_pid := true; failure := false;
  reload_failure := false; main_pid_known := false; main_pid_alien := false; bus_name_good := false;
  forbid_restart := false; got_socket_fd := false; sysv_path := None; bus_name := None; status_text := None;
  s_ratelimit := RATELIMIT_INIT 10000000 5; accept_socket := None; s_timer_watch := None;
  notify_access := NOTIFY_ALL |}.
Definition host (s : Service) : Manager Service :=
  manager [(1, unit "a.service" nodeps None s); (2, unit "b.service" nodeps None s)] [] [] [] [] [].
Definition service_of (r : outcome (Manager Service) ()) : option Service :=
  match r with Ret _ m => U ← units m !! 1; Some (priv U) | _ => None end.

Definition daemon : Service :=
  service SERVICE_SIMPLE [(SERVICE_EXEC_START, ["/bin/a"]); (SERVICE_EXEC_STOP, ["/bin/b"])].
Lemma dead_ok s :
  s_state s = SERVICE_DEAD → exec_command s SERVICE_EXEC_START ≠ [] →
  (s_type s ≠ SERVICE_ONESHOT → tail (exec_command s SERVICE_EXEC_START) = []) →
  (main_pid s ≤ 0)%Z → (control_pid s ≤ 0)%Z → main_command s = [] → control_command s = [] →
  control_command_id s = None → s_timer_watch s = None → service_ok s.
Proof.
  intros Es C1 C2 Hm Hc Em Ec Ei Et. split; rewrite ?Es; try done.
  split; rewrite ?Em, ?Ec, ?Ei; try done. apply suffix_nil.
Qed.
Lemma daemon_ok : service_ok daemon.
Proof. apply dead_ok; vm_compute; done. Qed.

Definition daily : list Event :=
  [EvStart; EvMessage 1000 ["MAINPID=77"; "STATUS=up"]; EvChild 77 CLD_KILLED 15; EvTimer; EvStop; EvTimer].
Lemma service_events_safe_witness :
  ∃ m' s', runs 1 daily (host daemon) m' ∧ holds 1 s' m' ∧ service_ok s' ∧ config s' = config daemon ∧
    elsewhere 1 m' = elsewhere 1 (host daemon) ∧
    (∀ e, allowed s' e → ¬ aborts s' e → handle 1 e m' ≠ Fault ∧ (engine_total → ∃ m2, handle 1 e m' = Ret tt m2)) ∧
    (∀ e m2, allowed s' e → aborts s' e → pid_file s' = None → handle 1 e m' ≠ Ret tt m2).
Proof.
  assert (holds 1 daemon (host daemon)) as Hs by (exists UNIT_TARGET, UNIT_LOADED; vm_compute; reflexivity).
  destruct (run 1 daily (host daemon)) as [[] m'| |] eqn:E; [|vm_compute in E; discriminate..].
  assert (runs 1 daily (host daemon) m') as Hr by (eapply run_runs; [exact Hs|exact daemon_ok|exact E]).
  destruct (service_events_safe 1 daily (host daemon) m' daemon Hs daemon_ok Hr) as (s' & Hs').
  exists m', s'. split; [exact Hr|exact Hs'].
Defined.
Example daily_states :
  (s_state <$> service_of (run 1 (take 1 daily) (host daemon)),
   s_state <$> service_of (run 1 (take 3 daily) (host daemon)),
   s_state <$> service_of (run 1 daily (host daemon)))
  = (Some SERVICE_RUNNING, Some SERVICE_STOP, Some SERVICE_STOP_SIGKILL).
Proof. vm_compute. reflexivity. Qed.

(** The stop command hangs, and so does the main process. *)
Definition hung : Service :=
  daemon <| s_state := SERVICE_STOP |> <| main_pid := 77%Z |> <| main_pid_known := true |> <| control_pid := 88%Z |>
    <| control_command := [command "/bin/b"] |> <| control_command_id := Some SERVICE_EXEC_STOP |>
    <| s_timer_watch := Some 90000000%Z |>.
Lemma hung_ok : service_ok hung.
Proof.
  split; try done.
  - split; try done; [|apply suffix_nil]. intros _. exists SERVICE_EXEC_STOP. split; [reflexivity|by exists []].
Qed.
Definition patience : list Event := [EvTimer; EvStart; EvTimer; EvKill KILL_ALL KILL_PROCESS 15; EvTimer; EvTimer;
   EvStart; EvStop; EvTimer; EvTimer].
Lemma service_stop_ends_witness :
  ∃ m', runs 1 patience (host hung) m' ∧ ∃ es1 es2 m1 s1, patience = es1 ++ es2 ∧ runs 1 es1 (host hung) m1 ∧
    runs 1 es2 m1 m' ∧ holds 1 s1 m1 ∧ s_state s1 ∈ [SERVICE_DEAD; SERVICE_FAILED; SERVICE_AUTO_RESTART].
Proof.
  assert (holds 1 hung (host hung)) as Hs by (exists UNIT_TARGET, UNIT_LOADED; vm_compute; reflexivity).
  destruct (run 1 patience (host hung)) as [[] m'| |] eqn:E; [|vm_compute in E; discriminate..].
  assert (runs 1 patience (host hung) m') as Hr by (eapply run_runs; [exact Hs|exact hung_ok|exact E]).
  exists m'. split; [exact Hr|].
  refine (proj1 (service_stop_ends 1 patience (host hung) m' hung Hs hung_ok _ eq_refl Hr) _).
  - intros []; vm_compute; reflexivity.
  - vm_compute. repeat constructor.
Defined.

(** ** What goes wrong *)

(** While the start command of a forking service runs, a message names a main process; its
    exit runs into the assertion that only D-Bus and notify services have one then. *)
Theorem named_main_pid_faults :
  let s := service SERVICE_FORKING [(SERVICE_EXEC_START, ["/bin/a"])] in
  service_ok s ∧
  match (run 1 [EvStart];; handle 1 (EvMessage 1000 ["MAINPID=77"])) (host s) with
  | Ret _ m => s_state <$> service_of (Ret tt m) = Some SERVICE_START ∧ handle 1 (EvChild 77 CLD_EXITED 0) m = Fault
  | _ => False
  end.
Proof. split; [apply dead_ok; vm_compute; done|]. vm_compute. split; reflexivity. Qed.

(** A oneshot is stopped while its first command runs.  Its exit by the signal counts as
    a success, so the second command is started, without a timer that would stop it. *)
Theorem killed_oneshot_goes_on :
  let s := service SERVICE_ONESHOT [(SERVICE_EXEC_START, ["/bin/a"; "/bin/b"])] in
  service_ok s ∧
  (λ s, (s_state s, main_command s, bool_decide (0 < main_pid s)%Z, s_timer_watch s)) <$>
    service_of (run 1 [EvStart; EvStop; EvChild 1001 CLD_KILLED SIGTERM] (host s)) =
  Some (SERVICE_STOP_SIGTERM, [command "/bin/b"], true, None).
Proof. split; [apply dead_ok; vm_compute; done|]. vm_compute. reflexivity. Qed.

(** The second stop command cannot be started; that makes the service run the stop
    commands from the first one again after every timeout. *)
Theorem stop_starts_over :
  let s := service SERVICE_SIMPLE [(SERVICE_EXEC_START, ["/bin/a"]); (SERVICE_EXEC_STOP, ["/bin/b"; "/bin/missing"])] in
  service_ok s ∧
  (λ es, (λ s, (s_state s, control_command s)) <$> service_of (run 1 ([EvStart; EvStop] ++ es) (host s))) <$>
    [[]; [EvTimer]; [EvTimer; EvChild 1006 CLD_KILLED SIGTERM];
     [EvTimer; EvChild 1006 CLD_KILLED SIGTERM; EvTimer]] =
  [Some (SERVICE_STOP, [command "/bin/b"; command "/bin/missing"]);
   Some (SERVICE_STOP_SIGTERM, [command "/bin/b"; command "/bin/missing"]);
   Some (SERVICE_STOP, [command "/bin/b"; command "/bin/missing"]);
   Some (SERVICE_STOP_SIGTERM, [command "/bin/b"; command "/bin/missing"])].
Proof. split; [apply dead_ok; vm_compute; done|]. vm_compute. reflexivity. Qed.

(** The main process was not our child.  When the service is dead, its main
    process is asked after as process 0, which is always there. *)
Theorem alien_service_stays :
  let s := service SERVICE_SIMPLE [(SERVICE_EXEC_START, ["/bin/a"])] in
  service_ok s ∧
  match run 1 [EvStart; EvMessage 1000 ["MAINPID=66"]; EvStop] (host s) with
  | Ret _ m => (λ s, (s_state s, main_pid s)) <$> service_of (Ret tt m) = Some (SERVICE_DEAD, 0%Z) ∧
      match service_check_gc 1 m with Ret b _ => b = true | _ => False end
  | _ => False
  end.
Proof. split; [apply dead_ok; vm_compute; done|]. vm_compute. split; reflexivity. Qed.
End ServiceDemo.
