(* ===== verification/Serialize.v ===== *)
(** * Re-execution (src/unit.c, src/service.c, src/fdset.c)

    Before the manager executes itself anew, or reloads, it writes what it
    knows of its units to a file, line by line ([unit_serialize]); afterwards the
    units are loaded again, read their lines ([unit_deserialize]), and enter the
    state that they were in ([unit_coldplug]).  The file is a text and a position in it, that
    is, what is left to be read; open file descriptors are handed over in a set. *)

From stdpp Require Import base gmap strings list fin_maps.
From Stdlib Require Import ZArith Ascii Lia.
From S2P Require Import Prelude CString StrUtil Paths UnitName TimeSpan Text JobType OrderedMap Strv Engine Transaction Activate World Service.

(** ** Lines *)

Definition LINE_MAX : nat := 2048.
Definition newline_str : string := str1 newline.

(** [fgets] into a buffer of [n] bytes: the line and what follows it, [None]
    at the end of the file. *)
Fixpoint read_line (n : nat) (s : string) : string * string :=
  match n, s with
  | O, _ | _, EmptyString => (EmptyString, s)
  | S n', String c s' =>
      if bool_decide (c = newline) then (str1 c, s')
      else let '(l, r) := read_line n' s' in (String c l, r)
  end.
Definition fgets (n : nat) (s : string) : option (string * string) :=
  match s with EmptyString => None | _ => Some (read_line (pred n) s) end.

(** [unit_serialize_item] *)
Definition unit_serialize_item (key value : string) : string := key +:+ "=" +:+ value +:+ newline_str.
(** The formats of [unit_serialize_item_format]: ["%lu"] of an [unsigned long], ["%i"] of an [int] *)
Definition format_lu (z : Z) : string := decimal (u64 z).
Definition format_i (z : Z) : string := if bool_decide (z < 0)%Z then "-" +:+ decimal (- z) else decimal z.
Definition yes_no (b : bool) : string := if b then "yes" else "no".

(** The line up to [=] and what follows it. *)
Definition split_item (l : string) : string * string :=
  let k := strcspn l "=" in (str_take k l, str_drop (S k) l).

(** ** Timestamps (src/util.c) *)

Definition dual_timestamp_serialize (name : string) (t : DualTimestamp) : string :=
  if negb (dual_timestamp_is_set t) then EmptyString
  else name +:+ "=" +:+ decimal (u64 (realtime t)) +:+ " " +:+ decimal (u64 (monotonic t)) +:+ newline_str.

(** The conversions ["%lli"] and ["%llu"] of [sscanf]: the number, stored as 64 bits, and the rest *)
Definition scan_lli (s : string) : option (Z * string) :=
  '(neg, v, rest) ← strto true s;
  let w := if neg : bool then (- v)%Z else v in
  Some (u64 (Z.max LLONG_MIN (Z.min LLONG_MAX w)), rest).
Definition scan_llu (s : string) : option (Z * string) :=
  '(neg, v, rest) ← strto false s;
  Some (if bool_decide (v > ULONG_MAX)%Z then ULONG_MAX else u64 (if neg : bool then (- v)%Z else v), rest).
Definition dual_timestamp_deserialize (value : string) (t : DualTimestamp) : DualTimestamp :=
  match scan_lli value with
  | Some (a, rest) => match scan_llu rest with Some (b, _) => mkDual a b | None => t end
  | None => t
  end.

(** ** Sets of file descriptors (src/fdset.c) *)

Section fdset.
Context {P : Type} `{World}.
Abbreviation MM := (M (Manager P)).

Definition fdset_put (s : gset Z) (fd : Z) : MM (Z * gset Z) :=
  assert_ (bool_decide (0 ≤ fd)%Z);;
  if decide (fd ∈ s) then mret (0%Z, s) else
  ok ← alloc;
  if negb ok then mret ((- ENOMEM)%Z, s) else mret (1%Z, {[fd]} ∪ s).
Definition fdset_put_dup (s : gset Z) (fd : Z) : MM (Z * gset Z) :=
  assert_ (bool_decide (0 ≤ fd)%Z);;
  copy ← ask (QDup fd);
  if bool_decide (copy < 0)%Z then mret (copy, s) else
  r ← fdset_put s copy;
  if bool_decide (r.1 < 0)%Z then mret (r.1, s) else mret (copy, r.2).
Definition fdset_contains (s : gset Z) (fd : Z) : MM bool :=
  assert_ (bool_decide (0 ≤ fd)%Z);; mret (bool_decide (fd ∈ s)).
Definition fdset_remove (s : gset Z) (fd : Z) : MM (Z * gset Z) :=
  assert_ (bool_decide (0 ≤ fd)%Z);;
  if decide (fd ∈ s) then mret (fd, s ∖ {[fd]}) else mret ((- ENOENT)%Z, s).
End fdset.

(** ** Services (src/service.c) *)

Definition service_state_num (s : ServiceState) : Z :=
  match s with
  | SERVICE_DEAD => 0 | SERVICE_START_PRE => 1 | SERVICE_START => 2 | SERVICE_START_POST => 3 | SERVICE_RUNNING => 4
  | SERVICE_EXITED => 5 | SERVICE_RELOAD => 6 | SERVICE_STOP => 7 | SERVICE_STOP_SIGTERM => 8
  | SERVICE_STOP_SIGKILL => 9 | SERVICE_STOP_POST => 10 | SERVICE_FINAL_SIGTERM => 11
  | SERVICE_FINAL_SIGKILL => 12 | SERVICE_FAILED => 13 | SERVICE_AUTO_RESTART => 14
  end.
Definition service_state_of_num (z : Z) : option ServiceState :=
  [SERVICE_DEAD; SERVICE_START_PRE; SERVICE_START; SERVICE_START_POST; SERVICE_RUNNING; SERVICE_EXITED;
   SERVICE_RELOAD; SERVICE_STOP; SERVICE_STOP_SIGTERM; SERVICE_STOP_SIGKILL; SERVICE_STOP_POST;
   SERVICE_FINAL_SIGTERM; SERVICE_FINAL_SIGKILL; SERVICE_FAILED; SERVICE_AUTO_RESTART] !! Z.to_nat z.
Definition service_state_table : list (option string) :=
  [Some "dead"; Some "start-pre"; Some "start"; Some "start-post"; Some "running"; Some "exited"; Some "reload";
   Some "stop"; Some "stop-sigterm"; Some "stop-sigkill"; Some "stop-post"; Some "final-sigterm";
   Some "final-sigkill"; Some "failed"; Some "auto-restart"].
Definition service_state_to_string (s : ServiceState) : option string :=
  to_string service_state_table (service_state_num s).
Definition service_state_from_string (t : string) : option ServiceState :=
  let i := from_string service_state_table t in if bool_decide (i < 0)%Z then None else service_state_of_num i.

Definition service_exec_command_num (c : ServiceExecCommand) : Z :=
  match c with
  | SERVICE_EXEC_START_PRE => 0 | SERVICE_EXEC_START => 1 | SERVICE_EXEC_START_POST => 2
  | SERVICE_EXEC_RELOAD => 3 | SERVICE_EXEC_STOP => 4 | SERVICE_EXEC_STOP_POST => 5
  end.
Definition service_exec_command_of_num (z : Z) : option ServiceExecCommand :=
  [SERVICE_EXEC_START_PRE; SERVICE_EXEC_START; SERVICE_EXEC_START_POST; SERVICE_EXEC_RELOAD; SERVICE_EXEC_STOP;
   SERVICE_EXEC_STOP_POST] !! Z.to_nat z.
Definition service_exec_command_table : list (option string) :=
  [Some "ExecStartPre"; Some "ExecStart"; Some "ExecStartPost"; Some "ExecReload"; Some "ExecStop";
   Some "ExecStopPost"].
Definition service_exec_command_to_string (c : ServiceExecCommand) : option string :=
  to_string service_exec_command_table (service_exec_command_num c).
Definition service_exec_command_from_string (t : string) : option ServiceExecCommand :=
  let i := from_string service_exec_command_table t in
  if bool_decide (i < 0)%Z then None else service_exec_command_of_num i.

Section service.
Context {P : Type} `{PrivateOf P Service, !ServiceEngine P, !World}.
Abbreviation MM := (M (Manager P)).

(** What the functions write: the text, and the descriptors that go with it. *)
Definition service_serialize (u : UnitPtr) (f : string) (fds : gset Z) : MM (Z * (string * gset Z)) :=
  s ← service_at u;
  state ← deref (service_state_to_string (s_state s));
  let f := f +:+ unit_serialize_item "state" state +:+ unit_serialize_item "failure" (yes_no (failure s)) in
  let f := if bool_decide (0 < control_pid s)%Z
           then f +:+ unit_serialize_item "control-pid" (format_lu (control_pid s)) else f in
  let f := if main_pid_known s && bool_decide (0 < main_pid s)%Z
           then f +:+ unit_serialize_item "main-pid" (format_lu (main_pid s)) else f in
  let f := f +:+ unit_serialize_item "main-pid-known" (yes_no (main_pid_known s)) in
  let f := match status_text s with Some t => f +:+ unit_serialize_item "status-text" t | None => f end in
  c ← (match control_command_id s with
       | Some id => c ← deref (service_exec_command_to_string id); mret (unit_serialize_item "control-command" c)
       | None => mret EmptyString
       end);
  let f := f +:+ c in
  fd ← (if bool_decide (0 ≤ socket_fd s)%Z then fdset_put_dup fds (socket_fd s) else mret ((-1)%Z, fds));
  if bool_decide (0 ≤ socket_fd s)%Z && bool_decide (fd.1 < 0)%Z then mret (fd.1, (f, fds)) else
  let f := if bool_decide (0 ≤ socket_fd s)%Z then f +:+ unit_serialize_item "socket-fd" (format_i fd.1) else f in
  let e := main_exec_status s in
  let f :=
    if bool_decide (0 < es_pid e)%Z then
      f +:+ unit_serialize_item "main-exec-status-pid" (format_lu (es_pid e))
        +:+ dual_timestamp_serialize "main-exec-status-start" (es_start e)
        +:+ dual_timestamp_serialize "main-exec-status-exit" (es_exit e)
        +:+ (if dual_timestamp_is_set (es_exit e)
             then unit_serialize_item "main-exec-status-code" (format_i (es_code e))
                  +:+ unit_serialize_item "main-exec-status-status" (format_i (es_status e))
             else EmptyString)
    else f in
  mret (0%Z, (f, fd.2)).

Definition service_deserialize_item (u : UnitPtr) (key value : string) (fds : gset Z) : MM (Z * gset Z) :=
  let store (f : Service → Service) : MM (Z * gset Z) := update_service u f;; mret (0%Z, fds) in
  let ignore : MM (Z * gset Z) := mret (0%Z, fds) in
  if bool_decide (key = "state") then
    match service_state_from_string value with
    | None => ignore
    | Some state => store (λ s, s <| deserialized_state := state |>)
    end
  else if bool_decide (key = "failure") then
    let b := parse_boolean value in
    if bool_decide (b < 0)%Z then ignore else store (λ s, s <| failure := bool_decide (b ≠ 0%Z) || failure s |>)
  else if bool_decide (key = "control-pid") then
    match parse_pid value with inl _ => ignore | inr pid => store (λ s, s <| control_pid := pid |>) end
  else if bool_decide (key = "main-pid") then
    match parse_pid value with
    | inl _ => ignore
    | inr pid => _ ← service_set_main_pid u pid; ignore
    end
  else if bool_decide (key = "main-pid-known") then
    let b := parse_boolean value in
    if bool_decide (b < 0)%Z then ignore else store (λ s, s <| main_pid_known := bool_decide (b ≠ 0%Z) |>)
  else if bool_decide (key = "status-text") then
    t ← alloc;
    if t : bool then store (λ s, s <| status_text := Some value |>) else ignore
  else if bool_decide (key = "control-command") then
    match service_exec_command_from_string value with
    | None => ignore
    | Some id => store (λ s, s <| control_command_id := Some id |> <| control_command := exec_command s id |>)
    end
  else if bool_decide (key = "socket-fd") then
    match safe_atoi value with
    | inl _ => ignore
    | inr fd =>
        if bool_decide (fd < 0)%Z then ignore else
        c ← fdset_contains fds fd;
        if negb c then ignore else
        s ← service_at u;
        when (bool_decide (0 ≤ socket_fd s)%Z) (service_close_socket_fd u);;
        r ← fdset_remove fds fd;
        update_service u (λ s, s <| socket_fd := r.1 |>);; mret (0%Z, r.2)
    end
  else if bool_decide (key = "main-exec-status-pid") then
    match parse_pid value with
    | inl _ => ignore
    | inr pid => store (λ s, s <| main_exec_status ::= λ e, e <| es_pid := pid |> |>)
    end
  else if bool_decide (key = "main-exec-status-code") then
    match safe_atoi value with
    | inl _ => ignore
    | inr i => store (λ s, s <| main_exec_status ::= λ e, e <| es_code := i |> |>)
    end
  else if bool_decide (key = "main-exec-status-status") then
    match safe_atoi value with
    | inl _ => ignore
    | inr i => store (λ s, s <| main_exec_status ::= λ e, e <| es_status := i |> |>)
    end
  else if bool_decide (key = "main-exec-status-start") then
    store (λ s, s <| main_exec_status ::= λ e, e <| es_start ::= dual_timestamp_deserialize value |> |>)
  else if bool_decide (key = "main-exec-status-exit") then
    store (λ s, s <| main_exec_status ::= λ e, e <| es_exit ::= dual_timestamp_deserialize value |> |>)
  else ignore.

(** The states in which the main process is watched again; one of a simple service is not
    on its way up. *)
Definition watches_main (s : Service) : bool :=
  match deserialized_state s with
  | SERVICE_START => match s_type s with SERVICE_SIMPLE => false | _ => true end
  | SERVICE_START_POST | SERVICE_RUNNING | SERVICE_RELOAD | SERVICE_STOP | SERVICE_STOP_SIGTERM
  | SERVICE_STOP_SIGKILL => true
  | _ => false
  end.
Definition service_coldplug (u : UnitPtr) : MM Z :=
  s ← service_at u;
  assert_ (bool_decide (s_state s = SERVICE_DEAD));;
  let state := deserialized_state s in
  if bool_decide (state = s_state s) then mret 0%Z else
  r ← (if has_timer state && (bool_decide (state = SERVICE_AUTO_RESTART) || bool_decide (0 < timeout_usec s)%Z)
       then unit_watch_timer u (if decide (state = SERVICE_AUTO_RESTART) then restart_usec s else timeout_usec s)
       else mret 0%Z);
  if bool_decide (r < 0)%Z then mret r else
  r ← (if watches_main s && bool_decide (0 < main_pid s)%Z then unit_watch_pid u (main_pid s) else mret 0%Z);
  if bool_decide (r < 0)%Z then mret r else
  r ← (if has_control state && bool_decide (0 < control_pid s)%Z then unit_watch_pid u (control_pid s) else mret 0%Z);
  if bool_decide (r < 0)%Z then mret r else
  service_set_state u state;;
  mret 0%Z.
End service.

(** ** Units (src/unit.c) *)

(** The slots of the [UnitVTable] struct for re-execution. *)
Class UnitSerializeOps (P : Type) := {
  vt_can_serialize : Unit P → bool;
  vt_serialize : UnitPtr → string → gset Z → M (Manager P) (Z * (string * gset Z));
  vt_deserialize_item : UnitPtr → string → string → gset Z → M (Manager P) (Z * gset Z);
  vt_coldplug : UnitPtr → M (Manager P) Z }.

Section unit.
Context {P : Type} `{!UnitSerializeOps P}.
Abbreviation MM := (M (Manager P)).

Definition unit_serialize (u : UnitPtr) (f : string) (fds : gset Z) : MM (Z * (string * gset Z)) :=
  U ← unit_at u;
  if negb (vt_can_serialize U) then mret (0%Z, (f, fds)) else
  r ← vt_serialize u f fds;
  if bool_decide (r.1 < 0)%Z then mret r else
  U ← unit_at u;
  job ← match u_job U with
        | Some j => J ← job_at j; t ← deref (job_type_to_string (j_type J)); mret (unit_serialize_item "job" t)
        | None => mret EmptyString
        end;
  mret (0%Z, (r.2.1 +:+ job
    +:+ dual_timestamp_serialize "inactive-exit-timestamp" (inactive_exit_timestamp U)
    +:+ dual_timestamp_serialize "active-enter-timestamp" (active_enter_timestamp U)
    +:+ dual_timestamp_serialize "active-exit-timestamp" (active_exit_timestamp U)
    +:+ dual_timestamp_serialize "inactive-enter-timestamp" (inactive_enter_timestamp U)
    +:+ dual_timestamp_serialize "condition-timestamp" (condition_timestamp U)
    +:+ (if dual_timestamp_is_set (condition_timestamp U)
         then unit_serialize_item "condition-result" (yes_no (condition_result U)) else EmptyString)
    +:+ newline_str, r.2.2)).

(** The items that are not the unit type's. *)
Definition unit_item (key value : string) : option (Unit P → Unit P) :=
  if bool_decide (key = "job") then
    Some (λ U, match job_type_from_string value with Some t => U <| deserialized_job := Some t |> | None => U end)
  else if bool_decide (key = "inactive-exit-timestamp") then
    Some (λ U, U <| inactive_exit_timestamp ::= dual_timestamp_deserialize value |>)
  else if bool_decide (key = "active-enter-timestamp") then
    Some (λ U, U <| active_enter_timestamp ::= dual_timestamp_deserialize value |>)
  else if bool_decide (key = "active-exit-timestamp") then
    Some (λ U, U <| active_exit_timestamp ::= dual_timestamp_deserialize value |>)
  else if bool_decide (key = "inactive-enter-timestamp") then
    Some (λ U, U <| inactive_enter_timestamp ::= dual_timestamp_deserialize value |>)
  else if bool_decide (key = "condition-timestamp") then
    Some (λ U, U <| condition_timestamp ::= dual_timestamp_deserialize value |>)
  else if bool_decide (key = "condition-result") then
    Some (λ U, if bool_decide (parse_boolean value < 0)%Z then U
               else U <| condition_result := bool_decide (parse_boolean value ≠ 0%Z) |>)
  else None.

(** The loop over the lines; every line takes at least a character off the file. *)
Fixpoint deserialize_lines (n : nat) (u : UnitPtr) (f : string) (fds : gset Z) : MM (Z * (string * gset Z)) :=
  match n with
  | O => nofuel
  | S n' =>
      match fgets LINE_MAX f with
      | None => mret (0%Z, (f, fds))
      | Some (line, f') =>
          let l := strstrip line in
          if bool_decide (l = EmptyString) then mret (0%Z, (f', fds)) else
          let '(k, v) := split_item l in
          match unit_item k v with
          | Some g => update_unit u g;; deserialize_lines n' u f' fds
          | None =>
              r ← vt_deserialize_item u k v fds;
              if bool_decide (r.1 < 0)%Z then mret (r.1, (f', r.2)) else deserialize_lines n' u f' r.2
          end
      end
  end.
Definition unit_deserialize (u : UnitPtr) (f : string) (fds : gset Z) : MM (Z * (string * gset Z)) :=
  U ← unit_at u;
  if negb (vt_can_serialize U) then mret (0%Z, (f, fds)) else
  deserialize_lines (S (strlen f)) u f fds.

Definition unit_coldplug `{UnitVTable P} (n : nat) (u : UnitPtr) : MM Z :=
  r ← vt_coldplug u;
  if bool_decide (r < 0)%Z then mret r else
  U ← unit_at u;
  match deserialized_job U with
  | None => mret 0%Z
  | Some t =>
      r ← manager_add_job n t u JOB_IGNORE_REQUIREMENTS false;
      if bool_decide (r.1 < 0)%Z then mret r.1 else
      update_unit u (λ U, U <| deserialized_job := None |>);; mret 0%Z
  end.
End unit.
