(* ===== verification/SerializeSpec.v ===== *)
(** * Re-execution keeps what a service was doing (Serialize.v)

    The lines that a unit writes are read back one by one; a service that reads its own
    lines and is plugged in again is in the state it was in, and in one that its invariant allows. *)

From stdpp Require Import base gmap strings list fin_maps.
From Stdlib Require Import ZArith Ascii Lia.
From S2P Require Import Prelude CString StrUtil Paths UnitName TimeSpan Text JobType OrderedMap Strv Engine Transaction Wf Installed Activate World Service ServiceLogic ServiceSpec Serialize.

(** ** Numbers *)

Section numbers.
#[local] Open Scope Z_scope.

Lemma decimal_first x : 0 < x < 2 ^ 64 → ∃ c s, decimal x = String c s ∧ c ≠ "0"%char.
Proof.
  intros Hx. unfold decimal. assert (0 < x < 10 ^ Z.of_nat 20) as Hn by lia. clear Hx. revert x Hn.
  generalize 20%nat as n. induction n as [|n IH]; intros x Hx; [simpl in Hx; lia|]. cbn [decimal_rec].
  case_bool_decide as Hs.
  - exists (decchar x), EmptyString. split; [done|].
    assert (x ∈ [1; 2; 3; 4; 5; 6; 7; 8; 9]) as Hin.
    { rewrite !elem_of_cons. lia. }
    clear Hs Hx. rewrite !elem_of_cons, elem_of_nil in Hin.
    repeat (destruct Hin as [->|Hin]; [by vm_compute|]). done.
  - destruct (IH (x / 10)) as (c & s & -> & Hc); [|by exists c, (s +:+ str1 (decchar x))].
    rewrite Nat2Z.inj_succ, Z.pow_succ_r in Hx by lia. split; [apply Z.div_str_pos; lia|].
    apply Z.div_lt_upper_bound; lia.
Qed.

(** A number that was written is read again; a leading zero would announce
    another base. *)
Lemma strto_decimal base0 sp x r : 0 ≤ x < 2 ^ 64 → (base0 = true → 0 < x ∨ r = EmptyString) → no_digit r →
  sp = EmptyString ∨ sp = " " → strto base0 (sp +:+ decimal x +:+ r) = Some (false, x, r).
Proof.
  intros Hx H0 Hr Hsp. destruct (decimal_rec_first 19 x ltac:(lia)) as (c & s & E & Hc1 & Hc2 & Hc3).
  pose proof (digits_decimal 20 x 0 0 r ltac:(lia)) as Hd. fold (decimal x) in Hd, E.
  assert (strlen (decimal x) ≠ 0)%nat as Hne by (by rewrite E).
  assert (skip_space (sp +:+ decimal x +:+ r) = decimal x +:+ r) as Hskip.
  { rewrite E. change (String c s +:+ r) with (String c (s +:+ r)). destruct Hsp as [->| ->]; simpl; by rewrite Hc1. }
  unfold strto. rewrite Hskip. assert (sign (decimal x +:+ r) = (false, decimal x +:+ r)) as ->.
  { rewrite E. change (String c s +:+ r) with (String c (s +:+ r)). simpl. by rewrite bool_decide_false, bool_decide_false. }
  assert ((if base0 then base_prefix (decimal x +:+ r) else (10, decimal x +:+ r)) = (10, decimal x +:+ r)) as ->.
  { destruct base0; [|done]. destruct (decide (x = 0)) as [->|Hn].
    - destruct (H0 eq_refl) as [?| ->]; [lia|]. by vm_compute.
    - destruct (decimal_first x ltac:(lia)) as (c' & s' & -> & Hc'). change (String c' s' +:+ r) with (String c' (s' +:+ r)).
      unfold base_prefix. destruct (s' +:+ r); [done|]. by rewrite bool_decide_false. }
  cbv beta iota. rewrite Hd, digits_stop by done. by rewrite bool_decide_false by lia.
Qed.
Lemma strto_number_rest x r : 0 < x < 2 ^ 64 → no_digit r → strto true (decimal x +:+ r) = Some (false, x, r).
Proof.
  intros Hx Hr. refine (strto_decimal true EmptyString x r _ _ Hr _); [lia|intros _; left; lia|by left].
Qed.
Lemma strto_number x : 0 ≤ x < 2 ^ 64 → strto true (decimal x) = Some (false, x, EmptyString).
Proof.
  intros Hx. rewrite <- (append_nil_r (decimal x)).
  refine (strto_decimal true EmptyString x EmptyString Hx _ I _); [by right|by left].
Qed.

Lemma s32_small x : 0 ≤ x < 2 ^ 31 → s32 x = x.
Proof. intros Hx. unfold s32. rewrite Z.mod_small; lia. Qed.
Lemma u64_small x : 0 ≤ x < 2 ^ 64 → u64 x = x.
Proof. apply Z.mod_small. Qed.
Lemma parse_pid_format p : 0 < p < 2 ^ 31 → parse_pid (format_lu p) = inr p.
Proof.
  intros Hp. unfold parse_pid, safe_atollu, strtoul, format_lu. rewrite u64_small by lia. rewrite strto_number by lia.
  unfold ULONG_MAX. rewrite (bool_decide_false (p > _)) by lia. rewrite u64_small by lia.
  rewrite bool_decide_false by (intros [?|?]; done). rewrite s32_small by lia. rewrite u64_small by lia.
  by rewrite !bool_decide_false by lia.
Qed.
Lemma safe_atoi_format i : 0 ≤ i < 2 ^ 31 → safe_atoi (format_i i) = inr i.
Proof.
  intros Hi. unfold safe_atoi, strtoll, format_i. rewrite bool_decide_false by lia. rewrite strto_number by lia.
  cbv zeta beta iota. unfold LLONG_MAX, LLONG_MIN. rewrite (bool_decide_false (i > _)), (bool_decide_false (i < _)) by lia.
  rewrite bool_decide_false by (intros [?|?]; done). rewrite s32_small by lia. by rewrite bool_decide_false by lia.
Qed.

(** A timestamp that fits: ["%lli"] reads signed numbers. *)
Definition timestamp_ok (t : DualTimestamp) : Prop := 0 < realtime t < 2 ^ 63 ∧ 0 ≤ monotonic t < 2 ^ 64.
Definition dual_text (t : DualTimestamp) : string := decimal (u64 (realtime t)) +:+ " " +:+ decimal (u64 (monotonic t)).
Lemma dual_timestamp_roundtrip t t' : timestamp_ok t → dual_timestamp_deserialize (dual_text t) t' = t.
Proof.
  intros [Hr Hm]. unfold dual_timestamp_deserialize, dual_text, scan_lli, scan_llu. rewrite !u64_small by lia.
  rewrite strto_number_rest by (lia || done).
  cbn [mbind option_bind]. cbv zeta. unfold LLONG_MIN, LLONG_MAX.
  rewrite <- (append_nil_r (" " +:+ decimal (monotonic t))), append_assoc.
  rewrite (strto_decimal false " ") by (lia || done || by right). cbn [mbind option_bind]. unfold ULONG_MAX.
  rewrite bool_decide_false by lia. rewrite !u64_small by lia. rewrite Z.min_r, Z.max_r by lia. by destruct t.
Qed.
End numbers.

(** ** Lines *)

Fixpoint last_char (s : string) : option ascii :=
  match s with
  | EmptyString => None
  | String c s' => match s' with EmptyString => Some c | _ => last_char s' end
  end.
Definition trimmed (s : string) : Prop := ∀ c, last_char s = Some c → mem_char c WHITESPACE = false.
Definition white_free (s : string) : Prop := all_in (λ c, negb (mem_char c WHITESPACE)) s = true.
(** What can be the value of an item: one line, without white space at its end. *)
Record line_safe (v : string) : Prop := {
  safe_newline : mem_char newline v = false;
  safe_trimmed : trimmed v;
  safe_length : strlen v < 2000 }.
(** The names of the items. *)
Definition key_ok (k : string) : bool :=
  match k with String c _ => negb (mem_char c WHITESPACE) | EmptyString => false end &&
  negb (mem_char newline k) && negb (mem_char "="%char k) && bool_decide (strlen k < 40).

Lemma last_char_app a b : b ≠ EmptyString → last_char (a +:+ b) = last_char b.
Proof.
  intros Hb. induction a as [|c a IH]; [done|]. change (String c a +:+ b) with (String c (a +:+ b)). simpl.
  destruct (a +:+ b) eqn:E; [|done]. by destruct a, b.
Qed.
Lemma last_char_get s : s ≠ EmptyString → String.get (pred (strlen s)) s = last_char s.
Proof.
  induction s as [|c s IH]; [done|]. intros _. destruct s as [|d s]; [done|].
  change (String.get (strlen (String d s)) (String c (String d s)) = last_char (String d s)). rewrite <- IH by done. done.
Qed.
Lemma get_app a b n : n < strlen a → String.get n (a +:+ b) = String.get n a.
Proof.
  revert n. induction a as [|c a IH]; intros n Hn; [simpl in Hn; lia|]. destruct n as [|n]; [done|].
  change (String.get n (a +:+ b) = String.get n a). apply IH. simpl in Hn. lia.
Qed.
Lemma str_take_app a b : str_take (strlen a) (a +:+ b) = a.
Proof. induction a as [|c a IH]; [by destruct b|]. change (String c (str_take (strlen a) (a +:+ b)) = String c a). by rewrite IH. Qed.
Lemma strstrip_line c l :
  mem_char c WHITESPACE = false → trimmed (String c l) → strstrip (String c l +:+ newline_str) = String c l.
Proof.
  intros Hc Ht. unfold strstrip.
  assert (strspn (String c l +:+ newline_str) WHITESPACE = 0) as ->.
  { change (String c l +:+ newline_str) with (String c (l +:+ newline_str)). cbn [strspn]. by rewrite Hc. }
  rewrite str_drop_0, append_length. cbv zeta. set (L := String c l) in *.
  change (strlen newline_str) with 1. rewrite Nat.add_1_r. cbn [rstrip].
  assert (String.get (strlen L) (L +:+ newline_str) = Some newline) as ->.
  { clear. induction L as [|d L IH]; [done|exact IH]. }
  cbn [mem_char]. assert (strlen L = S (strlen l)) as E by done. rewrite E. cbn [rstrip].
  rewrite get_app by (rewrite E; lia). replace (strlen l) with (pred (strlen L)) by (rewrite E; lia).
  rewrite last_char_get by done. destruct (last_char L) as [d|] eqn:Ed.
  - rewrite (Ht d Ed). replace (S (pred (strlen L))) with (strlen L) by (rewrite E; lia). apply str_take_app.
  - exfalso. revert Ed. unfold L. clear. revert c. induction l as [|d l IH]; intros c; [done|apply IH].
Qed.

Lemma read_line_whole n l r : mem_char newline l = false → strlen l < n →
  read_line n (l +:+ newline_str +:+ r) = (l +:+ newline_str, r).
Proof.
  revert n. induction l as [|c l IH]; intros n Hl Hn.
  - destruct n; [lia|done].
  - destruct n as [|n]; [simpl in Hn; lia|]. simpl in Hl. apply orb_false_iff in Hl as [Hc Hl].
    change (String c l +:+ newline_str +:+ r) with (String c (l +:+ newline_str +:+ r)). cbn [read_line].
    rewrite bool_decide_false by (intros ->; by rewrite bool_decide_true in Hc).
    rewrite IH by (done || (simpl in Hn; lia)). done.
Qed.
Lemma strcspn_first k v : mem_char "="%char k = false → strcspn (k +:+ "=" +:+ v) "=" = strlen k.
Proof.
  induction k as [|c k IH]; [done|]. simpl. intros [Hc Hk]%orb_false_iff.
  change (String c k +:+ "=" +:+ v) with (String c (k +:+ "=" +:+ v)). cbn [strcspn mem_char].
  rewrite orb_false_r. rewrite bool_decide_false by (intros ->; by rewrite bool_decide_true in Hc).
  f_equal. by apply IH.
Qed.
Lemma split_item_pair k v : mem_char "="%char k = false → split_item (k +:+ "=" +:+ v) = (k, v).
Proof.
  intros Hk. unfold split_item. rewrite strcspn_first by done. f_equal; [apply str_take_app|].
  replace (S (strlen k)) with (strlen (k +:+ "=")) by (rewrite append_length; simpl; unfold strlen; simpl; lia).
  rewrite <- append_assoc. apply str_drop_app.
Qed.

(** A line that was written comes back as the key and the value. *)
Lemma read_item k v rest : key_ok k = true → line_safe v →
  ∃ line, fgets LINE_MAX (unit_serialize_item k v +:+ rest) = Some (line, rest) ∧
    strstrip line ≠ EmptyString ∧ split_item (strstrip line) = (k, v).
Proof.
  intros Hk [Hn Ht Hl]. unfold key_ok in Hk. rewrite !andb_true_iff, !negb_true_iff, bool_decide_eq_true in Hk.
  destruct Hk as [[[Hc Hkn] Hke] Hkl]. exists ((k +:+ "=" +:+ v) +:+ newline_str). unfold fgets, unit_serialize_item.
  assert (((k +:+ "=" +:+ v +:+ newline_str) +:+ rest) = (k +:+ "=" +:+ v) +:+ newline_str +:+ rest) as ->
    by (by rewrite !append_assoc).
  assert (mem_char newline (k +:+ "=" +:+ v) = false) as HL by (rewrite !mem_char_app, Hkn, Hn; done).
  assert (strlen (k +:+ "=" +:+ v) < pred LINE_MAX) as HLl.
  { rewrite !append_length. unfold LINE_MAX. change (strlen "=") with 1. lia. }
  rewrite read_line_whole by done. destruct k as [|c k]; [done|]. apply negb_true_iff in Hc.
  assert (strstrip ((String c k +:+ "=" +:+ v) +:+ newline_str) = String c k +:+ "=" +:+ v) as ->.
  { change (String c k +:+ "=" +:+ v) with (String c (k +:+ "=" +:+ v)). apply strstrip_line; [done|].
    change (String c (k +:+ "=" +:+ v)) with (String c k +:+ "=" +:+ v). intros d.
    destruct v as [|e v].
    - rewrite last_char_app by done. by intros [= <-].
    - rewrite last_char_app by done. rewrite last_char_app by done. apply Ht. }
  split; [done|]. split; [done|]. by apply split_item_pair.
Qed.
Lemma read_end rest :
  ∃ line, fgets LINE_MAX (newline_str +:+ rest) = Some (line, rest) ∧ strstrip line = EmptyString.
Proof. by exists newline_str. Qed.

(** Words and numbers are safe. *)
Lemma white_free_safe v : white_free v → strlen v < 2000 → line_safe v.
Proof.
  unfold white_free. intros Hv Hl. split; [| |done].
  - clear Hl. induction v as [|c v IH]; [done|]. simpl in *. apply andb_true_iff in Hv as [Hc Hv]. rewrite IH by done.
    rewrite bool_decide_false; [done|]. intros <-. by vm_compute in Hc.
  - clear Hl. intros d. induction v as [|c v IH]; [done|]. simpl in *. apply andb_true_iff in Hv as [Hc Hv].
    destruct v; [intros [= <-]; by apply negb_true_iff|by apply IH].
Qed.
Lemma decchar_black x : (0 ≤ x)%Z → negb (mem_char (decchar x) WHITESPACE) = true.
Proof.
  intros Hx. unfold decchar. assert (0 ≤ Z.rem x 10 < 10)%Z as Hr by (apply Z.rem_bound_pos; lia).
  revert Hr. generalize (Z.rem x 10) as r. clear. intros r Hr.
  assert (r = 0 ∨ r = 1 ∨ r = 2 ∨ r = 3 ∨ r = 4 ∨ r = 5 ∨ r = 6 ∨ r = 7 ∨ r = 8 ∨ r = 9)%Z as Hin by lia.
  by repeat (destruct Hin as [->|Hin]; [by vm_compute|]); subst r; vm_compute.
Qed.
Lemma decimal_rec_black n x : (0 ≤ x)%Z → white_free (decimal_rec n x).
Proof.
  revert x. unfold white_free. induction n as [|n IH]; intros x Hx; [done|]. cbn [decimal_rec]. rewrite all_in_app.
  apply andb_true_iff. split; [case_bool_decide; [done|apply IH, Z.div_pos; lia]|].
  change (negb (mem_char (decchar x) WHITESPACE) && true = true). by rewrite decchar_black.
Qed.
Lemma decimal_safe x : (0 ≤ x < 2 ^ 64)%Z → line_safe (decimal x) ∧ strlen (decimal x) ≤ 20.
Proof.
  intros Hx. pose proof (decimal_rec_length 20 20 x ltac:(lia) ltac:(lia)) as Hl. fold (decimal x) in Hl.
  split; [|done]. apply white_free_safe; [apply decimal_rec_black|]; lia.
Qed.
Lemma dual_text_safe t : line_safe (dual_text t).
Proof.
  unfold dual_text. assert (∀ z, 0 ≤ u64 z < 2 ^ 64)%Z as Hu by (intros; by apply Z.mod_pos_bound).
  destruct (decimal_safe _ (Hu (realtime t))) as [[Ha _ _] Hla], (decimal_safe _ (Hu (monotonic t))) as [[Hb Hbt _] Hlb].
  split.
  - by rewrite !mem_char_app, Ha, Hb.
  - intros c. rewrite last_char_app by done. pose proof (decimal_nonempty (u64 (monotonic t))).
    rewrite last_char_app; [apply Hbt|]. intros E. by rewrite E in *.
  - rewrite !append_length. change (strlen " ") with 1. lia.
Qed.

(** ** A unit reads its lines *)

(** A service is in the slots that the unit's type has. *)
Class ServiceSlots P `{PrivateOf P Service, !ServiceEngine P, !World, !UnitSerializeOps P} : Prop := {
  slot_can (U : Unit P) s : get_private (priv U) = Some s → vt_can_serialize U = true;
  slot_serialize (m : Manager P) u U s f fds : units m !! u = Some U → get_private (priv U) = Some s →
    vt_serialize u f fds m = service_serialize u f fds m;
  slot_deserialize (m : Manager P) u U s k v fds : units m !! u = Some U → get_private (priv U) = Some s →
    vt_deserialize_item u k v fds m = service_deserialize_item u k v fds m;
  slot_coldplug (m : Manager P) u U s : units m !! u = Some U → get_private (priv U) = Some s →
    vt_coldplug u m = service_coldplug u m }.

(** Whether the memory suffices. *)
Class Plenty := plenty : Prop.

Section reading.
Context {P : Type} `{ServiceSlots P, Plenty}.
Abbreviation MM := (M (Manager P)).
Implicit Types (m : Manager P) (U : Unit P).

(** The unit with the service [s] in it, in the place [u]. *)
Definition carrying U (s : Service) : Unit P := U <| priv := put_private s |>.
(** If it does, no allocation from here on fails. *)
Definition ample m : Prop := plenty → Forall (λ b, b = true) (oom m).
Definition placed (u : UnitPtr) U s m : Prop := units m !! u = Some (carrying U s) ∧ ample m.
(** From [m] to [m'], only the unit changed, and became that. *)
Definition became (u : UnitPtr) U s m m' : Prop := units m' = <[u := carrying U s]> (units m) ∧ ample m'.

(** What the unit is after the lines [T], whatever follows them. *)
Definition reads (u : UnitPtr) (T : string) U s (fds : gset Z) (Post : Unit P → Service → gset Z → Prop) : Prop :=
  ∀ rest n m Q, placed u U s m → strlen (T +:+ rest) < n →
    (∀ U' s' fds' m' n', Post U' s' fds' → became u U' s' m m' → strlen rest < n' →
       wp (deserialize_lines n' u rest fds') m' Q) →
    wp (deserialize_lines n u (T +:+ rest) fds) m Q.

Lemma became_placed u U s m m' : became u U s m m' → placed u U s m'.
Proof. intros [E ?]. split; [|done]. rewrite E. apply lookup_insert_eq. Qed.
Lemma became_trans u U1 s1 U2 s2 m m1 m2 : became u U1 s1 m m1 → became u U2 s2 m1 m2 → became u U2 s2 m m2.
Proof. intros [E1 _] [E2 ?]. split; [|done]. by rewrite E2, E1, insert_insert_eq. Qed.
Lemma became_same u U s m : placed u U s m → became u U s m m.
Proof. intros [E ?]. split; [|done]. by rewrite insert_id. Qed.
Lemma reads_nil u U s fds (Post : Unit P → Service → gset Z → Prop) : Post U s fds → reads u EmptyString U s fds Post.
Proof.
  intros HP rest n m Q Hm Hn HQ. apply (HQ U s fds); [done|by apply became_same|done].
Qed.
Lemma reads_app u T1 T2 U s fds Post :
  reads u T1 U s fds (λ U' s' fds', reads u T2 U' s' fds' Post) → reads u (T1 +:+ T2) U s fds Post.
Proof.
  intros HT rest n m Q Hm Hn HQ. rewrite append_assoc in *. eapply HT; [done..|].
  intros U1 s1 fds1 m1 n1 HT2 E1 Hn1. eapply HT2; [by eapply became_placed|done|].
  intros U2 s2 fds2 m2 n2 HP E2 Hn2. eapply HQ; [done|by eapply became_trans|done].
Qed.
Lemma reads_when u (b : bool) T U s fds (Post : Unit P → Service → gset Z → Prop) :
  (b = true → reads u T U s fds Post) → (b = false → Post U s fds) → reads u (if b then T else EmptyString) U s fds Post.
Proof. destruct b; intros Ht Hf; [by apply Ht|by apply reads_nil, Hf]. Qed.
Lemma reads_weaken u T U s fds (Post Post' : Unit P → Service → gset Z → Prop) :
  reads u T U s fds Post → (∀ U' s' fds', Post U' s' fds' → Post' U' s' fds') → reads u T U s fds Post'.
Proof. intros Hr HP rest n m Q Hm Hn HQ. eapply Hr; [done..|]. intros. eapply HQ; [by apply HP|done..]. Qed.

(** One line. *)
Lemma deserialize_line n u k v rest fds : key_ok k = true → line_safe v →
  deserialize_lines (S n) u (unit_serialize_item k v +:+ rest) fds =
    match unit_item k v with
    | Some g => update_unit u g;; deserialize_lines n u rest fds
    | None => r ← vt_deserialize_item u k v fds;
        if bool_decide (r.1 < 0)%Z then mret (r.1, (rest, r.2)) else deserialize_lines n u rest r.2
    end.
Proof.
  intros Hk Hv. destruct (read_item k v rest Hk Hv) as (line & E & Hne & Es). cbn [deserialize_lines]. rewrite E.
  cbv zeta. rewrite bool_decide_false by done. by rewrite Es.
Qed.
Lemma item_shorter k v rest : strlen rest < strlen (unit_serialize_item k v +:+ rest).
Proof. unfold unit_serialize_item. rewrite !append_length. change (strlen "=") with 1. lia. Qed.

Lemma reads_meta u k v g U s fds (Post : Unit P → Service → gset Z → Prop) :
  key_ok k = true → line_safe v → unit_item k v = Some g → g (carrying U s) = carrying (g U) s →
  Post (g U) s fds → reads u (unit_serialize_item k v) U s fds Post.
Proof.
  intros Hk Hv Hg Hc HP rest n m Q Hm Hn HQ. pose proof (item_shorter k v rest). destruct n as [|n]; [lia|].
  rewrite deserialize_line by done. rewrite Hg. wp_step. destruct Hm as [Hm Ha]. eapply wp_intro; [by apply (update_unit_eq u _ _ _ Hm)|].
  eapply HQ; [done| |lia]. split; [|exact Ha]. simpl. by rewrite Hc.
Qed.
Lemma reads_service u k v U s fds (Post : Unit P → Service → gset Z → Prop) :
  key_ok k = true → line_safe v → unit_item (P := P) k v = None →
  (∀ m, placed u U s m → wp (service_deserialize_item u k v fds) m (λ r m', r.1 = 0%Z ∧
     ∃ s', became u U s' m m' ∧ Post U s' r.2)) →
  reads u (unit_serialize_item k v) U s fds Post.
Proof.
  intros Hk Hv Hg Hw rest n m Q Hm Hn HQ. pose proof (item_shorter k v rest). destruct n as [|n]; [lia|].
  rewrite deserialize_line by done. rewrite Hg. wp_step.
  assert (wp (vt_deserialize_item u k v fds) m (λ r m', r.1 = 0%Z ∧
     ∃ s', became u U s' m m' ∧ Post U s' r.2)) as Hs.
  { unfold wp. rewrite (slot_deserialize m u _ s k v fds (proj1 Hm) (get_put_private s)). by apply Hw. }
  eapply wp_mono; [exact Hs|]. intros r m' (Er & s' & Eu & HP). rewrite Er. rewrite bool_decide_false by done.
  eapply HQ; [exact HP|done|lia].
Qed.

(** Most items store a value. *)
Lemma wp_store u U s m (f : Service → Service) (fds : gset Z) (Q : Z * gset Z → Manager P → Prop) :
  placed u U s m → (∀ m', became u U (f s) m m' → Q (0%Z, fds) m') →
  wp (update_service u f;; mret (0%Z, fds)) m Q.
Proof.
  intros [Hm Ha] HQ. unfold update_service, service_at. wp_step. wp_step. wp_step. eapply wp_unit_at; [exact Hm|].
  eapply wp_deref; [apply get_put_private|]. eapply wp_intro; [by apply (update_unit_eq u _ _ _ Hm)|]. wp_step. by apply HQ.
Qed.
Lemma reads_store u k v f U s fds (Post : Unit P → Service → gset Z → Prop) :
  key_ok k = true → line_safe v → unit_item (P := P) k v = None →
  service_deserialize_item u k v fds = (update_service u f;; mret (0%Z, fds) : MM (Z * gset Z)) →
  Post U (f s) fds → reads u (unit_serialize_item k v) U s fds Post.
Proof.
  intros Hk Hv Hg E HP. apply reads_service; [done..|]. intros m Hm. rewrite E. eapply wp_store; [exact Hm|].
  intros m' Em. split; [done|]. by exists (f s).
Qed.
Lemma reads_timestamp u k (t : DualTimestamp) U s fds (Post : Unit P → Service → gset Z → Prop) :
  (dual_timestamp_is_set t = true → reads u (unit_serialize_item k (dual_text t)) U s fds Post) →
  (dual_timestamp_is_set t = false → Post U s fds) → reads u (dual_timestamp_serialize k t) U s fds Post.
Proof.
  unfold dual_timestamp_serialize. destruct (dual_timestamp_is_set t); simpl; intros Ht Hf; [|by apply reads_nil, Hf].
  specialize (Ht eq_refl). unfold unit_serialize_item, dual_text in Ht. by rewrite !append_assoc in Ht.
Qed.
End reading.

(** ** A service reads its lines *)

Definition status_items (e : ExecStatus) : string :=
  if bool_decide (0 < es_pid e)%Z then
    unit_serialize_item "main-exec-status-pid" (format_lu (es_pid e))
    +:+ dual_timestamp_serialize "main-exec-status-start" (es_start e)
    +:+ dual_timestamp_serialize "main-exec-status-exit" (es_exit e)
    +:+ (if dual_timestamp_is_set (es_exit e)
         then unit_serialize_item "main-exec-status-code" (format_i (es_code e))
              +:+ unit_serialize_item "main-exec-status-status" (format_i (es_status e))
         else EmptyString)
  else EmptyString.
(** The lines of a service, [fd] the descriptor that is handed over for its socket. *)
Definition service_text (s : Service) (fd : Z) : string :=
  unit_serialize_item "state" (default EmptyString (service_state_to_string (s_state s)))
  +:+ unit_serialize_item "failure" (yes_no (failure s))
  +:+ (if bool_decide (0 < control_pid s)%Z then unit_serialize_item "control-pid" (format_lu (control_pid s)) else EmptyString)
  +:+ (if main_pid_known s && bool_decide (0 < main_pid s)%Z
       then unit_serialize_item "main-pid" (format_lu (main_pid s)) else EmptyString)
  +:+ unit_serialize_item "main-pid-known" (yes_no (main_pid_known s))
  +:+ match status_text s with Some t => unit_serialize_item "status-text" t | None => EmptyString end
  +:+ match control_command_id s with
      | Some id => unit_serialize_item "control-command" (default EmptyString (service_exec_command_to_string id))
      | None => EmptyString
      end
  +:+ (if bool_decide (0 ≤ socket_fd s)%Z then unit_serialize_item "socket-fd" (format_i fd) else EmptyString)
  +:+ status_items (main_exec_status s).

(** Timestamps are set and fit, or were never set. *)
Definition stamped (t : DualTimestamp) : Prop := timestamp_ok t ∨ t = no_timestamp.
(** The status of a main process as [exec_status_start] and [exec_status_exit] make it. *)
Record status_ok (e : ExecStatus) : Prop := {
  st_pid : (es_pid e < 2 ^ 31)%Z;
  st_start : stamped (es_start e);
  st_exit : stamped (es_exit e);
  st_code : (0 ≤ es_code e < 2 ^ 31)%Z ∧ (0 ≤ es_status e < 2 ^ 31)%Z;
  st_running : dual_timestamp_is_set (es_exit e) = false → es_code e = 0%Z ∧ es_status e = 0%Z }.

(** What can be kept: numbers that fit, a text of one line, a main process that is not the
    manager itself. *)
Record keepable `{World} (s : Service) : Prop := {
  kp_control : (control_pid s < 2 ^ 31)%Z;
  kp_main : main_pid_known s = true → (0 < main_pid s)%Z → (1 < main_pid s < 2 ^ 31)%Z ∧
    (∀ n, (answer n QOwnPid).1 ≠ main_pid s) ∧ dual_timestamp_is_set (es_start (main_exec_status s)) = true;
  kp_text t : status_text s = Some t → line_safe t;
  kp_status : status_ok (main_exec_status s) }.

(** A service that was loaded and never ran. *)
Record just_loaded (s : Service) : Prop := {
  jl_state : s_state s = SERVICE_DEAD ∧ deserialized_state s = SERVICE_DEAD;
  jl_failure : failure s = false;
  jl_control : control_pid s = 0%Z ∧ control_command s = [] ∧ control_command_id s = None;
  jl_main : main_pid s = 0%Z ∧ main_pid_known s = false ∧ main_command s = [];
  jl_status : main_exec_status s = no_status;
  jl_text : status_text s = None;
  jl_socket : socket_fd s = (-1)%Z;
  jl_forbid : forbid_restart s = false;
  jl_timer : s_timer_watch s = None }.

(** What a service [s0] is after the lines of [s]. *)
Record restored `{Plenty} (s s0 : Service) (fd : Z) (s' : Service) : Prop := {
  rs_config : config s' = config s0;
  rs_state : s_state s' = SERVICE_DEAD ∧ deserialized_state s' = s_state s;
  rs_failure : failure s' = failure s;
  rs_control : control_pid s' = Z.max 0 (control_pid s);
  rs_main : main_pid_known s' = main_pid_known s ∧
    main_pid s' = if main_pid_known s then Z.max 0 (main_pid s) else 0%Z;
  rs_text : status_text s' = status_text s ∨ ¬ plenty ∧ status_text s' = None;
  rs_command : control_command_id s' = control_command_id s ∧
    control_command s' = from_option (exec_command s0) [] (control_command_id s);
  rs_main_command : main_command s' = [];
  rs_socket : socket_fd s' = if bool_decide (0 ≤ socket_fd s)%Z then fd else (-1)%Z;
  rs_status : (0 < es_pid (main_exec_status s))%Z → main_exec_status s' = main_exec_status s;
  rs_forbid : forbid_restart s' = false;
  rs_timer : s_timer_watch s' = None }.

Lemma service_state_name st : ∃ t, service_state_to_string st = Some t ∧ line_safe t ∧ service_state_from_string t = Some st.
Proof.
  destruct st; (eexists; split; [reflexivity|]; split; [apply white_free_safe; [reflexivity|]; apply (bool_decide_unpack _); reflexivity|reflexivity]).
Qed.
Lemma service_exec_command_name c :
  ∃ t, service_exec_command_to_string c = Some t ∧ line_safe t ∧ service_exec_command_from_string t = Some c.
Proof.
  destruct c; (eexists; split; [reflexivity|]; split; [apply white_free_safe; [reflexivity|]; apply (bool_decide_unpack _); reflexivity|reflexivity]).
Qed.
Lemma job_type_name t : ∃ s, job_type_to_string t = Some s ∧ line_safe s ∧ job_type_from_string s = Some t.
Proof.
  destruct t; (eexists; split; [reflexivity|]; split; [apply white_free_safe; [reflexivity|]; apply (bool_decide_unpack _); reflexivity|reflexivity]).
Qed.
Lemma yes_no_safe b : line_safe (yes_no b).
Proof. destruct b; apply white_free_safe; (reflexivity || (apply (bool_decide_unpack _); reflexivity)). Qed.
Lemma parse_yes_no b : parse_boolean (yes_no b) = if b then 1%Z else 0%Z.
Proof. by destruct b. Qed.
Lemma format_lu_safe p : line_safe (format_lu p).
Proof. unfold format_lu. apply decimal_safe. by apply Z.mod_pos_bound. Qed.
Lemma format_i_safe i : (0 ≤ i < 2 ^ 31)%Z → line_safe (format_i i).
Proof. intros Hi. unfold format_i. rewrite bool_decide_false by lia. apply decimal_safe. lia. Qed.
Lemma stamped_unset t : stamped t → dual_timestamp_is_set t = false → t = no_timestamp.
Proof. intros [[Hr _]|]; [|done]. unfold dual_timestamp_is_set. intros E%bool_decide_eq_false. lia. Qed.
Lemma stamped_set t : stamped t → dual_timestamp_is_set t = true → timestamp_ok t.
Proof. intros [?| ->]; done. Qed.
