(* ===== verification/Reexec.v ===== *)
(** * Re-execution keeps what a service was doing (Serialize.v)

    A service that reads the lines it wrote and is plugged in again is in the state it
    was in, and in one that its invariant allows; and what gets lost. *)

From stdpp Require Import base gmap strings list fin_maps.
From Stdlib Require Import ZArith Ascii Lia.
From S2P Require Import Prelude CString StrUtil Paths UnitName TimeSpan Text JobType OrderedMap Strv RateLimit Engine Transaction Wf WfCheck Installed Activate World Service ServiceLogic ServiceSpec ServiceEvents Serialize SerializeSpec.

Section service.
Context {P : Type} `{ServiceSlots P, Plenty}.
Abbreviation MM := (M (Manager P)).
Implicit Types (m : Manager P) (U : Unit P).

(** A line that is there or not. *)
Lemma reads_store_if u (b : bool) k v f U s fds (Post : Unit P → Service → gset Z → Prop) :
  key_ok k = true → unit_item (P := P) k v = None →
  (b = true → line_safe v ∧ service_deserialize_item u k v fds = (update_service u f;; mret (0%Z, fds) : MM (Z * gset Z))) →
  Post U (if b then f s else s) fds → reads u (if b then unit_serialize_item k v else EmptyString) U s fds Post.
Proof.
  intros Hk Hg Hb HP. apply reads_when; intros ->; [|done]. destruct (Hb eq_refl). by apply (reads_store u k v f).
Qed.

Definition set_status (f : ExecStatus → ExecStatus) (s : Service) : Service := s <| main_exec_status ::= f |>.
Lemma item_status_pid u p fds : (0 < p < 2 ^ 31)%Z →
  service_deserialize_item u "main-exec-status-pid" (format_lu p) fds =
  (update_service u (set_status (λ e, e <| es_pid := p |>));; mret (0%Z, fds) : MM (Z * gset Z)).
Proof. intros Hp. unfold service_deserialize_item. simpl. by rewrite parse_pid_format. Qed.
Lemma item_status_code u i fds : (0 ≤ i < 2 ^ 31)%Z →
  service_deserialize_item u "main-exec-status-code" (format_i i) fds =
  (update_service u (set_status (λ e, e <| es_code := i |>));; mret (0%Z, fds) : MM (Z * gset Z)).
Proof. intros Hp. unfold service_deserialize_item. simpl. by rewrite safe_atoi_format. Qed.
Lemma item_status_status u i fds : (0 ≤ i < 2 ^ 31)%Z →
  service_deserialize_item u "main-exec-status-status" (format_i i) fds =
  (update_service u (set_status (λ e, e <| es_status := i |>));; mret (0%Z, fds) : MM (Z * gset Z)).
Proof. intros Hp. unfold service_deserialize_item. simpl. by rewrite safe_atoi_format. Qed.

Lemma set_status_eq f g s : f (main_exec_status s) = g (main_exec_status s) → set_status f s = set_status g s.
Proof. intros E. unfold set_status, upd. by rewrite E. Qed.
Lemma set_status_id f s : f (main_exec_status s) = main_exec_status s → set_status f s = s.
Proof. intros E. unfold set_status, upd. rewrite E. by destruct s. Qed.
Lemma set_status_twice f g s : set_status g (set_status f s) = set_status (λ e, g (f e)) s.
Proof. done. Qed.

Lemma reads_start u t U s fds (Post : Unit P → Service → gset Z → Prop) :
  stamped t → (dual_timestamp_is_set t = false → es_start (main_exec_status s) = no_timestamp) →
  Post U (set_status (λ e, e <| es_start := t |>) s) fds →
  reads u (dual_timestamp_serialize "main-exec-status-start" t) U s fds Post.
Proof.
  intros Ht Hu HP. apply reads_timestamp; intros E.
  - eapply (reads_store u _ _ (set_status (λ e, e <| es_start ::= dual_timestamp_deserialize (dual_text t) |>)));
      [done|apply dual_text_safe|done|done|].
    erewrite set_status_eq; [exact HP|]. unfold upd. by rewrite dual_timestamp_roundtrip by (by apply stamped_set).
  - rewrite set_status_id in HP; [done|]. rewrite (stamped_unset t Ht E), <- (Hu E). by destruct (main_exec_status s).
Qed.
Lemma reads_exit u t U s fds (Post : Unit P → Service → gset Z → Prop) :
  stamped t → (dual_timestamp_is_set t = false → es_exit (main_exec_status s) = no_timestamp) →
  Post U (set_status (λ e, e <| es_exit := t |>) s) fds →
  reads u (dual_timestamp_serialize "main-exec-status-exit" t) U s fds Post.
Proof.
  intros Ht Hu HP. apply reads_timestamp; intros E.
  - eapply (reads_store u _ _ (set_status (λ e, e <| es_exit ::= dual_timestamp_deserialize (dual_text t) |>)));
      [done|apply dual_text_safe|done|done|].
    erewrite set_status_eq; [exact HP|]. unfold upd. by rewrite dual_timestamp_roundtrip by (by apply stamped_set).
  - rewrite set_status_id in HP; [done|]. rewrite (stamped_unset t Ht E), <- (Hu E). by destruct (main_exec_status s).
Qed.

Lemma reads_status u e U s fds (Post : Unit P → Service → gset Z → Prop) :
  status_ok e →
  (dual_timestamp_is_set (es_start e) = false → es_start (main_exec_status s) = no_timestamp) →
  es_exit (main_exec_status s) = no_timestamp → es_code (main_exec_status s) = 0%Z → es_status (main_exec_status s) = 0%Z →
  (∀ e', ((0 < es_pid e)%Z → e' = e) → Post U (set_status (λ _, e') s) fds) →
  reads u (status_items e) U s fds Post.
Proof.
  intros [Hp Hs Hx [Hc Ht] Hr] Es Ex Ec Et HP. unfold status_items. apply reads_when.
  2: { intros Hn%bool_decide_eq_false. specialize (HP (main_exec_status s) ltac:(lia)). by rewrite set_status_id in HP. }
  intros Hpos%bool_decide_eq_true. apply reads_app.
  eapply reads_store; [done|apply format_lu_safe|done|by apply item_status_pid; lia|].
  apply reads_app, reads_start; [done|done|]. apply reads_app, reads_exit; [done|done|]. specialize (HP e ltac:(done)).
  apply reads_when; intros E.
  - apply reads_app. eapply reads_store; [done|by apply format_i_safe|done|by apply item_status_code|].
    eapply reads_store; [done|by apply format_i_safe|done|by apply item_status_status|].
    rewrite !set_status_twice. erewrite set_status_eq; [exact HP|]. by destruct (main_exec_status s), e.
  - destruct (Hr E) as [Ec' Et']. rewrite !set_status_twice. erewrite set_status_eq; [exact HP|].
    revert Ec Et. destruct (main_exec_status s), e. simpl in *. intros -> ->. by subst.
Qed.

Definition named_main (p : Z) (alien : bool) (t : DualTimestamp) (s : Service) : Service :=
  s <| main_pid := p |> <| main_pid_known := true |> <| main_pid_alien := alien |>
    <| main_exec_status := exec_status_start p t |>.
Lemma wp_update_service u U s m (f : Service → Service) (Q : unit → Manager P → Prop) :
  placed u U s m → (∀ m', became u U (f s) m m' → Q tt m') → wp (update_service u f) m Q.
Proof.
  intros [Hm Ha] HQ. unfold update_service, service_at. wp_step. wp_step. eapply wp_unit_at; [exact Hm|].
  eapply wp_deref; [apply get_put_private|]. eapply wp_intro; [by apply (update_unit_eq u _ _ _ Hm)|]. by apply HQ.
Qed.
Lemma reads_main_pid u p U s fds (Post : Unit P → Service → gset Z → Prop) :
  (1 < p < 2 ^ 31)%Z → (∀ n, (answer n QOwnPid).1 ≠ p) → (∀ b t, Post U (named_main p b t s) fds) →
  reads u (unit_serialize_item "main-pid" (format_lu p)) U s fds Post.
Proof.
  intros Hp Hown HP. apply reads_service; [done|apply format_lu_safe|done|]. intros m Hm.
  unfold service_deserialize_item. simpl. rewrite parse_pid_format by lia. wp_step.
  unfold service_set_main_pid. rewrite bool_decide_false by lia. unfold ask, ask_text.
  repeat wp_step. rewrite bool_decide_false by (specialize (Hown (asked m)); congruence).
  repeat wp_step. unfold dual_timestamp_get. repeat wp_step.
  eapply wp_update_service; [exact Hm|]. intros m' E. repeat wp_step. split; [done|]. eexists. split; [exact E|]. apply HP.
Qed.
Lemma reads_text u t U s fds (Post : Unit P → Service → gset Z → Prop) :
  line_safe t → status_text s = None →
  (∀ t', t' = Some t ∨ ¬ plenty ∧ t' = None → Post U (s <| status_text := t' |>) fds) →
  reads u (unit_serialize_item "status-text" t) U s fds Post.
Proof.
  intros Ht Hn HP. apply reads_service; [done|done|done|]. intros m Hm. unfold service_deserialize_item. simpl. wp_step.
  assert (∀ m1, units m1 = units m → ample m1 → wp (update_service u (λ s, s <| status_text := Some t |>);; mret (0%Z, fds)) m1
    (λ r m', r.1 = 0%Z ∧ ∃ s', became u U s' m m' ∧ Post U s' r.2)) as Hs.
  { intros m1 E1 Ha1. destruct Hm as [Hm Ha]. eapply wp_store; [split; [by rewrite E1|done]|]. intros m' [E Ha']. split; [done|]. eexists.
    split; [split; [by rewrite E, E1|done]|]. apply HP. by left. }
  assert (s <| status_text := None |> = s) as Es by (revert Hn; destruct s; simpl; by intros ->).
  assert (¬ plenty → Post U s fds) as Hn' by (intros Hp; rewrite <- Es; apply HP; by right).
  pose proof (proj2 Hm) as Ha. unfold ample in Ha. unfold alloc, wp. destruct (oom m) as [|[] l] eqn:Eo.
  - apply Hs; [done|]. intros _. by rewrite Eo.
  - apply Hs; [done|]. intros Hp. by apply Ha, Forall_cons_1 in Hp as [_ ?].
  - assert (¬ plenty) as Hp by (intros Hp; by apply Ha, Forall_cons_1 in Hp as [? _]).
    split; [done|]. exists s. split; [|by apply Hn']. split; [by simpl; rewrite insert_id by apply Hm|by intros ?].
Qed.
Lemma reads_socket u fd U s fds (Post : Unit P → Service → gset Z → Prop) :
  (0 ≤ fd < 2 ^ 31)%Z → fd ∈ fds → socket_fd s = (-1)%Z → Post U (s <| socket_fd := fd |>) (fds ∖ {[fd]}) →
  reads u (unit_serialize_item "socket-fd" (format_i fd)) U s fds Post.
Proof.
  intros Hfd Hin Hs HP. apply reads_service; [done|by apply format_i_safe|done|]. intros m Hm.
  unfold service_deserialize_item. simpl. rewrite safe_atoi_format by done. rewrite bool_decide_false by lia.
  unfold fdset_contains, fdset_remove. rewrite (bool_decide_true (0 ≤ fd)%Z) by lia. simpl.
  repeat wp_step. rewrite (bool_decide_true (fd ∈ fds)) by done. simpl. wp_step. unfold service_at. wp_step.
  eapply wp_unit_at; [exact (proj1 Hm)|]. eapply wp_deref; [apply get_put_private|]. rewrite Hs. simpl. repeat wp_step.
  rewrite decide_True by done. repeat wp_step. eapply wp_update_service; [exact Hm|]. intros m' E. wp_step.
  split; [done|]. eexists. by split.
Qed.

Lemma item_state u st t fds : service_state_from_string t = Some st →
  service_deserialize_item u "state" t fds =
  (update_service u (λ s, s <| deserialized_state := st |>);; mret (0%Z, fds) : MM (Z * gset Z)).
Proof. intros E. unfold service_deserialize_item. simpl. by rewrite E. Qed.
Lemma item_failure u b fds :
  service_deserialize_item u "failure" (yes_no b) fds =
  (update_service u (λ s, s <| failure := b || failure s |>);; mret (0%Z, fds) : MM (Z * gset Z)).
Proof. unfold service_deserialize_item. simpl. rewrite parse_yes_no. by destruct b. Qed.
Lemma item_control_pid u p fds : (0 < p < 2 ^ 31)%Z →
  service_deserialize_item u "control-pid" (format_lu p) fds =
  (update_service u (λ s, s <| control_pid := p |>);; mret (0%Z, fds) : MM (Z * gset Z)).
Proof. intros Hp. unfold service_deserialize_item. simpl. by rewrite parse_pid_format. Qed.
Lemma item_known u b fds :
  service_deserialize_item u "main-pid-known" (yes_no b) fds =
  (update_service u (λ s, s <| main_pid_known := b |>);; mret (0%Z, fds) : MM (Z * gset Z)).
Proof. unfold service_deserialize_item. simpl. rewrite parse_yes_no. by destruct b. Qed.
Lemma item_command u id t fds : service_exec_command_from_string t = Some id →
  service_deserialize_item u "control-command" t fds =
  (update_service u (λ s, s <| control_command_id := Some id |> <| control_command := exec_command s id |>);;
   mret (0%Z, fds) : MM (Z * gset Z)).
Proof. intros E. unfold service_deserialize_item. simpl. by rewrite E. Qed.

Lemma reads_command_if u oid U s fds (Post : Unit P → Service → gset Z → Prop) :
  Post U (match oid with Some id => s <| control_command_id := Some id |> <| control_command := exec_command s id |>
          | None => s end) fds →
  reads u match oid with
          | Some id => unit_serialize_item "control-command" (default EmptyString (service_exec_command_to_string id))
          | None => EmptyString
          end U s fds Post.
Proof.
  intros HP. destruct oid as [id|]; [|by apply reads_nil].
  destruct (service_exec_command_name id) as (t & -> & Ht & Et). cbn [default].
  eapply reads_store; [done|done|done|by apply item_command|exact HP].
Qed.
Lemma reads_text_if u ot U s fds (Post : Unit P → Service → gset Z → Prop) :
  (∀ t, ot = Some t → line_safe t) → status_text s = None →
  (∀ t', t' = ot ∨ ¬ plenty ∧ t' = None → Post U (s <| status_text := t' |>) fds) →
  reads u match ot with Some t => unit_serialize_item "status-text" t | None => EmptyString end U s fds Post.
Proof.
  intros Ht Hn HP. destruct ot as [t|]; [by apply reads_text; [apply Ht|..]|]. apply reads_nil.
  specialize (HP None (or_introl eq_refl)). revert Hn HP. destruct s; simpl. by intros ->.
Qed.

(** What the lines before those of the socket and of the main process's status make of [s0]. *)
Definition begun (s s0 : Service) (b : bool) (t : DualTimestamp) (text : option string) : Service :=
  let s1 := s0 <| deserialized_state := s_state s |> <| failure := failure s || failure s0 |> in
  let s1 := if bool_decide (0 < control_pid s)%Z then s1 <| control_pid := control_pid s |> else s1 in
  let s1 := if main_pid_known s && bool_decide (0 < main_pid s)%Z then named_main (main_pid s) b t s1 else s1 in
  let s1 := s1 <| main_pid_known := main_pid_known s |> <| status_text := text |> in
  match control_command_id s with
  | Some id => s1 <| control_command_id := Some id |> <| control_command := exec_command s0 id |>
  | None => s1
  end.
Lemma begun_restored s s0 b t text fd e' :
  just_loaded s0 → text = status_text s ∨ ¬ plenty ∧ text = None → ((0 < es_pid (main_exec_status s))%Z → e' = main_exec_status s) →
  restored s s0 fd (set_status (λ _, e')
    (if bool_decide (0 ≤ socket_fd s)%Z then (begun s s0 b t text) <| socket_fd := fd |> else begun s s0 b t text)).
Proof.
  intros [[J1 J2] J3 (J4 & J5 & J6) (J7 & J8 & J9) J10 J11 J12 J13 J14] Ht He.
  unfold begun, named_main, set_status.
  destruct s0; simpl in *; subst. split; destruct (control_command_id s); destruct (bool_decide (0 ≤ socket_fd s)%Z);
    destruct (main_pid_known s) eqn:Ek; destruct (decide (0 < main_pid s)%Z) as [Em|Em];
    rewrite ?(bool_decide_true _ Em), ?(bool_decide_false _ Em);
    destruct (decide (0 < control_pid s)%Z) as [Ec|Ec]; rewrite ?(bool_decide_true _ Ec), ?(bool_decide_false _ Ec);
    simpl; rewrite ?orb_false_r; (done || lia || (split; [done|lia])).
Qed.

Lemma begun_fields s s0 b t text : just_loaded s0 →
  let s1 := begun s s0 b t text in
  socket_fd s1 = (-1)%Z ∧ es_exit (main_exec_status s1) = no_timestamp ∧ es_code (main_exec_status s1) = 0%Z ∧
  es_status (main_exec_status s1) = 0%Z ∧
  (main_pid_known s = false ∨ (main_pid s ≤ 0)%Z → es_start (main_exec_status s1) = no_timestamp).
Proof.
  intros [[J1 J2] J3 (J4 & J5 & J6) (J7 & J8 & J9) J10 J11 J12 J13 J14]. unfold begun, named_main.
  destruct s0; simpl in *; subst.
  destruct (control_command_id s), (bool_decide (0 < control_pid s)%Z), (main_pid_known s), (decide (0 < main_pid s)%Z) as [Em|Em];
    rewrite ?(bool_decide_true _ Em), ?(bool_decide_false _ Em); simpl; split_and!; try done; intros [?|?]; (done || lia).
Qed.

Lemma reads_service_text u s s0 fd U fds :
  keepable s → just_loaded s0 → ((0 ≤ socket_fd s)%Z → (0 ≤ fd < 2 ^ 31)%Z ∧ fd ∈ fds) →
  reads u (service_text s fd) U s0 fds (λ U' s' _, U' = U ∧ restored s s0 fd s').
Proof.
  intros [Hkc Hkm Hkt Hks] Hj Hfd. unfold service_text.
  destruct (service_state_name (s_state s)) as (st & -> & Hst & Est). cbn [default].
  apply reads_app. eapply reads_store; [done|done|done|by apply item_state|].
  apply reads_app. eapply reads_store; [done|apply yes_no_safe|done|apply item_failure|].
  apply reads_app. eapply (reads_store_if _ _ _ _ (λ s', s' <| control_pid := control_pid s |>)); [done|done| |].
  { intros Hp%bool_decide_eq_true. split; [apply format_lu_safe|]. by apply item_control_pid; lia. }
  set (s1 := if bool_decide (0 < control_pid s)%Z then _ else _).
  assert (∀ b t, reads u
    (unit_serialize_item "main-pid-known" (yes_no (main_pid_known s))
     +:+ match status_text s with Some t => unit_serialize_item "status-text" t | None => EmptyString end
     +:+ match control_command_id s with
         | Some id => unit_serialize_item "control-command" (default EmptyString (service_exec_command_to_string id))
         | None => EmptyString
         end
     +:+ (if bool_decide (0 ≤ socket_fd s)%Z then unit_serialize_item "socket-fd" (format_i fd) else EmptyString)
     +:+ status_items (main_exec_status s)) U
    (if main_pid_known s && bool_decide (0 < main_pid s)%Z then named_main (main_pid s) b t s1 else s1) fds
    (λ U' s' _, U' = U ∧ restored s s0 fd s')) as Hrest.
  2: { apply reads_app, reads_when; intros Hb.
    - pose proof Hb as [Hk Hp%bool_decide_eq_true]%andb_true_iff. destruct (Hkm Hk Hp) as (? & ? & _).
      apply reads_main_pid; [done|done|]. intros b t. specialize (Hrest b t). by rewrite Hb in Hrest.
    - specialize (Hrest false no_timestamp). by rewrite Hb in Hrest. }
  intros b t. apply reads_app. eapply reads_store; [done|apply yes_no_safe|done|apply item_known|]. cbn beta.
  apply reads_app, reads_text_if; [done| |].
  { pose proof (jl_text _ Hj) as Hn. unfold s1, named_main. by destruct (_ && _), (bool_decide (0 < control_pid s)%Z). }
  intros text Htext. apply reads_app, reads_command_if.
  match goal with |- reads _ _ _ ?x _ _ => assert (x = begun s s0 b t text) as -> end.
  { unfold begun, s1, named_main. by destruct (control_command_id s), (main_pid_known s && _), (bool_decide (0 < control_pid s)%Z). }
  destruct (begun_fields s s0 b t text Hj) as (F1 & F2 & F3 & F4 & F5).
  assert (dual_timestamp_is_set (es_start (main_exec_status s)) = false →
    es_start (main_exec_status (begun s s0 b t text)) = no_timestamp) as F5'.
  { intros Hu. apply F5. destruct (main_pid_known s); [right|by left]. destruct (decide (0 < main_pid s)%Z); [|lia].
    destruct (Hkm eq_refl) as (_ & _ & ?); [done|congruence]. }
  assert (∀ fds', reads u (status_items (main_exec_status s)) U
    (if bool_decide (0 ≤ socket_fd s)%Z then (begun s s0 b t text) <| socket_fd := fd |> else begun s s0 b t text) fds'
    (λ U' s' _, U' = U ∧ restored s s0 fd s')) as Hlast.
  { intros fds'. apply reads_status; [done|by case_bool_decide..|]. intros e' He. split; [done|]. by apply begun_restored. }
  apply reads_app, reads_when; intros Hb; rewrite Hb in Hlast; [|apply Hlast].
  apply bool_decide_eq_true in Hb. destruct (Hfd Hb). by apply reads_socket.
Qed.
End service.

(** ** Plugging in *)

(** What the service [s] is after the re-execution: the state, the processes, the reports; the
    control command starts over from the first of its list, and the main commands
    and the order not to restart are gone. *)
Record resumes (memory : Prop) (s : Service) (fd : Z) (s' : Service) : Prop := {
  re_ok : service_ok s';
  re_config : config s' = config s;
  re_state : s_state s' = s_state s;
  re_failure : failure s' = failure s;
  re_main : main_pid_known s' = main_pid_known s ∧ Z.max 0 (main_pid s') = Z.max 0 (main_pid s);
  re_control : Z.max 0 (control_pid s') = Z.max 0 (control_pid s) ∧ control_command_id s' = control_command_id s;
  re_command : control_command s' = from_option (exec_command s) [] (control_command_id s) ∧
    suffix (control_command s) (control_command s');
  re_text : status_text s' = status_text s ∨ ¬ memory ∧ status_text s' = None;
  re_status : (0 < es_pid (main_exec_status s))%Z → main_exec_status s' = main_exec_status s;
  re_socket : keeps_socket (s_state s) = true → socket_fd s' = if bool_decide (0 ≤ socket_fd s)%Z then fd else (-1)%Z;
  re_lost : main_command s' = [] ∧ forbid_restart s' = false }.

Definition memory_suffices {P} (m : Manager P) : Prop := Forall (λ b, b = true) (oom m).

(** The descriptor [fd] was made from that of the service, and put in the set that is handed over. *)
Definition duplicate `{World} (s : Service) (fd : Z) (F : gset Z) : Prop :=
  (0 ≤ socket_fd s)%Z → fd ∈ F ∧ ∃ n, fd = (answer n (QDup (socket_fd s))).1.

(** What a change of state keeps. *)
Definition reports (s : Service) := (failure s, status_text s, main_exec_status s, forbid_restart s).

Section plugging.
Context {P : Type} `{ServiceEngineLaws P, !World, Plenty}.
Abbreviation MM := (M (Manager P)).

Lemma sv_set_state_keeps u s st (Q : unit → Service → Prop) :
  (∀ s', moved s st s' → reports s' = reports s → (keeps_socket st = true → socket_fd s' = socket_fd s) → Q tt s') →
  sv u s (service_set_state u st) Q.
Proof.
  intros HQ. unfold service_set_state, unit_unwatch_timer, service_close_socket_fd. sv_step. sv_step.
  destruct st; cbn [has_timer has_main has_control tells_sockets keeps_socket negb orb andb bool_decide];
    repeat (sv_step || (apply sv_unwatch_main; intros) || (apply sv_unwatch_control; intros) ||
            (apply sv_connection_unref_service; intros)); try done;
    (apply HQ; [by split|done|done]).
Qed.

Lemma restored_core s s0 fd s1 : core s → restored s s0 fd s1 → config s0 = config s → core s1.
Proof.
  intros [C1 C2 C3 C4 C5 C6] [R1 R2 R3 R4 [R5 R6] R7 [R8 R9] R10 R11 R12 R13 R14] E0.
  assert (config s1 = config s) as E by congruence. pose proof (config_fields _ _ E) as (Et & Ee & _).
  pose proof (config_fields _ _ E0) as (_ & Ee0 & _).
  split; rewrite ?Et, ?Ee, ?R5, ?R8, ?R9, ?R10; [done|done| | |done|apply suffix_nil].
  - intros Hk. rewrite Hk in R6. lia.
  - intros Hc. destruct (control_command_id s) as [id|]; [|done]. exists id. split; [done|]. simpl. by rewrite Ee0.
Qed.

Lemma restored_resumes s s0 fd s1 t s' :
  service_ok s → restored s s0 fd s1 → config s0 = config s →
  (has_control (s_state s) = true → s_type s ≠ SERVICE_ONESHOT → (0 < timeout_usec s)%Z → t ≠ None) →
  (s_state s = SERVICE_AUTO_RESTART → t ≠ None) →
  moved (s1 <| s_timer_watch := t |>) (s_state s) s' → reports s' = reports s1 →
  (keeps_socket (s_state s) = true → socket_fd s' = socket_fd s1) → resumes plenty s fd s'.
Proof.
  intros Hok HR E0 Ht1 Ht2 Hm Hr Hs. pose proof (restored_core s s0 fd s1 (ok_core _ Hok) HR E0) as Hc1.
  pose proof HR as [R1 R2 R3 R4 [R5 R6] R7 [R8 R9] R10 R11 R12 R13 R14].
  assert (config s1 = config s) as E by congruence. pose proof (config_fields _ _ E) as (Et & Ee & Eo & _).
  pose proof (config_fields _ _ E0) as (_ & Ee0 & _).
  assert (main_pid s1 = Z.max 0 (main_pid s)) as R6'.
  { rewrite R6. destruct (main_pid_known s) eqn:Ek; [done|]. pose proof (core_known _ (ok_core _ Hok) Ek). lia. }
  assert (fits (s_state s) (s1 <| s_timer_watch := t |>)) as Hf.
  { destruct (ok_fits _ Hok) as [F1 F2 F3]. split; unfold armed; simpl; rewrite ?Et, ?Eo; [|auto..].
    intros Es. destruct (F1 Es) as (? & Fm & Fc). split; [done|]. rewrite R4, R10. split.
    - done.
    - intros Ef. specialize (Fc Ef). lia. }
  assert (core (s1 <| s_timer_watch := t |>)) as Hc by (by eapply core_same; [exact Hc1|..]).
  pose proof (moved_ok _ _ _ Hc Hf Hm) as Hok'.
  assert (config s' = config s) as Ec' by (rewrite (mv_config _ _ _ Hm); exact E). destruct Hm as [M1 M2 M3 M4 M5 M6]. injection Hr as Hr1 Hr2 Hr3 Hr4.
  simpl in *. rewrite R6', R4, R8, R9, R10, R5 in *. destruct Hok as [Hcs _ Hm Hk _].
  assert (Z.max 0 (control_pid s') = Z.max 0 (control_pid s) ∧ control_command_id s' = control_command_id s ∧
    control_command s' = from_option (exec_command s) [] (control_command_id s)) as (K1 & K2 & K3).
  { rewrite <- Ee0. destruct (has_control (s_state s)).
    - destruct M5 as (-> & -> & ->). split_and!; [lia|done|done].
    - destruct (Hk eq_refl) as (? & ? & ->), M5 as (? & -> & ->). split_and!; [lia|done|done]. }
  assert (Z.max 0 (main_pid s') = Z.max 0 (main_pid s) ∧ main_command s' = []) as [K4 K5].
  { destruct (has_main (s_state s)).
    - destruct M4 as [-> ->]. split; [lia|done].
    - destruct (Hm eq_refl), M4 as [? ->]. split; [lia|done]. }
  split; [done|done|done|congruence|by split|by split| |by rewrite Hr2|by rewrite Hr3| |by rewrite Hr4].
  - split; [done|]. rewrite K3. destruct (control_command s) as [|c l] eqn:Ec; [apply suffix_nil|].
    destruct (core_control _ Hcs) as (id & -> & Hsuf); [by rewrite Ec|]. simpl. by rewrite <- Ec.
  - intros Hks. rewrite Hs by done. exact R11.
Qed.

(** Leaving with an error. *)
Lemma sv_unless_error u s r (c : MM Z) (Q : Z → Service → Prop) :
  ((r < 0)%Z → Q r s) → ((0 ≤ r)%Z → sv u s c Q) → sv u s (if bool_decide (r < 0)%Z then mret r else c) Q.
Proof. intros Hl Hr. destruct (decide (r < 0)%Z); [rewrite bool_decide_true by done; by apply sv_ret, Hl|].
  rewrite bool_decide_false by done. apply Hr. lia.
Qed.
Lemma sv_watch_if u s (b : bool) pid (c : Z → MM Z) (Q : Z → Service → Prop) :
  (b = true → (1 ≤ pid)%Z) → (∀ r, sv u s (c r) Q) → sv u s (r ← (if b then unit_watch_pid u pid else mret 0%Z); c r) Q.
Proof. intros Hb Hc. apply sv_bind. destruct b; [apply sv_watch_pid; [by apply Hb|done]|by apply sv_ret]. Qed.

Lemma sv_coldplug u s s0 fd s1 :
  service_ok s → restored s s0 fd s1 → config s0 = config s →
  sv u s1 (service_coldplug u) (λ r s', (0 ≤ r)%Z → resumes plenty s fd s').
Proof.
  intros Hok HR E0. pose proof HR as [R1 [R2 R2'] R3 R4 [R5 R6] R7 [R8 R9] R10 R11 R12 R13 R14].
  assert (config s1 = config s) as E by congruence. pose proof (config_fields _ _ E) as (Et & Ee & Eo & _).
  unfold service_coldplug. sv_step. sv_step. cbn beta. sv_step. apply sv_assert; [by apply bool_decide_eq_true|].
  cbv beta zeta. rewrite R2, R2'. destruct (bool_decide (s_state s = SERVICE_DEAD)) eqn:Hst.
  { apply bool_decide_eq_true in Hst. sv_step. cbv beta. intros _. eapply (restored_resumes s s0 fd s1 None); rewrite ?Hst; try done.
    assert (s1 <| s_timer_watch := None |> = s1) as -> by (revert R14; destruct s1; simpl; by intros ->).
    pose proof (ok_core _ Hok) as [_ _ Hk _ _ _]. destruct (ok_control _ Hok) as (Hkc & Hcc & Hci); [by rewrite Hst|].
    destruct (ok_main _ Hok) as (Hkm & _); [by rewrite Hst|]. rewrite Hci in R9.
    split; simpl; rewrite ?R8, ?R9, ?R10, ?R14, ?R4, ?R6, ?Hci; try done; split_and!; try done;
      destruct (main_pid_known s); lia. }
  apply bool_decide_eq_false in Hst. set (st := s_state s) in *.
  assert (∀ t, (has_control st = true → s_type s ≠ SERVICE_ONESHOT → (0 < timeout_usec s)%Z → t ≠ None) →
    (st = SERVICE_AUTO_RESTART → t ≠ None) →
    sv u (s1 <| s_timer_watch := t |>)
      (r ← (if watches_main s1 && bool_decide (0 < main_pid s1)%Z then unit_watch_pid u (main_pid s1) else mret 0%Z);
       if bool_decide (r < 0)%Z then mret r else
       r ← (if has_control st && bool_decide (0 < control_pid s1)%Z then unit_watch_pid u (control_pid s1) else mret 0%Z);
       if bool_decide (r < 0)%Z then mret r else service_set_state u st;; mret 0%Z)
      (λ r s', (0 ≤ r)%Z → resumes plenty s fd s')) as Hrest.
  { intros t Ht1 Ht2. apply sv_watch_if; [intros [_ Hb%bool_decide_eq_true]%andb_true_iff; lia|]. intros r.
    apply sv_unless_error; [lia|]. intros _.
    apply sv_watch_if; [intros [_ Hb%bool_decide_eq_true]%andb_true_iff; lia|]. intros r'.
    apply sv_unless_error; [lia|]. intros _. sv_step. apply sv_set_state_keeps. intros s' Hm Hr Hs. sv_step.
    intros _. by eapply (restored_resumes s s0 fd s1 t). }
  apply sv_bind. destruct (has_timer st && _) eqn:Hb.
  - apply sv_watch_timer; [intros r Hr|]; apply sv_unless_error; try lia. intros _. by apply Hrest.
  - apply sv_ret, sv_unless_error; [lia|]. intros _. assert (s1 <| s_timer_watch := None |> = s1) as Es1
      by (revert R14; destruct s1; simpl; by intros ->).
    specialize (Hrest None). rewrite Es1 in Hrest. apply Hrest.
    + intros Hc _ Ho. unfold has_timer in Hb. rewrite Hc, Eo in Hb. rewrite (bool_decide_true _ Ho), orb_true_r in Hb. done.
    + intros Ea. unfold has_timer in Hb. by rewrite !(bool_decide_true _ Ea), orb_true_r in Hb.
Qed.
End plugging.

(** ** A unit and its service *)

Section unit.
Context {P : Type} `{ServiceSlots P, Plenty}.
Abbreviation MM := (M (Manager P)).
Implicit Types (m : Manager P) (U V : Unit P).

Definition job_item (jt : option JobType) : string :=
  match jt with Some t => unit_serialize_item "job" (default EmptyString (job_type_to_string t)) | None => EmptyString end.
(** The lines of the unit [U] with the service [s] and a job of type [jt]. *)
Definition unit_text U s (fd : Z) (jt : option JobType) : string :=
  service_text s fd +:+ job_item jt
  +:+ dual_timestamp_serialize "inactive-exit-timestamp" (inactive_exit_timestamp U)
  +:+ dual_timestamp_serialize "active-enter-timestamp" (active_enter_timestamp U)
  +:+ dual_timestamp_serialize "active-exit-timestamp" (active_exit_timestamp U)
  +:+ dual_timestamp_serialize "inactive-enter-timestamp" (inactive_enter_timestamp U)
  +:+ dual_timestamp_serialize "condition-timestamp" (condition_timestamp U)
  +:+ (if dual_timestamp_is_set (condition_timestamp U)
       then unit_serialize_item "condition-result" (yes_no (condition_result U)) else EmptyString).

Definition stamped_unit U : Prop :=
  stamped (inactive_exit_timestamp U) ∧ stamped (active_enter_timestamp U) ∧ stamped (active_exit_timestamp U) ∧
  stamped (inactive_enter_timestamp U) ∧ stamped (condition_timestamp U).
Definition fresh_unit V : Prop :=
  inactive_exit_timestamp V = no_timestamp ∧ active_enter_timestamp V = no_timestamp ∧
  active_exit_timestamp V = no_timestamp ∧ inactive_enter_timestamp V = no_timestamp ∧
  condition_timestamp V = no_timestamp ∧ deserialized_job V = None.
(** The unit [V] that was loaded again, with what [U] wrote. *)
Definition recovered U (jt : option JobType) V : Unit P :=
  V <| deserialized_job := jt |> <| inactive_exit_timestamp := inactive_exit_timestamp U |>
    <| active_enter_timestamp := active_enter_timestamp U |> <| active_exit_timestamp := active_exit_timestamp U |>
    <| inactive_enter_timestamp := inactive_enter_timestamp U |> <| condition_timestamp := condition_timestamp U |>
    <| condition_result := if dual_timestamp_is_set (condition_timestamp U) then condition_result U else condition_result V |>.

Lemma reads_unit_timestamp u k (field : Unit P → DualTimestamp) (put : DualTimestamp → Unit P → Unit P) t V s fds Post :
  key_ok k = true → unit_item k (dual_text t) = Some (λ U, put (dual_timestamp_deserialize (dual_text t) (field U)) U) →
  (∀ x, put x (carrying V s) = carrying (put x V) s) → put (field V) V = V → stamped t → field V = no_timestamp →
  Post (put t V) s fds → reads u (dual_timestamp_serialize k t) V s fds Post.
Proof.
  intros Hk Hi Hc Hid Ht Hf HP. apply reads_timestamp; intros E.
  - pose proof (λ t', dual_timestamp_roundtrip t t' (stamped_set t Ht E)) as Hrt.
    eapply reads_meta; [done|apply dual_text_safe|exact Hi| |]; cbn beta; rewrite !Hrt; [by rewrite Hc|done].
  - rewrite (stamped_unset t Ht E), <- Hf, Hid in HP. done.
Qed.

Lemma reads_unit_text u U s s0 fd jt V fds :
  stamped_unit U → fresh_unit V → keepable s → just_loaded s0 →
  ((0 ≤ socket_fd s)%Z → (0 ≤ fd < 2 ^ 31)%Z ∧ fd ∈ fds) →
  reads u (unit_text U s fd jt) V s0 fds (λ V' s' _, V' = recovered U jt V ∧ restored s s0 fd s').
Proof.
  intros (T1 & T2 & T3 & T4 & T5) (F1 & F2 & F3 & F4 & F5 & F6) Hk Hj Hfd. unfold unit_text.
  apply reads_app. eapply reads_weaken; [by apply reads_service_text|]. cbn beta. intros V1 s' fds' [-> Hr].
  apply reads_app. assert (∀ V1, V1 = V <| deserialized_job := jt |> → reads u
     (dual_timestamp_serialize "inactive-exit-timestamp" (inactive_exit_timestamp U)
  +:+ dual_timestamp_serialize "active-enter-timestamp" (active_enter_timestamp U)
  +:+ dual_timestamp_serialize "active-exit-timestamp" (active_exit_timestamp U)
  +:+ dual_timestamp_serialize "inactive-enter-timestamp" (inactive_enter_timestamp U)
  +:+ dual_timestamp_serialize "condition-timestamp" (condition_timestamp U)
  +:+ (if dual_timestamp_is_set (condition_timestamp U)
       then unit_serialize_item "condition-result" (yes_no (condition_result U)) else EmptyString))
     V1 s' fds' (λ V' s' _, V' = recovered U jt V ∧ restored s s0 fd s')) as Hrest.
  - intros V1 EV. apply reads_app.
    apply (reads_unit_timestamp _ _ inactive_exit_timestamp (λ x U, U <| inactive_exit_timestamp := x |>));
      [done|done|done|by destruct V1|done|by rewrite EV|].
    apply reads_app, (reads_unit_timestamp _ _ active_enter_timestamp (λ x U, U <| active_enter_timestamp := x |>));
      [done|done|done|by destruct V1|done|by rewrite EV|].
    apply reads_app, (reads_unit_timestamp _ _ active_exit_timestamp (λ x U, U <| active_exit_timestamp := x |>));
      [done|done|done|by destruct V1|done|by rewrite EV|].
    apply reads_app, (reads_unit_timestamp _ _ inactive_enter_timestamp (λ x U, U <| inactive_enter_timestamp := x |>));
      [done|done|done|by destruct V1|done|by rewrite EV|].
    apply reads_app, (reads_unit_timestamp _ _ condition_timestamp (λ x U, U <| condition_timestamp := x |>));
      [done|done|done|by destruct V1|done|by rewrite EV|].
    apply reads_when; intros E.
    + eapply (reads_meta _ _ _ (λ U', if bool_decide (parse_boolean (yes_no (condition_result U)) < 0)%Z then U'
        else U' <| condition_result := bool_decide (parse_boolean (yes_no (condition_result U)) ≠ 0%Z) |>));
        [done|apply yes_no_safe|done|by destruct (condition_result U)|].
      split; [|done]. rewrite parse_yes_no. unfold recovered. rewrite E, EV. by destruct (condition_result U).
    + split; [|done]. unfold recovered. rewrite E, EV. by destruct V.
  - unfold job_item. destruct jt as [t|].
    + destruct (job_type_name t) as (n & En & Hn & Ef). rewrite En. cbn [default].
      eapply (reads_meta _ _ _ (λ U, match job_type_from_string n with
        | Some t => U <| deserialized_job := Some t |> | None => U end)); [done|done|done| |]; rewrite Ef; [done|].
      by apply Hrest.
    + apply reads_nil, Hrest. revert F6. destruct V. simpl. by intros ->.
Qed.

Lemma append_if (b : bool) (f T : string) : (if b then f +:+ T else f) = f +:+ (if b then T else EmptyString).
Proof. destruct b; [done|by rewrite append_nil_r]. Qed.
Lemma append_option {A} (o : option A) (g : A → string) (f : string) :
  (match o with Some t => f +:+ g t | None => f end) = f +:+ match o with Some t => g t | None => EmptyString end.
Proof. destruct o; [done|by rewrite append_nil_r]. Qed.
Lemma wp_control_item (oid : option ServiceExecCommand) m (Q : string → Manager P → Prop) :
  Q (match oid with
     | Some id => unit_serialize_item "control-command" (default EmptyString (service_exec_command_to_string id))
     | None => EmptyString
     end) m →
  wp (match oid with
      | Some id => c ← deref (service_exec_command_to_string id); mret (unit_serialize_item "control-command" c)
      | None => mret EmptyString
      end) m Q.
Proof.
  intros HQ. destruct oid as [id|]; [|by wp_step]. destruct (service_exec_command_name id) as (t & E & _).
  wp_step. eapply wp_deref; [exact E|]. wp_step. by rewrite E in HQ.
Qed.
(** The descriptor that is handed over. *)
Lemma wp_put_dup (F : gset Z) fd m :
  (0 ≤ fd)%Z → wp (fdset_put_dup F fd) m (λ r m', units m' = units m ∧ job_heap m' = job_heap m ∧
    ((r.1 < 0)%Z ∨ (0 ≤ r.1)%Z ∧ r.1 ∈ r.2 ∧ ∃ n, r.1 = (answer n (QDup fd)).1)).
Proof.
  intros Hfd. unfold fdset_put_dup, ask, ask_text, fdset_put. rewrite bool_decide_true by done. cbn [assert_]. repeat wp_step.
  destruct (decide ((answer (asked m) (QDup fd)).1 < 0)%Z) as [Hn|Hn].
  { rewrite bool_decide_true by done. wp_step. by auto. }
  rewrite bool_decide_false, (bool_decide_true (0 ≤ _)%Z) by lia. cbn [assert_]. repeat wp_step.
  assert (∃ n, (answer (asked m) (QDup fd)).1 = (answer n (QDup fd)).1) as Hex by eauto.
  destruct (decide (_ ∈ F)) as [Hin|Hin].
  - repeat wp_step. simpl. repeat wp_step. split_and!; [done|done|]. right. simpl. split_and!; [lia|done|done].
  - wp_step. unfold alloc, wp. simpl. destruct (oom m) as [|[] l]; simpl; (split_and!; [done|done|]).
    1,2: right; simpl; split_and!; [lia|set_solver|done].
    left. simpl. unfold ENOMEM. lia.
Qed.

Lemma service_serialize_text u U s f F m :
  units m !! u = Some U → get_private (priv U) = Some s →
  wp (service_serialize u f F) m (λ r m', units m' = units m ∧ job_heap m' = job_heap m ∧
    ((r.1 < 0)%Z ∨ r.1 = 0%Z ∧ ∃ fd, r.2.1 = f +:+ service_text s fd ∧
       ((0 ≤ socket_fd s)%Z → (0 ≤ fd)%Z ∧ fd ∈ r.2.2 ∧ ∃ n, fd = (answer n (QDup (socket_fd s))).1))).
Proof.
  intros HU Hs. unfold service_serialize, service_at. wp_step. wp_step. eapply wp_unit_at; [done|]. eapply wp_deref; [done|].
  destruct (service_state_name (s_state s)) as (st & Est & _). wp_step. rewrite Est. eapply wp_deref; [done|]. cbv zeta.
  wp_step. apply wp_control_item. wp_step. unfold service_text, status_items. rewrite Est. cbn [default].
  destruct (decide (0 ≤ socket_fd s)%Z) as [Hsock|Hsock];
    rewrite ?(bool_decide_true _ Hsock), ?(bool_decide_false _ Hsock).
  - eapply wp_mono; [by apply wp_put_dup|]. intros [fd F'] m' (E1 & E2 & [Hn|(Hfd & Hin & Hex)]); simpl in *.
    + rewrite bool_decide_true by done. wp_step. by auto.
    + rewrite bool_decide_false by lia. wp_step. split_and!; [done|done|]. right. split; [done|].
      exists fd. split; [|done]. rewrite !append_if, append_option. by rewrite !append_assoc.
  - wp_step. simpl. wp_step. split_and!; [done|done|]. right. split; [done|]. exists (-1)%Z.
    split; [|done]. simpl. rewrite !append_if, append_option. by rewrite !append_assoc.
Qed.

Definition job_type_of m U (jt : option JobType) : Prop :=
  match u_job U with Some j => ∃ J, job_heap m !! j = Some J ∧ jt = Some (j_type J) | None => jt = None end.
Lemma wp_job_item m U jt m1 (Q : string → Manager P → Prop) :
  job_type_of m U jt → job_heap m1 = job_heap m → Q (job_item jt) m1 →
  wp (match u_job U with
      | Some j => J ← job_at j; t ← deref (job_type_to_string (j_type J)); mret (unit_serialize_item "job" t)
      | None => mret EmptyString
      end) m1 Q.
Proof.
  unfold job_type_of. intros Hj E HQ. destruct (u_job U) as [j|]; [|subst; by wp_step].
  destruct Hj as (J & HJ & ->). rewrite <- E in HJ. wp_step. eapply wp_job_at; [exact HJ|]. wp_step.
  destruct (job_type_name (j_type J)) as (t & Et & _). eapply wp_deref; [exact Et|]. wp_step. by rewrite <- Et in HQ || simpl in HQ; rewrite Et in HQ.
Qed.

Lemma unit_serialize_text u U s jt f F m :
  units m !! u = Some U → get_private (priv U) = Some s → job_type_of m U jt →
  wp (unit_serialize u f F) m (λ r m', units m' = units m ∧
    ((r.1 < 0)%Z ∨ r.1 = 0%Z ∧ ∃ fd, r.2.1 = f +:+ unit_text U s fd jt +:+ newline_str ∧
       ((0 ≤ socket_fd s)%Z → (0 ≤ fd)%Z ∧ fd ∈ r.2.2 ∧ ∃ n, fd = (answer n (QDup (socket_fd s))).1))).
Proof.
  intros HU Hs Hj. unfold unit_serialize. wp_step. eapply wp_unit_at; [done|]. rewrite (slot_can U s Hs). simpl. wp_step.
  assert (wp (vt_serialize u f F) m (λ r m', units m' = units m ∧ job_heap m' = job_heap m ∧
    ((r.1 < 0)%Z ∨ r.1 = 0%Z ∧ ∃ fd, r.2.1 = f +:+ service_text s fd ∧
       ((0 ≤ socket_fd s)%Z → (0 ≤ fd)%Z ∧ fd ∈ r.2.2 ∧ ∃ n, fd = (answer n (QDup (socket_fd s))).1)))) as Hw.
  { unfold wp. rewrite (slot_serialize m u U s f F HU Hs). by apply (service_serialize_text u U). }
  eapply wp_mono; [exact Hw|]. intros r m' (E1 & E2 & [Hn|(Er & fd & Ef & Hfd)]).
  { rewrite bool_decide_true by done. wp_step. by auto. }
  rewrite bool_decide_false by lia. wp_step. eapply wp_unit_at; [by rewrite E1|]. wp_step.
  eapply wp_job_item; [exact Hj|done|]. wp_step. split; [done|]. right. split; [done|]. exists fd.
  split; [|exact Hfd]. simpl. rewrite Ef. unfold unit_text. by rewrite !append_assoc.
Qed.

Lemma unit_deserialize_text v U V s s0 fd jt rest F m :
  stamped_unit U → fresh_unit V → keepable s → just_loaded s0 →
  ((0 ≤ socket_fd s)%Z → (0 ≤ fd < 2 ^ 31)%Z ∧ fd ∈ F) → placed v V s0 m →
  wp (unit_deserialize v ((unit_text U s fd jt +:+ newline_str) +:+ rest) F) m (λ q m', q.1 = 0%Z ∧ q.2.1 = rest ∧
    ∃ s1, units m' = <[v := carrying (recovered U jt V) s1]> (units m) ∧ restored s s0 fd s1).
Proof.
  intros HU HV Hk Hj Hfd Hm. unfold unit_deserialize. wp_step. eapply wp_unit_at; [exact (proj1 Hm)|].
  rewrite (slot_can (carrying V s0) s0 (get_put_private s0)). cbn [negb]. rewrite append_assoc.
  eapply (reads_unit_text v U s s0 fd jt V F HU HV Hk Hj Hfd); [exact Hm|lia|].
  intros V' s1 F' m' n' [-> Hr] [E _] Hn. destruct n' as [|n']; [lia|]. cbn [deserialize_lines].
  destruct (read_end rest) as (line & -> & El). cbv zeta. rewrite El. rewrite bool_decide_true by done. wp_step.
  split; [done|]. split; [done|]. by exists s1.
Qed.
End unit.

Section roundtrip.
Context {P : Type} `{ServiceSlots P, !ServiceEngineLaws P}.
Implicit Types (m : Manager P) (U V : Unit P).

(** C39. Re-execution is a round trip for a unit whose service can be written in lines
    ([keepable], [stamped_unit]: process ids and times in the range of their C types, a main process that has a start time and is not the
    manager, a status text that is one line of less than 2000 characters without white space at its end;
    [long_status_injects] shows what a longer text does).  Such a unit either fails to write itself, or writes lines
    that the unit [v] of the new manager, loaded from the same settings and not run yet
    ([fresh_unit], [just_loaded]), reads back one for one, to the end of the unit and no further; [v] then has
    the timestamps, the condition and the job of [u]; and if plugging in succeeds, its service is in the state it
    was in, keeps the invariant on services, and has the same processes and result, a duplicate of the
    descriptor, and the same status text, which is lost only when an allocation fails; every other unit stays
    as it is. *)
Theorem service_reexec_roundtrip u U s jt f F m :
  units m !! u = Some U → get_private (priv U) = Some s → service_ok s → keepable s → stamped_unit U →
  job_type_of m U jt → (∀ n, (answer n (QDup (socket_fd s))).1 < 2 ^ 31)%Z →
  wp (unit_serialize u f F) m (λ r m1, units m1 = units m ∧
    ((r.1 < 0)%Z ∨ r.1 = 0%Z ∧ ∃ T, r.2.1 = f +:+ T ∧
      ∀ v V s0 m2 F2 rest, units m2 !! v = Some V → u_type V ≠ None → get_private (priv V) = Some s0 →
        fresh_unit V → just_loaded s0 → config s0 = config s → r.2.2 ⊆ F2 →
        wp (unit_deserialize v (T +:+ rest) F2) m2 (λ q m3, q.1 = 0%Z ∧ q.2.1 = rest ∧
          delete v (units m3) = delete v (units m2) ∧
          (∃ V', units m3 !! v = Some V' ∧ V' <| priv := priv V |> = recovered U jt V) ∧
          wx engine_total (vt_coldplug v) m3 (λ c m4, elsewhere v m4 = elsewhere v m3 ∧
            ((0 ≤ c)%Z → ∃ fd s', holds v s' m4 ∧ resumes (memory_suffices m2) s fd s' ∧ duplicate s fd r.2.2))))).
Proof.
  intros HU Hs Hok Hk Ht Hj Hdup. eapply wp_mono; [by apply (unit_serialize_text u U s jt)|].
  intros r m1 (E1 & [Hn|(Er & fd & Ef & Hfd)]); (split; [done|]); [by left|right].
  split; [done|]. exists (unit_text U s fd jt +:+ newline_str). split; [done|].
  intros v V s0 m2 F2 rest HV HVt Hs0 HfV Hjl Ec Hsub.
  assert (carrying V s0 = V) as EV by (unfold carrying; rewrite (put_get_private _ _ Hs0); by destruct V).
  pose (memory_suffices m2 : Plenty) as plenty2.
  eapply wp_mono; [apply (unit_deserialize_text v U V s s0 fd jt rest F2 m2 Ht HfV Hk Hjl); [|split; [by rewrite EV|exact id]]|].
  { intros Hsock. destruct (Hfd Hsock) as (? & ? & n & ->). specialize (Hdup n). split; [lia|set_solver]. }
  intros q m3 (Eq & Erest & s1 & E3 & Hr). split_and!; [done|done| | |].
  - rewrite E3. by rewrite delete_insert_eq.
  - exists (carrying (recovered U jt V) s1). rewrite E3, lookup_insert_eq. split; [done|].
    unfold carrying, recovered. by destruct V.
  - assert (units m3 !! v = Some (carrying (recovered U jt V) s1)) as H3 by (rewrite E3; apply lookup_insert_eq).
    assert (holds v s1 m3) as Hh.
    { destruct (u_type V) as [t|] eqn:EtV; [|done]. exists t, (load_state V). unfold seen_units. rewrite lookup_fmap, H3. simpl.
      unfold seen. simpl. by rewrite EtV, get_put_private. }
    unfold wx. rewrite (slot_coldplug m3 v _ s1 H3 (get_put_private s1)). fold (wx engine_total (service_coldplug v) m3
      (λ c m4, elsewhere v m4 = elsewhere v m3 ∧ ((0 ≤ c)%Z → ∃ fd s', holds v s' m4 ∧ resumes (memory_suffices m2) s fd s' ∧ duplicate s fd r.2.2))).
    eapply wx_mono; [exact (sv_elim _ _ _ _ _ (sv_coldplug v s s0 fd s1 Hok Hr Ec) Hh)|].
    intros c m4 (s' & Hh' & Ee & Hc). split; [done|]. intros Hc0. exists fd, s'. split_and!; [done|by apply Hc|]. intros Hsock. by destruct (Hfd Hsock) as (_ & ? & ?).
Qed.
End roundtrip.

(** ** Examples *)
Module ReexecDemo.
Import Demo ServiceDemo.

#[export] Instance demo_serialize : UnitSerializeOps Service := {|
  vt_can_serialize _ := true; vt_serialize := service_serialize; vt_deserialize_item := service_deserialize_item;
  vt_coldplug := service_coldplug |}.
#[export] Instance demo_slots : ServiceSlots Service.
Proof. by split. Qed.

(** The service [s0] that is loaded in place of the unit 1, reads what was written of
    it, and is plugged in. *)
Definition again (s0 : Service) : M (Manager Service) Z :=
  r ← unit_serialize 1 EmptyString ∅;
  modify (λ m, m <| units := units (host s0) |> <| watch_pids := [] |>);;
  _ ← unit_deserialize 1 r.2.1 r.2.2;
  vt_coldplug 1.
Definition after (s0 : Service) (before then_ : list Event) : option Service :=
  service_of ((run 1 before;; _ ← again s0; run 1 then_) (host s0)).

Definition busy : Service :=
  daemon <| s_state := SERVICE_STOP |> <| main_pid := 77%Z |> <| main_pid_known := true |> <| control_pid := 88%Z |>
    <| control_command := [command "/bin/b"] |> <| control_command_id := Some SERVICE_EXEC_STOP |>
    <| s_timer_watch := Some 90000000%Z |> <| status_text := Some "going down" |> <| socket_fd := 5%Z |>
    <| main_exec_status := exec_status_start 77 (mkDual 5000 1000) |>.
Definition busy_unit : Unit Service :=
  (unit "a.service" nodeps (Some 10) busy) <| inactive_exit_timestamp := mkDual 5000 1000 |>
    <| condition_timestamp := mkDual 4999 999 |>.
Definition busy_manager : Manager Service :=
  manager [(1, busy_unit)] [(10, job 1 JOB_STOP [] [] 1)] [] [] [] [].
Lemma service_reexec_roundtrip_witness :
  ∃ r m1 T q m3, unit_serialize 1 "" ∅ busy_manager = Ret r m1 ∧ r.2.1 = T ∧
    unit_deserialize 1 (T +:+ "b.service") {[0%Z]} (host daemon) = Ret q m3 ∧ q.2.1 = "b.service" ∧
    (∃ V', units m3 !! 1 = Some V' ∧ V' <| priv := daemon |> = recovered busy_unit (Some JOB_STOP) (unit "a.service" nodeps None daemon)) ∧
    ∃ c m4, vt_coldplug 1 m3 = Ret c m4 ∧ ((0 ≤ c)%Z → ∃ fd s', holds 1 s' m4 ∧ resumes (memory_suffices (host daemon)) busy fd s' ∧ duplicate busy fd r.2.2).
Proof.
  assert (service_ok busy) as Hok.
  { split; try done. split; try done; [|apply suffix_nil]. intros _. exists SERVICE_EXEC_STOP. split; [reflexivity|by exists []]. }
  assert (timestamp_ok (mkDual 5000 1000)) as Ht by (unfold timestamp_ok; simpl; lia).
  assert (keepable busy) as Hk.
  { split; [simpl; lia| | |].
    - intros _ _. split; [simpl; lia|]. split; [|reflexivity]. intros n. vm_compute. discriminate.
    - intros t. intros [= <-]. split; [reflexivity| |simpl; lia]. intros c. intros [= <-]. reflexivity.
    - split; [simpl; lia|by left|by right|simpl; lia|done]. }
  assert (stamped_unit busy_unit) as Hst.
  { unfold stamped_unit, stamped. simpl. split_and!; auto; left; unfold timestamp_ok; simpl; lia. }
  assert (job_type_of busy_manager busy_unit (Some JOB_STOP)) as Hj by (eexists; split; reflexivity).
  assert (∀ n, (answer n (QDup (socket_fd busy))).1 < 2 ^ 31)%Z as Hd by (intros n; vm_compute; reflexivity).
  pose proof (service_reexec_roundtrip 1 busy_unit busy (Some JOB_STOP) "" ∅ busy_manager eq_refl eq_refl Hok Hk Hst Hj Hd) as Hw.
  destruct (wp_elim _ _ _ Hw) as (r & m1 & E1 & _ & Hr).
  assert (r.1 = 0%Z) as Er. { vm_compute in E1. by injection E1 as <- _. }
  assert (r.2.2 = {[0%Z]}) as Hsub by (vm_compute in E1; injection E1 as <- _; vm_compute; reflexivity).
  destruct Hr as [Hr|(_ & T & ET & Hrest)]; [lia|].
  assert (just_loaded daemon) as Hjl by (split; try done; split; done).
  specialize (Hrest 1 (unit "a.service" nodeps None daemon) daemon (host daemon) {[0%Z]} "b.service" eq_refl ltac:(done)
    eq_refl ltac:(repeat split) Hjl eq_refl ltac:(by rewrite Hsub)).
  destruct (wp_elim _ _ _ Hrest) as (q & m3 & E3 & _ & Eq & _ & HV & Hc).
  destruct (wx_elim _ _ _ _ Hc I) as (c & m4 & E4 & _ & Hfin).
  exists r, m1, T, q, m3. split_and!; [done|done|done|done|done|]. by exists c, m4.
Defined.

Definition fate (s : Service) := (s_state s, main_pid s, main_command s).
(** ** What gets lost *)

(** The list of main commands is not written: a oneshot that is executed anew while its first
    command runs never runs the second. *)
Theorem reexec_drops_commands :
  let s := service SERVICE_ONESHOT [(SERVICE_EXEC_START, ["/bin/a"; "/bin/b"])] in
  service_ok s ∧
  fate <$> service_of (run 1 [EvStart; EvChild 1001 CLD_EXITED 0] (host s)) =
    Some (SERVICE_START, 1005%Z, [command "/bin/b"]) ∧
  fate <$> after s [EvStart] [EvChild 1001 CLD_EXITED 0] = Some (SERVICE_DEAD, 0%Z, []).
Proof. split; [apply dead_ok; vm_compute; done|]. vm_compute. split; reflexivity. Qed.

(** Nor is the order not to restart: a service that is stopped during a re-execution comes back. *)
Theorem reexec_forgets_stop :
  let s := daemon <| s_restart := SERVICE_RESTART_ALWAYS |> in
  service_ok s ∧
  s_state <$> service_of (run 1 [EvStart; EvStop; EvChild 1006 CLD_EXITED 0; EvChild 1001 CLD_KILLED SIGTERM] (host s)) = Some SERVICE_DEAD ∧
  s_state <$> after s [EvStart; EvStop] [EvChild 1006 CLD_EXITED 0; EvChild 1001 CLD_KILLED SIGTERM] = Some SERVICE_AUTO_RESTART.
Proof. split; [apply dead_ok; vm_compute; done|]. vm_compute. split; reflexivity. Qed.

Fixpoint xs (n : nat) : string := match n with O => EmptyString | S n => String "x" (xs n) end.
(** A status text that is longer than a line is read as several: what the service says about
    itself in its status becomes its main process. *)
Theorem long_status_injects :
  let message := "STATUS=" +:+ xs 2035 +:+ "main-pid=66" in
  (λ s, (main_pid s, main_pid_known s)) <$> service_of (run 1 [EvStart; EvMessage 1001 [message]] (host daemon)) = Some (1001%Z, true) ∧
  (λ s, (main_pid s, main_pid_known s)) <$> after daemon [EvStart; EvMessage 1001 [message]] [] = Some (66%Z, true).
Proof. vm_compute. split; reflexivity. Qed.
End ReexecDemo.
