(* ===== verification/Frame.v ===== *)
(** * The engine leaves the unit types to themselves

    Jobs, transactions and the reaction to a change of state touch the bookkeeping on
    units, never what is specific to their types.  [calm c]: whatever [c] returns, every unit has
    the type and the private part it had. *)

From stdpp Require Import base gmap strings list fin_maps.
From Stdlib Require Import ZArith Lia.
From S2P Require Import Prelude CString JobType OrderedMap Engine Transaction TransactionAdd Order Activate Service ServiceLogic.

Section calm.
Context {P : Type} `{PrivateOf P Service}.
Abbreviation MM := (M (Manager P)).
Implicit Types m : Manager P.

Definition calm {A} (c : MM A) : Prop := ∀ m, wlp c m (λ _ m', seen_units m' = seen_units m).

Lemma calm_bind {A B} (c : MM A) (f : A → MM B) : calm c → (∀ a, calm (f a)) → calm (c ≫= f).
Proof.
  intros Hc Hf m. apply wlp_bind. eapply wlp_mono; [apply Hc|]. intros a m1 E1.
  eapply wlp_mono; [apply Hf|]. intros b m2 E2. simpl in *. congruence.
Qed.
Lemma calm_ret {A} (a : A) : calm (mret a : MM A).
Proof. done. Qed.
Lemma calm_reads {A} (c : MM A) : (∀ m a m', c m = Ret a m' → m' = m) → calm c.
Proof. intros Hc m. unfold wlp. destruct (c m) as [a m'| |] eqn:E; [|done..]. by rewrite (Hc _ _ _ E). Qed.
Lemma calm_gets {A} (f : Manager P → A) : calm (gets f).
Proof. done. Qed.
Lemma calm_now : calm (now : MM Z).
Proof. done. Qed.
Lemma calm_dual_timestamp_get : calm (dual_timestamp_get : MM DualTimestamp).
Proof. done. Qed.
Lemma calm_get : calm (get : MM (Manager P)).
Proof. done. Qed.
Lemma calm_modify (f : Manager P → Manager P) : (∀ m, units (f m) = units m) → calm (modify f).
Proof. intros Hf m. unfold wlp, modify, seen_units. by rewrite Hf. Qed.
Lemma calm_deref {A} (o : option A) : calm (deref o : MM A).
Proof. by destruct o. Qed.
Lemma calm_assert b : calm (assert_ b : MM unit).
Proof. by destruct b. Qed.
Lemma calm_fault {A} : calm (fault : MM A).
Proof. done. Qed.
Lemma calm_nofuel {A} : calm (nofuel : MM A).
Proof. done. Qed.
Lemma calm_when b (c : MM unit) : calm c → calm (when b c).
Proof. by destruct b. Qed.
Lemma calm_unit_at u : calm (unit_at u : MM (Unit P)).
Proof. intros m. unfold wlp, unit_at. by destruct (units m !! u). Qed.
Lemma calm_job_at j : calm (job_at j : MM Job).
Proof. intros m. unfold wlp, job_at. by destruct (job_heap m !! j). Qed.
Lemma calm_dep_at d : calm (dep_at d : MM JobDependency).
Proof. intros m. unfold wlp, dep_at. by destruct (dep_heap m !! d). Qed.
Lemma calm_alloc : calm (alloc : MM bool).
Proof. intros m. unfold wlp, alloc. by destruct (oom m). Qed.
Lemma calm_fresh : calm (fresh : MM nat).
Proof. done. Qed.
Lemma calm_update_unit u (f : Unit P → Unit P) : (∀ U, seen (f U) = seen U) → calm (update_unit u f).
Proof.
  intros Hf m. unfold wlp, update_unit, unit_at, mbind, M_bind. destruct (units m !! u) as [U|] eqn:HU; simpl; [|done].
  unfold seen_units. simpl. rewrite fmap_insert, Hf. apply insert_id. by rewrite lookup_fmap, HU.
Qed.
Lemma calm_update_job j f : calm (update_job j f : MM unit).
Proof. apply calm_bind; [apply calm_job_at|]. intros J. by apply calm_modify. Qed.
Lemma calm_for_each {A} (l : list A) (body : A → MM unit) : (∀ x, calm (body x)) → calm (for_each l body).
Proof. intros Hb. induction l; simpl; [apply calm_ret|]. apply calm_bind; auto. Qed.
Lemma calm_for_each_r {A} (l : list A) (body : A → MM Z) : (∀ x, calm (body x)) → calm (for_each_r l body).
Proof.
  intros Hb. induction l as [|x l IH]; simpl; [apply calm_ret|]. apply calm_bind; [done|]. intros r.
  destruct (bool_decide (r < 0)%Z); [apply calm_ret|exact IH].
Qed.
Lemma calm_any {A} (l : list A) (test : A → MM bool) : (∀ x, calm (test x)) → calm (any l test).
Proof. intros Hb. induction l; simpl; [apply calm_ret|]. apply calm_bind; [done|]. intros []; auto using calm_ret. Qed.
Lemma calm_while_some {A} n (next : MM (option A)) (body : A → MM unit) :
  calm next → (∀ a, calm (body a)) → calm (while_some n next body).
Proof.
  intros Hn Hb. induction n; simpl; [apply calm_nofuel|]. apply calm_bind; [done|]. intros [a|]; [|apply calm_ret].
  apply calm_bind; auto.
Qed.
Lemma calm_repeat_while n (body : MM bool) : calm body → calm (repeat_while n body).
Proof. intros Hb. induction n; simpl; [apply calm_nofuel|]. apply calm_bind; [done|]. intros []; auto using calm_ret. Qed.
Lemma calm_find_job (l : list JobPtr) (test : JobPtr → MM bool) : (∀ j, calm (test j)) → calm (find_job l test).
Proof. intros Hb. induction l; simpl; [apply calm_ret|]. apply calm_bind; [done|]. intros []; auto using calm_ret. Qed.
End calm.

Create HintDb calm.
#[export] Hint Resolve calm_ret calm_gets calm_now calm_dual_timestamp_get calm_get calm_deref calm_assert calm_fault calm_nofuel calm_unit_at calm_job_at
  calm_dep_at calm_alloc calm_fresh calm_update_job : calm.

(** Goes through the code; what is left are calls without a hint. *)
Ltac calm_step :=
  match goal with
  | |- calm (mbind _ _) => apply calm_bind; [|intros ?]
  | |- calm (match ?x with _ => _ end) => destruct x
  | |- calm (let '_ := ?x in _) => destruct x
  | |- calm (when _ _) => apply calm_when
  | |- calm (for_each _ _) => apply calm_for_each; intros ?
  | |- calm (for_each_r _ _) => apply calm_for_each_r; intros ?
  | |- calm (any _ _) => apply calm_any; intros ?
  | |- calm (find_job _ _) => apply calm_find_job; intros ?
  | |- calm (while_some _ _ _) => apply calm_while_some; [|intros ?]
  | |- calm (repeat_while _ _) => apply calm_repeat_while
  | |- calm (modify _) => apply calm_modify; reflexivity
  | |- calm (update_unit _ _) => apply calm_update_unit; reflexivity
  | |- calm _ => solve [auto with calm]
  end.
Ltac calm_steps := repeat (calm_step; cbv beta zeta).

Section engine.
Context {P : Type} `{PrivateOf P Service, UnitVTable P}.
Abbreviation MM := (M (Manager P)).

Lemma calm_unit_active_state u : calm (unit_active_state u : MM UnitActiveState).
Proof. intros m. unfold wlp, unit_active_state. by destruct (active_state_in (units m) u). Qed.
Hint Resolve calm_unit_active_state : calm.
Lemma calm_job_new t u : calm (job_new t u : MM (option JobPtr)).
Proof. unfold job_new. calm_steps. Qed.
Lemma calm_job_dependency_new s o ma c : calm (job_dependency_new s o ma c : MM (option DepPtr)).
Proof. unfold job_dependency_new. calm_steps. Qed.
Lemma calm_job_dependency_free d : calm (job_dependency_free d : MM unit).
Proof. unfold job_dependency_free. calm_steps. Qed.
Lemma calm_job_is_anchor j : calm (job_is_anchor j : MM bool).
Proof. unfold job_is_anchor. calm_steps. Qed.
Lemma calm_job_is_conflicted_by j : calm (job_is_conflicted_by j : MM bool).
Proof. unfold job_is_conflicted_by. calm_steps. Qed.
Lemma calm_job_add_to_run_queue j : calm (job_add_to_run_queue j : MM unit).
Proof. unfold job_add_to_run_queue. calm_steps. Qed.
Lemma calm_job_add_to_dbus_queue j : calm (job_add_to_dbus_queue j : MM unit).
Proof. unfold job_add_to_dbus_queue. calm_steps. Qed.
Lemma calm_job_start_timer j : calm (job_start_timer j : MM unit).
Proof. unfold job_start_timer. calm_steps. Qed.
Lemma calm_unit_add_to_dbus_queue u : calm (unit_add_to_dbus_queue u : MM unit).
Proof. unfold unit_add_to_dbus_queue. calm_steps. Qed.
Lemma calm_unit_add_to_gc_queue u : calm (unit_add_to_gc_queue u : MM unit).
Proof. unfold unit_add_to_gc_queue, unit_check_gc. calm_steps. Qed.
Hint Resolve calm_job_new calm_job_dependency_new calm_job_dependency_free calm_job_is_anchor calm_job_is_conflicted_by
  calm_job_add_to_run_queue calm_job_add_to_dbus_queue calm_job_start_timer calm_unit_add_to_dbus_queue
  calm_unit_add_to_gc_queue : calm.

(** ** Transactions *)

Lemma calm_unlink_job_with del n j b : (∀ o d, calm (del o d : MM unit)) → calm (unlink_job_with del n j b).
Proof. intros Hd. unfold unlink_job_with. calm_steps. Qed.
Lemma calm_job_free_with del n j : (∀ o d, calm (del o d : MM unit)) → calm (job_free_with del n j).
Proof. intros Hd. unfold job_free_with. calm_steps. by apply calm_unlink_job_with. Qed.
Lemma calm_transaction_delete_job_rec n j b : calm (transaction_delete_job_rec n j b : MM unit).
Proof.
  revert j b. induction n as [|n IH]; intros j b; simpl; calm_steps; [by apply calm_unlink_job_with|by apply calm_job_free_with].
Qed.
Lemma calm_transaction_delete_job j b : calm (transaction_delete_job j b : MM unit).
Proof. unfold transaction_delete_job, delete_fuel. calm_steps. apply calm_transaction_delete_job_rec. Qed.
Lemma calm_job_free j : calm (job_free j : MM unit).
Proof. unfold job_free, delete_fuel. calm_steps. apply calm_job_free_with, calm_transaction_delete_job_rec. Qed.
Hint Resolve calm_transaction_delete_job calm_job_free : calm.
Lemma calm_transaction_delete_unit u : calm (transaction_delete_unit u : MM unit).
Proof. unfold transaction_delete_unit. calm_steps. Qed.
Lemma calm_transaction_clean_dependencies : calm (transaction_clean_dependencies : MM unit).
Proof. unfold transaction_clean_dependencies, delete_fuel. calm_steps. Qed.
Hint Resolve calm_transaction_delete_unit calm_transaction_clean_dependencies : calm.
Lemma calm_transaction_abort : calm (transaction_abort : MM unit).
Proof. unfold transaction_abort. calm_steps. Qed.
Lemma calm_find_jobs_that_matter n j g : calm (find_jobs_that_matter_rec n j g : MM unit).
Proof. revert j. induction n; intros j; simpl; calm_steps. Qed.
Hint Resolve calm_find_jobs_that_matter : calm.
Lemma calm_delete_while jobs_of test b : (∀ j, calm (test j : MM bool)) → calm (delete_while jobs_of test b).
Proof. intros Ht. unfold delete_while. calm_steps. Qed.
Lemma calm_transaction_minimize_impact : calm (transaction_minimize_impact : MM unit).
Proof. apply calm_delete_while. intros j. unfold has_impact. calm_steps. Qed.
Lemma calm_job_is_noop j : calm (job_is_noop j : MM bool).
Proof. unfold job_is_noop. calm_steps. Qed.
Hint Resolve calm_job_is_noop : calm.
Lemma calm_transaction_drop_redundant : calm (transaction_drop_redundant : MM unit).
Proof. apply calm_delete_while. intros j. unfold changes_something. calm_steps. Qed.
Lemma calm_transaction_collect_garbage : calm (transaction_collect_garbage : MM unit).
Proof. apply calm_delete_while. intros j. calm_steps. Qed.
Hint Resolve calm_transaction_abort calm_transaction_minimize_impact calm_transaction_drop_redundant
  calm_transaction_collect_garbage : calm.
Lemma calm_transaction_merge_and_delete_job j k t : calm (transaction_merge_and_delete_job j k t : MM unit).
Proof. unfold transaction_merge_and_delete_job. calm_steps. Qed.
Lemma calm_choose_victim j k : calm (choose_victim j k : MM (option JobPtr)).
Proof. unfold choose_victim. calm_steps. Qed.
Hint Resolve calm_transaction_merge_and_delete_job calm_choose_victim : calm.
Lemma calm_delete_one_against j ks : calm (delete_one_against j ks : MM (option Z)).
Proof. induction ks; simpl; calm_steps. Qed.
Hint Resolve calm_delete_one_against : calm.
Lemma calm_delete_one_unmergeable_job l : calm (delete_one_unmergeable_job l : MM Z).
Proof. induction l; simpl; calm_steps. Qed.
Hint Resolve calm_delete_one_unmergeable_job : calm.
Lemma calm_check_chain_from c t l : calm (check_chain_from c t l : MM (option Z)).
Proof. revert t. induction l; intros t; simpl; calm_steps. Qed.
Hint Resolve calm_check_chain_from : calm.
Lemma calm_check_chains tj : calm (check_chains tj : MM (option Z)).
Proof. induction tj; simpl; unfold check_chain; calm_steps. Qed.
Lemma calm_merge_chain j ks t : calm (merge_chain j ks t : MM JobPtr).
Proof. revert j. induction ks; intros j; simpl; calm_steps. Qed.
Lemma calm_merged_type t ks : calm (merged_type t ks : MM JobType).
Proof. revert t. induction ks; intros t; simpl; calm_steps. Qed.
Hint Resolve calm_check_chains calm_merge_chain calm_merged_type : calm.
Lemma calm_transaction_merge_jobs : calm (transaction_merge_jobs : MM Z).
Proof. unfold transaction_merge_jobs, merge_unit. calm_steps. Qed.
Lemma calm_is_destructive tj : calm (is_destructive tj : MM Z).
Proof. induction tj; simpl; calm_steps. Qed.
Hint Resolve calm_transaction_merge_jobs calm_is_destructive : calm.

Lemma calm_transaction_add_one_job t u b : calm (transaction_add_one_job t u b : MM (option (JobPtr * bool))).
Proof. unfold transaction_add_one_job. calm_steps. Qed.
Hint Resolve calm_transaction_add_one_job : calm.
Lemma calm_add_job_rec n t u by_ a b c d e : calm (add_job_rec n t u by_ a b c d e : MM (Z * option JobPtr)).
Proof. revert t u by_ a b c d e. induction n; intros; simpl; calm_steps. Qed.
Hint Resolve calm_add_job_rec : calm.
Lemma calm_transaction_add_job t u by_ a b c d e :
  calm (transaction_add_job_and_dependencies t u by_ a b c d e : MM (Z * option JobPtr)).
Proof. unfold transaction_add_job_and_dependencies, add_fuel. calm_steps. Qed.
Hint Resolve calm_transaction_add_job : calm.
Lemma calm_transaction_add_isolate_jobs : calm (transaction_add_isolate_jobs : MM Z).
Proof. unfold transaction_add_isolate_jobs. calm_steps. Qed.
Hint Resolve calm_transaction_add_isolate_jobs : calm.

Lemma calm_assert_first j : calm (assert_first j : MM unit).
Proof. unfold assert_first. calm_steps. Qed.
Hint Resolve calm_assert_first : calm.
Lemma calm_walk_back n g j k d : calm (walk_back n g j k d : MM (option JobPtr)).
Proof. revert k d. induction n; intros k d; simpl; unfold unit_matters_to_anchor; calm_steps. Qed.
Hint Resolve calm_walk_back : calm.
Lemma calm_verify_order_one n j from g : calm (verify_order_one_rec n j from g : MM Z).
Proof. revert j from. induction n; intros j from; simpl; calm_steps. Qed.
Hint Resolve calm_verify_order_one : calm.
Lemma calm_transaction_verify_order g : calm (transaction_verify_order g : MM (Z * Z)).
Proof. unfold transaction_verify_order, transaction_verify_order_one. calm_steps. Qed.
Hint Resolve calm_transaction_verify_order : calm.

(** ** Applying, finishing, notifying *)

Lemma calm_foreach_job n it (body : JobPtr → MM unit) : (∀ j, calm (body j)) → calm (foreach_job n it body).
Proof. intros Hb. revert it. induction n; intros it; simpl; calm_steps. Qed.
Lemma calm_put_jobs tj : calm (put_jobs tj : MM Z).
Proof. unfold put_jobs, merged_job, jobs_put. calm_steps. Qed.
Lemma calm_apply_rollback tj : calm (apply_rollback tj : MM unit).
Proof. unfold apply_rollback, merged_job. calm_steps. Qed.
Lemma calm_install_job j : calm (install_job j : MM unit).
Proof. unfold install_job. calm_steps. Qed.
Lemma calm_steal_first : calm (steal_first : MM (option JobPtr)).
Proof. unfold steal_first, merged_job. calm_steps. Qed.
Hint Resolve calm_put_jobs calm_apply_rollback calm_install_job calm_steal_first : calm.
Lemma calm_order_loop n mode g : calm (order_loop n mode g : MM Z).
Proof. revert g. induction n; intros g; simpl; calm_steps. Qed.
Lemma calm_merge_loop n mode : calm (merge_loop n mode : MM Z).
Proof. induction n; simpl; calm_steps. Qed.
Hint Resolve calm_order_loop calm_merge_loop : calm.

Section finish.
Context (n : nat) (finish : JobPtr → JobResult → MM unit).
Hypothesis finish_calm : ∀ j r, calm (finish j r).

Lemma calm_transaction_apply_with mode : calm (transaction_apply_with n finish mode).
Proof. unfold transaction_apply_with. calm_steps. apply calm_foreach_job. intros j. calm_steps. Qed.
Hint Resolve calm_transaction_apply_with : calm.
Lemma calm_transaction_activate_with mode : calm (transaction_activate_with n finish mode).
Proof.
  unfold transaction_activate_with, activate_steps, transaction_find_jobs_that_matter_to_anchor, rounds, transaction_is_destructive.
  calm_steps.
Qed.
Hint Resolve calm_transaction_activate_with : calm.
Lemma calm_manager_add_job_with t u mode o : calm (manager_add_job_with n finish t u mode o).
Proof. unfold manager_add_job_with, enqueue_with. calm_steps. Qed.
Hint Resolve calm_manager_add_job_with : calm.
Lemma calm_unit_trigger_on_failure_with u : calm (unit_trigger_on_failure_with n finish u).
Proof. unfold unit_trigger_on_failure_with. calm_steps. Qed.
Lemma calm_fail_dependents u d o : calm (fail_dependents finish u d o).
Proof. unfold fail_dependents. calm_steps. Qed.
Hint Resolve calm_unit_trigger_on_failure_with calm_fail_dependents : calm.
Lemma calm_finish_with j r : calm (finish_with n finish j r).
Proof. unfold finish_with, finish_end, wake, manager_check_finished. calm_steps. Qed.
End finish.

Lemma calm_job_finish_and_invalidate n j r : calm (job_finish_and_invalidate n j r : MM unit).
Proof.
  unfold job_finish_and_invalidate. revert j r. induction n as [|n IH]; intros j r; simpl; [done|]. by apply calm_finish_with.
Qed.
Hint Resolve calm_job_finish_and_invalidate : calm.
Lemma calm_manager_add_job n t u mode o : calm (manager_add_job n t u mode o : MM (Z * option JobPtr)).
Proof. apply calm_manager_add_job_with. auto with calm. Qed.
Lemma calm_unit_trigger_on_failure n u : calm (unit_trigger_on_failure n u : MM unit).
Proof. apply calm_unit_trigger_on_failure_with. auto with calm. Qed.
Hint Resolve calm_manager_add_job calm_unit_trigger_on_failure : calm.
Lemma calm_is_down u : calm (is_down u : MM bool).
Proof. unfold is_down. calm_steps. Qed.
Hint Resolve calm_is_down : calm.
Lemma calm_unit_check_unneeded n u : calm (unit_check_unneeded n u : MM unit).
Proof. unfold unit_check_unneeded. calm_steps. Qed.
Hint Resolve calm_unit_check_unneeded : calm.
Lemma calm_retroactively_start n u : calm (retroactively_start_dependencies n u : MM unit).
Proof. unfold retroactively_start_dependencies, start_missing, stop_running. calm_steps. Qed.
Lemma calm_retroactively_stop n u : calm (retroactively_stop_dependencies n u : MM unit).
Proof. unfold retroactively_stop_dependencies, stop_running, check_running. calm_steps. Qed.
Hint Resolve calm_retroactively_start calm_retroactively_stop : calm.

(** What the change of state of one unit does to those of the types that watch it. *)
Hypothesis state_changed_calm : ∀ u ns, calm (vt_state_changed u ns : MM unit).
Lemma calm_unit_notify n u os ns ok : calm (unit_notify n u os ns ok : MM unit).
Proof.
  unfold unit_notify. calm_steps; try apply state_changed_calm.
  all: apply calm_update_unit; intros U; unfold stamp.
  all: repeat (match goal with |- context [if ?b then _ else _] => destruct b end; simpl); try done.
Qed.
End engine.
#[export] Hint Resolve calm_unit_active_state calm_job_add_to_run_queue calm_job_add_to_dbus_queue calm_unit_add_to_dbus_queue
  calm_unit_add_to_gc_queue calm_job_finish_and_invalidate calm_manager_add_job : calm.
