(* ===== verification/Target.v ===== *)
(** * Targets (src/target.c)

    A target is active or not, at once; it is there for its dependencies.  Its state is
    the private part of its unit. *)

From stdpp Require Import base gmap strings list fin_maps.
From Stdlib Require Import ZArith Lia.
From S2P Require Import Prelude CString JobType OrderedMap Engine Transaction Activate World Service Serialize.

Inductive TargetState := TARGET_DEAD | TARGET_ACTIVE.
#[export] Instance TargetState_eq_dec : EqDecision TargetState. Proof. solve_decision. Defined.
Record Target := mkTarget { t_state : TargetState; t_deserialized_state : TargetState }.
#[export] Instance Target_rebuild : Rebuild Target := λ t, mkTarget (t_state t) (t_deserialized_state t).

Definition target_translation_table (s : TargetState) : UnitActiveState :=
  match s with TARGET_DEAD => UNIT_INACTIVE | TARGET_ACTIVE => UNIT_ACTIVE end.
Definition target_state_table : list (option string) := [Some "dead"; Some "active"].
Definition target_state_num (s : TargetState) : Z := match s with TARGET_DEAD => 0 | TARGET_ACTIVE => 1 end.
Definition target_state_to_string (s : TargetState) : option string := to_string target_state_table (target_state_num s).
Definition target_state_from_string (t : string) : option TargetState :=
  let i := from_string target_state_table t in
  if bool_decide (i < 0)%Z then None else [TARGET_DEAD; TARGET_ACTIVE] !! Z.to_nat i.
Definition target_active_state (t : Target) : UnitActiveState := target_translation_table (t_state t).

(** [n] is the fuel of [unit_notify]. *)
Section target.
Context {P : Type} `{PrivateOf P Target, UnitVTable P} (n : nat).
Abbreviation MM := (M (Manager P)).

Definition target_at (u : UnitPtr) : MM Target := U ← unit_at u; deref (get_private (priv U)).
Definition update_target (u : UnitPtr) (f : Target → Target) : MM unit :=
  t ← target_at u;
  update_unit u (λ U, U <| priv := put_private (f t) |>).

Definition target_set_state (u : UnitPtr) (state : TargetState) : MM unit :=
  t ← target_at u;
  let old_state := t_state t in
  update_target u (λ t, t <| t_state := state |>);;
  unit_notify n u (target_translation_table old_state) (target_translation_table state) true.
Definition target_coldplug (u : UnitPtr) : MM Z :=
  t ← target_at u;
  assert_ (bool_decide (t_state t = TARGET_DEAD));;
  when (bool_decide (t_deserialized_state t ≠ t_state t)) (target_set_state u (t_deserialized_state t));;
  mret 0%Z.
Definition target_start (u : UnitPtr) : MM Z :=
  t ← target_at u;
  assert_ (bool_decide (t_state t = TARGET_DEAD));;
  target_set_state u TARGET_ACTIVE;;
  mret 0%Z.
Definition target_stop (u : UnitPtr) : MM Z :=
  t ← target_at u;
  assert_ (bool_decide (t_state t = TARGET_ACTIVE));;
  target_set_state u TARGET_DEAD;;
  mret 0%Z.
Definition target_serialize (u : UnitPtr) (f : string) (fds : gset Z) : MM (Z * (string * gset Z)) :=
  t ← target_at u;
  state ← deref (target_state_to_string (t_state t));
  mret (0%Z, (f +:+ unit_serialize_item "state" state, fds)).
Definition target_deserialize_item (u : UnitPtr) (key value : string) (fds : gset Z) : MM (Z * gset Z) :=
  (if bool_decide (key = "state") then
     match target_state_from_string value with
     | None => mret tt
     | Some state => update_target u (λ t, t <| t_deserialized_state := state |>)
     end
   else mret tt);;
  mret (0%Z, fds).
End target.
