(* ===== verification/System.v ===== *)
(** * A system of services and targets

    The engine and two unit types together: what src/service.c calls of the manager is the
    manager's own [unit_notify] and [manager_add_job], and what starts a unit is the
    function of its type.  Every run of the whole, from the requests of users over
    the jobs to the events of processes, keeps the invariant of every service. *)

From stdpp Require Import base gmap strings list fin_maps relations.
From Stdlib Require Import ZArith Lia.
From S2P Require Import Prelude CString JobType OrderedMap WfCheck Strv RateLimit Engine Transaction Wf Installed Activate Gc World Service ServiceLogic ServiceSpec ServiceEvents Serialize SerializeSpec Frame Target.

(** The private part of a unit ([union Unit] of src/unit.h). *)
Inductive Private := P_SERVICE (s : Service) | P_TARGET (t : Target) | P_OTHER.
#[export, refine] Instance private_service : PrivateOf Private Service := {|
  get_private p := match p with P_SERVICE s => Some s | _ => None end; put_private := P_SERVICE |}.
Proof. - done. - by intros [] ? [= ->]. Defined.
#[export, refine] Instance private_target : PrivateOf Private Target := {|
  get_private p := match p with P_TARGET t => Some t | _ => None end; put_private := P_TARGET |}.
Proof. - done. - by intros [] ? [= ->]. Defined.

(** A call that does not return is not held against the caller. *)
Definition outside {S A} (c : M S A) : M S A := λ m, match c m with Fault => NoFuel | o => o end.
Lemma wx_outside {S A} (c : M S A) m (Q : A → S → Prop) : wlp c m Q → wx False (outside c) m Q.
Proof. unfold wlp, wx, outside. destruct (c m); auto. Qed.

(** What the engine asks of the host: whether the conditions of the unit of that name hold
    (src/condition.c), whether its control group has processes, and whether a process is there
    ([kill(pid, 0)]). *)
Record Host := mkHost { conditions_hold : string → bool; populated : string → bool; alive : Z → bool }.

(** [n] bounds the cycle of finishing jobs and OnFailure. *)
Section system.
Context `{World} (n : nat) (host : Host).
Abbreviation MM := (M (Manager Private)).

(** [unit_vtable] of src/unit.c: the slots of the unit's type. *)
Definition vtable (start stop reload : UnitPtr → MM Z) : UnitVTable Private := {|
  vt_active_state U := match priv U with
    | P_SERVICE s => service_active_state s | P_TARGET t => target_active_state t | P_OTHER => UNIT_INACTIVE end;
  vt_has_start U := match priv U with P_OTHER => false | _ => true end;
  vt_start := start;
  vt_has_stop U := match priv U with P_OTHER => false | _ => true end;
  vt_stop := stop;
  vt_has_reload U := match priv U with P_SERVICE _ => true | _ => false end;
  vt_reload := reload;
  vt_can_reload U := match priv U with P_SERVICE s => service_can_reload s | _ => true end;
  vt_no_gc _ := false;
  vt_check_gc U := match priv U with
    | P_SERVICE s => populated host (u_id U) ||
        main_pid_known s && (if main_pid_alien s then alive host (main_pid s) else bool_decide (0 < main_pid s)%Z)
        || bool_decide (0 < control_pid s)%Z || bool_decide (sysv_path s ≠ None)
    | _ => false end;
  vt_following _ _ := None;
  vt_following_set _ _ := [];
  vt_state_changed _ _ := mret tt;
  vt_conditions_hold m u := match units m !! u with Some U => conditions_hold host (u_id U) | None => true end |}.

(** What finishing jobs and notifications use of the types.  [unit_notify] and
    [job_finish_and_invalidate] never ask a type to start, stop or reload a unit, which is
    for [job_run_and_invalidate] alone; with these three slots left empty, what the
    services call can be stated before the services are. *)
Definition base : UnitVTable Private := vtable (λ _, nofuel) (λ _, nofuel) (λ _, nofuel).

(** There are no sockets in the system, and the bus answers later. *)
#[export] Instance system_engine : ServiceEngine Private := {|
  se_notify u os ns ok := outside (@unit_notify Private base n u os ns ok);
  se_add_start_job u := outside (r ← @manager_add_job Private base n JOB_START u JOB_FAIL false; mret r.1);
  se_connection_unref _ := mret tt;
  se_sockets_dead _ := mret tt;
  se_query_pid _ := mret tt |}.
#[export] Instance system_engine_laws : ServiceEngineLaws Private.
Proof.
  refine {| engine_total := False |}; intros.
  - by apply wx_outside, calm_unit_notify.
  - apply wx_outside. refine (calm_bind _ _ (calm_manager_add_job _ _ _ _ _) _ m). intros r. apply calm_ret.
  - by apply wp_wx, wp_ret.
  - by apply wp_wx, wp_ret.
  - by apply wp_wx, wp_ret.
Defined.

Definition by_type {A} (u : UnitPtr) (service target : MM A) (other : A) : MM A :=
  U ← unit_at u;
  match priv U with P_SERVICE _ => service | P_TARGET _ => target | P_OTHER => mret other end.
Definition system_start (u : UnitPtr) : MM Z := by_type u (service_start u) (@target_start _ _ base n u) (- EBADR)%Z.
Definition system_stop (u : UnitPtr) : MM Z := by_type u (service_stop u) (@target_stop _ _ base n u) (- EBADR)%Z.
Definition system_reload (u : UnitPtr) : MM Z := by_type u (service_reload u) (mret (- EBADR)%Z) (- EBADR)%Z.
#[export] Instance system : UnitVTable Private := vtable system_start system_stop system_reload.

#[export] Instance system_laws : UnitVTableLaws Private.
Proof. split; simpl; [|by intros m u v Hv%elem_of_nil|done]. intros U V E. by rewrite E. Qed.
#[export] Instance system_gc_laws : GcLaws Private.
Proof.
  split; [done|]. intros U V E. simpl. pose proof (f_equal priv E) as Ep. pose proof (f_equal u_id E) as Ei.
  simpl in *. by rewrite Ep, Ei.
Qed.
#[export] Instance system_serialize : UnitSerializeOps Private := {|
  vt_can_serialize U := match priv U with P_OTHER => false | _ => true end;
  vt_serialize u f fds := by_type u (service_serialize u f fds) (target_serialize u f fds) (0%Z, (f, fds));
  vt_deserialize_item u k v fds := by_type u (service_deserialize_item u k v fds) (target_deserialize_item u k v fds) (0%Z, fds);
  vt_coldplug u := by_type u (service_coldplug u) (@target_coldplug _ _ base n u) 0%Z |}.
Lemma by_type_service {A} m u U s (c d : MM A) a :
  units m !! u = Some U → priv U = P_SERVICE s → by_type u c d a m = c m.
Proof. intros HU Hp. unfold by_type, unit_at, mbind, M_bind. rewrite HU. simpl. by rewrite Hp. Qed.
#[export] Instance system_slots : ServiceSlots Private.
Proof.
  assert (∀ p s, get_private p = Some s → p = P_SERVICE s) as Hg by (by intros [] ? [= ->]).
  split; simpl.
  - intros U s Hs. by rewrite (Hg _ _ Hs).
  - intros m u U s f fds HU Hs. by apply (by_type_service m u U s); [|apply Hg].
  - intros m u U s k v fds HU Hs. by apply (by_type_service m u U s); [|apply Hg].
  - intros m u U s HU Hs. by apply (by_type_service m u U s); [|apply Hg].
Qed.

(** ** The invariant *)

Definition sound (x : Sight) : Prop :=
  x.1.2 ≠ UNIT_MERGED ∧ ∀ s, x.2 = Some s → x.1.1 ≠ None ∧ service_ok s.
(** No unit is merged into another, and every service is in order. *)
Definition in_order (m : Manager Private) : Prop := ∀ u x, seen_units m !! u = Some x → sound x.
Definition orderly {A} (c : MM A) : Prop := ∀ m, in_order m → wlp c m (λ _ m', in_order m').

Lemma orderly_bind {A B} (c : MM A) (f : A → MM B) : orderly c → (∀ a, orderly (f a)) → orderly (c ≫= f).
Proof.
  intros Hc Hf m Hm. apply wlp_bind. eapply wlp_mono; [by apply Hc|]. intros a m1 Hm1. by apply Hf.
Qed.
Lemma in_order_same m m' : seen_units m' = seen_units m → in_order m → in_order m'.
Proof. unfold in_order. by intros ->. Qed.
Lemma calm_orderly {A} (c : MM A) : calm c → orderly c.
Proof. intros Hc m Hm. eapply wlp_mono; [apply Hc|]. intros a m' E. exact (in_order_same _ _ E Hm). Qed.
Lemma in_order_unit m u U : in_order m → units m !! u = Some U → sound (seen U).
Proof. intros Hm HU. apply (Hm u). unfold seen_units. by rewrite lookup_fmap, HU. Qed.

Context `{!WorldLaws}.
(** A step of a service that leaves it in order. *)
Lemma lv_orderly {A} u s (c : MM A) m :
  lv u s c (λ _ s', service_ok s') → in_order m → holds u s m → wlp c m (λ _ m', in_order m').
Proof.
  intros Hc Hm (t & l & Hu). eapply wlp_mono; [by apply (Hc m t l)|]. intros a m' (s' & Es & Hok) v x Hv. rewrite Es in Hv.
  apply lookup_insert_Some in Hv as [[<- <-]|[_ Hv]]; [|by apply (Hm v)].
  split; simpl; [apply (Hm u _ Hu)|]. by intros ? [= <-].
Qed.
Lemma lv_weaken {A} u s (c : MM A) (Q R : A → Service → Prop) : (∀ a s', Q a s' → R a s') → lv u s c Q → lv u s c R.
Proof. intros HQ Hc m t l Hm. eapply wlp_mono; [by apply Hc|]. intros a m' (s' & ? & ?). eauto. Qed.
Lemma handle_orderly u s e m m' :
  in_order m → holds u s m → allowed s e → handle u e m = Ret tt m' → in_order m'.
Proof.
  intros Hm Hs Ha E. pose proof Hs as (t & l & Hu). destruct (Hm u _ Hu) as [_ Hsnd]. destruct (Hsnd s eq_refl) as [_ Hok].
  refine (wlp_elim _ _ (λ _ m', in_order m') _ _ (lv_orderly u s (handle u e) m _ Hm Hs) E).
  eapply lv_weaken; [|by apply lv_handle]. intros a s' Hg. apply Hg.
Qed.

(** Targets do not touch services. *)
Lemma calm_update_target u f : calm (update_target u f : MM unit).
Proof.
  intros m. unfold wlp, update_target, target_at, update_unit, unit_at, mbind, M_bind.
  destruct (units m !! u) as [U|] eqn:HU; simpl; [|done]. destruct (priv U) as [s|t|] eqn:Ep; simpl; [done| |done].
  rewrite HU. simpl. unfold seen_units. simpl. rewrite fmap_insert. apply insert_id. rewrite lookup_fmap, HU. simpl.
  unfold seen. simpl. by rewrite Ep.
Qed.
Lemma calm_target_set_state u st : calm (@target_set_state _ _ base n u st).
Proof.
  unfold target_set_state, target_at. calm_steps; [apply calm_update_target|]. by apply calm_unit_notify.
Qed.
Lemma calm_target_start u : calm (@target_start _ _ base n u).
Proof. unfold target_start, target_at. calm_steps. apply calm_target_set_state. Qed.
Lemma calm_target_stop u : calm (@target_stop _ _ base n u).
Proof. unfold target_stop, target_at. calm_steps. apply calm_target_set_state. Qed.

(** ** Units start, stop and reload *)

Lemma seen_same_unit m m' u U :
  units m !! u = Some U → seen_units m' = seen_units m → ∃ U', units m' !! u = Some U' ∧ seen U' = seen U.
Proof.
  intros HU E. pose proof (f_equal (lookup u) E) as Eu. unfold seen_units in Eu. rewrite !lookup_fmap, HU in Eu.
  apply fmap_Some in Eu as (U' & ? & ?). eauto.
Qed.
(** A unit that is not merged is asked for its own state. *)
Lemma own_state m u U a m' :
  in_order m → units m !! u = Some U → unit_active_state u m = Ret a m' → m' = m ∧ a = vt_active_state U.
Proof.
  intros Hm HU E. unfold unit_active_state, active_state_in in E. simpl in E. rewrite HU in E. simpl in E.
  rewrite bool_decide_false in E by apply (in_order_unit _ _ _ Hm HU). simpl in E. rewrite HU in E. simpl in E.
  by injection E as <- <-.
Qed.
(** The function of the type, on a unit [U] in a state that the function can cope with. *)
Lemma by_type_orderly u U e (c d : MM Z) r m m0 :
  in_order m0 → units m0 !! u = Some U → seen_units m = seen_units m0 →
  (∀ s, priv U = P_SERVICE s → allowed s e) → (∀ s, service_ok s → allowed s e → sv u s c (λ _ s', service_ok s')) →
  calm d → wlp (by_type u c d r) m (λ _ m', in_order m').
Proof.
  intros Hm HU E Ha Hc Hd. destruct (seen_same_unit _ _ _ _ HU E) as (U' & HU' & [= Et El Es]).
  assert (in_order m) as Hm' by (by eapply in_order_same).
  unfold by_type. apply wlp_bind. unfold wlp at 1, unit_at. rewrite HU'. simpl.
  destruct (priv U') as [s|t|] eqn:Ep; simpl in Es.
  - assert (priv U = P_SERVICE s) as EU by (by destruct (priv U); simplify_eq/=).
    destruct (in_order_unit _ _ _ Hm HU) as [_ Hs]. simpl in Hs. rewrite EU in Hs. destruct (Hs s eq_refl) as [Ht Hok].
    destruct (u_type U) as [ty|] eqn:Ety; [|done].
    apply lv_orderly with (u := u) (s := s); [by apply sv_lv, Hc, Ha|done|].
    exists ty, (load_state U'). unfold seen_units. rewrite lookup_fmap, HU'. simpl. unfold seen. simpl. by rewrite Ep, Et.
  - by apply calm_orderly.
  - apply wlp_ret. done.
Qed.
Lemma wlp_calm_step {A B} (c : MM A) (f : A → MM B) m0 m (Q : B → Manager Private → Prop) :
  calm c → seen_units m = seen_units m0 → (∀ a m', seen_units m' = seen_units m0 → wlp (f a) m' Q) → wlp (c ≫= f) m Q.
Proof.
  intros Hc E Hf. apply wlp_bind. eapply wlp_mono; [apply Hc|]. intros a m' E'. apply Hf. by rewrite E'.
Qed.
Lemma sv_goes_on {A} u s e (c : MM A) : sv u s c (λ _ s', goes_on s e s') → sv u s c (λ _ s', service_ok s').
Proof. intros Hc. eapply sv_mono; [exact Hc|]. intros a s' Hg. apply Hg. Qed.

(** Nobody follows anybody. *)
Lemma wlp_following {A} (f : option UnitPtr → MM A) m (Q : A → Manager Private → Prop) :
  wlp (f None) m Q → wlp (gets (λ _, None) ≫= f) m Q.
Proof. done. Qed.

Lemma start_orderly u : orderly (unit_start u).
Proof.
  unfold unit_start, following_fuel. apply orderly_bind; [by apply calm_orderly, calm_gets|]. intros k m Hm.
  destruct k as [|k]; [done|]. cbn [unit_start_rec]. apply wlp_bind. unfold wlp at 1, unit_at.
  destruct (units m !! u) as [U|] eqn:HU; simpl; [|done].
  destruct (bool_decide (load_state U ≠ UNIT_LOADED)); [by apply wlp_ret|]. apply wlp_bind. unfold wlp at 1.
  destruct (unit_active_state u m) as [a m'| |] eqn:Ea; [|done..]. destruct (own_state _ _ _ _ _ Hm HU Ea) as [-> ->].
  destruct (UNIT_IS_ACTIVE_OR_RELOADING _) eqn:Eact; [by apply wlp_ret|].
  apply (wlp_calm_step _ _ m); [unfold unit_condition_test; calm_steps|done|]. intros b m1 E1.
  destruct b; simpl; [|apply wlp_ret; by eapply in_order_same].
  apply wlp_following. simpl.
  destruct (match priv U with P_OTHER => false | _ => true end); simpl; [|apply wlp_ret; by eapply in_order_same].
  apply (wlp_calm_step _ _ m); [auto with calm|done|]. intros [] m2 E2.
  apply (by_type_orderly u U EvStart _ _ _ _ m); [done|done|done| | |apply calm_target_start].
  - intros s Es. simpl. simpl in Eact. by rewrite Es in Eact.
  - intros s Hok Ha. by apply (sv_goes_on u s EvStart), sv_start.
Qed.
Lemma stop_orderly u : orderly (unit_stop u).
Proof.
  unfold unit_stop, following_fuel. apply orderly_bind; [by apply calm_orderly, calm_gets|]. intros k m Hm.
  destruct k as [|k]; [done|]. cbn [unit_stop_rec]. apply wlp_bind. unfold wlp at 1.
  destruct (unit_active_state u m) as [a m'| |] eqn:Ea; [|done..].
  destruct (units m !! u) as [U|] eqn:HU.
  2: { unfold unit_active_state, active_state_in in Ea. simpl in Ea. by rewrite HU in Ea. }
  destruct (own_state _ _ _ _ _ Hm HU Ea) as [-> ->].
  destruct (UNIT_IS_INACTIVE_OR_FAILED _) eqn:Eact; [by apply wlp_ret|].
  apply wlp_bind. unfold wlp at 1, unit_at. rewrite HU. simpl.
  apply wlp_following. simpl.
  destruct (match priv U with P_OTHER => false | _ => true end); simpl; [|by apply wlp_ret].
  apply (wlp_calm_step _ _ m); [auto with calm|done|]. intros [] m2 E2.
  apply (by_type_orderly u U EvStop _ _ _ _ m); [done|done|done| | |apply calm_target_stop].
  - intros s Es. simpl. simpl in Eact. by rewrite Es in Eact.
  - intros s Hok Ha. by apply (sv_goes_on u s EvStop), sv_stop.
Qed.
Lemma reload_orderly u : orderly (unit_reload u).
Proof.
  unfold unit_reload, following_fuel. apply orderly_bind; [by apply calm_orderly, calm_gets|]. intros k m Hm.
  destruct k as [|k]; [done|]. cbn [unit_reload_rec]. apply wlp_bind. unfold wlp at 1, unit_at.
  destruct (units m !! u) as [U|] eqn:HU; simpl; [|done].
  destruct (bool_decide (load_state U ≠ UNIT_LOADED)); [by apply wlp_ret|].
  destruct (negb (unit_can_reload U)); [by apply wlp_ret|]. apply wlp_bind. unfold wlp at 1.
  destruct (unit_active_state u m) as [a m'| |] eqn:Ea; [|done..]. destruct (own_state _ _ _ _ _ Hm HU Ea) as [-> ->].
  destruct (bool_decide (vt_active_state U = UNIT_RELOADING)); [by apply wlp_ret|].
  destruct (bool_decide (vt_active_state U ≠ UNIT_ACTIVE)) eqn:Eact; [by apply wlp_ret|].
  apply bool_decide_eq_false, dec_stable in Eact. apply wlp_following.
  apply (wlp_calm_step _ _ m); [auto with calm|done|]. intros [] m2 E2.
  apply (by_type_orderly u U EvReload _ _ _ _ m); [done|done|done| | |apply calm_ret].
  - intros s Es. simpl. simpl in Eact. by rewrite Es in Eact.
  - intros s Hok Ha. apply (sv_goes_on u s EvReload). by apply sv_reload.
Qed.

(** ** The run queue *)

Lemma perform_orderly j : orderly (perform j).
Proof.
  pose proof start_orderly as Hs. pose proof stop_orderly as Hp. pose proof reload_orderly as Hl.
  assert (∀ u, orderly (unit_active_state u : MM UnitActiveState)) as Ha by (intros u; apply calm_orderly, calm_unit_active_state).
  assert (∀ k f, orderly (update_job k f : MM unit)) as Hu by (intros k f; apply calm_orderly, calm_update_job).
  assert (∀ z : Z, orderly (mret z : MM Z)) as Hr by (intros z; apply calm_orderly, calm_ret).
  unfold perform. apply orderly_bind; [by apply calm_orderly, calm_job_at|]. intros J.
  destruct (j_type J); cbv zeta; repeat first [done | apply Hs | apply Hp | apply Hl | apply orderly_bind; [done|intros ?] | case_match].
Qed.
Lemma run_orderly k j : orderly (job_run_and_invalidate k j).
Proof.
  assert (∀ A (c : MM A), calm c → orderly c) as Hc by (intros A c; apply calm_orderly).
  unfold job_run_and_invalidate. apply orderly_bind; [auto with calm|]. intros J.
  apply orderly_bind; [auto with calm|]. intros _.
  apply orderly_bind; [apply Hc; calm_steps|]. intros _.
  case_match; [by apply Hc|].
  apply orderly_bind; [apply Hc; unfold job_is_runnable; calm_steps|]. intros b.
  case_match; [by apply Hc|].
  apply orderly_bind; [auto with calm|]. intros _. apply orderly_bind; [auto with calm|]. intros _.
  apply orderly_bind; [apply perform_orderly|]. intros r. apply Hc. calm_steps.
Qed.
Lemma while_orderly {A} k (next : MM (option A)) (body : A → MM unit) :
  calm next → (∀ x, orderly (body x)) → orderly (while_some k next body).
Proof.
  intros Hn Hb. induction k as [|k IH]; [done|]. simpl. apply orderly_bind; [by apply calm_orderly|].
  intros [x|]; [|by intros m Hm; apply wlp_ret]. by apply orderly_bind.
Qed.
Lemma dispatch_orderly k : orderly (manager_dispatch_run_queue k).
Proof.
  assert (∀ A (c : MM A), calm c → orderly c) as Hc by (intros A c; apply calm_orderly).
  unfold manager_dispatch_run_queue. apply orderly_bind; [auto with calm|]. intros d. case_match; [by apply Hc|].
  apply orderly_bind; [apply Hc; calm_steps|]. intros _.
  apply orderly_bind; [|intros _; apply Hc; calm_steps].
  apply while_orderly; [auto with calm|]. intros j.
  apply orderly_bind; [auto with calm|]. intros J. do 2 (apply orderly_bind; [auto with calm|]; intros _).
  apply orderly_bind; [apply run_orderly|]. intros r. by apply Hc.
Qed.

(** ** No assertion of a service fails *)

Lemma sv_by_type {A} u s (c d : MM A) r (Q : A → Service → Prop) : sv u s c Q → sv u s (by_type u c d r) Q.
Proof.
  intros Hc m t l Hm. destruct (holds_unit u s m) as (U & HU & Hs & _); [by exists t, l|].
  unfold wx. rewrite (by_type_service m u U s c d r HU); [by apply Hc|]. by destruct (priv U); simplify_eq/=.
Qed.
Lemma sv_condition_test u s (Q : bool → Service → Prop) : (∀ b, Q b s) → sv u s (unit_condition_test u) Q.
Proof.
  intros HQ. apply sv_quiet. intros m (U & HU & _)%holds_unit. unfold unit_condition_test, wp, update_unit, unit_at, mbind, M_bind, gets.
  simpl. rewrite HU. simpl. rewrite lookup_insert_eq. simpl. split; [|done].
  unfold seen_units. simpl. rewrite !fmap_insert, insert_insert_eq. apply insert_id. by rewrite lookup_fmap, HU.
Qed.
Lemma sv_safe {A} u s (c : MM A) (Q : A → Service → Prop) m : holds u s m → sv u s c Q → c m ≠ Fault.
Proof. intros Hs Hc. eapply wx_no_fault, sv_elim; eauto. Qed.
(** What the functions of src/unit.c see of a service. *)
Lemma in_order_service m u s : in_order m → holds u s m →
  ∃ U, units m !! u = Some U ∧ vt_active_state U = service_active_state s ∧ service_ok s ∧
    unit_active_state u m = Ret (service_active_state s) m.
Proof.
  intros Hm Hs. pose proof (holds_unit _ _ _ Hs) as (U & HU & Ep & _). destruct (in_order_unit _ _ _ Hm HU) as [Hl Hok].
  assert (vt_active_state U = service_active_state s) as Ea by (simpl; by destruct (priv U); simplify_eq/=).
  exists U. split_and!; [done|done|by apply Hok|].
  unfold unit_active_state, active_state_in. simpl. rewrite HU. simpl. rewrite bool_decide_false by done. simpl. rewrite HU. simpl.
  by rewrite <- Ea.
Qed.

Lemma sv_following {A} u s (f : option UnitPtr → MM A) (Q : A → Service → Prop) :
  sv u s (f None) Q → sv u s (gets (λ m, vt_following m u) ≫= f) Q.
Proof. done. Qed.
(** The end of [unit_start], [unit_stop] and [unit_reload]. *)
Lemma sv_method u s (c d : MM Z) :
  sv u s c (λ _ _, True) → sv u s (unit_add_to_dbus_queue u;; by_type u c d (- EBADR)%Z) (λ _ _, True).
Proof. intros Hc. sv_step. sv_step. by apply sv_by_type. Qed.
Lemma start_safe m u s : in_order m → holds u s m → unit_start u m ≠ Fault.
Proof.
  intros Hm Hs. destruct (in_order_service m u s Hm Hs) as (U & HU & Ev & Hok & Ea).
  unfold unit_start. erewrite bind_ret by reflexivity. cbn [unit_start_rec].
  erewrite bind_ret by (by unfold unit_at; rewrite HU). destruct (bool_decide (load_state U ≠ UNIT_LOADED)); [done|]. rewrite (bind_ret _ _ _ _ _ Ea).
  destruct (UNIT_IS_ACTIVE_OR_RELOADING _) eqn:Eact; [done|]. eapply (sv_safe u s _ (λ _ _, True)); [done|].
  apply sv_bind. match goal with |- sv _ _ _ ?Q => assert (∀ b, Q b s) as Hq end.
  { intros []; simpl; [|by sv_step]. apply sv_following. destruct (negb _); [by sv_step|].
    apply sv_method. eapply sv_mono; [by apply (sv_start u s EvStart)|]. done. }
  destruct (bool_decide _); [exact (sv_condition_test _ _ _ Hq)|by apply sv_ret].
Qed.
Lemma stop_safe m u s : in_order m → holds u s m → unit_stop u m ≠ Fault.
Proof.
  intros Hm Hs. destruct (in_order_service m u s Hm Hs) as (U & HU & Ev & Hok & Ea).
  unfold unit_stop. erewrite bind_ret by reflexivity. cbn [unit_stop_rec].
  rewrite (bind_ret _ _ _ _ _ Ea). destruct (UNIT_IS_INACTIVE_OR_FAILED _) eqn:Eact; [done|].
  eapply (sv_safe u s _ (λ _ _, True)); [done|]. sv_step. apply sv_unit_at. intros V _. apply sv_following.
  destruct (negb _); [by sv_step|]. apply sv_method. eapply sv_mono; [by apply (sv_stop u s EvStop)|]. done.
Qed.
Lemma reload_safe m u s : in_order m → holds u s m → unit_reload u m ≠ Fault.
Proof.
  intros Hm Hs. destruct (in_order_service m u s Hm Hs) as (U & HU & Ev & Hok & Ea).
  unfold unit_reload. erewrite bind_ret by reflexivity. cbn [unit_reload_rec].
  erewrite bind_ret by (by unfold unit_at; rewrite HU). destruct (bool_decide (load_state U ≠ UNIT_LOADED)); [done|].
  destruct (negb (unit_can_reload U)); [done|].
  rewrite (bind_ret _ _ _ _ _ Ea). destruct (bool_decide (_ = UNIT_RELOADING)); [done|]. destruct (bool_decide (_ ≠ UNIT_ACTIVE)) eqn:Eact; [done|].
  apply bool_decide_eq_false, dec_stable in Eact. eapply (sv_safe u s _ (λ _ _, True)); [done|]. apply sv_following.
  apply sv_method. eapply sv_mono; [by apply (sv_reload u s)|]. done.
Qed.

(** ** Runs of the system *)

(** What happens to the system, from outside or from the main loop of the manager. *)
Inductive Move :=
  | Request (t : JobType) (u : UnitPtr) (mode : JobMode) (override : bool)
  | RunQueue
  | JobTimeout (j : JobPtr)
  | CollectGarbage
  | Happens (u : UnitPtr) (e : Event)
  | Elapse (monotonic realtime : Z).
(** Services are started, stopped and reloaded by their jobs only. *)
Definition external (e : Event) : Prop := match e with EvStart | EvStop | EvReload => False | _ => True end.
Definition legal (m : Manager Private) (x : Move) : Prop :=
  match x with Happens u e => external e ∧ ∃ s, holds u s m ∧ allowed s e | _ => True end.
Definition move (x : Move) : MM unit :=
  match x with
  | Request t u mode o => _ ← manager_add_job n t u mode o; mret tt
  | RunQueue => manager_dispatch_run_queue n
  | JobTimeout j => job_timer_event n j
  | CollectGarbage => _ ← manager_dispatch_gc_queue; mret tt
  | Happens u e => handle u e
  | Elapse a b => modify (λ m, m <| clock ::= Z.add a |> <| wall_clock ::= Z.add b |>)
  end.
Definition step (m m' : Manager Private) : Prop := ∃ x, legal m x ∧ move x m = Ret tt m'.

Lemma calm_gc_sweep k g u : calm (unit_gc_sweep_rec k g u : MM unit).
Proof.
  revert u. induction k as [|k IH]; intros u; [done|]. cbn [unit_gc_sweep_rec].
  assert (∀ l b, calm (gc_look g (unit_gc_sweep_rec k g) l b : MM _)) as Hl.
  { intros l. induction l as [|v l IHl]; intros b; [done|]. simpl. calm_steps. }
  unfold gc_bad, gc_good, gc_mark, unit_add_to_cleanup_queue, unit_check_gc. calm_steps.
Qed.
Lemma calm_dispatch_gc : calm (manager_dispatch_gc_queue : MM Z).
Proof.
  assert (∀ k g c, calm (gc_loop k g c : MM Z)) as Hl.
  { intros k g. induction k as [|k IH]; intros c; [done|]. simpl. unfold gc_collect, unit_gc_sweep, gc_bad, gc_mark, unit_add_to_cleanup_queue.
    calm_steps. apply calm_gc_sweep. }
  unfold manager_dispatch_gc_queue, gc_next_marker. calm_steps.
Qed.
Lemma step_in_order m m' : step m m' → in_order m → in_order m'.
Proof.
  intros (x & Hx & E) Hm. destruct x; cbn [move legal] in *.
  5: { destruct Hx as (_ & s & Hs & Ha). by eapply handle_orderly. }
  2: exact (wlp_elim _ _ _ _ _ (dispatch_orderly n m Hm) E).
  all: refine (wlp_elim _ _ _ _ _ (calm_orderly _ _ m Hm) E).
  - calm_steps.
  - unfold job_timer_event. calm_steps.
  - apply calm_bind; [apply calm_dispatch_gc|done].
  - by apply calm_modify.
Qed.

(** The moves one after the other, as long as they are legal. *)
#[export] Instance external_dec e : Decision (external e).
Proof. destruct e; exact _. Defined.
Definition play_one (x : Move) : MM unit :=
  match x with
  | Happens u e => s ← service_at u; assert_ (bool_decide (external e ∧ allowed s e));; move x
  | _ => move x
  end.
Definition play (l : list Move) : MM unit := for_each l play_one.
Lemma play_one_step x m m' : in_order m → play_one x m = Ret tt m' → step m m'.
Proof.
  intros Hm E. exists x. destruct x; try (by split). unfold play_one in E.
  destruct (service_at u m) as [s m1| |] eqn:Es; [|unfold mbind, M_bind in E; by rewrite Es in E..].
  rewrite (bind_ret _ _ _ _ _ Es) in E. unfold service_at, unit_at, mbind, M_bind in Es.
  destruct (units m !! u) as [U|] eqn:HU; [|done]. simpl in Es. destruct (priv U) as [s1|t|] eqn:Ep; simpl in Es; [|done..]. injection Es as -> ->.
  destruct (bool_decide_reflect (external e ∧ allowed s e)) as [[He Ha]|]; [|done]. split; [|exact E]. split; [done|]. exists s. split; [|done].
  destruct (in_order_unit _ _ _ Hm HU) as [_ Hs]. destruct (Hs s) as [Ht _]; [by simpl; rewrite Ep|].
  unfold holds, seen_units. destruct (u_type U) as [t|] eqn:Et; [|by simpl in Ht; rewrite Et in Ht].
  exists t, (load_state U). rewrite lookup_fmap, HU. simpl. unfold seen. by rewrite Et, Ep.
Qed.
Lemma play_steps l m m' : in_order m → play l m = Ret tt m' → rtc step m m'.
Proof.
  revert m. induction l as [|x l IH]; intros m Hm E; unfold play in E; simpl in E.
  { injection E as <-. constructor. }
  destruct (play_one x m) as [[] m1| |] eqn:E1; [|unfold mbind, M_bind in E; by rewrite E1 in E..].
  rewrite (bind_ret _ _ _ _ _ E1) in E. pose proof (play_one_step _ _ _ Hm E1) as Hs.
  eapply rtc_l; [exact Hs|]. apply IH; [by eapply step_in_order|exact E].
Qed.

(** No assertion of src/service.c fails, whatever happens next to a service or its jobs do. *)
Definition no_assertion_fails (m : Manager Private) : Prop :=
  ∀ u s, holds u s m →
    (∀ e, allowed s e → ¬ aborts s e → handle u e m ≠ Fault) ∧
    unit_start u m ≠ Fault ∧ unit_stop u m ≠ Fault ∧ unit_reload u m ≠ Fault.
Lemma in_order_safe m : in_order m → no_assertion_fails m.
Proof.
  intros Hm u s Hs. destruct (in_order_service _ _ _ Hm Hs) as (_ & _ & _ & Hok & _). split_and!.
  - intros e Ha Hb. by eapply sv_safe, sv_handle.
  - by eapply start_safe.
  - by eapply stop_safe.
  - by eapply reload_safe.
Qed.
End system.

Section theorem.
Context `{World, !WorldLaws}.
(** A step of the system; what the host answers may change with every step. *)
Definition system_step (m m' : Manager Private) : Prop := ∃ n host, step n host m m'.

(** C40. Whatever is asked of a system of services and targets in which no unit is merged into
    another, whatever its jobs do, whatever befalls its processes and whatever the operating system and the
    host answer, every service stays in order; and in every state that is reached,
    no assertion of src/service.c fails: not in an event that the manager may deliver to a
    service (but for the one of [aborts]), and not when a job starts, stops or reloads it.  Assertions of the engine that a service
    calls are not part of the claim ([outside]). *)
Theorem system_safe m m' :
  in_order m → rtc system_step m m' →
  in_order m' ∧ ∀ n host, no_assertion_fails n host m'.
Proof.
  intros Hm Hr. assert (in_order m') as Hm'.
  { induction Hr as [|m m1 m' (n & h & Hs) Hr IH]; [done|]. by apply IH, (step_in_order n h m). }
  split; [done|]. intros n h. by apply in_order_safe.
Qed.
End theorem.

Module SystemDemo.
Import Demo ServiceDemo.

(** A target that wants a service and comes after it. *)
Definition goal : Unit Private :=
  unit "multi-user.target" (dep UNIT_REQUIRES [2] (dep UNIT_AFTER [2] nodeps)) None (P_TARGET (mkTarget TARGET_DEAD TARGET_DEAD)).
Definition worker : Unit Private :=
  (unit "a.service" (dep UNIT_REQUIRED_BY [1] (dep UNIT_BEFORE [1] nodeps)) None (P_SERVICE daemon)) <| u_type := Some UNIT_SERVICE |>.
Definition m_system : Manager Private := manager [(1, goal); (2, worker)] [] [] [] [] [].
Definition evening : list Move :=
  [Request JOB_START 1 JOB_REPLACE false; RunQueue; RunQueue; CollectGarbage;
   Happens 2 (EvMessage 1000 ["STATUS=up"]); Elapse 90000000 90000000; Request JOB_STOP 2 JOB_REPLACE false; RunQueue; RunQueue;
   Happens 2 EvTimer].
Definition calm_host : Host := mkHost (λ _, true) (λ _, false) (λ _, false).
#[export] Instance demo_system : UnitVTable Private := system 20 calm_host.
#[export] Instance demo_system_engine : ServiceEngine Private := system_engine 20 calm_host.
Definition playing : list Move → M (Manager Private) () := play 20 calm_host.
Definition fate (r : outcome (Manager Private) ()) : list (ServiceState + TargetState) :=
  match r with
  | Ret _ m => omap (λ u, U ← units m !! u;
      match priv U with P_SERVICE s => Some (inl (s_state s)) | P_TARGET t => Some (inr (t_state t)) | P_OTHER => None end) [1; 2]
  | _ => []
  end.
(** The target comes up after its service, and goes down before it. *)
Example evening_states :
  (λ k, fate (playing (take k evening) m_system)) <$> [1; 2; 5; 8; 10] =
  [[inr TARGET_DEAD; inl SERVICE_DEAD]; [inr TARGET_ACTIVE; inl SERVICE_RUNNING]; [inr TARGET_ACTIVE; inl SERVICE_RUNNING];
   [inr TARGET_DEAD; inl SERVICE_STOP]; [inr TARGET_DEAD; inl SERVICE_STOP_SIGTERM]].
Proof. vm_compute. reflexivity. Qed.

Lemma m_system_in_order : in_order m_system.
Proof.
  intros u x Hx. unfold seen_units in Hx. rewrite lookup_fmap in Hx.
  destruct (decide (u = 1)) as [->|]; [by injection Hx as <-|].
  destruct (decide (u = 2)) as [->|].
  - injection Hx as <-. split; [done|]. intros s [= <-]. split; [done|exact daemon_ok].
  - unfold m_system, manager in Hx. simpl in Hx. by rewrite !lookup_insert_ne, lookup_empty in Hx.
Qed.
Lemma system_safe_witness :
  ∃ m' s, playing evening m_system = Ret tt m' ∧ holds 2 s m' ∧ s_state s = SERVICE_STOP_SIGTERM ∧
    in_order m' ∧ handle 2 (EvChild 1001 CLD_KILLED SIGTERM) m' ≠ Fault ∧ unit_stop 2 m' ≠ Fault.
Proof.
  destruct (playing evening m_system) as [[] m'| |] eqn:E; [|vm_compute in E; discriminate..].
  assert (rtc system_step m_system m') as Hr.
  { refine (rtc_subrel _ _ _ _ _ (play_steps 20 calm_host _ _ _ m_system_in_order E)).
    intros m1 m2 Hst. by exists 20, calm_host. }
  destruct (system_safe m_system m' m_system_in_order Hr) as [Ho Hs].
  specialize (Hs 20 calm_host).
  assert (∃ s, holds 2 s m' ∧ s_state s = SERVICE_STOP_SIGTERM) as (s & Hh & Est).
  { vm_compute in E. injection E as <-. eexists. split; [|shelve]. exists UNIT_SERVICE, UNIT_LOADED. vm_compute. reflexivity. Unshelve. vm_compute. reflexivity. }
  destruct (Hs 2 s Hh) as (He & _ & Hp & _). exists m', s. split; [reflexivity|]. split; [exact Hh|]. split; [exact Est|]. split; [exact Ho|]. split; [|exact Hp].
  apply He; [vm_compute; reflexivity|]. intros [[_ F] _]. rewrite Est in F. discriminate F.
Defined.
End SystemDemo.
